(* ===== verification/_CoqProject ===== *)
-Q . S2P
Prelude.v
Message.v
PlainCodec.v
MessageSpec.v
Receive.v
ReceiveSpec.v
GoStd.v
GoPath.v
GoHash.v
OS.v
MemFS.v
Chunk.v
Auth.v
FdCache.v
Hoare.v
Server.v
ServerStep.v
ServerInv.v
ServerData.v
Demo.v
ServerSpec.v
FileSpec.v
AuthSpec.v
Client.v
Hub.v
ClientAuth.v
Address.v
Listing.v
ClientSpec.v
Prog.v
Nondet.v
Pool.v
Resume.v
Transfer.v
Progress.v
Tree.v
Command.v
Remote.v
TransferInv.v
DownloadInv.v
PoolSpec.v
ProgressSpec.v
TransferEnds.v
ServerLink.v
TransferExec.v
LinkSpec.v
Handshake.v
HandshakeSpec.v
TransferSpec.v
TreeSpec.v
CommandSpec.v
Session.v
SessionSpec.v
ResumeSpec.v
