(* ===== verification/Prelude.v ===== *)
(** * gcp: a verified model of a remote copy tool

    gcp copies files between a machine and a server of its own.  [gcp serve] listens on
    TCP ([src/serve.go], on the event loop gnet), a client authenticates with its SSH key
    ([src/auth.go], [src/client.go]) and exchanges frames ([src/message]); [gcp cp] and
    [gcp ls] ([src/cp.go], [src/ls.go]) list, upload and download files in chunks that run
    in parallel and are retried ([src/transfer.go], [src/cp_to_host.go],
    [src/cp_from_host.go]).  Definitions keep the names of the source and follow it
    statement by statement; theorems about them are in the files that end in [Spec].

    ** The parts, from the wire up

    - The base.  Prelude.v (this file): machine integers with their wrap-around, bytes, Go
      results, the state monad [ST] with early returns, shared lemmas and hints.  Hoare.v:
      weakest preconditions for [ST].  Prog.v: a resumption monad, whose atomic actions
      interleave with those of other goroutines, and its rely/guarantee logic.  Nondet.v:
      computations whose outcome the schedule chooses.
    - Go's library.  GoStd.v ([strings], [filepath.Clean], [Join], ...), GoPath.v
      ([path.Match], [filepath.Rel], [net.ParseIP], ...) and GoHash.v (CRC-32, SHA-256, hex)
      are executable.  OS.v is the interface to package [os] with its laws, MemFS.v an
      in-memory implementation of them, on which the closed examples run.
    - [src/message]: Message.v has the fourteen structs, the header and
      [ReadMessage]/[WriteMessage]; PlainCodec.v is a codec for the examples;
      MessageSpec.v has the round trips and the behaviour on partial input.
    - Frame readers ([src/client.go], [handleReceive] and [readResp]): Receive.v; the
      properties, for every segmentation of the stream, are in ReceiveSpec.v.
    - Chunk codecs ([src/transfer.go], [compressChunk] to [decryptChunk]): Chunk.v.
    - Authentication ([src/auth.go]): Auth.v is the server's half, ClientAuth.v the
      client's, with [newClient], [dialAndAuth], [tokenAuth] and [runConn] of
      [src/client.go].
    - The server ([src/serve.go]): FdCache.v is the cache of descriptors; Server.v the
      connections, every handler, the workers' dispatch and [OnTraffic]; ServerStep.v the
      transition system; ServerInv.v its invariants; ServerData.v what handlers do to file
      contents.  The properties are in ServerSpec.v, FileSpec.v and AuthSpec.v, the example
      run in Demo.v.
    - The client ([src/client.go]): Client.v has the six calls over the interface
      [Transport], Hub.v the hub [processMsg] as a transition system; ClientSpec.v.
      Handshake.v puts the server behind the client's connections, byte by byte;
      HandshakeSpec.v.
    - Transfers.  Resume.v is [resumeState], Pool.v is [processChunks], Transfer.v is
      [uploadFile], [downloadFile] and [verifyFileHash].  Remote.v is [RemoteFiles], the
      interface the transfers need of the other end; ServerLink.v proves that the server
      implements it behind a network that loses messages (LinkSpec.v).  TransferInv.v,
      DownloadInv.v and TransferEnds.v have the invariants of running transfers,
      TransferExec.v one schedule as a function.  PoolSpec.v, TransferSpec.v, ResumeSpec.v.
      Progress.v is the bar of [src/progressbar], on binary64 arithmetic, and the channel
      between it and [processChunks]; ProgressSpec.v.
    - Directories and commands.  Tree.v is [filepath.Walk], [Glob], [expandLocalSource]
      ([src/glob.go]), [cpDirToHost] and [walkRemoteDir]; TreeSpec.v.  Address.v parses
      addresses; Listing.v has the lines of [ls]; Command.v is [copySingle], the Action of
      [cp], [expandRemoteSources] and the Action of [ls]; CommandSpec.v.
    - The program as a whole.  Session.v puts the pool of connections over the server, so
      that the commands, the client, the handshake and the handlers run together;
      SessionSpec.v follows [gcp cp] and [gcp ls] from their arguments to the server's files.

    State corresponds to the code so: the fields of [copierServer] and of gnet's [Conn] are
    the records [srv] and [conn]; the locals of [handleReceive] are [Recv.t]; the locals and
    the waiting callers of [processMsg] are the hub's record; the goroutines, the semaphore
    and the error channel of [processChunks] are the state of [pool_step], its progress
    channel that of [report_step]; a transfer's client, network, disk and resume state are
    [xfer].  An [error] is a value of [error], a Go pair
    [(v, err)] a [result]; handlers are [ST], chunk functions [prog], transfers relations.

    ** What is shown

    - The wire: whatever is written is read back, whatever the stream's cuts; a partial
      frame consumes nothing; the buffers are bounded.
    - Who may do what: an authenticated connection goes back to a verified signature over a
      challenge of this server; files change only for such connections; requests of others
      are refused, and each request is answered once, with its ID and type.  [handleAuth]
      refines an abstract protocol.  A client with a session is known to the server with
      the same key on both ends, and every connection of its pool, however many are dialled,
      is admitted.
    - What happens to files: write, read, create and hash do what they announce; no
      descriptor leaks; what sharing descriptors between workers breaks.
    - Transfers: chunks divide the file; a transfer that reports success with a live
      context has copied the file, for every interleaving, failure and retry; runs are
      bounded, and hang only in a call that never returns or with more failing chunks than
      the error channel holds; a crash while saving leaves a resume state that loads.  The copies of one
      file by [gcp cp] inherit this at the file the address names.
    - End to end: [gcp cp] of one file with its hash check and [gcp ls], run against a
      server, leave the file and print the listing they promise, for a user the server
      authenticated; a dry run changes nothing and prints one line for each path its sources
      stand for, and a recursive download changes nothing on the server.
    - The progress bar prints a line of the terminal's width without a panic, and stays
      until the last byte is reported, if every chunk reports its size: an upload does, a
      download when the server answers with what it was asked for.
    - Where the code does less than it means to (a pool that hangs, a cancelled upload that
      reports success or blocks, directories created as files, downloads with one target, a
      connection refused for ever), the behaviour itself is a theorem.

    ** Parameters

    CBOR ([Cbor], [CborOk]), gzip, secretbox, SSH and its configuration, [os/user],
    [encoding/json], formatting of errors ([GoFmt]), randomness, the operating system and
    the context are type classes, with their documented laws where a theorem needs them;
    each class of laws has a concrete instance on which the witnesses run.

    ** Fuel

    Loops that are not structural take fuel; a run that exhausts it has no outcome ([None]),
    except in GoPath.v, whose functions get the length of their input, which each round
    shortens.  [chunk_loop] needs one unit per
    chunk and one more ([PoolSpec.chunks_divide_file] shows it returns then); [OnTraffic] one per frame in the buffer
    and one more; [handleReceive] one per read, the theorems giving a number that suffices;
    the retry loops [maxRetries + 1]; [Walk] and [walkRemoteDir] the depth of the tree;
    [globWithLimit] the 10000 levels at which Go itself gives up.

    ** Not modelled

    - gnet: a connection is a record with the bytes it received and sent; accepting,
      receiving and closing are transitions.  Handlers of two workers interleave as a whole,
      and so do the frames they write to one connection;
      [FileSpec.shared_descriptor_closed_under_user] looks inside.
    - The capacity of the workers' channel in the function [OnTraffic], which queues every
      complete frame; the transitions of ServerStep.v respect it.
    - The log.
    - [main.go] and the parsing of the command line, which belong to the CLI library:
      [cpCmd], [lsCmd] and [serveCmd] take their arguments and flags; [serveCmd] ends where
      [gnet.Run] takes over, whose callbacks are the transitions of ServerStep.v.
    - Calls that never return, in what a transfer or a command has done when it returns: the
      link answers a call or ends its context, where the hub would keep the caller of a lost
      request waiting ([ClientSpec.lost_request_waits_forever]) or block one that calls after
      the end ([ClientSpec.ended_call_never_returns]).  What the pool does around goroutines in
      such calls is in [TransferSpec.transfers_terminate] and [PoolSpec.lost_call_halts].
    - Time: a deadline is a read that fails, a ticker a transition, a pause an effect of
      the context.
    - What a goroutine of the pool does after [processChunks] has returned an error.
    - In ServerLink.v and Session.v the link works on messages, not bytes, and loses those
      whose frame the reader would refuse; that the others cross the wire unharmed is the
      subject of MessageSpec.v, ReceiveSpec.v and AuthSpec.v.
    - A failed type assertion of the client ends its program with the error
      [bad_assertion]; a panic of a worker sets [s_panic], after which no transition is
      possible. *)
From stdpp Require Export base tactics list gmap strings fin_maps pretty.
From Stdlib Require Export ZArith Lia.
From Stdlib Require Import Strings.Byte.

Open Scope Z_scope.
Declare Scope gcp_scope.
Delimit Scope gcp_scope with gcp.
Open Scope gcp_scope.

(** ** Machine integers

    Go's fixed-width integers are [Z] with the wrap-around written out. *)

Definition u8 (z : Z) : Z := z mod 2 ^ 8.
Definition u32 (z : Z) : Z := z mod 2 ^ 32.
Definition i32 (z : Z) : Z := (z + 2 ^ 31) mod 2 ^ 32 - 2 ^ 31.
Definition i64 (z : Z) : Z := (z + 2 ^ 63) mod 2 ^ 64 - 2 ^ 63.

Definition is_u8 (z : Z) : Prop := 0 <= z < 2 ^ 8.
Definition is_u32 (z : Z) : Prop := 0 <= z < 2 ^ 32.
Definition is_i32 (z : Z) : Prop := - 2 ^ 31 <= z < 2 ^ 31.
Definition is_i64 (z : Z) : Prop := - 2 ^ 63 <= z < 2 ^ 63.

#[export] Instance is_u8_dec z : Decision (is_u8 z).
Proof. unfold is_u8. apply _. Defined.
#[export] Instance is_u32_dec z : Decision (is_u32 z).
Proof. unfold is_u32. apply _. Defined.
#[export] Instance is_i64_dec z : Decision (is_i64 z).
Proof. unfold is_i64. apply _. Defined.

Lemma u32_id z : is_u32 z → u32 z = z.
Proof. unfold is_u32, u32. intros. by apply Z.mod_small. Qed.
Lemma i32_id z : is_i32 z → i32 z = z.
Proof. unfold is_i32, i32. intros. rewrite Z.mod_small; lia. Qed.
Lemma i64_id z : is_i64 z → i64 z = z.
Proof. unfold is_i64, i64. intros. rewrite Z.mod_small; lia. Qed.
Lemma u32_range z : is_u32 (u32 z).
Proof. unfold is_u32, u32. apply Z.mod_pos_bound. lia. Qed.
Lemma i64_range z : is_i64 (i64 z).
Proof. unfold is_i64, i64. pose proof (Z.mod_pos_bound (z + 2 ^ 63) (2 ^ 64)). lia. Qed.

(** ** Bytes *)

Definition zbyte (b : byte) : Z := Z.of_N (Byte.to_N b).

(** [byte(z)] of Go: the low eight bits. *)
Definition byte_of_Z (z : Z) : byte :=
  match Byte.of_N (Z.to_N (u8 z)) with Some b => b | None => x00 end.

#[export] Instance byte_eq_dec : EqDecision byte := Byte.byte_eq_dec.

Lemma zbyte_range b : is_u8 (zbyte b).
Proof.
  unfold is_u8, zbyte. pose proof (Byte.to_N_bounded b). lia.
Qed.

Lemma byte_of_zbyte b : byte_of_Z (zbyte b) = b.
Proof.
  unfold byte_of_Z, u8. pose proof (zbyte_range b) as Hr. unfold is_u8 in Hr.
  rewrite Z.mod_small by done. unfold zbyte. rewrite N2Z.id.
  by rewrite Byte.of_to_N.
Qed.

Lemma zbyte_of_Z z : zbyte (byte_of_Z z) = u8 z.
Proof.
  unfold byte_of_Z, zbyte, u8.
  pose proof (Z.mod_pos_bound z (2 ^ 8)) as Hb.
  destruct (Byte.of_N (Z.to_N (z mod 2 ^ 8))) as [b|] eqn:E.
  - apply Byte.to_of_N in E. rewrite E. lia.
  - apply Byte.of_N_None_iff in E. lia.
Qed.

Lemma zbyte_inj a b : zbyte a = zbyte b → a = b.
Proof. intros H. by rewrite <- (byte_of_zbyte a), <- (byte_of_zbyte b), H. Qed.

(** Lengths as Go's [int]. *)
Definition zlen {A} (l : list A) : Z := Z.of_nat (length l).

Lemma zlen_nonneg {A} (l : list A) : 0 <= zlen l.
Proof. unfold zlen. lia. Qed.
Lemma zlen_app {A} (l k : list A) : zlen (l ++ k) = zlen l + zlen k.
Proof. unfold zlen. rewrite length_app. lia. Qed.
Lemma zlen_nil {A} : zlen (@nil A) = 0.
Proof. done. Qed.
Lemma zlen_cons {A} (x : A) l : zlen (x :: l) = 1 + zlen l.
Proof. unfold zlen. simpl. lia. Qed.
Lemma zlen_0_inv {A} (l : list A) : zlen l = 0 → l = [].
Proof. destruct l; [done|]. rewrite zlen_cons. pose proof (zlen_nonneg l). lia. Qed.

(** ** Big-endian integers ([encoding/binary]) *)

(** [be_put n z] is the [n]-byte big-endian image of [z]. *)
Fixpoint be_put (n : nat) (z : Z) : list byte :=
  match n with
  | O => []
  | S n => be_put n (z / 256) ++ [byte_of_Z z]
  end.

Definition be_get (l : list byte) : Z :=
  foldl (λ acc b, acc * 256 + zbyte b) 0 l.

Lemma length_be_put n z : length (be_put n z) = n.
Proof. revert z. induction n; intros; simpl; [done|]. rewrite length_app, IHn. simpl. lia. Qed.

Lemma zlen_be_put n z : zlen (be_put n z) = Z.of_nat n.
Proof. unfold zlen. by rewrite length_be_put. Qed.

Lemma be_get_snoc l b : be_get (l ++ [b]) = be_get l * 256 + zbyte b.
Proof. unfold be_get. by rewrite foldl_snoc. Qed.

Lemma be_get_put n z : be_get (be_put n z) = z mod 2 ^ (8 * Z.of_nat n).
Proof.
  revert z. induction n as [|n IH]; intros z.
  - by rewrite Z.mod_1_r.
  - simpl be_put. rewrite be_get_snoc, IH, zbyte_of_Z. unfold u8.
    replace (8 * Z.of_nat (S n)) with (8 + 8 * Z.of_nat n) by lia.
    rewrite Z.pow_add_r by lia. rewrite Z.rem_mul_r by lia.
    change (2 ^ 8) with 256. lia.
Qed.

Lemma be_get_put_u32 z : be_get (be_put 4 z) = u32 z.
Proof. apply be_get_put. Qed.

Lemma be_get_range l : 0 <= be_get l < 2 ^ (8 * zlen l).
Proof.
  induction l as [|b l IH] using rev_ind.
  - done.
  - rewrite be_get_snoc, zlen_app. change (zlen [b]) with 1.
    pose proof (zbyte_range b) as Hb. unfold is_u8 in Hb.
    pose proof (zlen_nonneg l).
    replace (8 * (zlen l + 1)) with (8 * zlen l + 8) by lia.
    rewrite Z.pow_add_r by lia. lia.
Qed.

(** ** Slices *)

(** Go's [l[i:j]] for [0 <= i <= j <= len l]. *)
Definition slice {A} (i j : nat) (l : list A) : list A := take (j - i) (drop i l).

Lemma slice_app_l {A} (l k : list A) i j :
  (i ≤ j)%nat → (j ≤ length l)%nat → slice i j (l ++ k) = slice i j l.
Proof.
  intros Hij Hj. unfold slice. rewrite drop_app_le by lia.
  rewrite take_app_le; [done|]. rewrite length_drop. lia.
Qed.

Lemma slice_app_r {A} (l k : list A) i j :
  (length l ≤ i)%nat →
  slice i j (l ++ k) = slice (i - length l) (j - length l) k.
Proof.
  intros Hi. unfold slice. rewrite drop_app_ge by lia.
  f_equal. lia.
Qed.

Lemma slice_full {A} (l : list A) n : length l = n → slice 0 n l = l.
Proof. intros <-. unfold slice. rewrite drop_0, Nat.sub_0_r. apply take_ge. lia. Qed.

Lemma length_slice {A} (l : list A) i j :
  (i ≤ j)%nat → (j ≤ length l)%nat → length (slice i j l) = (j - i)%nat.
Proof. intros. unfold slice. rewrite length_take, length_drop. lia. Qed.

(** ** Errors

    A Go [error] is one of the package-level variables ([errors.New], compared
    by identity), a formatted error, a formatted error that wraps another one
    with [%w], or an error of the operating system. *)

Inductive errno : Set :=
  | ENOENT | EEXIST | ENOTDIR | EISDIR | EACCES | EBADF | EINVAL | ENOSPC | EIO | ECLOSED.

#[export] Instance errno_eq_dec : EqDecision errno.
Proof. solve_decision. Defined.

Inductive error : Set :=
  | ErrVar (name : string) (text : string)
  | Errorf (format : string) (args : list (string + Z))
  | Wrapf (format : string) (args : list (string + Z)) (inner : error)
  | OsErr (no : errno) (text : string).

(** [errors.Is err target] for a package-level [target]. *)
Fixpoint errors_Is (e : error) (name : string) : bool :=
  match e with
  | ErrVar n _ => bool_decide (n = name)
  | Wrapf _ _ i => errors_Is i name
  | Errorf _ _ | OsErr _ _ => false
  end.

(** [errors.Is err os.ErrNotExist]. *)
Fixpoint is_not_exist (e : error) : bool :=
  match e with
  | OsErr no _ => bool_decide (no = ENOENT)
  | Wrapf _ _ i => is_not_exist i
  | _ => false
  end.

Definition io_EOF : error := ErrVar "io.EOF" "EOF".
Definition io_ErrUnexpectedEOF : error := ErrVar "io.ErrUnexpectedEOF" "unexpected EOF".
Definition io_ErrShortBuffer : error := ErrVar "io.ErrShortBuffer" "short buffer".
Definition ctx_Canceled : error := ErrVar "context.Canceled" "context canceled".

(** The verbs of package [fmt]: [Sprintf format args] is the rendered text.  The
    models keep format and arguments apart and never look inside the text. *)
Class GoFmt := Sprintf : string → list (string + Z) → string.

Fixpoint error_text `{GoFmt} (e : error) : string :=
  match e with
  | ErrVar _ t => t
  | Errorf f a => Sprintf f a
  | Wrapf f a i => Sprintf f (a ++ [inl (error_text i)])
  | OsErr _ t => t
  end.

(** The renderer used by the closed examples: the format itself. *)
Definition plain_fmt : GoFmt := λ f _, f.

(** ** Results: Go's [(T, error)] pairs *)

Inductive result (A : Type) : Type :=
  | Ok (a : A)
  | Err (e : error).
Arguments Ok {_} _.
Arguments Err {_} _.

#[export] Instance result_ret : MRet result := λ A a, Ok a.
#[export] Instance result_bind : MBind result := λ A B f m,
  match m with Ok a => f a | Err e => Err e end.
#[export] Instance result_fmap : FMap result := λ A B f m,
  match m with Ok a => Ok (f a) | Err e => Err e end.

Definition is_Ok {A} (r : result A) : bool := match r with Ok _ => true | Err _ => false end.

Lemma result_bind_Ok {A B} (m : result A) (f : A → result B) b :
  m ≫= f = Ok b → ∃ a, m = Ok a ∧ f a = Ok b.
Proof. destruct m; simpl; [eauto|done]. Qed.

(** ** The state monad of the stateful components *)

Definition ST (S A : Type) : Type := S → A * S.

#[export] Instance ST_ret {S} : MRet (ST S) := λ A a s, (a, s).
#[export] Instance ST_bind {S} : MBind (ST S) := λ A B f m s,
  let '(a, s') := m s in f a s'.

Definition get_st {S} : ST S S := λ s, (s, s).
Definition modify_st {S} (f : S → S) : ST S () := λ s, ((), f s).

Definition exec {S A} (m : ST S A) (s : S) : S := snd (m s).
Definition eval {S A} (m : ST S A) (s : S) : A := fst (m s).

Lemma run_bind {S A B} (m : ST S A) (f : A → ST S B) s :
  (m ≫= f) s = f (eval m s) (exec m s).
Proof. unfold mbind, ST_bind, eval, exec. by destruct (m s). Qed.

(** ** Automation *)

Create HintDb gcp.
#[export] Hint Resolve zlen_nonneg zbyte_range u32_range : gcp.
#[export] Hint Rewrite @zlen_app @zlen_nil @zlen_cons zlen_be_put : gcp.
#[export] Hint Rewrite @length_app @length_take @length_drop length_be_put
  @length_replicate : gcp.

(** Split every conjunction and existential of the context and substitute. *)
Ltac inv H := inversion H; clear H; simplify_eq/=.

Ltac destruct_hyps :=
  repeat match goal with
  | H : _ ∧ _ |- _ => destruct H
  | H : ∃ _, _ |- _ => destruct H
  | H : Ok _ = Ok _ |- _ => injection H as H
  | H : Ok _ = Err _ |- _ => discriminate H
  | H : Err _ = Ok _ |- _ => discriminate H
  end; simplify_eq/=.

(** Case analysis on the scrutinees of the goal, or of a hypothesis. *)
Ltac case_goal :=
  repeat (case_match || case_decide || case_bool_decide); simplify_eq/=; try done.

Ltac zbool :=
  repeat match goal with
  | H : (_ <? _) = true |- _ => apply Z.ltb_lt in H
  | H : (_ <? _) = false |- _ => apply Z.ltb_ge in H
  | H : (_ <=? _) = true |- _ => apply Z.leb_le in H
  | H : (_ <=? _) = false |- _ => apply Z.leb_gt in H
  | H : (_ =? _) = true |- _ => apply Z.eqb_eq in H
  | H : (_ =? _) = false |- _ => apply Z.eqb_neq in H
  | H : _ && _ = true |- _ => apply andb_true_iff in H as [? ?]
  | H : _ || _ = false |- _ => apply orb_false_iff in H as [? ?]
  end.

(** Arithmetic over list lengths. *)
Ltac len := unfold zlen in *; autorewrite with gcp in *; simpl in *; lia.

#[global] Arguments byte_of_Z : simpl never.
#[global] Arguments zbyte : simpl never.
#[global] Arguments be_put : simpl never.
#[global] Arguments be_get : simpl never.
#[global] Arguments zlen {_} _ : simpl never.
#[global] Arguments slice {_} _ _ _ : simpl never.
#[global] Arguments u8 : simpl never.
#[global] Arguments u32 : simpl never.
#[global] Arguments i32 : simpl never.
#[global] Arguments i64 : simpl never.
