(* ===== verification/Message.v ===== *)
(** The wire protocol: [src/message/message.go], [src/message/implement.go] and
    [src/message/interface.go].

    Every message struct is a [Module] with a record [t], its zero value
    [zero], and the methods [Type] and [GetID] of the struct; [MSG] is the
    interface value, a tagged union of the fourteen message structs.  CBOR is a
    third-party codec, so it is the parameter [Cbor] of the model, with the
    round trip it documents stated by [CborOk].  A frame is read from a
    [PacketReader]; [parse_frame] is the pure specification both readers of the
    program ([ReadMessage] here, [handleReceive] in Receive.v) refine. *)
From S2P Require Import Prelude.
From Stdlib Require Import Strings.Byte.

(** ** Constants *)

Definition MagicA : Z := 0xA8.
Definition MagicB : Z := 0xD5.

Definition MessageType : Type := Z.

Definition CreateReqT : MessageType := 0.
Definition CreateResT : MessageType := 1.
Definition WriteReqT : MessageType := 2.
Definition WriteResT : MessageType := 3.
Definition ReadReqT : MessageType := 4.
Definition ReadResT : MessageType := 5.
Definition StatReqT : MessageType := 6.
Definition StatResT : MessageType := 7.
Definition ReadDirReqT : MessageType := 8.
Definition ReadDirResT : MessageType := 9.
Definition HashReqT : MessageType := 10.
Definition HashResT : MessageType := 11.
Definition AuthReqT : MessageType := 12.
Definition AuthResT : MessageType := 13.

Definition MessageSize : Z := 4.
Definition PayloadSize : Z := 4.
Definition HeadSize : Z := 2 + 1 + MessageSize + PayloadSize.
Definition MaxMsgSize : Z := Z.shiftl 1 16.
Definition MaxPayloadSize : Z := Z.shiftl 1 24.

Definition CompressionNone : Z := 0.
Definition CompressionGzip : Z := 1.
Definition EncryptionNone : Z := 0.
Definition EncryptionSecretBox : Z := 1.

Definition ErrIncompletePacket : error := ErrVar "message.ErrIncompletePacket" "incomplete packet".
Definition ErrBadProtocol : error := ErrVar "message.ErrBadProtocol" "bad protocol".
Definition ErrMsgType : error := ErrVar "message.ErrMsgType" "unrecognized message type".
Definition ErrHeadSize : error := ErrVar "message.ErrHeadSize" "short head size".
Definition ErrAuthRequired : error := ErrVar "message.ErrAuthRequired" "authentication required".

(** ** Valid UTF-8 ([unicode/utf8.Valid]): what a CBOR text string may hold *)

Definition in_range (lo hi : Z) (b : byte) : bool := (lo <=? zbyte b) && (zbyte b <=? hi).
Definition utf8_cont (b : byte) : bool := in_range 0x80 0xBF b.

Fixpoint utf8_valid (l : list byte) : bool :=
  match l with
  | [] => true
  | a :: r =>
    if in_range 0 0x7F a then utf8_valid r else
    match r with
    | [] => false
    | b :: r1 =>
      if in_range 0xC2 0xDF a && utf8_cont b then utf8_valid r1 else
      match r1 with
      | [] => false
      | c :: r2 =>
        let second :=
          (in_range 0xE0 0xE0 a && in_range 0xA0 0xBF b)
          || ((in_range 0xE1 0xEC a || in_range 0xEE 0xEF a) && utf8_cont b)
          || (in_range 0xED 0xED a && in_range 0x80 0x9F b) in
        if second && utf8_cont c then utf8_valid r2 else
        match r2 with
        | [] => false
        | d :: r3 =>
          let second4 :=
            (in_range 0xF0 0xF0 a && in_range 0x90 0xBF b)
            || (in_range 0xF1 0xF3 a && utf8_cont b)
            || (in_range 0xF4 0xF4 a && in_range 0x80 0x8F b) in
          if second4 && utf8_cont c && utf8_cont d then utf8_valid r3 else false
        end
      end
    end
  end.

Definition text_ok (s : string) : Prop := utf8_valid (String.list_byte_of_string s) = true.
#[export] Instance text_ok_dec s : Decision (text_ok s).
Proof. unfold text_ok. apply _. Defined.

(** ** The message structs *)

Module CreateReq.
Record t : Set := mk {
  ID : Z;
  Size : Z;
  Mode : Z;
  Path : string;
  IsDir : bool
}.
#[global] Instance t_eq_dec : EqDecision t.
Proof. solve_decision. Defined.
Definition zero : t := {| ID := 0; Size := 0; Mode := 0; Path := ""; IsDir := false |}.
Definition Type_ (m : t) : MessageType := CreateReqT.
Definition GetID (m : t) : Z := ID m.
(** The field values the Go struct can hold and CBOR can carry. *)
Definition ok (m : t) : Prop :=
  is_i64 (ID m) ∧ is_i64 (Size m) ∧ is_u32 (Mode m) ∧ text_ok (Path m).
#[global] Instance ok_dec m : Decision (ok m).
Proof. unfold ok. apply _. Defined.
End CreateReq.

Module CreateRes.
Record t : Set := mk {
  ID : Z;
  Success : bool;
  Error : string
}.
#[global] Instance t_eq_dec : EqDecision t.
Proof. solve_decision. Defined.
Definition zero : t := {| ID := 0; Success := false; Error := "" |}.
Definition Type_ (m : t) : MessageType := CreateResT.
Definition GetID (m : t) : Z := ID m.
(** The field values the Go struct can hold and CBOR can carry. *)
Definition ok (m : t) : Prop :=
  is_i64 (ID m) ∧ text_ok (Error m).
#[global] Instance ok_dec m : Decision (ok m).
Proof. unfold ok. apply _. Defined.
End CreateRes.

Module WriteReq.
Record t : Set := mk {
  ID : Z;
  Path : string;
  Offset : Z;
  Checksum : Z;
  Compression : Z;
  Encryption : Z
}.
#[global] Instance t_eq_dec : EqDecision t.
Proof. solve_decision. Defined.
Definition zero : t := {| ID := 0; Path := ""; Offset := 0; Checksum := 0; Compression := 0; Encryption := 0 |}.
Definition Type_ (m : t) : MessageType := WriteReqT.
Definition GetID (m : t) : Z := ID m.
(** The field values the Go struct can hold and CBOR can carry. *)
Definition ok (m : t) : Prop :=
  is_i64 (ID m) ∧ text_ok (Path m) ∧ is_i64 (Offset m) ∧ is_u32 (Checksum m) ∧ is_u8 (Compression m) ∧ is_u8 (Encryption m).
#[global] Instance ok_dec m : Decision (ok m).
Proof. unfold ok. apply _. Defined.
End WriteReq.

Module WriteRes.
Record t : Set := mk {
  ID : Z;
  Success : bool;
  N : Z;
  Error : string
}.
#[global] Instance t_eq_dec : EqDecision t.
Proof. solve_decision. Defined.
Definition zero : t := {| ID := 0; Success := false; N := 0; Error := "" |}.
Definition Type_ (m : t) : MessageType := WriteResT.
Definition GetID (m : t) : Z := ID m.
(** The field values the Go struct can hold and CBOR can carry. *)
Definition ok (m : t) : Prop :=
  is_i64 (ID m) ∧ is_i32 (N m) ∧ text_ok (Error m).
#[global] Instance ok_dec m : Decision (ok m).
Proof. unfold ok. apply _. Defined.
End WriteRes.

Module ReadReq.
Record t : Set := mk {
  ID : Z;
  Path : string;
  Offset : Z;
  Size : Z;
  Compression : Z;
  Encryption : Z
}.
#[global] Instance t_eq_dec : EqDecision t.
Proof. solve_decision. Defined.
Definition zero : t := {| ID := 0; Path := ""; Offset := 0; Size := 0; Compression := 0; Encryption := 0 |}.
Definition Type_ (m : t) : MessageType := ReadReqT.
Definition GetID (m : t) : Z := ID m.
(** The field values the Go struct can hold and CBOR can carry. *)
Definition ok (m : t) : Prop :=
  is_i64 (ID m) ∧ text_ok (Path m) ∧ is_i64 (Offset m) ∧ is_i64 (Size m) ∧ is_u8 (Compression m) ∧ is_u8 (Encryption m).
#[global] Instance ok_dec m : Decision (ok m).
Proof. unfold ok. apply _. Defined.
End ReadReq.

Module ReadRes.
Record t : Set := mk {
  ID : Z;
  Success : bool;
  N : Z;
  Checksum : Z;
  Compression : Z;
  Encryption : Z;
  Error : string
}.
#[global] Instance t_eq_dec : EqDecision t.
Proof. solve_decision. Defined.
Definition zero : t := {| ID := 0; Success := false; N := 0; Checksum := 0; Compression := 0; Encryption := 0; Error := "" |}.
Definition Type_ (m : t) : MessageType := ReadResT.
Definition GetID (m : t) : Z := ID m.
(** The field values the Go struct can hold and CBOR can carry. *)
Definition ok (m : t) : Prop :=
  is_i64 (ID m) ∧ is_i64 (N m) ∧ is_u32 (Checksum m) ∧ is_u8 (Compression m) ∧ is_u8 (Encryption m) ∧ text_ok (Error m).
#[global] Instance ok_dec m : Decision (ok m).
Proof. unfold ok. apply _. Defined.
End ReadRes.

Module StatReq.
Record t : Set := mk {
  ID : Z;
  Path : string
}.
#[global] Instance t_eq_dec : EqDecision t.
Proof. solve_decision. Defined.
Definition zero : t := {| ID := 0; Path := "" |}.
Definition Type_ (m : t) : MessageType := StatReqT.
Definition GetID (m : t) : Z := ID m.
(** The field values the Go struct can hold and CBOR can carry. *)
Definition ok (m : t) : Prop :=
  is_i64 (ID m) ∧ text_ok (Path m).
#[global] Instance ok_dec m : Decision (ok m).
Proof. unfold ok. apply _. Defined.
End StatReq.

Module StatRes.
Record t : Set := mk {
  ID : Z;
  Success : bool;
  Size : Z;
  Mode : Z;
  IsDir : bool;
  Error : string
}.
#[global] Instance t_eq_dec : EqDecision t.
Proof. solve_decision. Defined.
Definition zero : t := {| ID := 0; Success := false; Size := 0; Mode := 0; IsDir := false; Error := "" |}.
Definition Type_ (m : t) : MessageType := StatResT.
Definition GetID (m : t) : Z := ID m.
(** The field values the Go struct can hold and CBOR can carry. *)
Definition ok (m : t) : Prop :=
  is_i64 (ID m) ∧ is_i64 (Size m) ∧ is_u32 (Mode m) ∧ text_ok (Error m).
#[global] Instance ok_dec m : Decision (ok m).
Proof. unfold ok. apply _. Defined.
End StatRes.

Module DirEntry.
Record t : Set := mk {
  IsDir : bool;
  Mode : Z;
  Name : string;
  Size : Z;
  ModTime : Z
}.
#[global] Instance t_eq_dec : EqDecision t.
Proof. solve_decision. Defined.
Definition zero : t := {| IsDir := false; Mode := 0; Name := ""; Size := 0; ModTime := 0 |}.
(** The field values the Go struct can hold and CBOR can carry. *)
Definition ok (m : t) : Prop :=
  is_u32 (Mode m) ∧ text_ok (Name m) ∧ is_i64 (Size m) ∧ is_i64 (ModTime m).
#[global] Instance ok_dec m : Decision (ok m).
Proof. unfold ok. apply _. Defined.
End DirEntry.

Module ReadDirReq.
Record t : Set := mk {
  ID : Z;
  Path : string
}.
#[global] Instance t_eq_dec : EqDecision t.
Proof. solve_decision. Defined.
Definition zero : t := {| ID := 0; Path := "" |}.
Definition Type_ (m : t) : MessageType := ReadDirReqT.
Definition GetID (m : t) : Z := ID m.
(** The field values the Go struct can hold and CBOR can carry. *)
Definition ok (m : t) : Prop :=
  is_i64 (ID m) ∧ text_ok (Path m).
#[global] Instance ok_dec m : Decision (ok m).
Proof. unfold ok. apply _. Defined.
End ReadDirReq.

Module ReadDirRes.
Record t : Set := mk {
  ID : Z;
  Success : bool;
  Entries : list DirEntry.t;
  Error : string
}.
#[global] Instance t_eq_dec : EqDecision t.
Proof. solve_decision. Defined.
Definition zero : t := {| ID := 0; Success := false; Entries := []; Error := "" |}.
Definition Type_ (m : t) : MessageType := ReadDirResT.
Definition GetID (m : t) : Z := ID m.
(** The field values the Go struct can hold and CBOR can carry. *)
Definition ok (m : t) : Prop :=
  is_i64 (ID m) ∧ Forall DirEntry.ok (Entries m) ∧ text_ok (Error m).
#[global] Instance ok_dec m : Decision (ok m).
Proof. unfold ok. apply _. Defined.
End ReadDirRes.

Module HashReq.
Record t : Set := mk {
  ID : Z;
  Path : string
}.
#[global] Instance t_eq_dec : EqDecision t.
Proof. solve_decision. Defined.
Definition zero : t := {| ID := 0; Path := "" |}.
Definition Type_ (m : t) : MessageType := HashReqT.
Definition GetID (m : t) : Z := ID m.
(** The field values the Go struct can hold and CBOR can carry. *)
Definition ok (m : t) : Prop :=
  is_i64 (ID m) ∧ text_ok (Path m).
#[global] Instance ok_dec m : Decision (ok m).
Proof. unfold ok. apply _. Defined.
End HashReq.

Module HashRes.
Record t : Set := mk {
  ID : Z;
  Success : bool;
  Hash : list byte;
  Error : string
}.
#[global] Instance t_eq_dec : EqDecision t.
Proof. solve_decision. Defined.
Definition zero : t := {| ID := 0; Success := false; Hash := []; Error := "" |}.
Definition Type_ (m : t) : MessageType := HashResT.
Definition GetID (m : t) : Z := ID m.
(** The field values the Go struct can hold and CBOR can carry. *)
Definition ok (m : t) : Prop :=
  is_i64 (ID m) ∧ text_ok (Error m).
#[global] Instance ok_dec m : Decision (ok m).
Proof. unfold ok. apply _. Defined.
End HashRes.

Module AuthReq.
Record t : Set := mk {
  ID : Z;
  User : string;
  PubKey : list byte;
  Signature : list byte;
  Token : string
}.
#[global] Instance t_eq_dec : EqDecision t.
Proof. solve_decision. Defined.
Definition zero : t := {| ID := 0; User := ""; PubKey := []; Signature := []; Token := "" |}.
Definition Type_ (m : t) : MessageType := AuthReqT.
Definition GetID (m : t) : Z := ID m.
(** The field values the Go struct can hold and CBOR can carry. *)
Definition ok (m : t) : Prop :=
  is_i64 (ID m) ∧ text_ok (User m) ∧ text_ok (Token m).
#[global] Instance ok_dec m : Decision (ok m).
Proof. unfold ok. apply _. Defined.
End AuthReq.

Module AuthRes.
Record t : Set := mk {
  ID : Z;
  Success : bool;
  Challenge : list byte;
  Token : string;
  User : string;
  Error : string
}.
#[global] Instance t_eq_dec : EqDecision t.
Proof. solve_decision. Defined.
Definition zero : t := {| ID := 0; Success := false; Challenge := []; Token := ""; User := ""; Error := "" |}.
Definition Type_ (m : t) : MessageType := AuthResT.
Definition GetID (m : t) : Z := ID m.
(** The field values the Go struct can hold and CBOR can carry. *)
Definition ok (m : t) : Prop :=
  is_i64 (ID m) ∧ text_ok (Token m) ∧ text_ok (User m) ∧ text_ok (Error m).
#[global] Instance ok_dec m : Decision (ok m).
Proof. unfold ok. apply _. Defined.
End AuthRes.

(** ** The [MSG] interface *)

Inductive MSG : Set :=
  | MCreateReq (m : CreateReq.t)
  | MCreateRes (m : CreateRes.t)
  | MWriteReq (m : WriteReq.t)
  | MWriteRes (m : WriteRes.t)
  | MReadReq (m : ReadReq.t)
  | MReadRes (m : ReadRes.t)
  | MStatReq (m : StatReq.t)
  | MStatRes (m : StatRes.t)
  | MReadDirReq (m : ReadDirReq.t)
  | MReadDirRes (m : ReadDirRes.t)
  | MHashReq (m : HashReq.t)
  | MHashRes (m : HashRes.t)
  | MAuthReq (m : AuthReq.t)
  | MAuthRes (m : AuthRes.t).

#[export] Instance MSG_eq_dec : EqDecision MSG.
Proof. solve_decision. Defined.

(** The method [Type] of the dynamic type. *)
Definition msg_Type (m : MSG) : MessageType :=
  match m with
  | MCreateReq m => CreateReq.Type_ m
  | MCreateRes m => CreateRes.Type_ m
  | MWriteReq m => WriteReq.Type_ m
  | MWriteRes m => WriteRes.Type_ m
  | MReadReq m => ReadReq.Type_ m
  | MReadRes m => ReadRes.Type_ m
  | MStatReq m => StatReq.Type_ m
  | MStatRes m => StatRes.Type_ m
  | MReadDirReq m => ReadDirReq.Type_ m
  | MReadDirRes m => ReadDirRes.Type_ m
  | MHashReq m => HashReq.Type_ m
  | MHashRes m => HashRes.Type_ m
  | MAuthReq m => AuthReq.Type_ m
  | MAuthRes m => AuthRes.Type_ m
  end.

(** The method [GetID] of the dynamic type. *)
Definition msg_GetID (m : MSG) : Z :=
  match m with
  | MCreateReq m => CreateReq.GetID m
  | MCreateRes m => CreateRes.GetID m
  | MWriteReq m => WriteReq.GetID m
  | MWriteRes m => WriteRes.GetID m
  | MReadReq m => ReadReq.GetID m
  | MReadRes m => ReadRes.GetID m
  | MStatReq m => StatReq.GetID m
  | MStatRes m => StatRes.GetID m
  | MReadDirReq m => ReadDirReq.GetID m
  | MReadDirRes m => ReadDirRes.GetID m
  | MHashReq m => HashReq.GetID m
  | MHashRes m => HashRes.GetID m
  | MAuthReq m => AuthReq.GetID m
  | MAuthRes m => AuthRes.GetID m
  end.

Definition msg_ok (m : MSG) : Prop :=
  match m with
  | MCreateReq m => CreateReq.ok m
  | MCreateRes m => CreateRes.ok m
  | MWriteReq m => WriteReq.ok m
  | MWriteRes m => WriteRes.ok m
  | MReadReq m => ReadReq.ok m
  | MReadRes m => ReadRes.ok m
  | MStatReq m => StatReq.ok m
  | MStatRes m => StatRes.ok m
  | MReadDirReq m => ReadDirReq.ok m
  | MReadDirRes m => ReadDirRes.ok m
  | MHashReq m => HashReq.ok m
  | MHashRes m => HashRes.ok m
  | MAuthReq m => AuthReq.ok m
  | MAuthRes m => AuthRes.ok m
  end.

(** The [switch] of [DecodePre]: the zero struct of a type byte. *)
Definition new_msg (msgt : MessageType) : option MSG :=
  if msgt =? CreateReqT then Some (MCreateReq CreateReq.zero)
  else if msgt =? CreateResT then Some (MCreateRes CreateRes.zero)
  else if msgt =? WriteReqT then Some (MWriteReq WriteReq.zero)
  else if msgt =? WriteResT then Some (MWriteRes WriteRes.zero)
  else if msgt =? ReadReqT then Some (MReadReq ReadReq.zero)
  else if msgt =? ReadResT then Some (MReadRes ReadRes.zero)
  else if msgt =? StatReqT then Some (MStatReq StatReq.zero)
  else if msgt =? StatResT then Some (MStatRes StatRes.zero)
  else if msgt =? ReadDirReqT then Some (MReadDirReq ReadDirReq.zero)
  else if msgt =? ReadDirResT then Some (MReadDirRes ReadDirRes.zero)
  else if msgt =? HashReqT then Some (MHashReq HashReq.zero)
  else if msgt =? HashResT then Some (MHashRes HashRes.zero)
  else if msgt =? AuthReqT then Some (MAuthReq AuthReq.zero)
  else if msgt =? AuthResT then Some (MAuthRes AuthRes.zero)
  else None.

(** ** CBOR: the third-party codec

    [cbor_Marshal m] is [cbor.Marshal(m)] (its error is discarded by the code);
    [cbor_Unmarshal buf m] is [cbor.Unmarshal(buf, m)], which fills the struct [m]
    and so keeps its type. *)

Class Cbor := {
  cbor_Marshal : MSG → list byte;
  cbor_Unmarshal : list byte → MSG → result MSG;
}.

(** What the codec documents: decoding into the zero struct of the message's type
    undoes encoding, decoding keeps the dynamic type, and no CBOR item is empty. *)
Class CborOk `{Cbor} : Prop := {
  cbor_roundtrip m z : msg_ok m → new_msg (msg_Type m) = Some z →
    cbor_Unmarshal (cbor_Marshal m) z = Ok m;
  cbor_type bs z m : cbor_Unmarshal bs z = Ok m → msg_Type m = msg_Type z;
  cbor_empty z : is_Ok (cbor_Unmarshal [] z) = false;
}.

Definition msg_Encode `{Cbor} (m : MSG) : list byte := cbor_Marshal m.
Definition msg_Decode `{Cbor} (buf : list byte) (m : MSG) : result MSG := cbor_Unmarshal buf m.

(** ** Frames *)

(** [binary.BigEndian.PutUint32] and [binary.BigEndian.Uint32]. *)
Definition PutUint32 (v : Z) : list byte := be_put 4 v.
Definition Uint32 (b : list byte) : Z := be_get (take 4 b).

Definition MagicNumberCheck (ma mb : byte) : bool :=
  (zbyte ma =? MagicA) && (zbyte mb =? MagicB).

Definition EncodeMsg `{Cbor} (msg : MSG) (payloadSize : Z) : list byte * list byte :=
  let msgbuf := msg_Encode msg in
  let head :=
    [byte_of_Z MagicA; byte_of_Z MagicB; byte_of_Z (msg_Type msg)]
    ++ PutUint32 (u32 (zlen msgbuf)) ++ PutUint32 (u32 payloadSize) in
  (head, msgbuf).

(** Go's [b[i]] where the code has checked the length. *)
Definition at_byte (b : list byte) (i : nat) : byte := nth i b x00.

Definition DecodePre (head : list byte) : result (MSG * Z * Z) :=
  if zlen head <? HeadSize then Err ErrHeadSize else
  let msgt := zbyte (at_byte head 2) in
  match new_msg msgt with
  | None => Err ErrMsgType
  | Some msg =>
    let msgSize := Uint32 (slice 3 7 head) in
    let payloadSize := Uint32 (drop 7 head) in
    if (MaxMsgSize <? msgSize) || (MaxPayloadSize <? payloadSize)
    then Err ErrBadProtocol
    else Ok (msg, msgSize, payloadSize)
  end.

(** [copy(dst, src)] of the language. *)
Definition go_copy {A} (dst src : list A) : list A :=
  take (length dst) src ++ drop (length src) dst.

(** ** [PacketReader] *)

Class PacketReader (R : Type) := {
  Peek : R → Z → result (list byte);
  Discard : R → Z → R;
}.

Definition switchError (e : error) : error :=
  if errors_Is e "io.ErrShortBuffer" then ErrIncompletePacket else e.

Definition ReadMessage {R} `{Cbor, PacketReader R} (r : R) : R * result (MSG * list byte) :=
  match Peek r 2 with
  | Err e => (r, Err (switchError e))
  | Ok buf =>
    if negb (MagicNumberCheck (at_byte buf 0) (at_byte buf 1)) then (r, Err ErrBadProtocol) else
    match Peek r HeadSize with
    | Err e => (r, Err (switchError e))
    | Ok buf =>
      match DecodePre buf with
      | Err e => (r, Err e)
      | Ok (msg, msgSize, payloadSize) =>
        let total := msgSize + payloadSize in
        match Peek r (HeadSize + total) with
        | Err e => (r, Err (switchError e))
        | Ok buf =>
          match msg_Decode (slice (Z.to_nat HeadSize) (Z.to_nat (HeadSize + msgSize)) buf) msg with
          | Err e => (r, Err e)
          | Ok msg =>
            let payload := go_copy (replicate (Z.to_nat payloadSize) x00)
                             (drop (Z.to_nat (HeadSize + msgSize)) buf) in
            (Discard r (zlen buf), Ok (msg, payload))
          end
        end
      end
    end
  end.

(** ** [WriteMessage] *)

(** An [io.Writer]: the error of a write that took less than its argument. *)
Class Writer (W : Type) := Write : W → list byte → W * option error.

(** [net.Buffers.WriteTo]: each buffer in turn, up to the first error. *)
Fixpoint Buffers_WriteTo {W} `{Writer W} (w : W) (bufs : list (list byte)) : W * option error :=
  match bufs with
  | [] => (w, None)
  | b :: bufs =>
    match Write w b with
    | (w, Some e) => (w, Some e)
    | (w, None) => Buffers_WriteTo w bufs
    end
  end.

Definition WriteMessage {W} `{Cbor, Writer W} (w : W) (msg : MSG) (payload : list byte)
    : W * option error :=
  let '(head, msgbs) := EncodeMsg msg (zlen payload) in
  Buffers_WriteTo w [head; msgbs; payload].

(** ** Specification *)

(** The bytes of a frame. *)
Definition frame `{Cbor} (msg : MSG) (payload : list byte) : list byte :=
  let '(head, msgbs) := EncodeMsg msg (zlen payload) in head ++ msgbs ++ payload.

(** A message that fits the limits of the protocol. *)
Definition sendable `{Cbor} (msg : MSG) (payload : list byte) : Prop :=
  msg_ok msg ∧ zlen (cbor_Marshal msg) <= MaxMsgSize ∧ zlen payload <= MaxPayloadSize.

#[export] Instance msg_ok_dec (m : MSG) : Decision (msg_ok m).
Proof. destruct m; simpl; apply _. Defined.
#[export] Instance sendable_dec `{Cbor} (msg : MSG) (payload : list byte) : Decision (sendable msg payload).
Proof. unfold sendable. apply _. Defined.

Inductive parsed : Set :=
  | PIncomplete
  | PBad (e : error)
  | PFrame (msg : MSG) (payload : list byte) (rest : list byte).

(** What a reader must make of the bytes received so far. *)
Definition parse_frame `{Cbor} (s : list byte) : parsed :=
  if zlen s <? 2 then PIncomplete else
  if negb (MagicNumberCheck (at_byte s 0) (at_byte s 1)) then PBad ErrBadProtocol else
  if zlen s <? HeadSize then PIncomplete else
  match DecodePre (take (Z.to_nat HeadSize) s) with
  | Err e => PBad e
  | Ok (msg, ms, ps) =>
    if zlen s <? HeadSize + ms + ps then PIncomplete else
    let body := drop (Z.to_nat HeadSize) s in
    match msg_Decode (take (Z.to_nat ms) body) msg with
    | Err e => PBad e
    | Ok m => PFrame m (take (Z.to_nat ps) (drop (Z.to_nat ms) body))
                (drop (Z.to_nat (ms + ps)) body)
    end
  end.

(** A buffered connection holds the bytes received and not yet discarded. *)
Class PacketReaderOk (R : Type) `{PacketReader R} := {
  unread : R → list byte;
  Peek_spec r n : 0 < n → Peek r n =
    if zlen (unread r) <? n then Err io_ErrShortBuffer else Ok (take (Z.to_nat n) (unread r));
  Discard_spec r n : 0 < n → unread (Discard r n) = drop (Z.to_nat n) (unread r);
}.

(** The inbound buffer of a connection, as gnet's [Conn] offers it. *)
Definition conn_buf : Type := list byte.

#[export] Instance conn_buf_reader : PacketReader conn_buf := {
  Peek b n := if zlen b <? n then Err io_ErrShortBuffer else Ok (take (Z.to_nat n) b);
  Discard b n := drop (Z.to_nat n) b;
}.

#[export] Instance conn_buf_reader_ok : PacketReaderOk conn_buf := {
  unread b := b;
  Peek_spec r n _ := eq_refl;
  Discard_spec r n _ := eq_refl;
}.

(** A writer that never fails: the bytes written so far. *)
#[export] Instance sink_writer : Writer (list byte) := λ w b, (w ++ b, None).

(** ** Lemmas on headers *)

Lemma new_msg_type m : ∃ z, new_msg (msg_Type m) = Some z ∧ msg_Type z = msg_Type m.
Proof. destruct m; eexists; by vm_compute. Qed.

Lemma msg_Type_range m : is_u8 (msg_Type m).
Proof. destruct m; vm_compute; split; congruence. Qed.

Lemma new_msg_Some t z : new_msg t = Some z → msg_Type z = t.
Proof.
  unfold new_msg. intros H.
  repeat (case_match; zbool; [simplify_eq; done|]). done.
Qed.

Lemma u8_msg_Type m : u8 (msg_Type m) = msg_Type m.
Proof. unfold u8. apply Z.mod_small, msg_Type_range. Qed.

Section Frames.
  Context `{CborOk}.

Lemma frame_unfold msg payload :
  frame msg payload = fst (EncodeMsg msg (zlen payload)) ++ msg_Encode msg ++ payload.
Proof. done. Qed.

Lemma EncodeMsg_length msg ps : length (fst (EncodeMsg msg ps)) = 11%nat.
Proof. done. Qed.

Lemma Uint32_PutUint32 v rest : Uint32 (PutUint32 v ++ rest) = u32 v.
Proof.
  unfold Uint32, PutUint32. rewrite take_app_length' by (by rewrite length_be_put).
  apply be_get_put_u32.
Qed.

Lemma u32_idem z : u32 (u32 z) = u32 z.
Proof. apply u32_id, u32_range. Qed.

(** The size fields of a header [EncodeMsg] builds, whatever the sizes. *)
Lemma EncodeMsg_fields msg ps :
  let head := fst (EncodeMsg msg ps) in
  zbyte (at_byte head 2) = msg_Type msg
  ∧ Uint32 (slice 3 7 head) = u32 (zlen (cbor_Marshal msg))
  ∧ Uint32 (drop 7 head) = u32 ps.
Proof.
  cbv zeta. split; [by change (at_byte _ 2) with (byte_of_Z (msg_Type msg)); rewrite zbyte_of_Z, u8_msg_Type|].
  change (drop 7 _) with (PutUint32 (u32 ps)).
  change (slice 3 7 _) with (PutUint32 (u32 (zlen (cbor_Marshal msg)))).
  rewrite <- (app_nil_r (PutUint32 (u32 ps))),
    <- (app_nil_r (PutUint32 (u32 (zlen (cbor_Marshal msg))))).
  by rewrite !Uint32_PutUint32, !u32_idem.
Qed.

Lemma DecodePre_fields head z :
  zlen head = HeadSize → new_msg (zbyte (at_byte head 2)) = Some z →
  DecodePre head =
    if (MaxMsgSize <? Uint32 (slice 3 7 head)) || (MaxPayloadSize <? Uint32 (drop 7 head))
    then Err ErrBadProtocol else Ok (z, Uint32 (slice 3 7 head), Uint32 (drop 7 head)).
Proof. intros Hl Hz. unfold DecodePre. rewrite Hl, Z.ltb_irrefl, Hz. done. Qed.

Lemma sizes_fit n : 0 <= n <= MaxPayloadSize → u32 n = n.
Proof. intros Hn. apply u32_id. change MaxPayloadSize with (2 ^ 24) in Hn. unfold is_u32. lia. Qed.

Lemma msg_size_fit n : 0 <= n <= MaxMsgSize → u32 n = n.
Proof.
  change MaxMsgSize with (2 ^ 16). intros Hn. apply sizes_fit.
  change MaxPayloadSize with (2 ^ 24). lia.
Qed.

Lemma DecodePre_EncodeMsg_raw msg ps z :
  new_msg (msg_Type msg) = Some z →
  zlen (cbor_Marshal msg) <= MaxMsgSize → 0 <= ps <= MaxPayloadSize →
  DecodePre (fst (EncodeMsg msg ps)) = Ok (z, zlen (cbor_Marshal msg), ps).
Proof.
  intros Hz Hm Hp. destruct (EncodeMsg_fields msg ps) as (Ht & H1 & H2).
  erewrite DecodePre_fields; [|done|by rewrite Ht].
  pose proof (zlen_nonneg (cbor_Marshal msg)).
  rewrite H1, H2, msg_size_fit, sizes_fit by lia.
  rewrite !(proj2 (Z.ltb_ge _ _)) by lia. done.
Qed.

Lemma DecodePre_Ok head m ms ps :
  DecodePre head = Ok (m, ms, ps) →
  HeadSize <= zlen head ∧ 0 <= ms <= MaxMsgSize ∧ 0 <= ps <= MaxPayloadSize
  ∧ new_msg (zbyte (at_byte head 2)) = Some m
  ∧ ms = Uint32 (slice 3 7 head) ∧ ps = Uint32 (drop 7 head).
Proof.
  unfold DecodePre. intros Hd.
  destruct (zlen head <? HeadSize) eqn:Hl; [done|].
  destruct (new_msg _) as [z|] eqn:Hz; [|done].
  destruct (_ || _) eqn:Hb; [done|]. injection Hd as <- <- <-. zbool.
  pose proof (be_get_range (take 4 (slice 3 7 head))).
  pose proof (be_get_range (take 4 (drop 7 head))). unfold Uint32 in *.
  by repeat split; try lia.
Qed.

Lemma at_byte_take n s i : (i < n)%nat → at_byte (take n s) i = at_byte s i.
Proof.
  unfold at_byte. intros Hi. revert s i Hi. induction n as [|n IH]; intros s i Hi; [lia|].
  destruct s as [|b s], i as [|i]; simpl; auto. apply IH. lia.
Qed.

(** ** [parse_frame] on frames *)

Lemma take_11_frame msg payload rest :
  take 11 (frame msg payload ++ rest) = fst (EncodeMsg msg (zlen payload)).
Proof. rewrite frame_unfold, <- !app_assoc. by apply take_app_length'. Qed.

Lemma drop_11_frame msg payload rest :
  drop 11 (frame msg payload ++ rest) = cbor_Marshal msg ++ payload ++ rest.
Proof. rewrite frame_unfold, <- !app_assoc. by apply drop_app_length'. Qed.

Lemma zlen_frame msg payload :
  zlen (frame msg payload) = HeadSize + zlen (cbor_Marshal msg) + zlen payload.
Proof. rewrite frame_unfold, !zlen_app. unfold msg_Encode. change (zlen (fst _)) with HeadSize. lia. Qed.

(** The parse of any string that starts with the header of a sendable message. *)
Lemma parse_frame_head msg payload s z :
  sendable msg payload → new_msg (msg_Type msg) = Some z →
  take 11 s = fst (EncodeMsg msg (zlen payload)) →
  parse_frame s =
    if zlen s <? zlen (frame msg payload) then PIncomplete else
    let body := drop 11 s in
    match msg_Decode (take (length (cbor_Marshal msg)) body) z with
    | Err e => PBad e
    | Ok m => PFrame m (take (length payload) (drop (length (cbor_Marshal msg)) body))
                (drop (length (cbor_Marshal msg) + length payload) body)
    end.
Proof.
  intros (Hok & Hm & Hp) Hz Ht.
  assert (HeadSize <= zlen s) as Hl.
  { apply (f_equal length) in Ht. rewrite EncodeMsg_length, length_take in Ht.
    unfold zlen. change HeadSize with 11. lia. }
  unfold parse_frame. change HeadSize with 11 in *. change (Z.to_nat 11) with 11%nat.
  rewrite (proj2 (Z.ltb_ge (zlen s) 2)), (proj2 (Z.ltb_ge (zlen s) 11)) by lia.
  rewrite <- (at_byte_take 11 s 0), <- (at_byte_take 11 s 1), Ht by lia.
  change (MagicNumberCheck _ _) with true. simpl negb. cbv iota.
  erewrite DecodePre_EncodeMsg_raw; [|done|done|pose proof (zlen_nonneg payload); lia].
  rewrite zlen_frame. change HeadSize with 11.
  case_match; [done|].
  replace (Z.to_nat (zlen (cbor_Marshal msg) + zlen payload))
    with (length (cbor_Marshal msg) + length payload)%nat by (unfold zlen; lia).
  unfold zlen. by rewrite !Nat2Z.id.
Qed.

Lemma parse_frame_frame msg payload rest :
  sendable msg payload → parse_frame (frame msg payload ++ rest) = PFrame msg payload rest.
Proof.
  intros Hs. destruct (new_msg_type msg) as (z & Hz & _).
  erewrite (parse_frame_head msg payload); [|done|done|apply take_11_frame].
  rewrite zlen_app, (proj2 (Z.ltb_ge _ _)) by (pose proof (zlen_nonneg rest); lia).
  rewrite drop_11_frame. cbv zeta.
  rewrite take_app_length, drop_app_length. unfold msg_Decode.
  rewrite cbor_roundtrip by (done || apply Hs).
  rewrite take_app_length, <- drop_drop, drop_app_length, drop_app_length. done.
Qed.

(** ** [parse_frame] under more input *)

Lemma parse_frame_head_app (s t : list byte) :
  HeadSize <= zlen s → take 11 (s ++ t) = take 11 s.
Proof. intros Hl. apply take_app_le. unfold zlen in Hl. change HeadSize with 11 in Hl. lia. Qed.

Lemma at_byte_app s t i : (i < length s)%nat → at_byte (s ++ t) i = at_byte s i.
Proof. intros. unfold at_byte. by apply app_nth1. Qed.

Lemma parse_frame_app s t :
  match parse_frame s with
  | PIncomplete => True
  | PBad e => parse_frame (s ++ t) = PBad e
  | PFrame m p rest => parse_frame (s ++ t) = PFrame m p (rest ++ t)
  end.
Proof.
  unfold parse_frame. rewrite zlen_app. pose proof (zlen_nonneg t) as Ht.
  destruct (zlen s <? 2) eqn:E2; zbool; [done|].
  rewrite (proj2 (Z.ltb_ge (zlen s + zlen t) 2)) by lia.
  rewrite !at_byte_app by (unfold zlen in *; lia).
  destruct (negb _); [done|].
  destruct (zlen s <? HeadSize) eqn:E11; zbool; [done|].
  rewrite (proj2 (Z.ltb_ge (zlen s + zlen t) HeadSize)) by lia.
  change (Z.to_nat HeadSize) with 11%nat.
  rewrite parse_frame_head_app by done.
  destruct (DecodePre _) as [[[z ms] ps]|e] eqn:Ed; [|done].
  apply DecodePre_Ok in Ed as (_ & Hms & Hps & _).
  destruct (zlen s <? HeadSize + ms + ps) eqn:Et; zbool; [done|].
  rewrite (proj2 (Z.ltb_ge (zlen s + zlen t) (HeadSize + ms + ps))) by lia.
  unfold zlen in *. change HeadSize with 11 in *. cbv zeta.
  rewrite drop_app_le by lia.
  rewrite take_app_le by (rewrite length_drop; lia).
  destruct (msg_Decode _ _); [|done].
  rewrite (drop_app_le (drop 11 s)) by (rewrite length_drop; lia).
  rewrite take_app_le by (rewrite !length_drop; lia).
  rewrite (drop_app_le (drop 11 s)) by (rewrite length_drop; lia). done.
Qed.

(** A parsed frame is a proper part of the input, within the limits. *)
Lemma parse_frame_consumes s m p rest :
  parse_frame s = PFrame m p rest →
  ∃ n, (11 ≤ n ≤ length s)%nat ∧ rest = drop n s
    ∧ Z.of_nat n <= HeadSize + MaxMsgSize + MaxPayloadSize
    ∧ zlen p <= MaxPayloadSize
    ∧ msg_Type m = zbyte (at_byte s 2).
Proof.
  unfold parse_frame. intros Hp.
  destruct (zlen s <? 2); [done|]. destruct (negb _); [done|].
  destruct (zlen s <? HeadSize) eqn:E11; [done|]. zbool.
  destruct (DecodePre _) as [[[z ms] ps]|e] eqn:Ed; [|done].
  apply DecodePre_Ok in Ed as (_ & Hms & Hps & Hz & _).
  destruct (zlen s <? HeadSize + ms + ps) eqn:Et; [done|]. zbool.
  cbv zeta in Hp. destruct (msg_Decode _ _) as [m'|] eqn:Em; [|done].
  injection Hp as <- <- <-. change (Z.to_nat HeadSize) with 11%nat in *.
  unfold zlen in *. change HeadSize with 11 in *.
  exists (11 + Z.to_nat (ms + ps))%nat.
  apply cbor_type in Em. apply new_msg_Some in Hz.
  rewrite at_byte_take in Hz by lia. rewrite drop_drop, length_take, !length_drop.
  split_and!; try congruence; lia.
Qed.

Lemma parse_frame_prefix msg payload a b :
  sendable msg payload → frame msg payload = a ++ b → b ≠ [] → parse_frame a = PIncomplete.
Proof.
  intros Hs Hf Hb. pose proof (parse_frame_app a b) as Happ.
  pose proof (parse_frame_frame msg payload [] Hs) as Hok. rewrite app_nil_r, Hf in Hok.
  destruct (parse_frame a) as [|e|m p rest]; [done| |].
  - congruence.
  - rewrite Hok in Happ. simplify_eq. by destruct rest, b.
Qed.

Lemma parse_frame_nil : parse_frame [] = PIncomplete.
Proof. done. Qed.

Lemma WriteMessage_sink (w : list byte) msg payload :
  WriteMessage w msg payload = (w ++ frame msg payload, None).
Proof.
  unfold WriteMessage. rewrite frame_unfold. unfold EncodeMsg. cbv zeta beta iota.
  cbn [Buffers_WriteTo Write sink_writer]. by rewrite <- !app_assoc.
Qed.

(** ** [ReadMessage] refines [parse_frame] *)

Lemma switchError_short : switchError io_ErrShortBuffer = ErrIncompletePacket.
Proof. done. Qed.

Lemma go_copy_full {A} (x : A) src n :
  length src = n → go_copy (replicate n x) src = src.
Proof.
  intros <-. unfold go_copy. rewrite length_replicate, take_ge by lia.
  rewrite drop_ge by (rewrite length_replicate; lia). by rewrite app_nil_r.
Qed.

Context {R : Type} `{PacketReaderOk R}.

Lemma ReadMessage_parse (r : R) :
  ReadMessage r =
    match parse_frame (unread r) with
    | PIncomplete => (r, Err ErrIncompletePacket)
    | PBad e => (r, Err e)
    | PFrame m p rest => (Discard r (zlen (unread r) - zlen rest), Ok (m, p))
    end.
Proof.
  unfold ReadMessage, parse_frame. set (s := unread r).
  rewrite Peek_spec by lia. fold s.
  destruct (zlen s <? 2) eqn:E2; [done|]. zbool.
  change (Z.to_nat 2) with 2%nat. rewrite !at_byte_take by lia.
  destruct (negb _); [done|]. rewrite Peek_spec by done. fold s.
  destruct (zlen s <? HeadSize) eqn:E11; [done|]. zbool.
  destruct (DecodePre _) as [[[z ms] ps]|e] eqn:Ed; [|done].
  apply DecodePre_Ok in Ed as (_ & Hms & Hps & _).
  change HeadSize with 11 in *. rewrite Peek_spec by lia. fold s.
  rewrite Z.add_assoc. destruct (zlen s <? 11 + ms + ps) eqn:Et; [done|]. zbool.
  cbv zeta. change (Z.to_nat 11) with 11%nat.
  assert (slice 11 (Z.to_nat (11 + ms)) (take (Z.to_nat (11 + ms + ps)) s)
          = take (Z.to_nat ms) (drop 11 s)) as ->.
  { unfold slice. rewrite take_drop_commute, take_take, take_drop_commute. do 2 f_equal. lia. }
  destruct (msg_Decode _ _); [|done].
  f_equal.
  - f_equal. unfold zlen in *. rewrite length_take, !length_drop. lia.
  - do 2 f_equal. rewrite go_copy_full.
    + rewrite drop_drop, take_drop_commute.
      replace (11 + Z.to_nat ms)%nat with (Z.to_nat (11 + ms)) by lia. do 2 f_equal. lia.
    + unfold zlen in *. rewrite length_drop, length_take. lia.
Qed.
End Frames.
