(* ===== verification/PlainCodec.v ===== *)
(** A concrete codec for the messages, the instance at which the closed examples
    of the development are evaluated: the theorems are stated for every codec
    with the laws of [CborOk].  It is a field-by-field binary format built from
    combinators that each come with their round trip. *)
From S2P Require Import Prelude Message.
From Stdlib Require Import Strings.Byte.

(** ** Combinators *)

Class Ser (A : Type) := {
  put : A → list byte;
  get : list byte → option (A * list byte);
  fits : A → Prop;
}.

Class SerOk (A : Type) `{Ser A} : Prop :=
  get_put a rest : fits a → get (put a ++ rest) = Some (a, rest).

(** Signed 64-bit integers, big-endian two's complement. *)
#[export] Instance Z_ser : Ser Z := {
  put z := be_put 8 z;
  get s := if bool_decide (length s < 8)%nat then None
           else Some (i64 (be_get (take 8 s)), drop 8 s);
  fits := is_i64;
}.

#[export] Instance Z_ser_ok : SerOk Z.
Proof.
  intros z rest Hz. change (is_i64 z) in Hz. unfold get, put, Z_ser.
  rewrite bool_decide_false by (rewrite length_app, length_be_put; lia).
  rewrite take_app_length', drop_app_length' by (by rewrite length_be_put).
  rewrite be_get_put. do 2 f_equal. unfold i64, is_i64 in *.
  change (8 * Z.of_nat 8) with 64.
  rewrite Zplus_mod_idemp_l, Z.mod_small by lia. lia.
Qed.

#[export] Instance bool_ser : Ser bool := {
  put b := [if b then x01 else x00];
  get s := match s with x01 :: s => Some (true, s) | x00 :: s => Some (false, s) | _ => None end;
  fits _ := True;
}.
#[export] Instance bool_ser_ok : SerOk bool.
Proof. by intros []. Qed.

(** Lists: a byte 1 before each element and a byte 0 at the end. *)
Fixpoint put_list {A} (p : A → list byte) (l : list A) : list byte :=
  match l with [] => [x00] | a :: l => x01 :: p a ++ put_list p l end.

Fixpoint get_list {A} (g : list byte → option (A * list byte)) (fuel : nat) (s : list byte)
    : option (list A * list byte) :=
  match fuel with
  | O => None
  | S fuel =>
    match s with
    | x00 :: s => Some ([], s)
    | x01 :: s => '(a, s) ← g s; '(l, s) ← get_list g fuel s; Some (a :: l, s)
    | _ => None
    end
  end.

#[export] Instance list_ser {A} `{Ser A} : Ser (list A) := {
  put := put_list put;
  get s := get_list get (length s) s;
  fits := Forall fits;
}.

Lemma get_put_list {A} `{SerOk A} (l : list A) fuel rest :
  Forall fits l → (length l < fuel)%nat →
  get_list get fuel (put_list put l ++ rest) = Some (l, rest).
Proof.
  intros Hl. revert fuel. induction Hl as [|a l Ha Hl IH]; intros [|fuel] Hf; simpl in *; try lia.
  - done.
  - rewrite <- app_assoc, get_put by done. simpl. rewrite IH by lia. done.
Qed.

Lemma length_put_list {A} (p : A → list byte) l : (length l < length (put_list p l))%nat.
Proof. induction l; simpl; [lia|]. rewrite length_app. lia. Qed.

#[export] Instance list_ser_ok {A} `{SerOk A} : SerOk (list A).
Proof.
  intros l rest Hl. simpl. apply get_put_list; [done|].
  rewrite length_app. pose proof (length_put_list put l). lia.
Qed.

#[export] Instance byte_ser : Ser byte := {
  put b := [b];
  get s := match s with b :: s => Some (b, s) | [] => None end;
  fits _ := True;
}.
#[export] Instance byte_ser_ok : SerOk byte.
Proof. done. Qed.

#[export] Instance string_ser : Ser string := {
  put s := put (String.list_byte_of_string s);
  get s := '(l, s) ← get s; Some (String.string_of_list_byte l, s);
  fits _ := True;
}.
#[export] Instance string_ser_ok : SerOk string.
Proof.
  intros s rest _. unfold put, get, string_ser.
  rewrite get_put by (simpl; by apply Forall_true). simpl.
  by rewrite String.string_of_list_byte_of_string.
Qed.

Lemma get_bind {A B} `{SerOk A} a rest (f : A * list byte → option B) :
  fits a → (get (put a ++ rest) ≫= f) = f (a, rest).
Proof. intros Ha. by rewrite get_put. Qed.

Lemma u32_fits z : is_u32 z → is_i64 z.
Proof. unfold is_u32, is_i64. lia. Qed.
Lemma u8_fits z : is_u8 z → is_i64 z.
Proof. unfold is_u8, is_i64. lia. Qed.
Lemma i32_fits z : is_i32 z → is_i64 z.
Proof. unfold is_i32, is_i64. lia. Qed.
#[export] Hint Resolve u32_fits u8_fits i32_fits : gcp.

Lemma fits_string (s : string) : fits s.
Proof. done. Qed.
Lemma fits_bytes (l : list byte) : fits l.
Proof. by apply Forall_true. Qed.
Lemma fits_bool (b : bool) : fits b.
Proof. done. Qed.
Lemma fits_Z (z : Z) : is_i64 z → fits z.
Proof. done. Qed.
#[export] Hint Resolve fits_string fits_bytes fits_bool fits_Z : gcp.

(** Steps through the [get] of consecutive fields of a record. *)
Ltac step_fields :=
  rewrite <- ?app_assoc;
  repeat (rewrite get_bind by auto with gcp; cbv beta iota).

(** ** The message structs *)

#[export] Instance CreateReq_ser : Ser CreateReq.t := {
  put m := put (CreateReq.ID m) ++ put (CreateReq.Size m) ++ put (CreateReq.Mode m) ++ put (CreateReq.Path m) ++ put (CreateReq.IsDir m);
  get s := '(id_, s) ← get s; '(size_, s) ← get s; '(mode_, s) ← get s; '(path_, s) ← get s; '(isdir_, s) ← get s; Some (CreateReq.mk id_ size_ mode_ path_ isdir_, s);
  fits := CreateReq.ok;
}.
#[export] Instance CreateReq_ser_ok : SerOk CreateReq.t.
Proof.
  intros m rest Hm. change (CreateReq.ok m) in Hm. unfold CreateReq.ok in Hm. destruct_and?. unfold put, get, CreateReq_ser. step_fields. by destruct m.
Qed.

#[export] Instance CreateRes_ser : Ser CreateRes.t := {
  put m := put (CreateRes.ID m) ++ put (CreateRes.Success m) ++ put (CreateRes.Error m);
  get s := '(id_, s) ← get s; '(success_, s) ← get s; '(error_, s) ← get s; Some (CreateRes.mk id_ success_ error_, s);
  fits := CreateRes.ok;
}.
#[export] Instance CreateRes_ser_ok : SerOk CreateRes.t.
Proof.
  intros m rest Hm. change (CreateRes.ok m) in Hm. unfold CreateRes.ok in Hm. destruct_and?. unfold put, get, CreateRes_ser. step_fields. by destruct m.
Qed.

#[export] Instance WriteReq_ser : Ser WriteReq.t := {
  put m := put (WriteReq.ID m) ++ put (WriteReq.Path m) ++ put (WriteReq.Offset m) ++ put (WriteReq.Checksum m) ++ put (WriteReq.Compression m) ++ put (WriteReq.Encryption m);
  get s := '(id_, s) ← get s; '(path_, s) ← get s; '(offset_, s) ← get s; '(checksum_, s) ← get s; '(compression_, s) ← get s; '(encryption_, s) ← get s; Some (WriteReq.mk id_ path_ offset_ checksum_ compression_ encryption_, s);
  fits := WriteReq.ok;
}.
#[export] Instance WriteReq_ser_ok : SerOk WriteReq.t.
Proof.
  intros m rest Hm. change (WriteReq.ok m) in Hm. unfold WriteReq.ok in Hm. destruct_and?. unfold put, get, WriteReq_ser. step_fields. by destruct m.
Qed.

#[export] Instance WriteRes_ser : Ser WriteRes.t := {
  put m := put (WriteRes.ID m) ++ put (WriteRes.Success m) ++ put (WriteRes.N m) ++ put (WriteRes.Error m);
  get s := '(id_, s) ← get s; '(success_, s) ← get s; '(n_, s) ← get s; '(error_, s) ← get s; Some (WriteRes.mk id_ success_ n_ error_, s);
  fits := WriteRes.ok;
}.
#[export] Instance WriteRes_ser_ok : SerOk WriteRes.t.
Proof.
  intros m rest Hm. change (WriteRes.ok m) in Hm. unfold WriteRes.ok in Hm. destruct_and?. unfold put, get, WriteRes_ser. step_fields. by destruct m.
Qed.

#[export] Instance ReadReq_ser : Ser ReadReq.t := {
  put m := put (ReadReq.ID m) ++ put (ReadReq.Path m) ++ put (ReadReq.Offset m) ++ put (ReadReq.Size m) ++ put (ReadReq.Compression m) ++ put (ReadReq.Encryption m);
  get s := '(id_, s) ← get s; '(path_, s) ← get s; '(offset_, s) ← get s; '(size_, s) ← get s; '(compression_, s) ← get s; '(encryption_, s) ← get s; Some (ReadReq.mk id_ path_ offset_ size_ compression_ encryption_, s);
  fits := ReadReq.ok;
}.
#[export] Instance ReadReq_ser_ok : SerOk ReadReq.t.
Proof.
  intros m rest Hm. change (ReadReq.ok m) in Hm. unfold ReadReq.ok in Hm. destruct_and?. unfold put, get, ReadReq_ser. step_fields. by destruct m.
Qed.

#[export] Instance ReadRes_ser : Ser ReadRes.t := {
  put m := put (ReadRes.ID m) ++ put (ReadRes.Success m) ++ put (ReadRes.N m) ++ put (ReadRes.Checksum m) ++ put (ReadRes.Compression m) ++ put (ReadRes.Encryption m) ++ put (ReadRes.Error m);
  get s := '(id_, s) ← get s; '(success_, s) ← get s; '(n_, s) ← get s; '(checksum_, s) ← get s; '(compression_, s) ← get s; '(encryption_, s) ← get s; '(error_, s) ← get s; Some (ReadRes.mk id_ success_ n_ checksum_ compression_ encryption_ error_, s);
  fits := ReadRes.ok;
}.
#[export] Instance ReadRes_ser_ok : SerOk ReadRes.t.
Proof.
  intros m rest Hm. change (ReadRes.ok m) in Hm. unfold ReadRes.ok in Hm. destruct_and?. unfold put, get, ReadRes_ser. step_fields. by destruct m.
Qed.

#[export] Instance StatReq_ser : Ser StatReq.t := {
  put m := put (StatReq.ID m) ++ put (StatReq.Path m);
  get s := '(id_, s) ← get s; '(path_, s) ← get s; Some (StatReq.mk id_ path_, s);
  fits := StatReq.ok;
}.
#[export] Instance StatReq_ser_ok : SerOk StatReq.t.
Proof.
  intros m rest Hm. change (StatReq.ok m) in Hm. unfold StatReq.ok in Hm. destruct_and?. unfold put, get, StatReq_ser. step_fields. by destruct m.
Qed.

#[export] Instance StatRes_ser : Ser StatRes.t := {
  put m := put (StatRes.ID m) ++ put (StatRes.Success m) ++ put (StatRes.Size m) ++ put (StatRes.Mode m) ++ put (StatRes.IsDir m) ++ put (StatRes.Error m);
  get s := '(id_, s) ← get s; '(success_, s) ← get s; '(size_, s) ← get s; '(mode_, s) ← get s; '(isdir_, s) ← get s; '(error_, s) ← get s; Some (StatRes.mk id_ success_ size_ mode_ isdir_ error_, s);
  fits := StatRes.ok;
}.
#[export] Instance StatRes_ser_ok : SerOk StatRes.t.
Proof.
  intros m rest Hm. change (StatRes.ok m) in Hm. unfold StatRes.ok in Hm. destruct_and?. unfold put, get, StatRes_ser. step_fields. by destruct m.
Qed.

#[export] Instance DirEntry_ser : Ser DirEntry.t := {
  put m := put (DirEntry.IsDir m) ++ put (DirEntry.Mode m) ++ put (DirEntry.Name m) ++ put (DirEntry.Size m) ++ put (DirEntry.ModTime m);
  get s := '(isdir_, s) ← get s; '(mode_, s) ← get s; '(name_, s) ← get s; '(size_, s) ← get s; '(modtime_, s) ← get s; Some (DirEntry.mk isdir_ mode_ name_ size_ modtime_, s);
  fits := DirEntry.ok;
}.
#[export] Instance DirEntry_ser_ok : SerOk DirEntry.t.
Proof.
  intros m rest Hm. change (DirEntry.ok m) in Hm. unfold DirEntry.ok in Hm. destruct_and?. unfold put, get, DirEntry_ser. step_fields. by destruct m.
Qed.

Lemma fits_entries (l : list DirEntry.t) : Forall DirEntry.ok l → fits l.
Proof. done. Qed.
#[export] Hint Resolve fits_entries : gcp.

#[export] Instance ReadDirReq_ser : Ser ReadDirReq.t := {
  put m := put (ReadDirReq.ID m) ++ put (ReadDirReq.Path m);
  get s := '(id_, s) ← get s; '(path_, s) ← get s; Some (ReadDirReq.mk id_ path_, s);
  fits := ReadDirReq.ok;
}.
#[export] Instance ReadDirReq_ser_ok : SerOk ReadDirReq.t.
Proof.
  intros m rest Hm. change (ReadDirReq.ok m) in Hm. unfold ReadDirReq.ok in Hm. destruct_and?. unfold put, get, ReadDirReq_ser. step_fields. by destruct m.
Qed.

#[export] Instance ReadDirRes_ser : Ser ReadDirRes.t := {
  put m := put (ReadDirRes.ID m) ++ put (ReadDirRes.Success m) ++ put (ReadDirRes.Entries m) ++ put (ReadDirRes.Error m);
  get s := '(id_, s) ← get s; '(success_, s) ← get s; '(entries_, s) ← get s; '(error_, s) ← get s; Some (ReadDirRes.mk id_ success_ entries_ error_, s);
  fits := ReadDirRes.ok;
}.
#[export] Instance ReadDirRes_ser_ok : SerOk ReadDirRes.t.
Proof.
  intros m rest Hm. change (ReadDirRes.ok m) in Hm. unfold ReadDirRes.ok in Hm. destruct_and?. unfold put, get, ReadDirRes_ser. step_fields. by destruct m.
Qed.

#[export] Instance HashReq_ser : Ser HashReq.t := {
  put m := put (HashReq.ID m) ++ put (HashReq.Path m);
  get s := '(id_, s) ← get s; '(path_, s) ← get s; Some (HashReq.mk id_ path_, s);
  fits := HashReq.ok;
}.
#[export] Instance HashReq_ser_ok : SerOk HashReq.t.
Proof.
  intros m rest Hm. change (HashReq.ok m) in Hm. unfold HashReq.ok in Hm. destruct_and?. unfold put, get, HashReq_ser. step_fields. by destruct m.
Qed.

#[export] Instance HashRes_ser : Ser HashRes.t := {
  put m := put (HashRes.ID m) ++ put (HashRes.Success m) ++ put (HashRes.Hash m) ++ put (HashRes.Error m);
  get s := '(id_, s) ← get s; '(success_, s) ← get s; '(hash_, s) ← get s; '(error_, s) ← get s; Some (HashRes.mk id_ success_ hash_ error_, s);
  fits := HashRes.ok;
}.
#[export] Instance HashRes_ser_ok : SerOk HashRes.t.
Proof.
  intros m rest Hm. change (HashRes.ok m) in Hm. unfold HashRes.ok in Hm. destruct_and?. unfold put, get, HashRes_ser. step_fields. by destruct m.
Qed.

#[export] Instance AuthReq_ser : Ser AuthReq.t := {
  put m := put (AuthReq.ID m) ++ put (AuthReq.User m) ++ put (AuthReq.PubKey m) ++ put (AuthReq.Signature m) ++ put (AuthReq.Token m);
  get s := '(id_, s) ← get s; '(user_, s) ← get s; '(pubkey_, s) ← get s; '(signature_, s) ← get s; '(token_, s) ← get s; Some (AuthReq.mk id_ user_ pubkey_ signature_ token_, s);
  fits := AuthReq.ok;
}.
#[export] Instance AuthReq_ser_ok : SerOk AuthReq.t.
Proof.
  intros m rest Hm. change (AuthReq.ok m) in Hm. unfold AuthReq.ok in Hm. destruct_and?. unfold put, get, AuthReq_ser. step_fields. by destruct m.
Qed.

#[export] Instance AuthRes_ser : Ser AuthRes.t := {
  put m := put (AuthRes.ID m) ++ put (AuthRes.Success m) ++ put (AuthRes.Challenge m) ++ put (AuthRes.Token m) ++ put (AuthRes.User m) ++ put (AuthRes.Error m);
  get s := '(id_, s) ← get s; '(success_, s) ← get s; '(challenge_, s) ← get s; '(token_, s) ← get s; '(user_, s) ← get s; '(error_, s) ← get s; Some (AuthRes.mk id_ success_ challenge_ token_ user_ error_, s);
  fits := AuthRes.ok;
}.
#[export] Instance AuthRes_ser_ok : SerOk AuthRes.t.
Proof.
  intros m rest Hm. change (AuthRes.ok m) in Hm. unfold AuthRes.ok in Hm. destruct_and?. unfold put, get, AuthRes_ser. step_fields. by destruct m.
Qed.

(** ** The codec *)

Definition of_ser {A} `{Ser A} (c : A → MSG) (s : list byte) : result MSG :=
  match get s with
  | Some (a, []) => Ok (c a)
  | _ => Err io_ErrUnexpectedEOF
  end.

Lemma of_ser_put {A} `{SerOk A} (c : A → MSG) a : fits a → of_ser c (put a) = Ok (c a).
Proof.
  intros Ha. unfold of_ser. rewrite <- (app_nil_r (put a)), get_put by done. done.
Qed.

#[export] Instance plain_codec : Cbor := {
  cbor_Marshal m := match m with
    | MCreateReq m => put m
    | MCreateRes m => put m
    | MWriteReq m => put m
    | MWriteRes m => put m
    | MReadReq m => put m
    | MReadRes m => put m
    | MStatReq m => put m
    | MStatRes m => put m
    | MReadDirReq m => put m
    | MReadDirRes m => put m
    | MHashReq m => put m
    | MHashRes m => put m
    | MAuthReq m => put m
    | MAuthRes m => put m
    end;
  cbor_Unmarshal s z := match z with
    | MCreateReq _ => of_ser MCreateReq s
    | MCreateRes _ => of_ser MCreateRes s
    | MWriteReq _ => of_ser MWriteReq s
    | MWriteRes _ => of_ser MWriteRes s
    | MReadReq _ => of_ser MReadReq s
    | MReadRes _ => of_ser MReadRes s
    | MStatReq _ => of_ser MStatReq s
    | MStatRes _ => of_ser MStatRes s
    | MReadDirReq _ => of_ser MReadDirReq s
    | MReadDirRes _ => of_ser MReadDirRes s
    | MHashReq _ => of_ser MHashReq s
    | MHashRes _ => of_ser MHashRes s
    | MAuthReq _ => of_ser MAuthReq s
    | MAuthRes _ => of_ser MAuthRes s
    end;
}.

#[export] Instance plain_codec_ok : CborOk.
Proof.
  split.
  - intros m z Hm Hz. pose proof (new_msg_Some _ _ Hz) as Ht. unfold msg_ok in Hm.
    destruct m; vm_compute in Hz; injection Hz as <-;
      apply of_ser_put; exact Hm.
  - intros bs z m Hm. unfold cbor_Unmarshal, plain_codec, of_ser in Hm.
    destruct z; repeat (case_match; try done); by simplify_eq.
  - intros z. by destruct z.
Qed.
