(* ===== verification/MessageSpec.v ===== *)
(** The properties of the wire protocol of Message.v: the header round trip and
    its limits, the frame round trip through any buffered reader, the behaviour on
    partial input, and the bound on what a reader consumes. *)
From S2P Require Import Prelude Message PlainCodec.
From Stdlib Require Import Strings.Byte.

(** A message and a payload for the closed examples. *)
Definition demo_req : WriteReq.t :=
  {| WriteReq.ID := 7; WriteReq.Path := "/remote/f"; WriteReq.Offset := 8192;
     WriteReq.Checksum := 305419896; WriteReq.Compression := 0; WriteReq.Encryption := 1 |}.
Definition demo_payload : list byte := [x61; x62; x63; x00; xff].

Lemma demo_sendable : sendable (MWriteReq demo_req) demo_payload.
Proof. split_and!; vm_compute; intuition congruence. Qed.

(** C8: writing a frame to a stream and reading it back with [ReadMessage], from
    any buffered reader that holds it followed by further bytes, returns the same
    message and payload and leaves exactly the further bytes unread. *)
Theorem ReadMessage_WriteMessage `{CborOk} {R} `{PacketReaderOk R}
    (r : R) (msg : MSG) (payload rest : list byte) :
  sendable msg payload →
  unread r = fst (WriteMessage [] msg payload) ++ rest →
  ∃ r', ReadMessage r = (r', Ok (msg, payload)) ∧ unread r' = rest.
Proof.
  rewrite WriteMessage_sink. intros Hs Hr. cbn [fst app] in Hr.
  rewrite ReadMessage_parse, Hr, parse_frame_frame by done.
  eexists; split; [done|]. rewrite zlen_app.
  pose proof (zlen_frame msg payload). pose proof (zlen_nonneg (cbor_Marshal msg)).
  pose proof (zlen_nonneg payload). change HeadSize with 11 in *.
  replace (_ + _ - _) with (zlen (frame msg payload)) by lia.
  rewrite Discard_spec, Hr by lia. unfold zlen. by rewrite Nat2Z.id, drop_app_length.
Qed.

Lemma ReadMessage_WriteMessage_witness :
  ∃ r', ReadMessage (R:=conn_buf)
          (fst (WriteMessage [] (MWriteReq demo_req) demo_payload) ++ [xa8; xd5])
        = (r', Ok (MWriteReq demo_req, demo_payload)) ∧ unread r' = [xa8; xd5].
Proof.
  apply (ReadMessage_WriteMessage (R:=conn_buf) _ (MWriteReq demo_req) demo_payload [xa8; xd5]
           demo_sendable).
  reflexivity.
Defined.

(** A reader that holds any proper prefix of a frame gets
    [ErrIncompletePacket] and consumes nothing, so the caller can retry when more
    bytes arrive. *)
Theorem ReadMessage_incomplete `{CborOk} {R} `{PacketReaderOk R}
    (r : R) (msg : MSG) (payload missing : list byte) :
  sendable msg payload → missing ≠ [] →
  fst (WriteMessage [] msg payload) = unread r ++ missing →
  ReadMessage r = (r, Err ErrIncompletePacket).
Proof.
  rewrite WriteMessage_sink. intros Hs Hm Hr. cbn [fst app] in Hr.
  by rewrite ReadMessage_parse, (parse_frame_prefix msg payload _ missing).
Qed.

Lemma ReadMessage_incomplete_witness :
  ReadMessage (R:=conn_buf) (take 20 (fst (WriteMessage [] (MWriteReq demo_req) demo_payload)))
  = (take 20 (fst (WriteMessage [] (MWriteReq demo_req) demo_payload)), Err ErrIncompletePacket).
Proof.
  apply (ReadMessage_incomplete (R:=conn_buf) _ (MWriteReq demo_req) demo_payload
    (drop 20 (fst (WriteMessage [] (MWriteReq demo_req) demo_payload))) demo_sendable).
  - vm_compute. congruence.
  - symmetry. apply take_drop.
Defined.

(** [DecodePre] on the header [EncodeMsg] builds, for every payload size an
    [int] can hold: the sizes travel modulo 2^32, and the header is accepted
    exactly when both are within the limits, with the type of the message. *)
Theorem DecodePre_EncodeMsg `{Cbor} (msg : MSG) (payloadSize : Z) :
  ∃ z, msg_Type z = msg_Type msg ∧
  DecodePre (fst (EncodeMsg msg payloadSize)) =
    if (MaxMsgSize <? u32 (zlen (cbor_Marshal msg))) || (MaxPayloadSize <? u32 payloadSize)
    then Err ErrBadProtocol
    else Ok (z, u32 (zlen (cbor_Marshal msg)), u32 payloadSize).
Proof.
  destruct (new_msg_type msg) as (z & Hz & Ht). exists z. split; [done|].
  destruct (EncodeMsg_fields msg payloadSize) as (H2 & <- & <-).
  apply DecodePre_fields; [done|]. by rewrite H2.
Qed.

(** Whatever bytes arrive, a successful [ReadMessage] took at least a header
    and at most a header, [MaxMsgSize] and [MaxPayloadSize] bytes off the front of
    the buffer, the payload it returns is within [MaxPayloadSize], and the message
    has the type the header announced; an error leaves the reader as it was. *)
Theorem ReadMessage_bounds `{CborOk} {R} `{PacketReaderOk R} (r r' : R) res :
  ReadMessage r = (r', res) →
  match res with
  | Err _ => r' = r
  | Ok (msg, payload) =>
    ∃ n, unread r' = drop n (unread r) ∧ (n ≤ length (unread r))%nat
      ∧ HeadSize <= Z.of_nat n <= HeadSize + MaxMsgSize + MaxPayloadSize
      ∧ zlen payload <= MaxPayloadSize
      ∧ msg_Type msg = zbyte (at_byte (unread r) 2)
  end.
Proof.
  rewrite ReadMessage_parse. intros Hr.
  destruct (parse_frame (unread r)) as [|e|m p rest] eqn:Hp; simplify_eq; [done..|].
  apply parse_frame_consumes in Hp as (n & Hn & -> & Hmax & Hpl & Ht).
  exists n. change HeadSize with 11 in *. split_and!; try done; try lia.
  assert (zlen (unread r) - zlen (drop n (unread r)) = Z.of_nat n) as ->
    by (unfold zlen; rewrite length_drop; lia).
  rewrite Discard_spec by lia. by rewrite Nat2Z.id.
Qed.

Lemma ReadMessage_bounds_witness :
  let s := frame (MWriteReq demo_req) demo_payload in
  match snd (ReadMessage (R:=conn_buf) s) with
  | Err _ => fst (ReadMessage (R:=conn_buf) s) = s
  | Ok (msg, payload) =>
    ∃ n, unread (fst (ReadMessage (R:=conn_buf) s)) = drop n (unread (R:=conn_buf) s)
      ∧ (n ≤ length (unread (R:=conn_buf) s))%nat
      ∧ HeadSize <= Z.of_nat n <= HeadSize + MaxMsgSize + MaxPayloadSize
      ∧ zlen payload <= MaxPayloadSize
      ∧ msg_Type msg = zbyte (at_byte (unread (R:=conn_buf) s) 2)
  end.
Proof.
  intros s. apply (ReadMessage_bounds (R:=conn_buf) s). destruct (ReadMessage s). reflexivity.
Defined.
