(* ===== verification/Receive.v ===== *)
(** The client's frame readers ([src/client.go]: [handleReceive], [readResp]).

    [handleReceive] is the loop that reassembles frames from a TCP connection;
    its local variables are the record [Recv.t], one iteration of the loop is
    [handleReceive_step], and the loop is [handleReceive] with fuel.  The
    connection is the list of segments the kernel will hand over: a [Read] takes
    at most its buffer's length from the first one, so every schedule of reads is
    the schedule of some segmentation.  When no segment is left the [Read] fails
    (end of stream, or the read deadline). *)
From S2P Require Import Prelude Message.
From Stdlib Require Import Strings.Byte.

(** ** The connection *)

Definition segments : Set := list (list byte).

(** [conn.Read(buf)] for a buffer of [want] bytes. *)
Definition conn_Read (want : nat) (c : segments) : segments * result (list byte) :=
  match c with
  | [] => ([], Err io_EOF)
  | d :: c => (if bool_decide (length d ≤ want)%nat then c else drop want d :: c, Ok (take want d))
  end.

(** ** [handleReceive] *)

Module Recv.
Record t : Set := mk {
  bufHead : list byte;
  readSize : nat;
  bufMsg : list byte;
  payload : list byte;
  magicNumChecked : bool;
}.

Definition init : t := {|
  bufHead := replicate (Z.to_nat HeadSize) x00;
  readSize := 0;
  bufMsg := [];
  payload := [];
  magicNumChecked := false;
|}.
End Recv.

(** [data] read into [buf[off:]]. *)
Definition fill (buf : list byte) (off : nat) (data : list byte) : list byte :=
  take off buf ++ data ++ drop (off + length data) buf.

Inductive recv_exit : Set :=
  | ExitCtxDone
  | ExitReadError (e : error)
  | ExitBadProtocol
  | ExitOversized
  | ExitDecodeError (e : error).

Inductive recv_step : Set :=
  | RContinue (st : Recv.t) (c : segments)
  | RDeliver (msg : MSG) (p : list byte) (st : Recv.t) (c : segments)
  | RReturn (why : recv_exit).

Definition handleReceive_step `{Cbor} (ctx_done : bool) (st : Recv.t) (c : segments) : recv_step :=
  if ctx_done then RReturn ExitCtxDone else
  let head := Z.to_nat HeadSize in
  if bool_decide (Recv.readSize st < head)%nat then
    match conn_Read (head - Recv.readSize st) c with
    | (_, Err e) => RReturn (ExitReadError e)
    | (c, Ok d) =>
      let bh := fill (Recv.bufHead st) (Recv.readSize st) d in
      let rs := (Recv.readSize st + length d)%nat in
      if bool_decide (1 < rs)%nat && negb (Recv.magicNumChecked st) then
        if negb (MagicNumberCheck (at_byte bh 0) (at_byte bh 1)) then RReturn ExitBadProtocol
        else RContinue (Recv.mk bh rs (Recv.bufMsg st) (Recv.payload st) true) c
      else RContinue (Recv.mk bh rs (Recv.bufMsg st) (Recv.payload st) (Recv.magicNumChecked st)) c
    end
  else if bool_decide (length (Recv.bufMsg st) = 0)%nat then
    let msgSize := Uint32 (slice 3 7 (Recv.bufHead st)) in
    let payloadSize := Uint32 (drop 7 (Recv.bufHead st)) in
    if (MaxMsgSize <? msgSize) || (MaxPayloadSize <? payloadSize) then RReturn ExitOversized
    else RContinue (Recv.mk (Recv.bufHead st) (Recv.readSize st) (replicate (Z.to_nat msgSize) x00)
                      (replicate (Z.to_nat payloadSize) x00) (Recv.magicNumChecked st)) c
  else if bool_decide (Recv.readSize st < head + length (Recv.bufMsg st))%nat then
    match conn_Read (length (Recv.bufMsg st) - (Recv.readSize st - head)) c with
    | (_, Err e) => RReturn (ExitReadError e)
    | (c, Ok d) =>
      RContinue (Recv.mk (Recv.bufHead st) (Recv.readSize st + length d)
                   (fill (Recv.bufMsg st) (Recv.readSize st - head) d) (Recv.payload st) (Recv.magicNumChecked st)) c
    end
  else if bool_decide (Recv.readSize st < head + length (Recv.bufMsg st) + length (Recv.payload st))%nat then
    let off := (Recv.readSize st - head - length (Recv.bufMsg st))%nat in
    match conn_Read (length (Recv.payload st) - off) c with
    | (_, Err e) => RReturn (ExitReadError e)
    | (c, Ok d) =>
      RContinue (Recv.mk (Recv.bufHead st) (Recv.readSize st + length d) (Recv.bufMsg st)
                   (fill (Recv.payload st) off d) (Recv.magicNumChecked st)) c
    end
  else
    match DecodePre (Recv.bufHead st) with
    | Err e => RReturn (ExitDecodeError e)
    | Ok (msg, _, _) =>
      match msg_Decode (Recv.bufMsg st) msg with
      | Err e => RReturn (ExitDecodeError e)
      | Ok msg => RDeliver msg (Recv.payload st) (Recv.mk (Recv.bufHead st) 0 [] [] (Recv.magicNumChecked st)) c
      end
    end.

#[global] Arguments handleReceive_step {_} _ _ _ : simpl never.

(** The loop: what it sent on [receiveHandle], and why it returned ([None] when
    the fuel ran out).  [ctx i] is whether the context is done when the iteration
    with [i] iterations to go starts. *)
Fixpoint handleReceive `{Cbor} (fuel : nat) (ctx : nat → bool) (st : Recv.t) (c : segments)
    : list (MSG * list byte) * option recv_exit :=
  match fuel with
  | O => ([], None)
  | S fuel =>
    match handleReceive_step (ctx fuel) st c with
    | RContinue st c => handleReceive fuel ctx st c
    | RDeliver m p st c =>
      let '(out, why) := handleReceive fuel ctx st c in ((m, p) :: out, why)
    | RReturn why => ([], Some why)
    end
  end.

(** ** [readResp] *)

(** [io.ReadFull] of [n] bytes from a stream that ends after [s]. *)
Definition ReadFull (n : nat) (s : list byte) : list byte * result (list byte) :=
  if bool_decide (n ≤ length s)%nat then (drop n s, Ok (take n s))
  else ([], Err (if bool_decide (length s = 0)%nat then io_EOF else io_ErrUnexpectedEOF)).

Definition readResp `{Cbor} (conn : list byte) : list byte * result MSG :=
  match ReadFull (Z.to_nat HeadSize) conn with
  | (conn, Err e) => (conn, Err e)
  | (conn, Ok head) =>
    if negb (MagicNumberCheck (at_byte head 0) (at_byte head 1)) then (conn, Err ErrBadProtocol) else
    match DecodePre head with
    | Err e => (conn, Err e)
    | Ok (msg, msgSize, payloadSize) =>
      match ReadFull (Z.to_nat msgSize) conn with
      | (conn, Err e) => (conn, Err e)
      | (conn, Ok body) =>
        match msg_Decode body msg with
        | Err e => (conn, Err e)
        | Ok msg =>
          if 0 <? payloadSize then
            (* io.CopyN(io.Discard, conn, payloadSize) *)
            if bool_decide (Z.to_nat payloadSize ≤ length conn)%nat
            then (drop (Z.to_nat payloadSize) conn, Ok msg)
            else ([], Err io_EOF)
          else (conn, Ok msg)
        end
      end
    end
  end.

(** ** Specification: the bytes on the wire *)

(** A frame with arbitrary bytes in the place of the magic number. *)
Definition frame_with `{Cbor} (magic : byte * byte) (f : MSG * list byte) : list byte :=
  [magic.1; magic.2] ++ drop 2 (frame f.1 f.2).

Definition good_magic : byte * byte := (byte_of_Z MagicA, byte_of_Z MagicB).

(** A stream of frames. *)
Definition wire `{Cbor} (fs : list (MSG * list byte)) : list byte :=
  concat ((λ f, frame f.1 f.2) <$> fs).

(** A stream of frames, each after the magic bytes it is given. *)
Definition wire_with `{Cbor} (fs : list ((byte * byte) * (MSG * list byte))) : list byte :=
  concat ((λ f, frame_with f.1 f.2) <$> fs).

Definition never : nat → bool := λ _, false.

(** ** Lemmas on reads and buffers *)

Definition nonempty (c : segments) : Prop := Forall (λ d, d ≠ []) c.

Lemma conn_Read_spec want c :
  nonempty c → (0 < want)%nat → c ≠ [] →
  ∃ d c', conn_Read want c = (c', Ok d) ∧ (1 ≤ length d ≤ want)%nat
    ∧ concat c = d ++ concat c' ∧ nonempty c'.
Proof.
  intros Hne Hw Hc. destruct c as [|d c]; [done|]. apply Forall_cons in Hne as [Hd Hne].
  assert (0 < length d)%nat by (destruct d; simpl; [done|lia]).
  simpl. case_bool_decide.
  - exists (take want d), c. rewrite take_ge by done. split_and!; try done; lia.
  - exists (take want d), (drop want d :: c). rewrite length_take. split_and!; try lia; try done.
    + simpl. by rewrite app_assoc, take_drop.
    + apply Forall_cons. split; [|done]. intros Heq. apply (f_equal length) in Heq.
      rewrite length_drop in Heq. simpl in Heq. lia.
Qed.

Lemma length_fill buf off d :
  (off + length d ≤ length buf)%nat → length (fill buf off d) = length buf.
Proof. intros. unfold fill. len. Qed.

Lemma take_fill buf off d :
  (off + length d ≤ length buf)%nat →
  take (off + length d) (fill buf off d) = take off buf ++ d.
Proof.
  intros. unfold fill. rewrite app_assoc. apply take_app_length'. len.
Qed.

(** Extending a buffer that holds the first [off] bytes of [s] by the next ones. *)
Lemma fill_extends buf off d s :
  (off + length d ≤ length buf)%nat → take off buf = take off s →
  d = take (length d) (drop off s) →
  take (off + length d) (fill buf off d) = take (off + length d) s.
Proof. intros Hl Ht Hd. rewrite take_fill, Ht, <- take_take_drop by done. by f_equal. Qed.

(** The next bytes of a stream, when the first [k] of [l] were read. *)
Lemma next_bytes (d t l r : list byte) k :
  d ++ t = drop k l ++ r → (length d ≤ length l - k)%nat →
  d = take (length d) (drop k l) ∧ t = drop (k + length d) l ++ r.
Proof.
  intros Heq Hl.
  assert (d = take (length d) (drop k l)) as Hd.
  { rewrite <- (take_app_le (drop k l) r) by len. by rewrite <- Heq, take_app_length. }
  split; [done|]. rewrite <- drop_drop, <- (drop_app_le (drop k l) r) by len.
  by rewrite <- Heq, drop_app_length.
Qed.

(** The part of a read that falls within [l2] of [l1 ++ l2 ++ l3]. *)
Lemma within (d l1 l2 l3 : list byte) k :
  (length l1 ≤ k)%nat → (length d ≤ length l1 + length l2 - k)%nat →
  d = take (length d) (drop k (l1 ++ l2 ++ l3)) →
  d = take (length d) (drop (k - length l1) l2).
Proof.
  intros Hk Hl Hd. rewrite drop_app_ge in Hd by done.
  destruct (decide (k - length l1 ≤ length l2)%nat).
  - rewrite drop_app_le, take_app_le in Hd by len. done.
  - assert (length d = 0)%nat as H0 by lia. rewrite H0 in *. done.
Qed.

(** ** One frame *)

Section OneFrame.
  Context `{CborOk}.
  Context (mg : byte * byte) (m : MSG) (p : list byte) (Hs : sendable m p).

Local Notation body := (cbor_Marshal m).

Definition header : list byte := take 11 (frame_with mg (m, p)).

Lemma frame_with_split : frame_with mg (m, p) = header ++ body ++ p.
Proof. done. Qed.

Lemma length_header : length header = 11%nat.
Proof. done. Qed.

Lemma body_nonempty : (0 < length body)%nat.
Proof.
  destruct (new_msg_type m) as (z & Hz & _).
  pose proof (cbor_roundtrip m z (proj1 Hs) Hz) as Hrt. pose proof (cbor_empty z) as He.
  destruct body; simpl; [|lia]. by rewrite Hrt in He.
Qed.

Lemma DecodePre_header :
  ∃ z, new_msg (msg_Type m) = Some z ∧ DecodePre header = Ok (z, zlen body, zlen p).
Proof.
  destruct (new_msg_type m) as (z & Hz & _). exists z. split; [done|].
  rewrite <- (DecodePre_EncodeMsg_raw m (zlen p) z); try done; try apply Hs.
  split; [apply zlen_nonneg|apply Hs].
Qed.

Lemma header_sizes : Uint32 (slice 3 7 header) = zlen body ∧ Uint32 (drop 7 header) = zlen p.
Proof.
  destruct DecodePre_header as (z & _ & Hd). apply DecodePre_Ok in Hd. by destruct_and!.
Qed.

(** After [k] bytes of the frame: the buffers hold what arrived. *)
Record rinv (k : nat) (st : Recv.t) : Prop := {
  ri_head : length (Recv.bufHead st) = 11%nat;
  ri_size : Recv.readSize st = k;
  ri_bound : (k ≤ 11 + length body + length p)%nat;
  ri_bytes : take k (Recv.bufHead st) = take k header;
  ri_magic : Recv.magicNumChecked st = true ∨ (k ≤ 1)%nat ∧ mg = good_magic;
  ri_alloc :
    (Recv.bufMsg st = [] ∧ Recv.payload st = [] ∧ (k ≤ 11)%nat)
    ∨ ((11 ≤ k)%nat ∧ length (Recv.bufMsg st) = length body ∧ length (Recv.payload st) = length p
       ∧ take (k - 11) (Recv.bufMsg st) = take (k - 11) body
       ∧ take (k - 11 - length body) (Recv.payload st) = take (k - 11 - length body) p);
}.

Definition remaining (k : nat) (st : Recv.t) : nat :=
  2 * (11 + length body + length p - k) + (if bool_decide (Recv.bufMsg st = []) then 1 else 0).

(** The segments hold the rest of the frame and then [r], up to [q] that never comes. *)
Definition feeds (k : nat) (c : segments) (q r : list byte) : Prop :=
  nonempty c ∧ concat c ++ q = drop k (header ++ body ++ p) ++ r.

Lemma feeds_read k c q r want :
  feeds k c q r → c ≠ [] → (0 < want)%nat → (k + want ≤ 11 + length body + length p)%nat →
  ∃ d c', conn_Read want c = (c', Ok d) ∧ (1 ≤ length d ≤ want)%nat
    ∧ d = take (length d) (drop k (header ++ body ++ p)) ∧ feeds (k + length d) c' q r.
Proof.
  intros [Hne Hc] Hcne Hw Hk.
  destruct (conn_Read_spec want c Hne Hw Hcne) as (d & c' & Hr & Hd & Heq & Hne').
  rewrite Heq, <- app_assoc in Hc. apply next_bytes in Hc as [H1 H2].
  2: { rewrite !length_app, length_header. lia. }
  exists d, c'. split_and!; try done; lia.
Qed.

Lemma at_header i st k : rinv k st → (i < k)%nat → at_byte (Recv.bufHead st) i = at_byte header i.
Proof. intros Hi Hk. by rewrite <- (at_byte_take k), (ri_bytes _ _ Hi), at_byte_take. Qed.

Lemma step_head k st c q r :
  rinv k st → feeds k c q r → (k < 11)%nat → c ≠ [] →
  ∃ k' st' c', handleReceive_step false st c = RContinue st' c'
    ∧ rinv k' st' ∧ feeds k' c' q r ∧ (remaining k' st' < remaining k st)%nat.
Proof.
  intros [Hl Hsz Hb Hby Hmg Hal] Hf Hk Hc.
  destruct Hal as [(Hm & Hp & _)|(? & _)]; [|lia].
  destruct (feeds_read k c q r (11 - k) Hf Hc) as (d & c' & Hr & Hd & Hdeq & Hf'); [lia..|].
  assert (rinv (k + length d) (Recv.mk (fill (Recv.bufHead st) k d) (k + length d) [] [] true)) as Hinv.
  { split; simpl.
    - rewrite length_fill; lia.
    - done.
    - lia.
    - apply fill_extends; [lia|done|].
      replace k with (k - length (@nil byte))%nat by (simpl; lia).
      apply (within _ _ _ (body ++ p)); simpl; [lia|len|done].
    - by left.
    - left. split_and!; done || lia. }
  unfold handleReceive_step. rewrite Hsz. change (Z.to_nat HeadSize) with 11%nat.
  rewrite bool_decide_true, Hr, Hm, Hp by lia. cbv zeta.
  assert (∀ b, remaining (k + length d) (Recv.mk (fill (Recv.bufHead st) k d) (k + length d) [] [] b)
    < remaining k st)%nat as Hrem.
  { intros b. unfold remaining. simpl. rewrite Hm. simpl. lia. }
  case_bool_decide as H1; destruct (Recv.magicNumChecked st) eqn:Hck; simpl.
  - eexists _, _, _; split_and!; done.
  - destruct Hmg as [?|[_ Hg]]; [done|].
    change (fill (Recv.bufHead st) k d) with (Recv.bufHead
      (Recv.mk (fill (Recv.bufHead st) k d) (k + length d) [] [] true)).
    rewrite !(at_header _ _ _ Hinv) by lia.
    unfold header. rewrite Hg. change (MagicNumberCheck _ _) with true. simpl.
    eexists _, _, _; split_and!; done.
  - eexists _, _, _; split_and!; done.
  - eexists _, _, _; split_and!; [done| |done|done].
    destruct Hinv as [? ? ? ? ? ?]. split; simpl in *; try done.
    right. destruct Hmg as [?|[_ ?]]; [done|]. split; [lia|done].
Qed.

Lemma head_complete k st : rinv k st → (11 ≤ k)%nat → Recv.bufHead st = header.
Proof.
  intros [Hl _ _ Hby _ _] Hk. rewrite !take_ge in Hby by (rewrite ?Hl, ?length_header; lia). done.
Qed.

Lemma not_in_head k st : rinv k st → (11 ≤ k)%nat →
  bool_decide (Recv.readSize st < Z.to_nat HeadSize)%nat = false.
Proof. intros Hi Hk. rewrite (ri_size _ _ Hi). apply bool_decide_false. change (Z.to_nat HeadSize) with 11%nat. lia. Qed.

Lemma step_alloc k st c q r :
  rinv k st → feeds k c q r → k = 11%nat → Recv.bufMsg st = [] →
  ∃ st', handleReceive_step false st c = RContinue st' c
    ∧ rinv k st' ∧ (remaining k st' < remaining k st)%nat.
Proof.
  intros Hi Hf Hk Hm. unfold handleReceive_step.
  rewrite (not_in_head k) by (done || lia). rewrite Hm. cbn [length]. rewrite bool_decide_true by done.
  rewrite (head_complete k) by (done || lia).
  destruct header_sizes as [-> ->]. cbv zeta.
  rewrite !(proj2 (Z.ltb_ge _ _)) by apply Hs. cbn [orb].
  eexists; split; [done|]. unfold zlen. rewrite !Nat2Z.id.
  pose proof body_nonempty as Hbn. destruct Hi as [Hl Hsz Hb Hby Hmg _]. split.
  - split; simpl; try done. right. rewrite !length_replicate, Hk. split_and!; done || lia.
  - unfold remaining. simpl. rewrite Hm. destruct body; simpl in *; lia.
Qed.

Lemma alloc_of k st : rinv k st → (11 ≤ k)%nat → Recv.bufMsg st ≠ [] →
  length (Recv.bufMsg st) = length body ∧ length (Recv.payload st) = length p
  ∧ take (k - 11) (Recv.bufMsg st) = take (k - 11) body
  ∧ take (k - 11 - length body) (Recv.payload st) = take (k - 11 - length body) p.
Proof. intros [_ _ _ _ _ [(? & _)|(_ & H')]]; [done|]. done. Qed.

Lemma bufMsg_alloc k st : rinv k st → Recv.bufMsg st ≠ [] →
  bool_decide (length (Recv.bufMsg st) = 0)%nat = false.
Proof. intros _ Hne. apply bool_decide_false. by destruct (Recv.bufMsg st). Qed.

Lemma checked_after_head k st : rinv k st → (11 ≤ k)%nat → Recv.magicNumChecked st = true.
Proof. intros [_ _ _ _ [?|[? _]] _]; [done|lia]. Qed.

Lemma step_body k st c q r :
  rinv k st → feeds k c q r → (11 ≤ k < 11 + length body)%nat → Recv.bufMsg st ≠ [] → c ≠ [] →
  ∃ k' st' c', handleReceive_step false st c = RContinue st' c'
    ∧ rinv k' st' ∧ feeds k' c' q r ∧ (remaining k' st' < remaining k st)%nat.
Proof.
  intros Hi Hf Hk Hne Hc. destruct (alloc_of k st Hi) as (Hlm & Hlp & Htm & Htp); [lia|done|].
  unfold handleReceive_step.
  rewrite (not_in_head k), (bufMsg_alloc k) by (done || lia).
  rewrite (ri_size _ _ Hi), Hlm. change (Z.to_nat HeadSize) with 11%nat.
  rewrite bool_decide_true by lia.
  destruct (feeds_read k c q r (length body - (k - 11)) Hf Hc)
    as (d & c' & -> & Hd & Hdeq & Hf'); [lia..|].
  assert (length (fill (Recv.bufMsg st) (k - 11) d) = length body) as Hfl by (rewrite length_fill; lia).
  eexists _, _, _; split_and!; [done| |done|].
  - pose proof (checked_after_head k st Hi) as Hck. destruct Hi as [Hl Hsz Hb Hby Hmg _].
    split; simpl; try done; try lia.
    + rewrite !take_ge in Hby |- * by (rewrite ?Hl, ?length_header; lia). done.
    + left. apply Hck. lia.
    + right. replace (k + length d - 11)%nat with (k - 11 + length d)%nat by lia.
      split_and!; try lia; try done.
      * apply fill_extends; [lia|done|].
        apply (within _ header _ p); rewrite ?length_header; done || lia.
      * by replace (k - 11 + length d - length body)%nat with 0%nat by lia.
  - assert (fill (Recv.bufMsg st) (k - 11) d ≠ []) by (intros He; rewrite He in Hfl; simpl in Hfl; lia).
    unfold remaining. simpl. rewrite !bool_decide_false by done. lia.
Qed.

Lemma step_payload k st c q r :
  rinv k st → feeds k c q r → (11 + length body ≤ k < 11 + length body + length p)%nat →
  Recv.bufMsg st ≠ [] → c ≠ [] →
  ∃ k' st' c', handleReceive_step false st c = RContinue st' c'
    ∧ rinv k' st' ∧ feeds k' c' q r ∧ (remaining k' st' < remaining k st)%nat.
Proof.
  intros Hi Hf Hk Hne Hc. destruct (alloc_of k st Hi) as (Hlm & Hlp & Htm & Htp); [lia|done|].
  unfold handleReceive_step.
  rewrite (not_in_head k), (bufMsg_alloc k) by (done || lia).
  rewrite (ri_size _ _ Hi), Hlm, Hlp. change (Z.to_nat HeadSize) with 11%nat.
  rewrite bool_decide_false, bool_decide_true by lia. cbv zeta.
  destruct (feeds_read k c q r (length p - (k - 11 - length body)) Hf Hc)
    as (d & c' & -> & Hd & Hdeq & Hf'); [lia..|].
  assert (length (fill (Recv.payload st) (k - 11 - length body) d) = length p) as Hfl
    by (rewrite length_fill; lia).
  eexists _, _, _; split_and!; [done| |done|].
  - pose proof (checked_after_head k st Hi) as Hck. destruct Hi as [Hl Hsz Hb Hby Hmg _].
    split; simpl; try done; try lia.
    + rewrite !take_ge in Hby |- * by (rewrite ?Hl, ?length_header; lia). done.
    + left. apply Hck. lia.
    + right. split_and!; try lia; try done.
      * rewrite !take_ge in Htm |- * by lia. done.
      * replace (k + length d - 11 - length body)%nat with (k - 11 - length body + length d)%nat by lia.
        apply fill_extends; [lia|done|].
        rewrite <- Nat.sub_add_distr, <- length_header, <- length_app.
        apply (within _ _ _ []); rewrite ?length_app, ?length_header; [lia..|].
        by rewrite app_nil_r, <- app_assoc.
  - unfold remaining. simpl. rewrite !bool_decide_false by done. lia.
Qed.

Lemma step_deliver k st c :
  rinv k st → k = (11 + length body + length p)%nat → Recv.bufMsg st ≠ [] →
  handleReceive_step false st c = RDeliver m p (Recv.mk header 0 [] [] true) c.
Proof.
  intros Hi Hk Hne. destruct (alloc_of k st Hi) as (Hlm & Hlp & Htm & Htp); [lia|done|].
  unfold handleReceive_step.
  rewrite (not_in_head k), (bufMsg_alloc k) by (done || lia).
  rewrite (ri_size _ _ Hi), Hlm, Hlp. change (Z.to_nat HeadSize) with 11%nat.
  rewrite !bool_decide_false, (head_complete k), (checked_after_head k) by (done || lia).
  destruct DecodePre_header as (z & Hz & ->).
  rewrite !take_ge in Htm by lia. rewrite !take_ge in Htp by lia. rewrite Htm, Htp.
  unfold msg_Decode. by rewrite (cbor_roundtrip m z (proj1 Hs) Hz).
Qed.

Lemma step_starved k st q r :
  rinv k st → feeds k [] q r → (k < 11 + length body + length p)%nat →
  (11 ≤ k)%nat → Recv.bufMsg st ≠ [] →
  handleReceive_step false st [] = RReturn (ExitReadError io_EOF).
Proof.
  intros Hi Hf Hk H11 Hne. destruct (alloc_of k st Hi) as (Hlm & Hlp & Htm & Htp); [lia|done|].
  unfold handleReceive_step.
  rewrite (not_in_head k), (bufMsg_alloc k) by (done || lia).
  rewrite (ri_size _ _ Hi), Hlm, Hlp. change (Z.to_nat HeadSize) with 11%nat.
  case_bool_decide; [done|]. rewrite bool_decide_true by lia. done.
Qed.

Lemma starved_in_head st : (Recv.readSize st < 11)%nat →
  handleReceive_step false st [] = RReturn (ExitReadError io_EOF).
Proof.
  intros Hr. unfold handleReceive_step. change (Z.to_nat HeadSize) with 11%nat.
  by rewrite bool_decide_true.
Qed.

Lemma rinv_start h b :
  length h = 11%nat → b = true ∨ mg = good_magic → rinv 0 (Recv.mk h 0 [] [] b).
Proof.
  intros Hh Hb. split; simpl; try done; try lia.
  - destruct Hb; [by left|right; split; [lia|done]].
  - left. split_and!; done || lia.
Qed.

Lemma feeds_total k c q r : feeds k c q r →
  (length (concat c) + length q = 11 + length body + length p - k + length r)%nat.
Proof.
  intros [_ Heq]. apply (f_equal length) in Heq.
  rewrite !length_app, length_drop, !length_app, length_header in Heq. lia.
Qed.

(** Any iteration that is not the last one of the frame makes progress. *)
Lemma step_progress k st c q r :
  rinv k st → feeds k c q r → c ≠ [] ∨ k = 11%nat ∧ Recv.bufMsg st = [] →
  (k < 11 + length body + length p)%nat →
  ∃ k' st' c', handleReceive_step false st c = RContinue st' c'
    ∧ rinv k' st' ∧ feeds k' c' q r ∧ (remaining k' st' < remaining k st)%nat.
Proof.
  intros Hi Hf Hc Hk. pose proof Hi as [_ _ _ _ _ Hal].
  destruct (decide (k < 11)%nat); [destruct Hc as [?|[? _]]; [by eapply step_head|lia]|].
  destruct (decide (Recv.bufMsg st = [])) as [Hm|Hm].
  - assert (k = 11%nat) as -> by (destruct Hal as [|(_ & Hlm & _)]; [lia|];
      rewrite Hm in Hlm; pose proof body_nonempty; simpl in *; lia).
    destruct (step_alloc 11 st c q r) as (st' & ? & ? & ?); eauto 10.
  - destruct Hc as [Hc|[_ ?]]; [|done].
    destruct (decide (k < 11 + length body)%nat); [eapply step_body|eapply step_payload]; done || lia.
Qed.

Lemma unallocated_total st k : rinv k st → k = (11 + length body + length p)%nat → Recv.bufMsg st ≠ [].
Proof.
  intros [_ _ _ _ _ [(_ & _ & ?)|(_ & Hlm & _)]] Hk Hm; pose proof body_nonempty; [lia|].
  rewrite Hm in Hlm. simpl in Hlm. lia.
Qed.

Lemma receive_frame k st c r :
  rinv k st → feeds k c [] r →
  ∃ n c', nonempty c' ∧ concat c' = r ∧ ∀ fuel,
    handleReceive (n + fuel) never st c =
      let '(out, why) := handleReceive fuel never (Recv.mk header 0 [] [] true) c' in
      ((m, p) :: out, why).
Proof.
  remember (remaining k st) as N eqn:HN. revert k st c HN.
  induction N as [N IH] using lt_wf_ind. intros k st c -> Hi Hf.
  pose proof (ri_bound _ _ Hi) as Hb.
  destruct (decide (k = 11 + length body + length p)%nat) as [Hk|Hk].
  - exists 1%nat, c. destruct Hf as [Hne Heq]. rewrite app_nil_r in Heq.
    split_and!; [done| |].
    + rewrite Heq, drop_ge; [done|]. rewrite !length_app, length_header. lia.
    + intros fuel. cbn [handleReceive Nat.add]. unfold never at 1.
      by rewrite (step_deliver k st c Hi Hk (unallocated_total st k Hi Hk)).
  - destruct (step_progress k st c [] r) as (k' & st' & c' & Hst & Hi' & Hf' & Hlt); try done; [|lia|].
    { left. intros ->. apply feeds_total in Hf. simpl in Hf. lia. }
    destruct (IH _ Hlt k' st' c' eq_refl Hi' Hf') as (n & c'' & Hne & Heq & Hrun).
    exists (S n), c''. split_and!; try done. intros fuel. cbn [handleReceive Nat.add]. unfold never at 1. by rewrite Hst.
Qed.

Lemma receive_partial k st c q :
  rinv k st → feeds k c q [] → q ≠ [] →
  ∃ n, ∀ fuel, handleReceive (n + fuel) never st c = ([], Some (ExitReadError io_EOF)).
Proof.
  intros Hi Hf Hq. remember (remaining k st) as N eqn:HN. revert k st c HN Hi Hf.
  induction N as [N IH] using lt_wf_ind. intros k st c -> Hi Hf.
  pose proof (feeds_total k c q [] Hf) as Htot.
  assert (0 < length q)%nat by (destruct q; simpl; [done|lia]). simpl in Htot.
  destruct (decide (c = [] ∧ ¬ (k = 11%nat ∧ Recv.bufMsg st = []))) as [[-> Hno]|Hgo].
  - exists 1%nat. intros fuel. cbn [handleReceive Nat.add]. unfold never at 1.
    assert (handleReceive_step false st [] = RReturn (ExitReadError io_EOF)) as ->; [|done].
    destruct (decide (k < 11)%nat); [apply starved_in_head; rewrite (ri_size _ _ Hi); lia|].
    eapply step_starved; try done; try lia.
    intros Hm. apply Hno. split; [|done]. destruct (ri_alloc _ _ Hi) as [|(_ & Hlm & _)]; [lia|].
    rewrite Hm in Hlm. pose proof body_nonempty. simpl in *. lia.
  - destruct (step_progress k st c q []) as (k' & st' & c' & Hst & Hi' & Hf' & Hlt); try done; [|lia|].
    { destruct (decide (c = [])); [|by left]. right. destruct (decide (k = 11%nat ∧ Recv.bufMsg st = [])); tauto. }
    destruct (IH _ Hlt k' st' c' eq_refl Hi' Hf') as (n & Hrun).
    exists (S n). intros fuel. cbn [handleReceive Nat.add]. unfold never at 1. by rewrite Hst.
Qed.

End OneFrame.
#[global] Arguments header {_} _ _ _ : simpl never.

(** ** A stream of frames *)

(** The magic bytes of the frame that starts at the front of the stream. *)
Definition first_magic (fs : list ((byte * byte) * (MSG * list byte))) (mgt : byte * byte)
    : byte * byte :=
  match fs with [] => mgt | f :: _ => f.1 end.

Section Stream.
  Context `{CborOk}.

Lemma frame_with_good f : frame_with good_magic f = frame f.1 f.2.
Proof. done. Qed.

Lemma wire_with_good fs : wire_with ((λ f, (good_magic, f)) <$> fs) = wire fs.
Proof. unfold wire_with, wire. by rewrite <- list_fmap_compose. Qed.

(** [tail] is a proper prefix of a frame. *)
Definition partial_frame (mg : byte * byte) (tail : list byte) : Prop :=
  ∃ f q, sendable f.1 f.2 ∧ frame_with mg f = tail ++ q ∧ q ≠ [].

Lemma receive_stream fs mgt tail h b c :
  Forall (λ f, sendable f.2.1 f.2.2) fs → partial_frame mgt tail →
  length h = 11%nat → b = true ∨ first_magic fs mgt = good_magic →
  nonempty c → concat c = wire_with fs ++ tail →
  ∃ n, ∀ fuel, handleReceive (n + fuel) never (Recv.mk h 0 [] [] b) c
    = (snd <$> fs, Some (ExitReadError io_EOF)).
Proof.
  intros Hfs Ht. revert h b c. induction Hfs as [|[mg [m p]] fs Hs Hfs IH]; intros h b c Hh Hb Hne Hc.
  - destruct Ht as ([m p] & q & Hs & Hf & Hq).
    apply (receive_partial mgt m p Hs 0 _ _ q); [by apply rinv_start| |done].
    split; [done|]. by rewrite Hc, drop_0, app_nil_r, <- frame_with_split, Hf.
  - destruct (receive_frame mg m p Hs 0 (Recv.mk h 0 [] [] b) c (wire_with fs ++ tail))
      as (n & c' & Hne' & Hc' & Hrun).
    { by apply rinv_start. }
    { split; [done|]. rewrite app_nil_r, Hc, drop_0, <- frame_with_split. symmetry. apply app_assoc. }
    destruct (IH (header mg m p) true c') as (n' & Hrun'); [done|by left|done|done|].
    exists (n + n')%nat. intros fuel. by rewrite <- Nat.add_assoc, Hrun, Hrun'.
Qed.

End Stream.

(** ** Bounds *)

(** What every iteration keeps, whatever arrives: the buffers are within the
    protocol's limits, the slices the loop reads into are in range, and the buffers have the
    sizes the header announces once they are allocated, which is after the header. *)
Record recv_wf (st : Recv.t) : Prop := {
  wf_head : zlen (Recv.bufHead st) = HeadSize;
  wf_msg : zlen (Recv.bufMsg st) <= MaxMsgSize;
  wf_payload : zlen (Recv.payload st) <= MaxPayloadSize;
  wf_size : Z.of_nat (Recv.readSize st) <= HeadSize + zlen (Recv.bufMsg st) + zlen (Recv.payload st);
  wf_unalloc : Recv.bufMsg st = [] → (Recv.readSize st ≤ 11)%nat;
  wf_header : (Recv.readSize st < 11)%nat → Recv.bufMsg st = [] ∧ Recv.payload st = [];
  wf_announced : Recv.bufMsg st ≠ [] ∨ Recv.payload st ≠ [] →
    zlen (Recv.bufMsg st) = Uint32 (slice 3 7 (Recv.bufHead st))
    ∧ zlen (Recv.payload st) = Uint32 (drop 7 (Recv.bufHead st));
}.

Lemma conn_Read_Ok want c c' d : conn_Read want c = (c', Ok d) → (length d ≤ want)%nat.
Proof. destruct c; simpl; intros; simplify_eq. rewrite length_take. lia. Qed.

Lemma zlen_fill buf off d : (off + length d ≤ length buf)%nat → zlen (fill buf off d) = zlen buf.
Proof. intros. unfold zlen. by rewrite length_fill. Qed.

Lemma be32_range l : 0 <= Uint32 l.
Proof. unfold Uint32. apply be_get_range. Qed.

Lemma zlen_replicate {A} (x : A) n : 0 <= n → zlen (replicate (Z.to_nat n) x) = n.
Proof. intros. unfold zlen. rewrite length_replicate. lia. Qed.

Lemma recv_wf_init : recv_wf Recv.init.
Proof. split; try (vm_compute; intros; done || lia). Qed.

Lemma recv_wf_step `{Cbor} ctx st c :
  recv_wf st →
  match handleReceive_step ctx st c with
  | RContinue st' _ => recv_wf st'
  | RDeliver _ p st' _ => recv_wf st' ∧ zlen p <= MaxPayloadSize
  | RReturn _ => True
  end.
Proof.
  intros [Hh Hm Hp Hsz Hu He Ha]. unfold handleReceive_step. destruct ctx; [done|].
  change HeadSize with 11 in *. change (Z.to_nat 11) with 11%nat. unfold zlen in *.
  case_bool_decide as H1.
  { destruct (conn_Read _ c) as [c' [d|e]] eqn:Hr; [|done]. apply conn_Read_Ok in Hr. cbv zeta.
    destruct (He H1) as [Em Ep].
    assert (∀ b, recv_wf (Recv.mk (fill (Recv.bufHead st) (Recv.readSize st) d)
      (Recv.readSize st + length d) (Recv.bufMsg st) (Recv.payload st) b)) as Hwf.
    { rewrite Em, Ep. intros b. split; simpl; unfold zlen; rewrite ?length_fill by lia; change HeadSize with 11; intros; try done; try lia.
      by destruct H0. }
    destruct (_ && _); [destruct (negb _); [done|]|]; apply Hwf. }
  case_bool_decide as H2.
  { cbv zeta. destruct (_ || _) eqn:Hov; [done|]. zbool.
    apply nil_length_inv in H2. pose proof (Hu H2).
    pose proof (be32_range (slice 3 7 (Recv.bufHead st))).
    pose proof (be32_range (drop 7 (Recv.bufHead st))).
    split; simpl; unfold zlen; rewrite ?length_replicate; change HeadSize with 11; intros; lia. }
  assert (Recv.bufMsg st ≠ []) as Hne by (by intros Heq; rewrite Heq in H2).
  destruct (Ha (or_introl Hne)) as [Am Ap].
  assert (∀ l : list byte, length l = length (Recv.bufMsg st) → l ≠ []) as Hgrow
    by (intros l Hl ->; simpl in Hl; lia).
  case_bool_decide as H3.
  { destruct (conn_Read _ c) as [c' [d|e]] eqn:Hr; [|done]. apply conn_Read_Ok in Hr.
    assert (length (fill (Recv.bufMsg st) (Recv.readSize st - 11) d) = length (Recv.bufMsg st)) as Hl
      by (apply length_fill; lia).
    split; simpl; unfold zlen; rewrite ?Hl; change HeadSize with 11; try lia; try done.
    intros Heq. by destruct (Hgrow _ Hl). }
  case_bool_decide as H4.
  { cbv zeta. destruct (conn_Read _ c) as [c' [d|e]] eqn:Hr; [|done]. apply conn_Read_Ok in Hr.
    split; simpl; unfold zlen; rewrite ?length_fill by lia; change HeadSize with 11; try lia; done. }
  destruct (DecodePre _) as [[[z ms] ps]|e]; [|done]. destruct (msg_Decode _ _); [|done].
  split; [|done]. split; simpl; unfold zlen; simpl; change HeadSize with 11; try lia; try done. by intros [[]|[]].
Qed.

(** States the loop reaches, whatever the peer sends and however reads are cut. *)
Inductive recv_reach `{Cbor} : Recv.t → Prop :=
  | reach_init : recv_reach Recv.init
  | reach_continue ctx st c st' c' :
      recv_reach st → handleReceive_step ctx st c = RContinue st' c' → recv_reach st'
  | reach_deliver ctx st c m p st' c' :
      recv_reach st → handleReceive_step ctx st c = RDeliver m p st' c' → recv_reach st'.

Lemma recv_reach_wf `{Cbor} st : recv_reach st → recv_wf st.
Proof.
  induction 1 as [|ctx st c st' c' _ IH Hst|ctx st c m p st' c' _ IH Hst];
    [apply recv_wf_init| |]; pose proof (recv_wf_step ctx st c IH) as Hw; rewrite Hst in Hw; [done|].
  apply Hw.
Qed.

(** ** An empty message body *)

(** The header of a frame whose message body has no bytes. *)
Definition empty_body_header (t : byte) (ps : Z) : list byte :=
  [byte_of_Z MagicA; byte_of_Z MagicB; t] ++ PutUint32 0 ++ PutUint32 (u32 ps).

(** The state in which the loop spins on such a header. *)
Definition spinning (t : byte) (ps : Z) (pl : list byte) : Recv.t :=
  Recv.mk (empty_body_header t ps) 11 [] pl true.

Lemma spin `{Cbor} t ps pl c : 0 <= ps <= MaxPayloadSize →
  handleReceive_step false (spinning t ps pl) c
  = RContinue (spinning t ps (replicate (Z.to_nat ps) x00)) c.
Proof.
  intros Hp. unfold handleReceive_step, spinning. simpl Recv.readSize. simpl Recv.bufMsg.
  rewrite bool_decide_false by (vm_compute; lia). cbn [length]. rewrite bool_decide_true by done.
  cbn [Recv.bufHead Recv.magicNumChecked Recv.bufMsg].
  assert (Uint32 (slice 3 7 (empty_body_header t ps)) = 0) as -> by done.
  assert (Uint32 (drop 7 (empty_body_header t ps)) = ps) as ->.
  { change (drop 7 _) with (PutUint32 (u32 ps)). rewrite <- (app_nil_r (PutUint32 _)).
    by rewrite Uint32_PutUint32, u32_idem, sizes_fit. }
  cbv zeta. rewrite (proj2 (Z.ltb_ge _ 0)), (proj2 (Z.ltb_ge _ ps)) by (done || lia). done.
Qed.

Lemma spins_forever `{Cbor} t ps pl c fuel : 0 <= ps <= MaxPayloadSize →
  handleReceive fuel never (spinning t ps pl) c = ([], None).
Proof.
  intros Hp. revert pl. induction fuel as [|fuel IH]; intros pl; [done|].
  cbn [handleReceive]. unfold never at 1. by rewrite spin.
Qed.

Lemma empty_header_read `{Cbor} t ps rest c :
  handleReceive_step false Recv.init ((empty_body_header t ps ++ rest) :: c)
  = RContinue (spinning t ps [])
      (if bool_decide (length (empty_body_header t ps ++ rest) ≤ 11)%nat then c
       else drop 11 (empty_body_header t ps ++ rest) :: c).
Proof. done. Qed.
