(* ===== verification/ReceiveSpec.v ===== *)
(** The properties of the client's frame readers (Receive.v): reassembly is
    independent of how the stream is cut into reads and delivers exactly the frames
    sent, its buffers stay within the limits of the protocol, and two behaviours at
    the edge: frames after the first are not checked for the magic number, and an
    empty message body makes the loop spin. *)
From S2P Require Import Prelude Message PlainCodec MessageSpec Receive.
From Stdlib Require Import Strings.Byte.

Definition demo_res : MSG :=
  MWriteRes {| WriteRes.ID := 7; WriteRes.Success := true; WriteRes.N := 5; WriteRes.Error := "" |}.
Definition demo_stream : list (MSG * list byte) :=
  [(MWriteReq demo_req, demo_payload); (demo_res, [])].

Lemma demo_res_sendable : sendable demo_res [].
Proof. split_and!; vm_compute; intuition congruence. Qed.

Lemma demo_stream_sendable : Forall (λ f, sendable f.1 f.2) demo_stream.
Proof. constructor; [apply demo_sendable|]. constructor; [apply demo_res_sendable|constructor]. Qed.

(** The bytes of the stream, cut into segments of one to three bytes. *)
Fixpoint cut (l : list byte) : segments :=
  match l with
  | a :: b :: c :: l => [a] :: [b; c] :: cut l
  | [] => []
  | l => [l]
  end.

(** C9: for any list of sendable frames written to the connection, followed by a
    proper prefix of one more, and however the connection cuts the bytes into reads,
    [handleReceive] delivers exactly those frames, in order, and then waits for the
    rest (here: until the read fails); some number of iterations is enough. *)
Theorem handleReceive_stream `{CborOk} (fs : list (MSG * list byte)) (tail : list byte) (c : segments) :
  Forall (λ f, sendable f.1 f.2) fs →
  (∃ f q, sendable f.1 f.2 ∧ frame f.1 f.2 = tail ++ q ∧ q ≠ []) →
  Forall (λ d, d ≠ []) c → concat c = wire fs ++ tail →
  ∃ n, ∀ fuel, (n ≤ fuel)%nat →
    handleReceive fuel never Recv.init c = (fs, Some (ExitReadError io_EOF)).
Proof.
  intros Hfs Ht Hne Hc.
  destruct (receive_stream ((λ f, (good_magic, f)) <$> fs) good_magic tail
    (replicate (Z.to_nat HeadSize) x00) false c) as (n & Hn); try done.
  - by apply Forall_fmap.
  - right. by destruct fs.
  - by rewrite wire_with_good.
  - exists n. intros fuel Hf. replace fuel with (n + (fuel - n))%nat by lia.
    unfold Recv.init. by rewrite Hn, <- list_fmap_compose, list_fmap_id.
Qed.

Lemma handleReceive_stream_witness :
  ∃ n, ∀ fuel, (n ≤ fuel)%nat →
    handleReceive fuel never Recv.init (cut (wire demo_stream ++ [xa8; xd5; x00]))
    = (demo_stream, Some (ExitReadError io_EOF)).
Proof.
  apply (handleReceive_stream demo_stream [xa8; xd5; x00]).
  - apply demo_stream_sendable.
  - exists (MCreateReq CreateReq.zero, []), (drop 3 (frame (MCreateReq CreateReq.zero) [])).
    split_and!; vm_compute; intuition congruence.
  - vm_compute. repeat constructor; congruence.
  - reflexivity.
Defined.

(** C37: whatever bytes the peer sends and however they are cut into reads, in every
    state [handleReceive] reaches the header buffer has its eleven bytes; while the header is
    incomplete the other buffers are unallocated; once they are allocated, the message buffer has
    the message size and the payload buffer the payload size that the header announces; both are
    within the protocol's maxima, and the read position is within the three buffers. *)
Theorem handleReceive_bounds `{Cbor} (st : Recv.t) :
  recv_reach st →
  zlen (Recv.bufHead st) = HeadSize
  ∧ (Z.of_nat (Recv.readSize st) < HeadSize → Recv.bufMsg st = [] ∧ Recv.payload st = [])
  ∧ (Recv.bufMsg st ≠ [] ∨ Recv.payload st ≠ [] →
     zlen (Recv.bufMsg st) = Uint32 (slice 3 7 (Recv.bufHead st))
     ∧ zlen (Recv.payload st) = Uint32 (drop 7 (Recv.bufHead st)))
  ∧ zlen (Recv.bufMsg st) <= MaxMsgSize ∧ zlen (Recv.payload st) <= MaxPayloadSize
  ∧ Z.of_nat (Recv.readSize st) <= HeadSize + zlen (Recv.bufMsg st) + zlen (Recv.payload st).
Proof.
  intros Hr. apply recv_reach_wf in Hr. destruct Hr as [? ? ? ? ? He ?]. split_and!; try done.
  intros Hlt. apply He. change HeadSize with 11 in Hlt. lia.
Qed.

Lemma handleReceive_bounds_witness :
  let st := spinning x00 5 (replicate 5 x00) in
  zlen (Recv.bufHead st) = HeadSize ∧ zlen (Recv.payload st) = Uint32 (drop 7 (Recv.bufHead st))
  ∧ zlen (Recv.bufMsg st) <= MaxMsgSize ∧ zlen (Recv.payload st) <= MaxPayloadSize.
Proof.
  intros st. destruct (handleReceive_bounds st) as (Hh & _ & Ha & Hm & Hp & _).
  - eapply (reach_continue false (spinning x00 5 []) []); [|reflexivity].
    eapply (reach_continue false Recv.init [empty_body_header x00 5]); [constructor|reflexivity].
  - split; [exact Hh|]. split; [|split; [exact Hm|exact Hp]]. apply Ha. right. discriminate.
Defined.

(** The magic number is checked on the first frame of a connection only: frames
    whose first two bytes are anything at all are delivered like good ones once a
    good frame came first, although [ReadMessage] refuses each of them. *)
Theorem handleReceive_ignores_later_magic `{CborOk} (f : MSG * list byte)
    (fs : list ((byte * byte) * (MSG * list byte))) (c : segments) :
  Forall (λ f, sendable f.2.1 f.2.2) ((good_magic, f) :: fs) →
  Forall (λ d, d ≠ []) c → concat c = frame f.1 f.2 ++ wire_with fs →
  (∃ n, ∀ fuel, (n ≤ fuel)%nat →
     handleReceive fuel never Recv.init c = (f :: (snd <$> fs), Some (ExitReadError io_EOF)))
  ∧ Forall (λ g, MagicNumberCheck g.1.1 g.1.2 = false →
       ReadMessage (R:=conn_buf) (frame_with g.1 g.2) = (frame_with g.1 g.2, Err ErrBadProtocol)) fs.
Proof.
  intros Hfs Hne Hc. split.
  - destruct (receive_stream ((good_magic, f) :: fs) (x00, x00) []
      (replicate (Z.to_nat HeadSize) x00) false c) as (n & Hn); try done.
    + exists f, (frame_with (x00, x00) f). apply Forall_cons in Hfs as [Hf _]. done.
    + by right.
    + rewrite Hc, app_nil_r. done.
    + exists n. intros fuel Hf. replace fuel with (n + (fuel - n))%nat by lia.
      unfold Recv.init. by rewrite Hn.
  - apply Forall_forall. intros [mg [gm gp]] _ Hmg. cbn [fst snd] in *. rewrite ReadMessage_parse. cbn [unread conn_buf_reader_ok].
    unfold parse_frame. rewrite frame_with_split. rewrite (proj2 (Z.ltb_ge _ 2)) by (unfold zlen; rewrite length_app, length_header; lia).
    change (at_byte _ 0) with mg.1. change (at_byte _ 1) with mg.2. by rewrite Hmg.
Qed.

Lemma handleReceive_ignores_later_magic_witness :
  (∃ n, ∀ fuel, (n ≤ fuel)%nat →
     handleReceive fuel never Recv.init
       (cut (frame demo_res [] ++ wire_with [((x00, x00), (demo_res, []))]))
     = ([(demo_res, []); (demo_res, [])], Some (ExitReadError io_EOF)))
  ∧ Forall (λ g, MagicNumberCheck g.1.1 g.1.2 = false →
       ReadMessage (R:=conn_buf) (frame_with g.1 g.2) = (frame_with g.1 g.2, Err ErrBadProtocol))
      [((x00, x00), (demo_res, []))].
Proof.
  apply (handleReceive_ignores_later_magic (demo_res, []) [((x00, x00), (demo_res, []))]).
  - constructor; [apply demo_res_sendable|]. constructor; [apply demo_res_sendable|constructor].
  - vm_compute. repeat constructor; congruence.
  - reflexivity.
Defined.

(** After a header that announces an empty message body, [handleReceive] never
    reads again and never returns (unless the context is cancelled): for every
    number of iterations it has delivered nothing and is still running, whatever the
    connection holds. *)
Theorem handleReceive_empty_body_spins `{Cbor} (t : byte) (payloadSize : Z) (rest : list byte)
    (c : segments) (fuel : nat) :
  0 <= payloadSize <= MaxPayloadSize →
  handleReceive fuel never Recv.init ((empty_body_header t payloadSize ++ rest) :: c) = ([], None).
Proof.
  intros Hp. destruct fuel as [|fuel]; [done|].
  cbn [handleReceive]. unfold never at 1. rewrite empty_header_read. by apply spins_forever.
Qed.

Lemma handleReceive_empty_body_spins_witness :
  handleReceive 1000 never Recv.init [empty_body_header x01 0 ++ [x61]] = ([], None).
Proof. apply (handleReceive_empty_body_spins x01 0 [x61] [] 1000). vm_compute. intuition congruence. Defined.

(** [readResp] on a stream that starts with a frame returns its message, drops
    its payload and leaves the stream right after the frame. *)
Theorem readResp_frame `{CborOk} (msg : MSG) (payload rest : list byte) :
  sendable msg payload → readResp (frame msg payload ++ rest) = (rest, Ok msg).
Proof.
  intros Hs. rewrite <- (frame_with_good (msg, payload)), (frame_with_split good_magic msg payload).
  rewrite <- !app_assoc. unfold readResp, ReadFull. change (Z.to_nat HeadSize) with 11%nat.
  rewrite bool_decide_true by (rewrite !length_app, length_header; lia).
  rewrite take_app_length', drop_app_length' by done.
  change (MagicNumberCheck _ _) with true. simpl negb. cbv iota.
  destruct (DecodePre_header good_magic msg payload Hs) as (z & Hz & ->).
  unfold zlen. rewrite !Nat2Z.id, bool_decide_true by (rewrite length_app; lia).
  rewrite take_app_length, drop_app_length. unfold msg_Decode.
  rewrite (cbor_roundtrip msg z (proj1 Hs) Hz).
  destruct (0 <? _) eqn:E; zbool.
  - by rewrite bool_decide_true, drop_app_length by (rewrite length_app; lia).
  - by rewrite (nil_length_inv payload) by lia.
Qed.

Lemma readResp_frame_witness :
  readResp (frame (MWriteReq demo_req) demo_payload ++ [x01; x02]) = ([x01; x02], Ok (MWriteReq demo_req)).
Proof. apply (readResp_frame _ _ _ demo_sendable). Defined.
