(* ===== verification/GoStd.v ===== *)
(** The functions of Go's [strings] and [path/filepath] the program calls (on
    Unix).  All of them are executable; the lemmas say that a cleaned path is a
    canonical spelling. *)
From S2P Require Import Prelude.
From Stdlib Require Import Ascii.

Local Open Scope string_scope.

(** ** [strings] *)

Fixpoint HasPrefix (s p : string) : bool :=
  match p, s with
  | EmptyString, _ => true
  | String c p, String d s => Ascii.eqb c d && HasPrefix s p
  | String _ _, EmptyString => false
  end.

Fixpoint str_rev_app (s acc : string) : string :=
  match s with EmptyString => acc | String c s => str_rev_app s (String c acc) end.
Definition str_rev (s : string) : string := str_rev_app s "".

Definition HasSuffix (s p : string) : bool := HasPrefix (str_rev s) (str_rev p).

(** [s[n:]] and [s[:n]]. *)
Fixpoint str_drop (n : nat) (s : string) : string :=
  match n, s with
  | O, _ => s
  | S n, String _ s => str_drop n s
  | S _, EmptyString => ""
  end.
Fixpoint str_take (n : nat) (s : string) : string :=
  match n, s with
  | S n, String c s => String c (str_take n s)
  | _, _ => ""
  end.

(** [strings.Index(s, c)] for a one-byte [c]; [None] is -1. *)
Fixpoint Index (s : string) (c : ascii) : option nat :=
  match s with
  | EmptyString => None
  | String d s => if Ascii.eqb d c then Some O else S <$> Index s c
  end.

(** [strings.LastIndex(s, c)] for a one-byte [c]. *)
Fixpoint LastIndex (s : string) (c : ascii) : option nat :=
  match s with
  | EmptyString => None
  | String d s =>
    match LastIndex s c with
    | Some i => Some (S i)
    | None => if Ascii.eqb d c then Some O else None
    end
  end.

Definition Contains (s : string) (c : ascii) : bool := bool_decide (is_Some (Index s c)).

(** [strings.ContainsAny(s, chars)]. *)
Fixpoint ContainsAny (s chars : string) : bool :=
  match s with
  | EmptyString => false
  | String c s => Contains chars c || ContainsAny s chars
  end.

(** [strings.Split(s, sep)] for a one-byte [sep]. *)
Fixpoint Split (s : string) (sep : ascii) : list string :=
  match s with
  | EmptyString => [""]
  | String c s =>
    if Ascii.eqb c sep then "" :: Split s sep else
    match Split s sep with
    | [] => [String c ""]
    | w :: ws => String c w :: ws
    end
  end.

(** [strings.Join(l, sep)] for a one-byte [sep]. *)
Fixpoint StrJoin (l : list string) (sep : ascii) : string :=
  match l with
  | [] => ""
  | [w] => w
  | w :: l => w ++ String sep (StrJoin l sep)
  end.

(** ASCII white space, as [unicode.IsSpace] has it below 0x80. *)
Definition is_space (c : ascii) : bool :=
  let n := N_of_ascii c in ((9 <=? n) && (n <=? 13) || (n =? 32))%N.

Fixpoint trim_left (s : string) : string :=
  match s with
  | String c r => if is_space c then trim_left r else s
  | EmptyString => ""
  end.

(** [strings.TrimSpace] on ASCII text. *)
Definition TrimSpace (s : string) : string := str_rev (trim_left (str_rev (trim_left s))).

(** [strings.Repeat]. *)
Fixpoint Repeat (s : string) (n : nat) : string :=
  match n with O => "" | S n => s ++ Repeat s n end.

(** ** [path/filepath] *)

Definition slash : ascii := "/"%char.

Definition IsAbs (p : string) : bool := HasPrefix p "/".

(** One path element of [Clean]: the stack holds the elements kept so far, last first. *)
Definition clean_step (rooted : bool) (stack : list string) (e : string) : list string :=
  if bool_decide (e = "") || bool_decide (e = ".") then stack else
  if bool_decide (e = "..") then
    match stack with
    | [] => if rooted then [] else [".."]
    | d :: st => if bool_decide (d = "..") then ".." :: stack else st
    end
  else e :: stack.

Definition clean_elems (rooted : bool) (l : list string) : list string :=
  reverse (foldl (clean_step rooted) [] l).

Definition Clean (p : string) : string :=
  let rooted := IsAbs p in
  let body := StrJoin (clean_elems rooted (Split p slash)) slash in
  if rooted then "/" ++ body else if bool_decide (body = "") then "." else body.

(** [filepath.Join]: from the first non-empty element on. *)
Fixpoint Join (l : list string) : string :=
  match l with
  | [] => ""
  | e :: l' => if bool_decide (e = "") then Join l' else Clean (StrJoin l slash)
  end.

(** The part of a path after its last slash, and the part up to it. *)
Definition after_slash (p : string) : string :=
  match LastIndex p slash with Some i => str_drop (S i) p | None => p end.
Definition upto_slash (p : string) : string :=
  match LastIndex p slash with Some i => str_take (S i) p | None => "" end.

Fixpoint strip_leading_slashes (s : string) : string :=
  match s with
  | String c r => if Ascii.eqb c slash then strip_leading_slashes r else s
  | EmptyString => ""
  end.

Definition Base (p : string) : string :=
  if bool_decide (p = "") then "." else
  let q := str_rev (strip_leading_slashes (str_rev p)) in
  let b := after_slash q in
  if bool_decide (b = "") then "/" else b.

Definition Dir (p : string) : string := Clean (upto_slash p).

(** ** Examples *)

Example Clean_ex1 : Clean "/a/./b//../c/" = "/a/c".
Proof. reflexivity. Qed.
Example Clean_ex2 : Clean "../../a/../b" = "../../b".
Proof. reflexivity. Qed.
Example Clean_ex3 : Clean "/../.." = "/".
Proof. reflexivity. Qed.
Example Clean_ex4 : Clean "" = ".".
Proof. reflexivity. Qed.
Example Join_ex : Join ["/home/u"; "../v/x"] = "/home/v/x".
Proof. reflexivity. Qed.
Example Base_ex : Base "/a/b/" = "b" ∧ Base "" = "." ∧ Base "//" = "/" ∧ Base "x" = "x".
Proof. done. Qed.
Example Dir_ex : Dir "/a/b/c" = "/a/b" ∧ Dir "/a" = "/" ∧ Dir "a" = ".".
Proof. done. Qed.
Example Trim_ex : TrimSpace "  a b	 " = "a b".
Proof. reflexivity. Qed.

Local Close Scope string_scope.

(** ** [Split] and [StrJoin] *)

Definition no_char (c : ascii) (s : string) : Prop := Index s c = None.

Lemma no_char_cons c d s : no_char c (String d s) ↔ d ≠ c ∧ no_char c s.
Proof.
  unfold no_char. simpl. destruct (Ascii.eqb_spec d c).
  - split; [done|]. by intros [? _].
  - destruct (Index s c); simpl; naive_solver.
Qed.

Lemma Split_no_char s c : Forall (no_char c) (Split s c).
Proof.
  induction s as [|d s IH]; simpl; [by repeat constructor|].
  destruct (Ascii.eqb_spec d c); [by constructor|].
  destruct (Split s c) as [|w ws]; [repeat constructor|].
  - by apply no_char_cons.
  - apply Forall_cons in IH as [Hw Hws]. constructor; [by apply no_char_cons|done].
Qed.

Lemma Split_ne s c : Split s c ≠ [].
Proof. destruct s as [|d s]; simpl; [done|]. destruct (Ascii.eqb d c); [done|]. by destruct (Split s c). Qed.

Lemma Split_word w c : no_char c w → Split w c = [w].
Proof.
  induction w as [|d w IH]; intros Hw; [done|]. apply no_char_cons in Hw as [Hd Hw].
  simpl. destruct (Ascii.eqb_spec d c); [done|]. by rewrite IH.
Qed.

Lemma Split_app w c s : no_char c w → Split (w +:+ String c s) c = w :: Split s c.
Proof.
  induction w as [|d w IH]; intros Hw; simpl.
  - by rewrite Ascii.eqb_refl.
  - apply no_char_cons in Hw as [Hd Hw]. destruct (Ascii.eqb_spec d c); [done|]. by rewrite IH.
Qed.

Lemma Split_StrJoin l c : l ≠ [] → Forall (no_char c) l → Split (StrJoin l c) c = l.
Proof.
  intros Hl. induction l as [|w l IH]; intros Hf; [done|].
  apply Forall_cons in Hf as [Hw Hf]. destruct l as [|v l]; [by apply Split_word|].
  change (StrJoin (w :: v :: l) c) with (w +:+ String c (StrJoin (v :: l) c)).
  by rewrite Split_app, IH.
Qed.

(** ** [Clean] *)

(** A path element that [Clean] keeps. *)
Definition normal (e : string) : Prop := e ≠ "" ∧ e ≠ "." ∧ e ≠ ".." ∧ no_char slash e.

Lemma clean_step_normal rooted st e : normal e → clean_step rooted st e = e :: st.
Proof. intros (? & ? & ? & _). unfold clean_step. by rewrite !bool_decide_false. Qed.

Lemma clean_fold_normal rooted l st :
  Forall normal l → foldl (clean_step rooted) st l = reverse l ++ st.
Proof.
  revert st. induction l as [|e l IH]; intros st Hl; [done|].
  apply Forall_cons in Hl as [He Hl]. simpl.
  rewrite clean_step_normal, IH, reverse_cons, <- app_assoc by done. done.
Qed.

Lemma clean_fold_dots k st :
  Forall (λ d, d = "..") st → foldl (clean_step false) st (replicate k "..") = replicate k ".." ++ st.
Proof.
  revert st. induction k as [|k IH]; intros st Hst; [done|]. simpl.
  assert (clean_step false st ".." = ".." :: st) as ->.
  { unfold clean_step. simpl. destruct st as [|d st]; [done|].
    apply Forall_cons in Hst as [-> _]. done. }
  rewrite IH by (by constructor).
  change (".." :: replicate k ".." ++ st) with (replicate (S k) ".." ++ st).
  replace (S k) with (k + 1)%nat by lia. by rewrite replicate_add, <- app_assoc.
Qed.

(** The stack of [Clean]: normal elements above the [..] that could not be resolved. *)
Definition clean_stack (rooted : bool) (st : list string) : Prop :=
  ∃ l k, st = l ++ replicate k ".." ∧ Forall normal l ∧ (rooted = true → k = O).

Lemma clean_step_stack rooted st e :
  no_char slash e → clean_stack rooted st → clean_stack rooted (clean_step rooted st e).
Proof.
  intros He (l & k & -> & Hl & Hk). unfold clean_step.
  do 2 (case_bool_decide; [by exists l, k|]). simpl.
  case_bool_decide as Hdd.
  - destruct l as [|d l]; simpl.
    + destruct k as [|k]; simpl.
      * destruct rooted; [by exists [], O|]. by exists [], 1%nat.
      * exists [], (S (S k)). split_and!; try done. intros Hr. by specialize (Hk Hr).
    + apply Forall_cons in Hl as [(_ & _ & Hnd & _) Hl].
      rewrite bool_decide_false by done. by exists l, k.
  - exists (e :: l), k. split_and!; try done. constructor; [|done]. by repeat split.
Qed.

Lemma clean_fold_stack rooted l st :
  Forall (no_char slash) l → clean_stack rooted st →
  clean_stack rooted (foldl (clean_step rooted) st l).
Proof.
  revert st. induction l as [|e l IH]; intros st Hl Hst; [done|].
  apply Forall_cons in Hl as [He Hl]. apply IH; [done|]. by apply clean_step_stack.
Qed.

Lemma clean_elems_shape rooted p :
  ∃ k l, clean_elems rooted (Split p slash) = replicate k ".." ++ l ∧ Forall normal l
    ∧ (rooted = true → k = O).
Proof.
  destruct (clean_fold_stack rooted (Split p slash) [] (Split_no_char p slash)) as (l & k & Heq & Hl & Hk).
  { by exists [], O. }
  exists k, (reverse l). unfold clean_elems. rewrite Heq, reverse_app, reverse_replicate.
  split_and!; try done. by apply Forall_reverse.
Qed.

Lemma clean_elems_id rooted k l :
  Forall normal l → (rooted = true → k = O) →
  clean_elems rooted (replicate k ".." ++ l) = replicate k ".." ++ l.
Proof.
  intros Hl Hk. unfold clean_elems. rewrite foldl_app.
  assert (foldl (clean_step rooted) [] (replicate k "..") = replicate k "..") as ->.
  { destruct rooted; [by rewrite Hk|]. rewrite clean_fold_dots by done. by rewrite app_nil_r. }
  rewrite clean_fold_normal by done. by rewrite reverse_app, reverse_involutive, reverse_replicate.
Qed.

Lemma normal_no_slash l : Forall normal l → Forall (no_char slash) l.
Proof. intros Hl. eapply Forall_impl; [exact Hl|]. by intros e (_ & _ & _ & ?). Qed.

Lemma StrJoin_head l c : l ≠ [] → Forall (λ e, e ≠ "" ∧ no_char c e) l →
  ∃ d s, StrJoin l c = String d s ∧ d ≠ c.
Proof.
  destruct l as [|w l]; intros Hl Hf; [done|]. apply Forall_cons in Hf as [[Hw Hc] _].
  destruct w as [|d w]; [done|]. apply no_char_cons in Hc as [Hd _].
  destruct l; [by exists d, w|]. eexists d, _. split; [reflexivity|done].
Qed.

Lemma elems_words k l : Forall normal l →
  Forall (λ e, e ≠ "" ∧ no_char slash e) (replicate k ".." ++ l).
Proof.
  intros Hl. apply Forall_app. split; [by apply Forall_replicate|].
  eapply Forall_impl; [exact Hl|]. by intros e (? & _ & _ & ?).
Qed.

Lemma HasPrefix_app s t p : HasPrefix s p = true → HasPrefix (s +:+ t) p = true.
Proof.
  revert s. induction p as [|c p IH]; intros [|d s] Hp; try done; [by destruct (_ +:+ t)|].
  simpl in *. apply andb_true_iff in Hp as [-> Hp]. by rewrite IH.
Qed.

Lemma IsAbs_app s t : IsAbs s = true → IsAbs (s +:+ t) = true.
Proof. apply HasPrefix_app. Qed.

Lemma Clean_abs p : IsAbs p = true →
  ∃ l, Clean p = "/" +:+ StrJoin l slash ∧ Forall normal l.
Proof.
  intros Hp. destruct (clean_elems_shape true p) as (k & l & Heq & Hl & Hk).
  exists l. unfold Clean. rewrite Hp, Heq, Hk by done. done.
Qed.

Lemma Clean_abs_id l : Forall normal l → Clean ("/" +:+ StrJoin l slash) = "/" +:+ StrJoin l slash.
Proof.
  intros Hl. unfold Clean. rewrite (IsAbs_app "/" _ eq_refl). cbv zeta iota.
  change ("/" +:+ StrJoin l slash) with ("" +:+ String slash (StrJoin l slash)).
  rewrite Split_app by done.
  assert (clean_elems true ("" :: Split (StrJoin l slash) slash) = l) as ->; [|done].
  destruct (decide (l = [])) as [->|Hne]; [done|].
  rewrite Split_StrJoin by (done || by apply normal_no_slash).
  exact (clean_elems_id true 0 l Hl (λ _, eq_refl)).
Qed.

Lemma Clean_rel p : IsAbs p = false →
  Clean p = "." ∨ ∃ k l, Clean p = StrJoin (replicate k ".." ++ l) slash ∧ Forall normal l
    ∧ replicate k ".." ++ l ≠ [].
Proof.
  intros Hp. destruct (clean_elems_shape false p) as (k & l & Heq & Hl & _).
  unfold Clean. rewrite Hp, Heq. case_bool_decide as Hb; [by left|right].
  exists k, l. split_and!; try done. intros Hnil. by rewrite Hnil in Hb.
Qed.

Lemma Clean_rel_id k l : Forall normal l → replicate k ".." ++ l ≠ [] →
  Clean (StrJoin (replicate k ".." ++ l) slash) = StrJoin (replicate k ".." ++ l) slash.
Proof.
  intros Hl Hne. pose proof (elems_words k l Hl) as Hw.
  destruct (StrJoin_head _ slash Hne Hw) as (d & s & Heq & Hd).
  unfold Clean. assert (IsAbs (StrJoin (replicate k ".." ++ l) slash) = false) as ->.
  { rewrite Heq. unfold IsAbs, HasPrefix. cbn [HasPrefix].
    destruct (Ascii.eqb_spec "/"%char d) as [<-|]; done. }
  rewrite Split_StrJoin by (first [done|eapply Forall_impl; [exact Hw|by intros ? []]]).
  rewrite clean_elems_id by done. cbv zeta.
  by rewrite bool_decide_false by (by rewrite Heq).
Qed.

Lemma Clean_idemp p : Clean (Clean p) = Clean p.
Proof.
  destruct (IsAbs p) eqn:Hp.
  - destruct (Clean_abs p Hp) as (l & -> & Hl). by apply Clean_abs_id.
  - destruct (Clean_rel p Hp) as [->|(k & l & -> & Hl & Hne)]; [done|]. by apply Clean_rel_id.
Qed.

Lemma Join_abs home l : IsAbs home = true → ∃ q, Join (home :: l) = Clean q ∧ IsAbs q = true.
Proof.
  intros Hh. simpl. rewrite bool_decide_false by (intros ->; done).
  eexists; split; [done|]. destruct l; [done|]. by apply IsAbs_app.
Qed.
