(* ===== verification/GoPath.v ===== *)
(** More of Go's standard library: [path.Split] and [path.Match], [filepath.Rel] on
    cleaned paths, [net.JoinHostPort], and when [net.ParseIP] accepts a string. *)
From S2P Require Import Prelude GoStd.
From Stdlib Require Import Ascii.

Local Open Scope string_scope.
Local Open Scope Z_scope.

(** ** [path.Split] *)

Definition path_Split (p : string) : string * string := (upto_slash p, after_slash p).

(** ** [path.Match] *)

Definition ErrBadPattern : error := ErrVar "ErrBadPattern" "syntax error in pattern".

Definition code (c : ascii) : Z := Z.of_N (N_of_ascii c).
Definition is_cont (c : ascii) : bool := (0x80 <=? code c) && (code c <=? 0xBF).
Definition between (lo hi : Z) (c : ascii) : bool := (lo <=? code c) && (code c <=? hi).

Definition RuneError : Z := 0xFFFD.

(** [utf8.DecodeRuneInString]: the rune and its width; a malformed first byte is
    [RuneError] of width 1, the empty string [RuneError] of width 0. *)
Definition DecodeRune (s : string) : Z * nat :=
  let bad := (RuneError, 1%nat) in
  match s with
  | EmptyString => (RuneError, 0%nat)
  | String a s =>
    if code a <? 0x80 then (code a, 1%nat) else
    match s with
    | EmptyString => bad
    | String b s =>
      if between 0xC2 0xDF a && is_cont b then (Z.land (code a) 0x1F * 64 + Z.land (code b) 0x3F, 2%nat) else
      match s with
      | EmptyString => bad
      | String c s =>
        if (between 0xE0 0xE0 a && between 0xA0 0xBF b || between 0xE1 0xEC a && is_cont b
            || between 0xED 0xED a && between 0x80 0x9F b || between 0xEE 0xEF a && is_cont b) && is_cont c
        then ((Z.land (code a) 0x0F * 64 + Z.land (code b) 0x3F) * 64 + Z.land (code c) 0x3F, 3%nat) else
        match s with
        | EmptyString => bad
        | String d _ =>
          if (between 0xF0 0xF0 a && between 0x90 0xBF b || between 0xF1 0xF3 a && is_cont b
              || between 0xF4 0xF4 a && between 0x80 0x8F b) && is_cont c && is_cont d
          then (((Z.land (code a) 0x07 * 64 + Z.land (code b) 0x3F) * 64 + Z.land (code c) 0x3F) * 64
                + Z.land (code d) 0x3F, 4%nat)
          else bad
        end
      end
    end
  end.

(** [getEsc]: a possibly escaped character of a class, and the chunk after it. *)
Definition getEsc (chunk : string) : result (Z * string) :=
  let decode chunk :=
    let '(r, n) := DecodeRune chunk in
    let rest := str_drop n chunk in
    if (r =? RuneError) && bool_decide (n = 1%nat) then Err ErrBadPattern
    else if bool_decide (rest = "") then Err ErrBadPattern else Ok (r, rest) in
  match chunk with
  | EmptyString => Err ErrBadPattern
  | String c rest =>
    if Ascii.eqb c "-" || Ascii.eqb c "]" then Err ErrBadPattern
    else if Ascii.eqb c "\" then if bool_decide (rest = "") then Err ErrBadPattern else decode rest
    else decode chunk
  end.

(** The ranges of a class up to its ["]"]: whether [r] is in one, and what follows. *)
Fixpoint class_ranges (fuel : nat) (r : Z) (chunk : string) (nrange : nat) (found : bool) : result (bool * string) :=
  match fuel with
  | O => Err ErrBadPattern
  | S fuel =>
    match chunk with
    | String "]" rest => if bool_decide (0 < nrange)%nat then Ok (found, rest) else Err ErrBadPattern
    | _ =>
      match getEsc chunk with
      | Err e => Err e
      | Ok (lo, chunk) =>
        let range :=
          match chunk with
          | String "-" rest => getEsc rest
          | _ => Ok (lo, chunk)
          end in
        match range with
        | Err e => Err e
        | Ok (hi, chunk) => class_ranges fuel r chunk (S nrange) (found || ((lo <=? r) && (r <=? hi)))
        end
      end
    end
  end.

(** [matchChunk]: [Ok (Some rest)] on a match.  After a failure the rest of the chunk is
    only checked; [None] for [s] is that state. *)
Fixpoint matchChunk (fuel : nat) (chunk : string) (s : option string) : result (option string) :=
  match fuel with
  | O => Err ErrBadPattern
  | S fuel =>
    match chunk with
    | EmptyString => Ok s
    | String c rest =>
      let s := match s with Some EmptyString => None | _ => s end in
      let literal c rest :=
        matchChunk fuel rest (match s with Some (String d s) => if Ascii.eqb c d then Some s else None | _ => None end) in
      if Ascii.eqb c "[" then
        let '(r, s) := match s with Some t => let '(r, n) := DecodeRune t in (r, Some (str_drop n t)) | None => (0, None) end in
        let '(negated, rest) := match rest with String "^" rest => (true, rest) | _ => (false, rest) end in
        match class_ranges (S (String.length rest)) r rest 0 false with
        | Err e => Err e
        | Ok (found, rest) => matchChunk fuel rest (if Bool.eqb found negated then None else s)
        end
      else if Ascii.eqb c "?" then
        matchChunk fuel rest
          (match s with
           | Some t => if HasPrefix t "/" then None else Some (str_drop (snd (DecodeRune t)) t)
           | None => None
           end)
      else if Ascii.eqb c "\" then
        match rest with EmptyString => Err ErrBadPattern | String c rest => literal c rest end
      else literal c rest
    end
  end.

Definition match_chunk (chunk s : string) : result (option string) :=
  matchChunk (S (String.length chunk)) chunk (Some s).

(** [scanChunk] after its stars: the chunk up to the next star outside a class. *)
Fixpoint chunk_end (inrange : bool) (p : string) : string * string :=
  match p with
  | EmptyString => ("", "")
  | String c rest =>
    if Ascii.eqb c "*" && negb inrange then ("", p) else
    if Ascii.eqb c "\" then
      match rest with
      | EmptyString => (String c "", "")
      | String d rest => let '(a, b) := chunk_end inrange rest in (String c (String d a), b)
      end
    else
      let '(a, b) := chunk_end (if Ascii.eqb c "[" then true else if Ascii.eqb c "]" then false else inrange) rest in
      (String c a, b)
  end.

Fixpoint strip_stars (p : string) : string :=
  match p with String "*" p => strip_stars p | _ => p end.

Definition scanChunk (p : string) : bool * string * string :=
  let q := strip_stars p in
  let '(chunk, rest) := chunk_end false q in
  (HasPrefix p "*", chunk, rest).

(** The loop that lets a star skip: [last] says that the chunk ends the pattern. *)
Fixpoint star_match (chunk : string) (last : bool) (name : string) : result (option string) :=
  match name with
  | EmptyString => Ok None
  | String c name =>
    if Ascii.eqb c slash then Ok None else
    match match_chunk chunk name with
    | Err e => Err e
    | Ok (Some t) => if last && negb (bool_decide (t = "")) then star_match chunk last name else Ok (Some t)
    | Ok None => star_match chunk last name
    end
  end.

(** The check that what is left of the pattern is well formed. *)
Fixpoint check_rest (fuel : nat) (p : string) : option error :=
  match fuel, p with
  | O, _ | _, EmptyString => None
  | S fuel, _ =>
    let '(_, chunk, p) := scanChunk p in
    match match_chunk chunk "" with Err e => Some e | Ok _ => check_rest fuel p end
  end.

Fixpoint match_loop (fuel : nat) (pattern name : string) : result bool :=
  match fuel, pattern with
  | O, _ | _, EmptyString => Ok (bool_decide (name = ""))
  | S fuel, _ =>
    let '(star, chunk, pattern) := scanChunk pattern in
    if star && bool_decide (chunk = "") then Ok (negb (Contains name slash)) else
    let no := match check_rest (S (String.length pattern)) pattern with Some e => Err e | None => Ok false end in
    let try_star :=
      if star then
        match star_match chunk (bool_decide (pattern = "")) name with
        | Err e => Err e
        | Ok (Some t) => match_loop fuel pattern t
        | Ok None => no
        end
      else no in
    match match_chunk chunk name with
    | Err e => Err e
    | Ok (Some t) => if bool_decide (t = "") || negb (bool_decide (pattern = "")) then match_loop fuel pattern t else try_star
    | Ok None => try_star
    end
  end.

Definition Match (pattern name : string) : result bool := match_loop (S (String.length pattern)) pattern name.

Example Match_ex : (λ '(p, n), Match p n) <$>
    [("*.txt", "a.txt"); ("*.txt", "a.txt.gz"); ("a?c", "abc"); ("a?c", "a/c"); ("[a-c]x*", "bxyz"); ("[^a]", "a");
     ("a*b*c", "axbxxc"); ("\*", "*"); ("*", "a/b"); ("", "")]
  = [Ok true; Ok false; Ok true; Ok false; Ok true; Ok false; Ok true; Ok true; Ok false; Ok true].
Proof. reflexivity. Qed.
Example Match_bad : Match "[" "a" = Err ErrBadPattern ∧ Match "a[" "b" = Err ErrBadPattern ∧ Match "[]a]" "a" = Err ErrBadPattern
  ∧ Match "a\" "ab" = Err ErrBadPattern.
Proof. done. Qed.

(** ** [filepath.Rel] of cleaned paths *)

(** The elements of a cleaned path. *)
Definition path_elems (p : string) : list string :=
  let p := Clean p in
  if bool_decide (p = ".") then [] else filter (λ e, e ≠ "") (Split p slash).

Fixpoint strip_common (a b : list string) : list string * list string :=
  match a, b with
  | x :: a', y :: b' => if bool_decide (x = y) then strip_common a' b' else (a, b)
  | _, _ => (a, b)
  end.

Definition Rel (basepath targpath : string) : result string :=
  if bool_decide (Clean basepath = Clean targpath) then Ok "." else
  if negb (Bool.eqb (IsAbs (Clean basepath)) (IsAbs (Clean targpath))) then
    Err (Errorf "Rel: can't make %s relative to %s" [inl targpath; inl basepath]) else
  let '(b, t) := strip_common (path_elems basepath) (path_elems targpath) in
  if bool_decide (".." ∈ b) then Err (Errorf "Rel: can't make %s relative to %s" [inl targpath; inl basepath])
  else Ok (StrJoin (((λ _, "..") <$> b) ++ t) slash).

Example Rel_ex : (λ '(b, t), Rel b t) <$> [("/a", "/a/b/c"); ("a", "a/b"); (".", "x/y"); ("/a/b", "/a/c"); ("a/", "a"); ("/", "/x")]
  = [Ok "b/c"; Ok "b"; Ok "x/y"; Ok "../c"; Ok "."; Ok "x"].
Proof. reflexivity. Qed.

(** ** [net] *)

Definition is_digit (c : ascii) : bool := between 48 57 c.
Definition is_hex (c : ascii) : bool := is_digit c || between 97 102 c || between 65 70 c.

Fixpoint all_chars (f : ascii → bool) (s : string) : bool :=
  match s with EmptyString => true | String c s => f c && all_chars f s end.

Fixpoint decimal (acc : Z) (s : string) : Z :=
  match s with EmptyString => acc | String c s => decimal (acc * 10 + (code c - 48)) s end.

Definition ipv4_octet (s : string) : bool :=
  negb (bool_decide (s = "")) && all_chars is_digit s && (decimal 0 s <=? 255)
  && (negb (HasPrefix s "0") || bool_decide (s = "0")).

Definition parseIPv4 (s : string) : bool :=
  let l := Split s "."%char in bool_decide (length l = 4%nat) && forallb ipv4_octet l.

(** The leading hexadecimal digits. *)
Fixpoint hex_prefix (s : string) : nat :=
  match s with String c s => if is_hex c then S (hex_prefix s) else O | EmptyString => O end.

(** The loop of [parseIPv6] with [i] bytes of the address filled. *)
Fixpoint parseIPv6_groups (fuel : nat) (i : nat) (ellipsis : bool) (s : string) : bool :=
  let finish i ellipsis := if bool_decide (i < 16)%nat then ellipsis else negb ellipsis in
  match fuel with
  | O => false   (* sixteen bytes and text left *)
  | S fuel =>
    let off := hex_prefix s in
    if bool_decide (off = O) || bool_decide (4 < off)%nat then false else
    let rest := str_drop off s in
    if HasPrefix rest "." then
      (ellipsis || bool_decide (i = 12%nat)) && bool_decide (i + 4 ≤ 16)%nat && parseIPv4 s && finish (i + 4)%nat ellipsis
    else
      let i := (i + 2)%nat in
      match rest with
      | EmptyString => finish i ellipsis
      | String ":" EmptyString => false
      | String ":" (String ":" rest) =>
        if ellipsis then false else
        if bool_decide (rest = "") then finish i true else parseIPv6_groups fuel i true rest
      | String ":" rest => parseIPv6_groups fuel i ellipsis rest
      | _ => false
      end
  end.

Definition parseIPv6 (s : string) : bool :=
  if HasPrefix s "::" then
    let s := str_drop 2 s in bool_decide (s = "") || parseIPv6_groups 8 0 true s
  else parseIPv6_groups 8 0 false s.

(** The first of these characters decides; an address with a zone is not accepted. *)
Fixpoint ip_kind (s : string) : option ascii :=
  match s with
  | EmptyString => None
  | String c s => if Contains ".:%" c then Some c else ip_kind s
  end.

(** [net.ParseIP(s) != nil]. *)
Definition ParseIP_ok (s : string) : bool :=
  match ip_kind s with
  | Some "."%char => parseIPv4 s
  | Some ":"%char => negb (Contains s "%") && parseIPv6 s
  | _ => false
  end.

Example ParseIP_ex : ParseIP_ok <$>
    ["127.0.0.1"; "::1"; "::"; "fe80::1%eth0"; "1.2.3"; "256.1.1.1"; "01.2.3.4"; "2001:db8::8a2e:370:7334"; "1:2:3:4:5:6:7:8";
     "1:2:3:4:5:6:7:8:9"; "::ffff:1.2.3.4"; "a:b"; "example.com"; "1:2:3:4:5:6:7::"; "1::2::3"]
  = [true; true; true; false; false; false; false; true; true; false; true; false; false; true; false].
Proof. reflexivity. Qed.

Definition JoinHostPort (host port : string) : string :=
  if Contains host ":" then "[" ++ host ++ "]:" ++ port else host ++ ":" ++ port.

Local Close Scope string_scope.

(** ** Lemmas *)

Lemma cons_app c s t : String c s +:+ t = String c (s +:+ t).
Proof. done. Qed.

Lemma nil_app (t : string) : "" +:+ t = t.
Proof. done. Qed.

Lemma no_char_app c s t : no_char c (s +:+ t) ↔ no_char c s ∧ no_char c t.
Proof.
  induction s as [|d s IH]; [unfold no_char at 2; naive_solver|]. rewrite cons_app, !no_char_cons. naive_solver.
Qed.

Lemma Index_after s c t : no_char c s → Index (s +:+ String c t) c = Some (String.length s).
Proof.
  induction s as [|d s IH]; [rewrite nil_app; cbn; by rewrite Ascii.eqb_refl|]. intros [Hd Hs]%no_char_cons. rewrite cons_app. cbn.
  destruct (Ascii.eqb_spec d c) as [->|]; [by destruct Hd|]. by rewrite IH.
Qed.

Lemma LastIndex_none s c : no_char c s → LastIndex s c = None.
Proof.
  induction s as [|d s IH]; [done|]. intros [Hd Hs]%no_char_cons. cbn. rewrite IH by done.
  destruct (Ascii.eqb_spec d c) as [->|]; [by destruct Hd|done].
Qed.

Lemma LastIndex_after s c t : no_char c t → LastIndex (s +:+ String c t) c = Some (String.length s).
Proof.
  intros Ht. induction s as [|d s IH]; [rewrite nil_app; cbn; by rewrite LastIndex_none, Ascii.eqb_refl|].
  rewrite cons_app. cbn. by rewrite IH.
Qed.

Lemma str_take_app s t : str_take (String.length s) (s +:+ t) = s.
Proof. induction s as [|c s IH]; [by destruct t|]. rewrite cons_app. cbn. by rewrite IH. Qed.

Lemma str_drop_app_S s c t : str_drop (S (String.length s)) (s +:+ String c t) = t.
Proof. by induction s. Qed.

Lemma Contains_false s c : Contains s c = false ↔ no_char c s.
Proof. unfold Contains, no_char. rewrite bool_decide_eq_false, <- eq_None_not_Some. done. Qed.

Lemma Contains_mid s c t : Contains (s +:+ String c t) c = true.
Proof.
  unfold Contains. apply bool_decide_eq_true. induction s as [|d s IH]; [rewrite nil_app; cbn; by rewrite Ascii.eqb_refl|].
  rewrite cons_app. cbn. destruct (Ascii.eqb d c); [done|]. by rewrite fmap_is_Some.
Qed.

Lemma str_app_assoc (a b c : string) : (a +:+ b) +:+ c = a +:+ (b +:+ c).
Proof. induction a as [|x a IH]; [done|]. by rewrite !cons_app, IH. Qed.

(** ** Joining one more element *)

Lemma Split_app_cons s c t : Split (s +:+ String c t) c = Split s c ++ Split t c.
Proof.
  induction s as [|d s IH]; [rewrite nil_app; cbn [Split]; by rewrite Ascii.eqb_refl|].
  rewrite cons_app. cbn [Split]. rewrite IH. destruct (Ascii.eqb d c); [done|].
  destruct (Split s c) as [|w ws] eqn:E; [by destruct (Split_ne s c)|done].
Qed.

Lemma IsAbs_app_ne s t : s ≠ "" → IsAbs (s +:+ t) = IsAbs s.
Proof. destruct s as [|c s]; [done|]. intros _. unfold IsAbs. by destruct t, s. Qed.

(** What one more element does to a cleaned path. *)
Lemma clean_elems_snoc rooted l e :
  clean_elems rooted (l ++ [e]) = reverse (clean_step rooted (reverse (clean_elems rooted l)) e).
Proof. unfold clean_elems. by rewrite foldl_app, reverse_involutive. Qed.

Lemma Clean_dot p : p ≠ "" → Clean (StrJoin [p; "."] slash) = Clean p.
Proof.
  intros Hp. change (StrJoin [p; "."] slash) with (p +:+ String slash "."). unfold Clean.
  rewrite IsAbs_app_ne, Split_app_cons by done. change (Split "." slash) with ["."].
  rewrite clean_elems_snoc. unfold clean_step. rewrite (bool_decide_true ("." = ".")), orb_true_r by done.
  by rewrite reverse_involutive.
Qed.

Lemma StrJoin_snoc l e : l ≠ [] → StrJoin (l ++ [e]) slash = StrJoin l slash +:+ String slash e.
Proof.
  induction l as [|a l IH]; [done|]. intros _. destruct l as [|b l]; [done|].
  change (StrJoin ((a :: b :: l) ++ [e]) slash) with (a +:+ String slash (StrJoin ((b :: l) ++ [e]) slash)).
  rewrite IH by done. change (StrJoin (a :: b :: l) slash) with (a +:+ String slash (StrJoin (b :: l) slash)).
  by rewrite str_app_assoc.
Qed.

(** A name under an absolute path. *)
Lemma Join_child p e : IsAbs p = true → normal e →
  ∃ l, Forall normal l ∧ Clean p = "/" +:+ StrJoin l slash
    ∧ Join [p; e] = "/" +:+ StrJoin (l ++ [e]) slash.
Proof.
  intros Hp He. destruct (clean_elems_shape true p) as (k & l & Heq & Hl & Hk).
  rewrite Hk in Heq by done. exists l. split; [done|]. assert (p ≠ "") as Hne by (by intros ->).
  unfold Clean at 1. rewrite Hp, Heq. split; [done|]. cbn [Join]. rewrite bool_decide_false by done.
  change (StrJoin [p; e] slash) with (p +:+ String slash e). unfold Clean.
  rewrite IsAbs_app_ne, Hp, Split_app_cons, (Split_word e) by (done || apply He).
  rewrite clean_elems_snoc, Heq, clean_step_normal, reverse_cons, reverse_involutive by done. done.
Qed.

Lemma LastIndex_StrJoin l e : no_char slash e →
  upto_slash ("/" +:+ StrJoin (l ++ [e]) slash) = "/" +:+ (if bool_decide (l = []) then "" else StrJoin l slash +:+ "/")
  ∧ after_slash ("/" +:+ StrJoin (l ++ [e]) slash) = e.
Proof.
  intros He. destruct (decide (l = [])) as [->|Hl].
  - rewrite bool_decide_true by done. change ("/" +:+ StrJoin ([] ++ [e]) slash) with ("" +:+ String slash e).
    unfold upto_slash, after_slash. rewrite LastIndex_after by done. split; [by destruct e|done].
  - rewrite bool_decide_false, StrJoin_snoc by done.
    change ("/" +:+ (StrJoin l slash +:+ String slash e)) with ((String slash (StrJoin l slash)) +:+ String slash e).
    unfold upto_slash, after_slash. rewrite LastIndex_after, str_drop_app_S by done. split; [|done].
    change (String slash (StrJoin l slash) +:+ String slash e) with ("/" +:+ (StrJoin l slash +:+ String slash e)).
    change (str_take (S (String.length (String slash (StrJoin l slash)))) ("/" +:+ (StrJoin l slash +:+ String slash e)))
      with (String slash (str_take (S (String.length (StrJoin l slash))) (StrJoin l slash +:+ String slash e))).
    change (String slash (str_take (S (String.length (StrJoin l slash))) (StrJoin l slash +:+ String slash e)))
      with ("/" +:+ str_take (S (String.length (StrJoin l slash))) (StrJoin l slash +:+ String slash e)).
    f_equal. generalize (StrJoin l slash). clear. intros s. induction s as [|c s IH]; [by destruct e|].
    rewrite !cons_app. cbn [String.length str_take] in *. by rewrite IH.
Qed.

(** The directory of a child is its parent. *)
Lemma Dir_child p e : IsAbs p = true → normal e → Dir (Join [p; e]) = Clean p.
Proof.
  intros Hp He. destruct (Join_child p e Hp He) as (l & Hl & Hc & ->). unfold Dir.
  destruct (LastIndex_StrJoin l e) as [-> _]; [apply He|]. rewrite Hc.
  destruct (decide (l = [])) as [->|Hne]; [done|]. rewrite bool_decide_false by done.
  etrans; [|by apply Clean_abs_id].
  assert (StrJoin l slash +:+ "/" = StrJoin (l ++ [""]) slash) as -> by (by rewrite StrJoin_snoc).
  unfold Clean. rewrite !(IsAbs_app "/") by done.
  change ("/" +:+ StrJoin (l ++ [""]) slash) with ("" +:+ String slash (StrJoin (l ++ [""]) slash)).
  change ("/" +:+ StrJoin l slash) with ("" +:+ String slash (StrJoin l slash)).
  rewrite !Split_app by done. rewrite (StrJoin_snoc l "") by done. rewrite Split_app_cons. change (Split "" slash) with [""].
  rewrite app_comm_cons, clean_elems_snoc. unfold clean_step. rewrite (bool_decide_true ("" = "")), orb_true_l by done.
  by rewrite reverse_involutive.
Qed.

Lemma Join_dot p : p ≠ "" → Join [p; "."] = Clean p.
Proof. intros Hp. cbn [Join]. rewrite bool_decide_false by done. by apply Clean_dot. Qed.
