(* ===== verification/GoHash.v ===== *)
(** The hashes the program computes: CRC-32 ([hash/crc32], IEEE polynomial),
    SHA-256 ([crypto/sha256]), and [encoding/hex].  Executable definitions, checked
    against published test vectors. *)
From S2P Require Import Prelude.
From Stdlib Require Import Ascii Strings.Byte.

(** ** [hash/crc32]: the IEEE polynomial, bit by bit *)

Definition crc_bit (c : Z) : Z :=
  if Z.testbit c 0 then Z.lxor (Z.shiftr c 1) 0xEDB88320 else Z.shiftr c 1.

Definition crc_byte (c : Z) (b : byte) : Z :=
  Nat.iter 8 crc_bit (Z.lxor c (zbyte b)).

Definition ChecksumIEEE (l : list byte) : Z :=
  Z.lxor (foldl crc_byte 0xFFFFFFFF l) 0xFFFFFFFF.

(** ** [crypto/sha256] *)

Definition rotr (x n : Z) : Z := u32 (Z.lor (Z.shiftr x n) (Z.shiftl x (32 - n))).

(** The constants as FIPS 180-4 gives them: the first 32 bits of the fractional parts
    of the cube roots of the first 64 primes, and of the square roots of the first 8. *)
Fixpoint no_divisor (n : Z) (d : nat) : bool :=
  match d with
  | O | 1%nat => true
  | S e => negb (n mod Z.of_nat d =? 0) && no_divisor n e
  end.

Definition primes (below : nat) : list Z :=
  Z.of_nat <$> filter (λ n, (2 ≤ n)%nat ∧ no_divisor (Z.of_nat n) (Nat.pred n) = true) (seq 0 below).

(** The integer part of the cube root, one bit at a time from bit [k - 1] down. *)
Fixpoint cube_root (k : nat) (acc n : Z) : Z :=
  match k with
  | O => acc
  | S k => let r := acc + 2 ^ Z.of_nat k in cube_root k (if r ^ 3 <=? n then r else acc) n
  end.

Definition sha_k : list Z := Eval vm_compute in (λ p, u32 (cube_root 40 0 (p * 2 ^ 96))) <$> primes 312.

Definition sha_h0 : list Z := Eval vm_compute in (λ p, u32 (Z.sqrt (p * 2 ^ 64))) <$> primes 20.

(** The message with its padding: a 1 bit, zeros, and the bit length. *)
Definition sha_pad (m : list byte) : list byte :=
  let n := zlen m in
  m ++ [x80] ++ replicate (Z.to_nat ((55 - n) mod 64)) x00 ++ be_put 8 (8 * n).

(** The words of a block. *)
Fixpoint sha_words (n : nat) (b : list byte) : list Z :=
  match n with O => [] | S n => be_get (take 4 b) :: sha_words n (drop 4 b) end.

(** The message schedule, most recent word first. *)
Fixpoint sha_schedule (n : nat) (w : list Z) : list Z :=
  match n with
  | O => w
  | S n =>
    let w2 := nth 1 w 0 in let w7 := nth 6 w 0 in
    let w15 := nth 14 w 0 in let w16 := nth 15 w 0 in
    let s0 := Z.lxor (Z.lxor (rotr w15 7) (rotr w15 18)) (Z.shiftr w15 3) in
    let s1 := Z.lxor (Z.lxor (rotr w2 17) (rotr w2 19)) (Z.shiftr w2 10) in
    sha_schedule n (u32 (w16 + s0 + w7 + s1) :: w)
  end.

Definition sha_round (h : list Z) (kw : Z * Z) : list Z :=
  match h with
  | [a; b; c; d; e; f; g; hh] =>
    let s1 := Z.lxor (Z.lxor (rotr e 6) (rotr e 11)) (rotr e 25) in
    let ch := Z.lxor (Z.land e f) (Z.land (0xFFFFFFFF - e) g) in
    let t1 := hh + s1 + ch + kw.1 + kw.2 in
    let s0 := Z.lxor (Z.lxor (rotr a 2) (rotr a 13)) (rotr a 22) in
    let maj := Z.lxor (Z.lxor (Z.land a b) (Z.land a c)) (Z.land b c) in
    [u32 (t1 + s0 + maj); a; b; c; u32 (d + t1); e; f; g]
  | _ => h
  end.

Definition sha_block (h : list Z) (b : list byte) : list Z :=
  let w := reverse (sha_schedule 48 (reverse (sha_words 16 b))) in
  zip_with (λ x y, u32 (x + y)) h (foldl sha_round h (zip sha_k w)).

Fixpoint sha_blocks (n : nat) (h : list Z) (b : list byte) : list Z :=
  match n with O => h | S n => sha_blocks n (sha_block h (take 64 b)) (drop 64 b) end.

Definition Sum256 (m : list byte) : list byte :=
  let p := sha_pad m in
  concat (be_put 4 <$> sha_blocks (length p / 64) sha_h0 p).

(** ** [encoding/hex] *)

Definition hex_digit (n : Z) : ascii :=
  default "0"%char (String.get (Z.to_nat n) "0123456789abcdef").

Fixpoint EncodeToString (l : list byte) : string :=
  match l with
  | [] => ""
  | b :: l => String (hex_digit (zbyte b / 16)) (String (hex_digit (zbyte b mod 16)) (EncodeToString l))
  end.

Example crc_ex : ChecksumIEEE (String.list_byte_of_string "123456789") = 0xCBF43926.
Proof. vm_compute. reflexivity. Qed.
Example sha_ex : EncodeToString (Sum256 (String.list_byte_of_string "abc"))
  = "ba7816bf8f01cfea414140de5dae2223b00361a396177a9cb410ff61f20015ad".
Proof. vm_compute. reflexivity. Qed.
Example sha_ex2 : EncodeToString (Sum256 [])
  = "e3b0c44298fc1c149afbf4c8996fb92427ae41e4649b934ca495991b7852b855".
Proof. vm_compute. reflexivity. Qed.
Example sha_ex3 : EncodeToString (Sum256
    (String.list_byte_of_string "abcdbcdecdefdefgefghfghighijhijkijkljklmklmnlmnomnopnopq"))
  = "248d6a61d20638b8e5c026930c3e6039a33ce45964ff2167f6ecedd419db06c1".
Proof. vm_compute. reflexivity. Qed.

(** ** Widths *)

Lemma sha_round_length h kw : length (sha_round h kw) = length h.
Proof. unfold sha_round. repeat (case_match; try done). Qed.

Lemma sha_rounds_length l h : length (foldl sha_round h l) = length h.
Proof. revert h. induction l as [|kw l IH]; intros h; simpl; [done|]. by rewrite IH, sha_round_length. Qed.

Lemma sha_block_length h b : length (sha_block h b) = length h.
Proof. unfold sha_block. rewrite length_zip_with, sha_rounds_length. lia. Qed.

Lemma sha_blocks_length n h b : length (sha_blocks n h b) = length h.
Proof. revert h b. induction n as [|n IH]; intros h b; simpl; [done|]. by rewrite IH, sha_block_length. Qed.

Lemma length_concat_be_put l : length (concat (be_put 4 <$> l)) = (4 * length l)%nat.
Proof.
  induction l as [|x l IH]; [done|]. rewrite fmap_cons, concat_cons, length_app, length_be_put, IH.
  simpl. lia.
Qed.

(** A digest has 32 bytes. *)
Lemma length_Sum256 m : length (Sum256 m) = 32%nat.
Proof. unfold Sum256. by rewrite length_concat_be_put, sha_blocks_length. Qed.
