(* ===== verification/OS.v ===== *)
(** The operating system as the program uses it: package [os] and the methods of
    [*os.File].  [OS] has the operations, each with every result Go gives; the
    models of the server and of the transfers are generic in it, so every theorem
    about their error paths holds for any failure of the system.  [OSLaws] states
    what successful operations do to file contents, in terms of inodes, open
    handles and the name space; MemFS.v discharges it. *)
From S2P Require Import Prelude GoStd.
From Stdlib Require Import Strings.Byte.

(** ** [os.FileMode] *)

Definition ModeDir : Z := 2 ^ 31.
Definition FileMode_IsDir (m : Z) : bool := Z.testbit m 31.
Definition FileMode_Perm (m : Z) : Z := Z.land m 0x1FF.
(** [ModeDir|ModeSymlink|ModeNamedPipe|ModeSocket|ModeDevice|ModeCharDevice|ModeIrregular] *)
Definition ModeType : Z := 0x8F280000.
Definition FileMode_IsRegular (m : Z) : bool := Z.land m ModeType =? 0.

(** [os.FileInfo] *)
Record FileInfo : Set := {
  fi_Name : string;
  fi_Size : Z;
  fi_Mode : Z;
  fi_ModTime : Z;  (* Unix seconds *)
}.
Definition fi_IsDir (i : FileInfo) : bool := FileMode_IsDir (fi_Mode i).

(** [os.DirEntry], with what its method [Info] returns. *)
Record OsDirEntry : Set := {
  de_Name : string;
  de_IsDir : bool;
  de_Info : result FileInfo;
}.

(** The flags of [os.OpenFile] the program uses. *)
Record open_flags : Set := { o_write : bool; o_create : bool; o_trunc : bool }.
Definition O_RDONLY : open_flags := {| o_write := false; o_create := false; o_trunc := false |}.
Definition O_RDWR : open_flags := {| o_write := true; o_create := false; o_trunc := false |}.
Definition O_CREATE_RDWR : open_flags := {| o_write := true; o_create := true; o_trunc := false |}.
Definition O_CREATE_RDWR_TRUNC : open_flags := {| o_write := true; o_create := true; o_trunc := true |}.

Class OS := {
  world : Type;
  file : Type;
  file_eq_dec :: EqDecision file;
  os_Stat : string → world → result FileInfo;
  os_Lstat : string → world → result FileInfo;
  os_MkdirAll : string → Z → world → world * option error;
  os_OpenFile : string → open_flags → Z → world → world * result file;
  os_ReadDir : string → world → result (list OsDirEntry);
  os_Chmod : string → Z → world → world * option error;
  os_Rename : string → string → world → world * option error;
  os_Remove : string → world → world * option error;
  f_Close : file → world → world * option error;
  f_Truncate : file → Z → world → world * option error;
  (* the bytes written *)
  f_WriteAt : file → list byte → Z → world → world * (Z * option error);
  (* the bytes read into a buffer of the given length *)
  f_ReadAt : file → Z → Z → world → list byte * option error;
  f_Stat : file → world → result FileInfo;
  f_SeekStart : file → world → world * option error;
  (* io.Copy from the handle: everything from its offset to the end *)
  f_ReadRest : file → world → world * result (list byte);
}.

(** ** Contents *)

(** A positional write: past the end, the gap is zeros; no bytes, no change. *)
Definition write_at (old d : list byte) (off : nat) : list byte :=
  match d with
  | [] => old
  | _ => take off (old ++ replicate (off - length old) x00) ++ d ++ drop (off + length d) old
  end.

Definition read_at (old : list byte) (off n : nat) : list byte := take n (drop off old).

Definition truncate_to (old : list byte) (n : nat) : list byte :=
  take n old ++ replicate (n - length old) x00.

(** ** What the operations promise

    [handle w f] is the inode an open handle refers to and whether it may write;
    [idata w i] the bytes of a regular file; [at_path w p] the inode at a path;
    [offset w f] the position of sequential reads. *)
Class OSLaws `{OS} := {
  handle : world → file → option (nat * bool);
  idata : world → nat → option (list byte);
  at_path : world → string → option nat;
  offset : world → file → nat;

  open_ok p fl m w w' f : os_OpenFile p fl m w = (w', Ok f) →
    handle w f = None
    ∧ (∀ g, g ≠ f → handle w' g = handle w g)
    ∧ (∀ q i, at_path w q = Some i → at_path w' q = Some i)
    ∧ ∃ i, handle w' f = Some (i, o_write fl) ∧ at_path w' p = Some i ∧ offset w' f = 0%nat
      ∧ (∀ j, j ≠ i → idata w' j = idata w j)
      ∧ ((at_path w p = Some i ∧ (∀ q, at_path w' q = at_path w q)
            ∧ (o_trunc fl = false → idata w' i = idata w i))
         ∨ (at_path w p = None ∧ o_create fl = true ∧ idata w i = None ∧ idata w' i = Some []));
  open_trunc p fl m w w' f i wr d : os_OpenFile p fl m w = (w', Ok f) → o_trunc fl = true →
    handle w' f = Some (i, wr) → idata w' i = Some d → d = [];
  open_err p fl m w w' e : os_OpenFile p fl m w = (w', Err e) →
    (∀ g, handle w' g = handle w g) ∧ (∀ j, idata w' j = idata w j) ∧ (∀ q, at_path w' q = at_path w q);

  (* a [*fs.PathError] *)
  open_path_error p fl m w w' e : os_OpenFile p fl m w = (w', Err e) → ∃ no t, e = OsErr no t;

  close_law f w w' e : f_Close f w = (w', e) →
    handle w' f = None ∧ (∀ g, g ≠ f → handle w' g = handle w g)
    ∧ (∀ j, idata w' j = idata w j) ∧ (∀ q, at_path w' q = at_path w q);

  write_law f d off w w' n e : f_WriteAt f d off w = (w', (n, e)) →
    (∀ g, handle w' g = handle w g) ∧ (∀ q, at_path w' q = at_path w q)
    ∧ (∀ j, fst <$> handle w f ≠ Some j → idata w' j = idata w j)
    ∧ (e = None → n = zlen d ∧ (d = [] → (∀ j, idata w' j = idata w j))
       ∧ (d ≠ [] → 0 <= off ∧ ∃ i old, handle w f = Some (i, true) ∧ idata w i = Some old
            ∧ idata w' i = Some (write_at old d (Z.to_nat off))
            ∧ ∀ j, j ≠ i → idata w' j = idata w j));

  (* a failed or short write has written a prefix *)
  write_partial f d off w w' n e i wr : f_WriteAt f d off w = (w', (n, e)) → handle w f = Some (i, wr) →
    idata w' i = idata w i
    ∨ 0 <= off ∧ ∃ old k, idata w i = Some old ∧ idata w' i = Some (write_at old (take k d) (Z.to_nat off));

  read_law f n off w d e : f_ReadAt f n off w = (d, e) →
    zlen d <= Z.max 0 n ∧ (e = None → zlen d = Z.max 0 n)
    ∧ (d ≠ [] → 0 <= off ∧ ∃ i wr old, handle w f = Some (i, wr) ∧ idata w i = Some old
         ∧ d `prefix_of` drop (Z.to_nat off) old
         ∧ (e = Some io_EOF → d = drop (Z.to_nat off) old));

  stat_ok p w info : os_Stat p w = Ok info → is_Some (at_path w p);
  stat_size p w info i d : os_Stat p w = Ok info → at_path w p = Some i → idata w i = Some d →
    fi_Size info = zlen d;
  stat_not_exist p w e : os_Stat p w = Err e → is_not_exist e = true → at_path w p = None;

  (* only a symbolic link makes a difference *)
  lstat_regular p w info : os_Lstat p w = Ok info → FileMode_IsRegular (fi_Mode info) = true →
    os_Stat p w = Ok info;

  truncate_law f n w w' e : f_Truncate f n w = (w', e) →
    (∀ g, handle w' g = handle w g) ∧ (∀ q, at_path w' q = at_path w q)
    ∧ (∀ j, fst <$> handle w f ≠ Some j → idata w' j = idata w j)
    ∧ (e = None → 0 <= n ∧ ∃ i old, handle w f = Some (i, true) ∧ idata w i = Some old
        ∧ idata w' i = Some (truncate_to old (Z.to_nat n)) ∧ ∀ j, j ≠ i → idata w' j = idata w j);

  mkdir_law p m w w' e : os_MkdirAll p m w = (w', e) →
    (∀ g, handle w' g = handle w g) ∧ (∀ i, idata w' i = idata w i)
    ∧ (∀ q i, at_path w q = Some i → at_path w' q = Some i)
    (* what is new is directories *)
    ∧ (∀ q i, at_path w' q = Some i → at_path w q = Some i ∨ idata w i = None);

  mkdir_not_dir p m w w' e i d : os_MkdirAll p m w = (w', e) → at_path w p = Some i → idata w i = Some d →
    is_Some e;
  mkdir_stat p m w w' e q info : os_MkdirAll p m w = (w', e) → at_path w q = None → os_Stat q w' = Ok info →
    fi_IsDir info = true;

  rename_law p q w w' : os_Rename p q w = (w', None) →
    (∀ g, handle w' g = handle w g) ∧ (∀ j, idata w' j = idata w j)
    ∧ ∃ i, at_path w p = Some i ∧ at_path w' q = Some i
      ∧ (is_Some (idata w i) → ∀ r k, at_path w' r = Some k → at_path w r = Some k ∨ k = i);
  rename_err p q w w' e : os_Rename p q w = (w', Some e) →
    (∀ g, handle w' g = handle w g) ∧ (∀ j, idata w' j = idata w j) ∧ (∀ r, at_path w' r = at_path w r);

  chmod_law p m w w' e : os_Chmod p m w = (w', e) →
    (∀ g, handle w' g = handle w g) ∧ (∀ j, idata w' j = idata w j) ∧ (∀ q, at_path w' q = at_path w q);

  (* open files keep their contents; other files keep their names *)
  remove_law p w w' e : os_Remove p w = (w', e) →
    (∀ g, handle w' g = handle w g) ∧ (∀ j, idata w' j = idata w j)
    ∧ (∀ q i, at_path w' q = Some i → at_path w q = Some i)
    ∧ (∀ q i, at_path w q = Some i → at_path w p ≠ Some i → at_path w' q = Some i);

  seek_law f w w' e : f_SeekStart f w = (w', e) →
    (∀ g, handle w' g = handle w g) ∧ (∀ j, idata w' j = idata w j) ∧ (∀ q, at_path w' q = at_path w q)
    ∧ (e = None → offset w' f = 0%nat);

  rest_law f w w' r : f_ReadRest f w = (w', r) →
    (∀ g, handle w' g = handle w g) ∧ (∀ j, idata w' j = idata w j) ∧ (∀ q, at_path w' q = at_path w q)
    ∧ (∀ d, r = Ok d → ∃ i wr old, handle w f = Some (i, wr) ∧ idata w i = Some old
         ∧ d = drop (offset w f) old);
}.

(** ** Lemmas on contents *)

Lemma length_write_at old d off : d ≠ [] →
  length (write_at old d off) = Nat.max (length old) (off + length d).
Proof.
  intros Hd. unfold write_at. destruct d as [|b d]; [done|].
  rewrite !length_app, length_take, length_app, length_replicate, length_drop. simpl length. lia.
Qed.

Lemma lookup_replicate_pad old off j : (j < off)%nat →
  (old ++ replicate (off - length old) x00) !! j = Some (default x00 (old !! j)).
Proof.
  intros Hj. destruct (decide (j < length old)%nat) as [Hl|Hl].
  - rewrite lookup_app_l by done. destruct (lookup_lt_is_Some_2 old j Hl) as [b Hb]. by rewrite Hb.
  - rewrite lookup_app_r by lia. rewrite lookup_replicate_2 by lia.
    rewrite lookup_ge_None_2 by lia. done.
Qed.

(** The bytes after a write: new ones where it wrote, old ones elsewhere. *)
Lemma lookup_write_at old d off j : d ≠ [] →
  write_at old d off !! j =
    if decide (off ≤ j < off + length d)%nat then d !! (j - off)%nat
    else if decide (j < off)%nat then Some (default x00 (old !! j))
    else old !! j.
Proof.
  intros Hd. unfold write_at. destruct d as [|b d']; [done|]. set (d := b :: d') in *.
  assert (length (take off (old ++ replicate (off - length old) x00)) = off) as Ht.
  { rewrite length_take, length_app, length_replicate. lia. }
  case_decide as Hin.
  - rewrite lookup_app_r by lia. rewrite Ht, lookup_app_l by lia. done.
  - case_decide as Hlt.
    + rewrite lookup_app_l by lia. rewrite lookup_take_lt by done. by apply lookup_replicate_pad.
    + rewrite lookup_app_r by lia. rewrite Ht, lookup_app_r by lia.
      rewrite lookup_drop. f_equal. lia.
Qed.

(** A write at the start of an empty file. *)
Lemma write_at_nil d : write_at [] d 0 = d.
Proof. destruct d; [done|]. unfold write_at. simpl. by rewrite app_nil_r. Qed.

(** Within the old file, bytes outside the written range are kept. *)
Lemma lookup_write_at_old old d off j :
  ¬ (off ≤ j < off + length d)%nat → (j < length old)%nat → write_at old d off !! j = old !! j.
Proof.
  intros Hn Hj. destruct (decide (d = [])) as [->|Hd]; [done|].
  rewrite lookup_write_at, decide_False by done. case_decide; [|done].
  destruct (lookup_lt_is_Some_2 old j Hj) as [b Hb]. by rewrite Hb.
Qed.

Lemma write_at_within old d off :
  (off + length d ≤ length old)%nat → length (write_at old d off) = length old.
Proof.
  intros Hl. destruct (decide (d = [])) as [->|Hd]; [done|]. rewrite length_write_at by done. lia.
Qed.

(** Reading back what was written. *)
Lemma read_at_write_at old d off : read_at (write_at old d off) off (length d) = d.
Proof.
  unfold read_at. destruct (decide (d = [])) as [->|Hd]; [done|].
  unfold write_at. destruct d as [|b d']; [done|]. set (d := b :: d') in *.
  rewrite drop_app_ge.
  2: { rewrite length_take, length_app, length_replicate. lia. }
  rewrite length_take, length_app, length_replicate.
  replace (off - off `min` (length old + (off - length old)))%nat with 0%nat by lia.
  by rewrite drop_0, take_app_length.
Qed.

Lemma take_drop_write_at old d off : take (length d) (drop off (write_at old d off)) = d.
Proof. exact (read_at_write_at old d off). Qed.

Lemma length_truncate_to old n : length (truncate_to old n) = n.
Proof. unfold truncate_to. rewrite length_app, length_take, length_replicate. lia. Qed.

(** ** Operations that leave contents and open files alone *)

Section Quiet.
  Context `{OSLaws}.

(** Same open files; what existed, by inode or by name, is as it was. *)
Record quiet (w w' : world) : Prop := {
  q_handle g : handle w' g = handle w g;
  q_data i d : idata w i = Some d → idata w' i = Some d;
  q_path p i : at_path w p = Some i → at_path w' p = Some i;
}.

#[export] Instance quiet_preorder : PreOrder quiet.
Proof.
  split; [by split|]. intros w1 w2 w3 [H1 D1 P1] [H2 D2 P2].
  split; intros; [by rewrite H2, H1|by apply D2, D1|by apply P2, P1].
Qed.

(** Opening without creating or truncating leaves all contents alone. *)
Lemma open_data p fl m w w' f : os_OpenFile p fl m w = (w', Ok f) →
  o_create fl = false → o_trunc fl = false → ∀ j, idata w' j = idata w j.
Proof.
  intros Ho Hc Ht j. destruct (open_ok _ _ _ _ _ _ Ho) as (_ & _ & _ & i & _ & _ & _ & Hd & Hi).
  destruct (decide (j = i)) as [->|]; [|by apply Hd].
  destruct Hi as [[_ Hi]|(_ & ? & _)]; [by apply Hi|congruence].
Qed.

Lemma open_close_quiet p fl m w w1 f w2 w3 e : os_OpenFile p fl m w = (w1, Ok f) →
  o_trunc fl = false → quiet w1 w2 → f_Close f w2 = (w3, e) → quiet w w3.
Proof.
  intros Ho Ht [Hq Dq Pq] Hc. destruct (close_law _ _ _ _ Hc) as (Hcf & Hcg & Hcd & Hcp).
  destruct (open_ok _ _ _ _ _ _ Ho) as (Hf & Hg & Hp & i & _ & _ & _ & Hd & Hi). split.
  - intros g. destruct (decide (g = f)) as [->|Hne]; [by rewrite Hcf, Hf|].
    by rewrite Hcg, Hq, Hg.
  - intros j d Hj. rewrite Hcd. apply Dq. destruct (decide (j = i)) as [->|]; [|by rewrite Hd].
    destruct Hi as [(_ & _ & Hi)|(_ & _ & Hn & _)]; [by rewrite Hi|congruence].
  - intros q k Hk. rewrite Hcp. by apply Pq, Hp.
Qed.

Lemma open_err_quiet p fl m w w' e : os_OpenFile p fl m w = (w', Err e) → quiet w w'.
Proof. intros Ho. destruct (open_err _ _ _ _ _ _ Ho) as (Hh & Hd & Hp). split; intros; congruence. Qed.

Lemma rest_quiet f w w' r : f_ReadRest f w = (w', r) → quiet w w'.
Proof. intros Ho. destruct (rest_law _ _ _ _ Ho) as (Hh & Hd & Hp & _). split; intros; congruence. Qed.

Lemma seek_quiet f w w' r : f_SeekStart f w = (w', r) → quiet w w'.
Proof. intros Ho. destruct (seek_law _ _ _ _ Ho) as (Hh & Hd & Hp & _). split; intros; congruence. Qed.

Lemma mkdir_quiet p m w w' e : os_MkdirAll p m w = (w', e) → quiet w w'.
Proof. intros Ho. destruct (mkdir_law _ _ _ _ _ Ho) as (Hh & Hd & Hp & _). split; intros; rewrite ?Hd; eauto. Qed.

(** A write to a file that is not open fails, unless there is nothing to write. *)
Lemma write_closed f d off w w' n e : f_WriteAt f d off w = (w', (n, e)) →
  handle w f = None → d ≠ [] → e ≠ None.
Proof.
  intros Hw Hf Hd ->. destruct (write_law _ _ _ _ _ _ _ Hw) as (_ & _ & _ & Hok).
  destruct (Hok eq_refl) as (_ & _ & Hne). destruct (Hne Hd) as (_ & i & old & Hh & _). congruence.
Qed.

(** Open, work on the handle, close: the open files are as before. *)
Lemma open_close_handles p fl m w w1 f w2 w3 e : os_OpenFile p fl m w = (w1, Ok f) →
  (∀ g, handle w2 g = handle w1 g) → (∀ q i, at_path w1 q = Some i → at_path w2 q = Some i) →
  f_Close f w2 = (w3, e) →
  (∀ g, handle w3 g = handle w g) ∧ (∀ q i, at_path w q = Some i → at_path w3 q = Some i).
Proof.
  intros Ho Hh Hp Hc. destruct (close_law _ _ _ _ Hc) as (Hcf & Hcg & _ & Hcp).
  destruct (open_ok _ _ _ _ _ _ Ho) as (Hf & Hg & Hop & _). split.
  - intros g. destruct (decide (g = f)) as [->|Hne]; [by rewrite Hcf, Hf|]. by rewrite Hcg, Hh, Hg.
  - intros q i Hq. rewrite Hcp. by apply Hp, Hop.
Qed.

(** Exactly the old contents and names; the open files may differ. *)
Record same_files (w w' : world) : Prop := {
  sf_data i : idata w' i = idata w i;
  sf_path p : at_path w' p = at_path w p;
}.

#[export] Instance same_files_preorder : PreOrder same_files.
Proof. split; [by split|]. intros ??? [A B] [C D]. split; intros; congruence. Qed.

Lemma close_same f w w' e : f_Close f w = (w', e) → same_files w w'.
Proof. intros Hc. destruct (close_law _ _ _ _ Hc) as (_ & _ & Hd & Hp). by split. Qed.

Lemma rest_same f w w' r : f_ReadRest f w = (w', r) → same_files w w'.
Proof. intros Hc. destruct (rest_law _ _ _ _ Hc) as (_ & Hd & Hp & _). by split. Qed.

Lemma seek_same f w w' r : f_SeekStart f w = (w', r) → same_files w w'.
Proof. intros Hc. destruct (seek_law _ _ _ _ Hc) as (_ & Hd & Hp & _). by split. Qed.

Lemma open_same p fl m w w' f : o_create fl = false → o_trunc fl = false →
  os_OpenFile p fl m w = (w', Ok f) → same_files w w'.
Proof.
  intros Hc Ht Ho. split; [exact (open_data _ _ _ _ _ _ Ho Hc Ht)|].
  destruct (open_ok _ _ _ _ _ _ Ho) as (_ & _ & _ & i & _ & _ & _ & _ & [(_ & Hq & _)|(_ & ? & _)]);
    [exact Hq|congruence].
Qed.

Lemma open_err_same p fl m w w' e : os_OpenFile p fl m w = (w', Err e) → same_files w w'.
Proof. intros Ho. destruct (open_err _ _ _ _ _ _ Ho) as (_ & Hd & Hp). by split. Qed.

(** Opening an existing file and reading it from the start gives its contents. *)
Lemma open_read_contents p fl m w w1 f w2 d : os_OpenFile p fl m w = (w1, Ok f) →
  o_create fl = false → o_trunc fl = false → f_ReadRest f w1 = (w2, Ok d) →
  ∃ i, at_path w p = Some i ∧ idata w i = Some d.
Proof.
  intros Ho Hc Ht Hr. destruct (rest_law _ _ _ _ Hr) as (_ & _ & _ & Hd).
  destruct (Hd d eq_refl) as (i & wr & old & Hh & Hi & ->). destruct (open_same _ _ _ _ _ _ Hc Ht Ho) as [Sd Sp].
  destruct (open_ok _ _ _ _ _ _ Ho) as (_ & _ & _ & k & Hk & Hat & Hoff & _).
  rewrite Hh in Hk. injection Hk as <- ->. exists i. rewrite Hoff, drop_0, <- Sp, <- Sd. done.
Qed.

End Quiet.
