(* ===== verification/MemFS.v ===== *)
(** An in-memory file system that implements the interface [OS] and satisfies
    [OSLaws]: names map to inodes, open files are handles on inodes, so a file
    stays readable through a handle after its name is gone.  The closed examples of
    the development run on it. *)
From S2P Require Import Prelude GoStd OS.
From Stdlib Require Import Strings.Byte.

Record inode : Set := { n_dir : bool; n_mode : Z; n_data : list byte }.

(** Names are cleaned paths; a handle is an inode, whether it may write, and an offset. *)
Record memfs : Set := {
  names : gmap string nat;
  inodes : gmap nat inode;
  fds : gmap nat (nat * bool * nat);
}.

Definition set_names (n : gmap string nat) (w : memfs) : memfs :=
  {| names := n; inodes := inodes w; fds := fds w |}.
Definition set_inodes (n : gmap nat inode) (w : memfs) : memfs :=
  {| names := names w; inodes := n; fds := fds w |}.
Definition set_fds (n : gmap nat (nat * bool * nat)) (w : memfs) : memfs :=
  {| names := names w; inodes := inodes w; fds := n |}.

Definition os_err (no : errno) : error :=
  OsErr no (match no with
    | ENOENT => "no such file or directory" | EEXIST => "file exists"
    | ENOTDIR => "not a directory" | EISDIR => "is a directory"
    | EACCES => "permission denied" | EBADF => "bad file descriptor"
    | EINVAL => "invalid argument" | ENOSPC => "no space left on device"
    | EIO => "input/output error" | ECLOSED => "file already closed" end).

Definition node_at (w : memfs) (p : string) : option (nat * inode) :=
  i ← names w !! Clean p; n ← inodes w !! i; Some (i, n).

(** The proper prefixes of an absolute path, "/" first. *)
Definition ancestors (p : string) : list string :=
  match Split (Clean p) slash with
  | _ :: l => (λ k, ("/" +:+ StrJoin (take k l) slash)) <$> seq 0 (length l)
  | [] => []
  end.

Definition is_file_at (w : memfs) (p : string) : bool :=
  match node_at w p with Some (_, n) => negb (n_dir n) | None => false end.
Definition is_dir_at (w : memfs) (p : string) : bool :=
  match node_at w p with Some (_, n) => n_dir n | None => false end.

Definition missing_err (w : memfs) (p : string) : error :=
  if existsb (is_file_at w) (ancestors p) then os_err ENOTDIR else os_err ENOENT.

Definition info_of (p : string) (n : inode) : FileInfo :=
  {| fi_Name := Base p; fi_Size := zlen (n_data n);
     fi_Mode := Z.lor (FileMode_Perm (n_mode n)) (if n_dir n then ModeDir else 0); fi_ModTime := 0 |}.

Definition mem_Stat (p : string) (w : memfs) : result FileInfo :=
  match node_at w p with
  | Some (_, n) => Ok (info_of p n)
  | None => Err (missing_err w p)
  end.

(** A new inode under a name that is free. *)
Definition add_node (p : string) (n : inode) (w : memfs) : memfs * nat :=
  let i := fresh (dom (inodes w)) in
  ({| names := <[Clean p := i]> (names w); inodes := <[i := n]> (inodes w); fds := fds w |}, i).

Fixpoint mkdirs (l : list string) (mode : Z) (w : memfs) : memfs * option error :=
  match l with
  | [] => (w, None)
  | p :: l =>
    match names w !! Clean p with
    | Some i =>
      if is_dir_at w p then mkdirs l mode w else (w, Some (os_err ENOTDIR))
    | None =>
      mkdirs l mode (fst (add_node p {| n_dir := true; n_mode := FileMode_Perm mode; n_data := [] |} w))
    end
  end.

Definition mem_MkdirAll (p : string) (mode : Z) (w : memfs) : memfs * option error :=
  mkdirs (ancestors p ++ [Clean p]) mode w.

Definition add_fd (i : nat) (wr : bool) (w : memfs) : memfs * nat :=
  let f := fresh (dom (fds w)) in
  (set_fds (<[f := (i, wr, O)]> (fds w)) w, f).

Definition set_data (i : nat) (d : list byte) (w : memfs) : memfs :=
  set_inodes (alter (λ n, {| n_dir := n_dir n; n_mode := n_mode n; n_data := d |}) i (inodes w)) w.

Definition mem_OpenFile (p : string) (fl : open_flags) (mode : Z) (w : memfs)
    : memfs * result nat :=
  match names w !! Clean p with
  | Some i =>
    match inodes w !! i with
    | Some n =>
      if n_dir n && o_write fl then (w, Err (os_err EISDIR)) else
      let w := if o_trunc fl && negb (n_dir n) then set_data i [] w else w in
      let '(w, f) := add_fd i (o_write fl) w in (w, Ok f)
    | None => (w, Err (os_err EIO))
    end
  | None =>
    if o_create fl then
      if is_dir_at w (Dir (Clean p)) then
        let '(w, i) := add_node p {| n_dir := false; n_mode := FileMode_Perm mode; n_data := [] |} w in
        let '(w, f) := add_fd i (o_write fl) w in (w, Ok f)
      else (w, Err (missing_err w p))
    else (w, Err (missing_err w p))
  end.

(** The inode and the regular contents behind a handle. *)
Definition fd_data (f : nat) (w : memfs) : option (nat * bool * nat * list byte) :=
  '(i, wr, off) ← fds w !! f; n ← inodes w !! i;
  if n_dir n then None else Some (i, wr, off, n_data n).

Definition mem_Close (f : nat) (w : memfs) : memfs * option error :=
  match fds w !! f with
  | Some _ => (set_fds (delete f (fds w)) w, None)
  | None => (w, Some (os_err ECLOSED))
  end.

Definition mem_WriteAt (f : nat) (d : list byte) (off : Z) (w : memfs) : memfs * (Z * option error) :=
  if off <? 0 then (w, (0, Some (os_err EINVAL))) else
  match d with
  | [] => (w, (0, None))
  | _ =>
    match fds w !! f, fd_data f w with
    | None, _ => (w, (0, Some (os_err ECLOSED)))
    | _, Some (i, true, _, old) => (set_data i (write_at old d (Z.to_nat off)) w, (zlen d, None))
    | _, _ => (w, (0, Some (os_err EBADF)))
    end
  end.

Definition mem_ReadAt (f : nat) (n off : Z) (w : memfs) : list byte * option error :=
  if off <? 0 then ([], Some (os_err EINVAL)) else
  if n <=? 0 then ([], None) else
  match fds w !! f, fd_data f w with
  | None, _ => ([], Some (os_err ECLOSED))
  | _, Some (_, _, _, old) =>
    let d := read_at old (Z.to_nat off) (Z.to_nat n) in
    (d, if zlen d <? n then Some io_EOF else None)
  | _, None => ([], Some (os_err EISDIR))
  end.

Definition mem_Truncate (f : nat) (n : Z) (w : memfs) : memfs * option error :=
  if n <? 0 then (w, Some (os_err EINVAL)) else
  match fd_data f w with
  | Some (i, true, _, old) => (set_data i (truncate_to old (Z.to_nat n)) w, None)
  | _ => (w, Some (os_err EINVAL))
  end.

Definition mem_fStat (f : nat) (w : memfs) : result FileInfo :=
  match fds w !! f ≫= (λ x, inodes w !! (x.1.1)) with
  | Some n => Ok (info_of "" n)
  | None => Err (os_err ECLOSED)
  end.

Definition mem_SeekStart (f : nat) (w : memfs) : memfs * option error :=
  match fds w !! f with
  | Some (i, wr, _) => (set_fds (<[f := (i, wr, O)]> (fds w)) w, None)
  | None => (w, Some (os_err ECLOSED))
  end.

Definition mem_ReadRest (f : nat) (w : memfs) : memfs * result (list byte) :=
  match fds w !! f, fd_data f w with
  | None, _ => (w, Err (os_err ECLOSED))
  | _, Some (i, wr, off, old) =>
    (set_fds (<[f := (i, wr, length old)]> (fds w)) w, Ok (drop off old))
  | _, None => (w, Err (os_err EISDIR))
  end.

Definition mem_ReadDir (p : string) (w : memfs) : result (list OsDirEntry) :=
  match node_at w p with
  | None => Err (missing_err w p)
  | Some (_, n) =>
    if n_dir n then
      Ok (omap (λ '(q, i),
            if bool_decide (Dir q = Clean p) && negb (bool_decide (q = Clean p)) then
              match inodes w !! i with
              | Some m => Some {| de_Name := Base q; de_IsDir := n_dir m; de_Info := Ok (info_of q m) |}
              | None => None
              end
            else None) (map_to_list (names w)))
    else Err (os_err ENOTDIR)
  end.

Definition mem_Chmod (p : string) (m : Z) (w : memfs) : memfs * option error :=
  match node_at w p with
  | None => (w, Some (missing_err w p))
  | Some (i, n) =>
    (set_inodes (<[i := {| n_dir := n_dir n; n_mode := FileMode_Perm m; n_data := n_data n |}]> (inodes w)) w, None)
  end.

Definition mem_Rename (p q : string) (w : memfs) : memfs * option error :=
  match node_at w p with
  | None => (w, Some (missing_err w p))
  | Some (i, _) =>
    if is_dir_at w (Dir (Clean q))
    then (set_names (<[Clean q := i]> (delete (Clean p) (names w))) w, None)
    else (w, Some (missing_err w q))
  end.

Definition mem_Remove (p : string) (w : memfs) : memfs * option error :=
  match names w !! Clean p with
  | None => (w, Some (missing_err w p))
  | Some _ => (set_names (delete (Clean p) (names w)) w, None)
  end.

#[export] Instance MemOS : OS := {
  world := memfs;
  file := nat;
  os_Stat := mem_Stat;
  os_Lstat := mem_Stat;   (* it has no symbolic links *)
  os_MkdirAll := mem_MkdirAll;
  os_OpenFile := mem_OpenFile;
  os_ReadDir := mem_ReadDir;
  os_Chmod := mem_Chmod;
  os_Rename := mem_Rename;
  os_Remove := mem_Remove;
  f_Close := mem_Close;
  f_Truncate := mem_Truncate;
  f_WriteAt := mem_WriteAt;
  f_ReadAt := mem_ReadAt;
  f_Stat := mem_fStat;
  f_SeekStart := mem_SeekStart;
  f_ReadRest := mem_ReadRest;
}.

(** A file system with the directories [l] (absolute, parents first). *)
Definition mem_init (l : list string) : memfs :=
  fst (mkdirs ("/" :: l) 0x1ED {| names := ∅; inodes := ∅; fds := ∅ |}).

Example mem_ex1 : snd (mem_OpenFile "/home/u/x" O_CREATE_RDWR 420 (mem_init ["/home"; "/home/u"])) = Ok 0%nat.
Proof. vm_compute. reflexivity. Qed.
Example mem_ex2 : ancestors "/a/b/c" = ["/"; "/a"; "/a/b"].
Proof. reflexivity. Qed.

(** ** The laws *)

Definition mem_handle (w : memfs) (f : nat) : option (nat * bool) := fst <$> fds w !! f.
Definition mem_idata (w : memfs) (i : nat) : option (list byte) :=
  n ← inodes w !! i; if n_dir n then None else Some (n_data n).
Definition mem_offset (w : memfs) (f : nat) : nat := match fds w !! f with Some (_, o) => o | None => 0 end.
Definition mem_at_path (w : memfs) (p : string) : option nat := fst <$> node_at w p.

Lemma mem_idata_set_data w i d j :
  mem_idata (set_data i d w) j =
    if decide (i = j) then (λ _, d) <$> mem_idata w j else mem_idata w j.
Proof.
  unfold mem_idata, set_data, set_inodes. simpl. rewrite lookup_alter.
  destruct (decide (i = j)) as [->|Hij]; [|done].
  destruct (inodes w !! j) as [n|]; [|done]. simpl. by destruct (n_dir n).
Qed.

Lemma fd_data_Some f w i wr off d :
  fd_data f w = Some (i, wr, off, d) →
  fds w !! f = Some (i, wr, off) ∧ mem_handle w f = Some (i, wr) ∧ mem_idata w i = Some d.
Proof.
  unfold fd_data, mem_handle, mem_idata. destruct (fds w !! f) as [[[i' wr'] off']|]; [|done]. simpl.
  destruct (inodes w !! i') as [n|] eqn:Hn; [|done]. simpl. destruct (n_dir n) eqn:Hd; [done|].
  intros ?. simplify_eq. rewrite Hn. simpl. by rewrite Hd.
Qed.

Lemma add_fd_spec i wr w w' f : add_fd i wr w = (w', f) →
  mem_handle w f = None ∧ mem_handle w' f = Some (i, wr) ∧ mem_offset w' f = 0%nat
  ∧ (∀ g, g ≠ f → mem_handle w' g = mem_handle w g)
  ∧ (∀ j, mem_idata w' j = mem_idata w j) ∧ (∀ q, mem_at_path w' q = mem_at_path w q).
Proof.
  intros Ha. unfold add_fd in Ha. injection Ha as <- <-. unfold mem_handle, mem_offset, set_fds. simpl.
  assert (fds w !! fresh (dom (fds w)) = None) as -> by apply not_elem_of_dom, is_fresh.
  split_and!; try done.
  - by rewrite lookup_insert_eq.
  - by rewrite lookup_insert_eq.
  - intros g Hg. by rewrite lookup_insert_ne.
Qed.

Lemma mem_at_path_Some w p i :
  mem_at_path w p = Some i ↔ names w !! Clean p = Some i ∧ is_Some (inodes w !! i).
Proof.
  unfold mem_at_path, node_at. destruct (names w !! Clean p) as [k|]; simpl; [|naive_solver].
  destruct (inodes w !! k) as [n|] eqn:E; simpl; split; try done.
  - intros [= ->]. rewrite E. by split.
  - by intros [[= ->] _].
  - intros [[= ->] Hs]. by rewrite E in Hs; destruct Hs.
Qed.

Lemma mem_at_path_None w p : names w !! Clean p = None → mem_at_path w p = None.
Proof. unfold mem_at_path, node_at. by intros ->. Qed.

(** Two states with the same names and the same inode numbers in use. *)
Lemma mem_at_path_dom w w' q : names w' = names w →
  (∀ j, is_Some (inodes w' !! j) ↔ is_Some (inodes w !! j)) → mem_at_path w' q = mem_at_path w q.
Proof.
  intros Hn Hi. apply option_eq. intros i. by rewrite !mem_at_path_Some, Hn, Hi.
Qed.

Lemma set_data_at_path i d w q : mem_at_path (set_data i d w) q = mem_at_path w q.
Proof.
  apply mem_at_path_dom; [done|]. intros j. unfold set_data, set_inodes. simpl.
  rewrite lookup_alter. case_decide; [|done]. subst. apply fmap_is_Some.
Qed.

Lemma add_node_spec p n w w' i : add_node p n w = (w', i) → names w !! Clean p = None →
  fds w' = fds w ∧ mem_at_path w' p = Some i
  ∧ (∀ q k, mem_at_path w q = Some k → mem_at_path w' q = Some k)
  ∧ (∀ j, j ≠ i → mem_idata w' j = mem_idata w j)
  ∧ mem_idata w i = None
  ∧ mem_idata w' i = if n_dir n then None else Some (n_data n).
Proof.
  intros Ha Hp. unfold add_node in Ha. injection Ha as <- <-. set (i := fresh (dom (inodes w))).
  assert (inodes w !! i = None) as Hi by apply not_elem_of_dom, is_fresh.
  setoid_rewrite mem_at_path_Some. unfold mem_idata. simpl. split_and!; try done.
  - by rewrite lookup_insert_eq.
  - by rewrite lookup_insert_eq.
  - intros q k [Hq Hk]. split.
    + rewrite lookup_insert_ne; [done|]. intros Heq. rewrite Heq in Hp. congruence.
    + rewrite lookup_insert. by case_decide.
  - intros j Hj. by rewrite lookup_insert_ne.
  - by rewrite Hi.
  - by rewrite lookup_insert_eq.
Qed.

Lemma mem_open_ok p fl m w w' f : mem_OpenFile p fl m w = (w', Ok f) →
  mem_handle w f = None
  ∧ (∀ g, g ≠ f → mem_handle w' g = mem_handle w g)
  ∧ (∀ q i, mem_at_path w q = Some i → mem_at_path w' q = Some i)
  ∧ ∃ i, mem_handle w' f = Some (i, o_write fl) ∧ mem_at_path w' p = Some i ∧ mem_offset w' f = 0%nat
    ∧ (∀ j, j ≠ i → mem_idata w' j = mem_idata w j)
    ∧ ((mem_at_path w p = Some i ∧ (∀ q, mem_at_path w' q = mem_at_path w q)
        ∧ (o_trunc fl = false → mem_idata w' i = mem_idata w i))
       ∨ (mem_at_path w p = None ∧ o_create fl = true ∧ mem_idata w i = None ∧ mem_idata w' i = Some [])).
Proof.
  unfold mem_OpenFile. intros Ho. destruct (names w !! Clean p) as [i|] eqn:Hn.
  - destruct (inodes w !! i) as [n|] eqn:Hi; [|done].
    destruct (n_dir n && o_write fl); [done|].
    set (w1 := if o_trunc fl && negb (n_dir n) then set_data i [] w else w) in Ho. cbv zeta in Ho.
    destruct (add_fd i (o_write fl) w1) as [w2 f'] eqn:Ha. simplify_eq.
    apply add_fd_spec in Ha as (H1 & H2 & H0 & H3 & H4 & H5).
    assert (∀ g, mem_handle w1 g = mem_handle w g) as Hh by (unfold w1; by destruct (_ && _)).
    assert (∀ q, mem_at_path w1 q = mem_at_path w q) as Hp
      by (intros; unfold w1; destruct (_ && _); [apply set_data_at_path|done]).
    assert (∀ j, j ≠ i ∨ o_trunc fl = false → mem_idata w1 j = mem_idata w j) as Hd.
    { intros j Hj. unfold w1. destruct (_ && _) eqn:E; [|done]. rewrite mem_idata_set_data.
      case_decide; [|done]. apply andb_true_iff in E as [? _]. destruct Hj; congruence. }
    split_and!.
    + by rewrite <- Hh.
    + intros g Hg. by rewrite H3, Hh.
    + intros q k Hq. by rewrite H5, Hp.
    + assert (mem_at_path w p = Some i) as Hat by (by apply mem_at_path_Some; rewrite Hi).
      exists i. rewrite H5, Hp. split_and!; try done.
      * intros j Hj. rewrite H4. apply Hd. by left.
      * left. split; [done|]. split; [by intros q; rewrite H5, Hp|]. intros Ht. rewrite H4. apply Hd. by right.
  - destruct (o_create fl) eqn:Hc; [|done]. destruct (is_dir_at w _); [|done].
    destruct (add_node p {| n_dir := false; n_mode := FileMode_Perm m; n_data := [] |} w)
      as [w1 i] eqn:Hn1. destruct (add_fd i (o_write fl) w1) as [w2 f'] eqn:Ha.
    simplify_eq. apply add_fd_spec in Ha as (H1 & H2 & H0 & H3 & H4 & H5).
    apply add_node_spec in Hn1 as (Hf & Hat & Hq & Hj & Hfr & Hnew); [|done].
    assert (∀ g, mem_handle w1 g = mem_handle w g) as Hh by (intros; unfold mem_handle; by rewrite Hf).
    split_and!.
    + by rewrite <- Hh.
    + intros g Hg. by rewrite H3, Hh.
    + intros q k Hqk. rewrite H5. by apply Hq.
    + exists i. rewrite H5, H4. split_and!; try done.
      * intros j Hji. rewrite H4. by apply Hj.
      * right. apply mem_at_path_None in Hn. by split_and!.
Qed.

Lemma mem_open_trunc p fl m w w' f i wr d : mem_OpenFile p fl m w = (w', Ok f) → o_trunc fl = true →
  mem_handle w' f = Some (i, wr) → mem_idata w' i = Some d → d = [].
Proof.
  unfold mem_OpenFile. intros Ho Ht Hf Hd.
  assert (∀ k b w1 w2, add_fd k b w1 = (w2, f) → w2 = w' → k = i ∧ mem_idata w1 i = Some d) as Hfd.
  { intros k b w1 w2 Ha ->. apply add_fd_spec in Ha as (_ & Hk & _ & _ & Hdd & _).
    rewrite Hk in Hf. injection Hf as <- _. by rewrite <- Hdd. }
  destruct (names w !! Clean p) as [k|].
  - destruct (inodes w !! k) as [n|] eqn:Hn; [|done]. destruct (n_dir n && o_write fl); [done|].
    rewrite Ht in Ho. cbv zeta in Ho. destruct (add_fd _ _ _) as [w2 f'] eqn:Ha. simplify_eq.
    destruct (Hfd _ _ _ _ Ha eq_refl) as [-> H0]. destruct (n_dir n) eqn:Hdir; simpl in H0.
    + unfold mem_idata in H0. rewrite Hn in H0. simpl in H0. by rewrite Hdir in H0.
    + rewrite mem_idata_set_data, decide_True in H0 by done. by apply fmap_Some in H0 as (? & _ & ->).
  - destruct (o_create fl); [|done]. destruct (is_dir_at w _); [|done].
    destruct (add_node _ _ _) as [w1 k] eqn:Hk. destruct (add_fd _ _ _) as [w2 f'] eqn:Ha. simplify_eq.
    destruct (Hfd _ _ _ _ Ha eq_refl) as [-> H0]. unfold add_node in Hk. injection Hk as <- <-.
    unfold mem_idata in H0. simpl in H0. rewrite lookup_insert_eq in H0. simpl in H0. by injection H0 as <-.
Qed.

Lemma add_node_new p n w w' i q k : add_node p n w = (w', i) →
  mem_at_path w' q = Some k → mem_at_path w q = Some k ∨ k = i.
Proof.
  intros Ha. unfold add_node in Ha. injection Ha as <- <-. rewrite !mem_at_path_Some. simpl.
  intros [Hq Hk]. destruct (decide (k = fresh (dom (inodes w)))) as [->|Hne]; [by right|left].
  rewrite lookup_insert_ne in Hk by done. rewrite lookup_insert in Hq. case_decide; [congruence|done].
Qed.

Lemma mem_mkdirs_law l m w w' e : mkdirs l m w = (w', e) →
  (∀ g, mem_handle w' g = mem_handle w g)
  ∧ (∀ i, mem_idata w' i = mem_idata w i)
  ∧ (∀ q i, mem_at_path w q = Some i → mem_at_path w' q = Some i)
  ∧ (∀ q i, mem_at_path w' q = Some i → mem_at_path w q = Some i ∨ mem_idata w i = None).
Proof.
  revert w. induction l as [|p l IH]; intros w Hm; cbn [mkdirs] in Hm.
  { simplify_eq. split_and!; try done. by left. }
  destruct (names w !! Clean p) as [i|] eqn:Hn.
  { destruct (is_dir_at w p); [by apply IH|]. simplify_eq. split_and!; try done. by left. }
  destruct (add_node p {| n_dir := true; n_mode := FileMode_Perm m; n_data := [] |} w) as [w1 i] eqn:Ha.
  pose proof (λ q k, add_node_new _ _ _ _ _ q k Ha) as Hnew'.
  apply add_node_spec in Ha as (Hf & Hat & Hq & Hj & Hnone & Hi); [|done]. simpl in Hi, Hm.
  assert (∀ j, mem_idata w1 j = mem_idata w j) as Hd.
  { intros j. destruct (decide (j = i)) as [->|]; [congruence|by apply Hj]. }
  apply IH in Hm as (H1 & H2 & H3 & H4). split_and!.
  - intros g. rewrite H1. unfold mem_handle. simpl. by rewrite Hf.
  - intros j. by rewrite H2, Hd.
  - intros q k Hqk. by apply H3, Hq.
  - intros q k Hqk. destruct (H4 q k Hqk) as [Hqk1|Hk]; [|right; by rewrite <- Hd].
    destruct (Hnew' q k Hqk1) as [?| ->]; [by left|by right].
Qed.

Lemma set_data_others w f i wr d j : mem_handle w f = Some (i, wr) →
  fst <$> mem_handle w f ≠ Some j → mem_idata (set_data i d w) j = mem_idata w j.
Proof. intros Hh Hj. rewrite Hh in Hj. rewrite mem_idata_set_data, decide_False; [done|]. simpl in Hj. congruence. Qed.

Lemma mem_read_law w f i wr old off n : mem_handle w f = Some (i, wr) → mem_idata w i = Some old →
  0 <= off → 0 < n →
  let d := read_at old (Z.to_nat off) (Z.to_nat n) in
  let e := if zlen d <? n then Some io_EOF else None in
  zlen d <= Z.max 0 n ∧ (e = None → zlen d = Z.max 0 n)
  ∧ (d ≠ [] → 0 <= off ∧ ∃ i wr old, mem_handle w f = Some (i, wr) ∧ mem_idata w i = Some old
       ∧ d `prefix_of` drop (Z.to_nat off) old ∧ (e = Some io_EOF → d = drop (Z.to_nat off) old)).
Proof.
  intros Hh Hi Ho Hn d e.
  assert (zlen d <= n) as Hle by (unfold d, zlen, read_at; rewrite length_take; lia).
  split_and!; [lia| |].
  - unfold e. destruct (zlen d <? n) eqn:E; [done|]. zbool. lia.
  - intros _. split; [done|]. exists i, wr, old. split_and!; try done.
    + apply prefix_take.
    + unfold e. destruct (zlen d <? n) eqn:E; [|done]. zbool. intros _.
      unfold d, read_at in *. apply take_ge. unfold zlen in E. rewrite length_take in E. lia.
Qed.

Lemma mkdirs_app l1 l2 m w : mkdirs (l1 ++ l2) m w =
  let '(w1, e) := mkdirs l1 m w in match e with Some _ => (w1, e) | None => mkdirs l2 m w1 end.
Proof.
  revert w. induction l1 as [|p l1 IH]; intros w; [done|]. cbn [app mkdirs].
  destruct (names w !! Clean p); [|by rewrite IH]. by destruct (is_dir_at w p); [rewrite IH|].
Qed.

Lemma mem_mkdir_not_dir p m w w' e i d : mem_MkdirAll p m w = (w', e) → mem_at_path w p = Some i →
  mem_idata w i = Some d → is_Some e.
Proof.
  unfold mem_MkdirAll. rewrite mkdirs_app. destruct (mkdirs (ancestors p) m w) as [w1 [e1|]] eqn:E.
  { intros [= <- <-]. by eexists. }
  apply mem_mkdirs_law in E as (_ & Hd & Hp & _). intros Hm Hi%Hp Hdi. rewrite <- Hd in Hdi.
  apply mem_at_path_Some in Hi as [Hn _]. cbn [mkdirs] in Hm. rewrite Clean_idemp, Hn in Hm.
  assert (is_dir_at w1 (Clean p) = false) as Hf.
  { unfold is_dir_at, node_at. rewrite Clean_idemp, Hn. unfold mem_idata in Hdi. simpl.
    destruct (inodes w1 !! i) as [n|]; [|done]. simpl in *. by destruct (n_dir n). }
  rewrite Hf in Hm. simplify_eq. by eexists.
Qed.

Lemma info_of_dir q n : n_dir n = true → fi_IsDir (info_of q n) = true.
Proof.
  intros Hn. unfold fi_IsDir, FileMode_IsDir, info_of. cbn [fi_Mode]. rewrite Hn, Z.lor_spec.
  change (Z.testbit ModeDir 31) with true. apply orb_true_r.
Qed.

(** The nodes [mkdirs] adds are directories. *)
Lemma mkdirs_nodes l m w w' e q i n : mkdirs l m w = (w', e) → node_at w' q = Some (i, n) →
  node_at w q = Some (i, n) ∨ n_dir n = true.
Proof.
  revert w. induction l as [|p l IH]; intros w Hm; cbn [mkdirs] in Hm; [simplify_eq; by left|].
  destruct (names w !! Clean p) as [k|] eqn:Hn.
  { destruct (is_dir_at w p); [by apply IH|]. simplify_eq. by left. }
  intros Hq. destruct (IH _ Hm Hq) as [H1|?]; [|by right]. clear IH Hm Hq. unfold node_at, add_node in *. cbn [fst names inodes] in H1.
  destruct (decide (Clean p = Clean q)) as [Heq|Hne].
  - rewrite Heq, lookup_insert_eq in H1. cbn in H1. rewrite lookup_insert_eq in H1. cbn in H1. simplify_eq. by right.
  - rewrite lookup_insert_ne in H1 by done. destruct (names w !! Clean q) as [k|]; [|done]. cbn in *.
    rewrite lookup_insert in H1. case_decide; [cbn in H1; simplify_eq; by right|by left].
Qed.

Lemma mem_mkdir_stat p m w w' e q info : mem_MkdirAll p m w = (w', e) → mem_at_path w q = None →
  mem_Stat q w' = Ok info → fi_IsDir info = true.
Proof.
  unfold mem_MkdirAll, mem_at_path, mem_Stat. intros Hm Hn Hs. destruct (node_at w' q) as [[i n]|] eqn:E; [|done]. simplify_eq.
  apply info_of_dir. destruct (mkdirs_nodes _ _ _ _ _ _ _ _ Hm E) as [Hq|?]; [by rewrite Hq in Hn|done].
Qed.

#[export] Instance MemOSLaws : OSLaws.
Proof.
  refine {| handle := mem_handle : world → file → _; idata := mem_idata : world → nat → _;
            at_path := mem_at_path : world → string → _;
            offset := mem_offset : world → file → _ |}.
  - apply mem_open_ok.
  - apply mem_open_trunc.
  - intros p fl m w w' e He. simpl in He. unfold mem_OpenFile in He.
    repeat (case_match; simplify_eq; try done).
  - intros p fl m w w' e He. simpl in He. unfold mem_OpenFile, missing_err, os_err in He.
    repeat (case_match; simplify_eq; try (by eexists _, _)).
  - intros f w w' e Hc. simpl in *. unfold mem_Close in Hc.
    destruct (fds w !! f) eqn:Hf; simplify_eq; unfold mem_handle; simpl.
    + split_and!; try done; [by rewrite lookup_delete_eq|]. intros g Hg. by rewrite lookup_delete_ne.
    + by rewrite Hf.
  - intros f d off w w' n e Hw. simpl in *. unfold mem_WriteAt in Hw.
    destruct (off <? 0) eqn:E0; [by simplify_eq|]. zbool. destruct d as [|b d]; [by simplify_eq|].
    destruct (fds w !! f) eqn:Hf; [|by simplify_eq].
    destruct (fd_data f w) as [[[[i []] o] old]|] eqn:Hd; simplify_eq; try done.
    apply fd_data_Some in Hd as (_ & Hh & Hi).
    split_and!; try done; [intros; apply set_data_at_path|by intros j; eapply set_data_others|]. intros _.
    split_and!; try done. intros _. split; [done|]. exists i, old. split_and!; try done.
    + rewrite mem_idata_set_data, decide_True, Hi by done. done.
    + intros j Hj. by rewrite mem_idata_set_data, decide_False.
  - intros f d off w w' n e i wr Hw Hh. simpl in *. unfold mem_WriteAt in Hw.
    destruct (off <? 0) eqn:E0; [by simplify_eq; left|]. zbool. destruct d as [|b d]; [by simplify_eq; left|].
    destruct (fds w !! f) eqn:Hf; [|by simplify_eq; left].
    destruct (fd_data f w) as [[[[k []] o] old]|] eqn:Hd; simplify_eq; try by left.
    apply fd_data_Some in Hd as (_ & Hk & Hi). rewrite Hk in Hh. simplify_eq. right. split; [done|].
    exists old, (length (b :: d)). split; [done|]. rewrite take_ge by done.
    by rewrite mem_idata_set_data, decide_True, Hi by done.
  - intros f n off w d e Hr. simpl in *. unfold mem_ReadAt in Hr.
    destruct (off <? 0) eqn:E0; [by simplify_eq; split_and!; try done; unfold zlen; simpl; lia|]. zbool.
    destruct (n <=? 0) eqn:E1; [by simplify_eq; split_and!; try done; unfold zlen; simpl; lia|]. zbool.
    destruct (fds w !! f) eqn:Hf; [|by simplify_eq; split_and!; try done; unfold zlen; simpl; lia].
    destruct (fd_data f w) as [[[[i wr] o] old]|] eqn:Hd.
    2: by simplify_eq; split_and!; try done; unfold zlen; simpl; lia.
    apply fd_data_Some in Hd as (_ & Hh & Hi). simplify_eq. by apply (mem_read_law w f i wr).
  - intros p w info Hs. simpl in *. unfold mem_Stat, mem_at_path in *. by destruct (node_at w p) as [[]|].
  - intros p w info i d Hs Hi Hd. simpl in *. unfold mem_Stat, mem_at_path, mem_idata in *.
    destruct (node_at w p) as [[k n]|] eqn:Hn; [|done]. simplify_eq. unfold node_at in Hn.
    destruct (names w !! Clean p); [|done]. simpl in *. destruct (inodes w !! _) eqn:E; [|done]. simpl in *.
    simplify_eq. rewrite E in Hd. simpl in Hd. by destruct (n_dir n); simplify_eq.
  - intros p w e Hs _. simpl in *. unfold mem_Stat, mem_at_path in *. by destruct (node_at w p) as [[]|].
  - done.
  - intros f n w w' e Ht. simpl in *. unfold mem_Truncate in Ht.
    destruct (n <? 0) eqn:E0; [by simplify_eq|]. zbool.
    destruct (fd_data f w) as [[[[i []] o] old]|] eqn:Hd; simplify_eq; try done.
    apply fd_data_Some in Hd as (_ & Hh & Hi).
    split_and!; try done; [intros; apply set_data_at_path|by intros j; eapply set_data_others|]. intros _. split; [done|].
    exists i, old. split_and!; try done.
    + rewrite mem_idata_set_data, decide_True, Hi by done. done.
    + intros j Hj. by rewrite mem_idata_set_data, decide_False.
  - intros p m w w' e Hm. by apply mem_mkdirs_law in Hm.
  - apply mem_mkdir_not_dir.
  - apply mem_mkdir_stat.
  - intros p q w w' Hr. simpl in *. unfold mem_Rename in Hr.
    destruct (node_at w p) as [[i n]|] eqn:Hn; [|done]. destruct (is_dir_at w _); [|done]. simplify_eq.
    split_and!; try done. exists i. unfold mem_at_path at 1. rewrite Hn.
    unfold node_at in Hn. destruct (names w !! Clean p) as [k|] eqn:Hk; [|done]. simpl in Hn.
    destruct (inodes w !! k) eqn:E; [|done]. simpl in Hn. simplify_eq. split_and!; [done| |].
    + apply mem_at_path_Some. simpl. rewrite lookup_insert_eq. split; [done|]. by rewrite E.
    + intros _ r k'. rewrite !mem_at_path_Some. simpl. rewrite lookup_insert. case_decide.
      * intros [[= ->] _]. by right.
      * intros [Hr Hs]. left. split; [|done]. by apply lookup_delete_Some in Hr as [_ ?].
  - intros p q w w' e Hr. simpl in *. unfold mem_Rename in Hr.
    destruct (node_at w p) as [[i n]|]; [|by simplify_eq]. destruct (is_dir_at w _); by simplify_eq.
  - intros p m w w' e Hr. simpl in *. unfold mem_Chmod in Hr.
    destruct (node_at w p) as [[i n]|] eqn:Hn; simplify_eq; [|done].
    unfold node_at in Hn. destruct (names w !! Clean p) as [k|]; [|done]. simpl in Hn.
    destruct (inodes w !! k) eqn:E; [|done]. simpl in Hn. simplify_eq. split_and!; [done| |].
    + intros j. unfold mem_idata. simpl. rewrite lookup_insert. case_decide; [|done]. subst. by rewrite E.
    + intros q. apply mem_at_path_dom; [done|]. intros j. simpl. rewrite lookup_insert.
      case_decide; [|done]. subst. by rewrite E.
  - intros p w w' e Hr. simpl in *. unfold mem_Remove in Hr.
    destruct (names w !! Clean p) as [k|] eqn:Hk; [|by simplify_eq]. simplify_eq.
    split_and!; try done; intros q i; rewrite !mem_at_path_Some; simpl.
    + intros [Hq Hs]. split; [|done]. by apply lookup_delete_Some in Hq as [_ ?].
    + intros [Hq Hs] Hp. split; [|done]. rewrite lookup_delete_ne; [done|]. intros Heq. apply Hp.
      split; [congruence|done].
  - intros f w w' e Hs. simpl in *. unfold mem_SeekStart in Hs.
    destruct (fds w !! f) as [[[i wr] o]|] eqn:Hf; simplify_eq; [|done]. split_and!; try done.
    + intros g. unfold mem_handle. simpl. rewrite lookup_insert. case_decide; [|done]. subst. by rewrite Hf.
    + intros _. unfold mem_offset. simpl. by rewrite lookup_insert_eq.
  - intros f w w' r Hs. simpl in *. unfold mem_ReadRest in Hs.
    destruct (fds w !! f) as [[[i wr] o]|] eqn:Hf; [|by simplify_eq].
    destruct (fd_data f w) as [[[[i' wr'] o'] old]|] eqn:Hd; simplify_eq; [|done].
    apply fd_data_Some in Hd as (Hfd & Hh & Hi). rewrite Hf in Hfd. simplify_eq. split_and!; try done.
    + intros g. unfold mem_handle. simpl. rewrite lookup_insert. case_decide; [|done]. subst. by rewrite Hf.
    + intros d Hd. simplify_eq. exists i', wr', old. unfold mem_offset. by rewrite Hf.
Defined.
