(* ===== verification/Chunk.v ===== *)
(** The chunk codecs of [src/transfer.go]: [compressChunk], [decompressChunk],
    [encryptChunk] and [decryptChunk].

    DEFLATE ([compress/gzip]) and XSalsa20-Poly1305 ([nacl/secretbox]) are the
    parameters [Gzip] and [SecretBox]; the first has the round trip gzip documents
    and the second the one secretbox documents, with its 16 bytes of overhead.  A
    key is an [option]: Go's [*[32]byte], [nil] when absent. *)
From S2P Require Import Prelude Message.
From Stdlib Require Import Strings.Byte.

(** ** Parameters *)

Class Gzip := {
  (* a gzip.Writer on a buffer: Write, Close, Bytes *)
  gzip_write : list byte → result (list byte);
  (* gzip.NewReader and io.ReadAll *)
  gzip_read : list byte → result (list byte);
}.

Class GzipOk `{Gzip} : Prop := {
  gzip_roundtrip d z : gzip_write d = Ok z → gzip_read z = Ok d;
  gzip_empty : is_Ok (gzip_read []) = false;
}.

Class SecretBox := {
  (* secretbox.Seal(nil, message, nonce, key) *)
  box_seal : list byte → list byte → list byte → list byte;
  (* secretbox.Open(nil, box, nonce, key) *)
  box_open : list byte → list byte → list byte → option (list byte);
}.

Class SecretBoxOk `{SecretBox} : Prop := {
  box_roundtrip m nonce key : box_open (box_seal m nonce key) nonce key = Some m;
  box_overhead m nonce key : zlen (box_seal m nonce key) = zlen m + 16;
}.

(** ** The code *)

Definition compressChunk `{Gzip} (data : list byte) (algo : Z) : result (list byte * Z) :=
  if (algo =? CompressionNone) || (zlen data =? 0) then Ok (data, CompressionNone) else
  if algo =? CompressionGzip then
    match gzip_write data with
    | Err e => Err e
    | Ok compressed =>
      if zlen data <=? zlen compressed then Ok (data, CompressionNone)
      else Ok (compressed, algo)
    end
  else Ok (data, CompressionNone).

Definition decompressChunk `{Gzip} (data : list byte) (algo : Z) : result (list byte) :=
  if (algo =? CompressionNone) || (zlen data =? 0) then Ok data else
  if algo =? CompressionGzip then gzip_read data else Ok data.

(** [nonce] is what reading 24 bytes of [rand.Reader] gives. *)
Definition encryptChunk `{SecretBox} (nonce : result (list byte)) (data : list byte)
    (key : option (list byte)) : result (list byte) :=
  match key with
  | None => Ok data
  | Some key =>
    if zlen data =? 0 then Ok data else
    match nonce with
    | Err e => Err (Wrapf "encrypt nonce: %w" [] e)
    | Ok nonce => Ok (nonce ++ box_seal data nonce key)
    end
  end.

Definition decryptChunk `{SecretBox} (data : list byte) (key : option (list byte))
    : result (list byte) :=
  match key with
  | None => Ok data
  | Some key =>
    if zlen data =? 0 then Ok data else
    if zlen data <? 24 then
      Err (Errorf "decrypt: data too short (%d bytes, need at least 24)" [inr (zlen data)])
    else
      let nonce := take 24 data in
      match box_open (drop 24 data) nonce key with
      | None => Err (Errorf "decrypt: secretbox open failed" [])
      | Some plain => Ok plain
      end
  end.

(** What the client's download makes of the payload of a [ReadRes]
    ([downloadFile]): decrypt if it says so, then decompress. *)
Definition download_payload `{Gzip, SecretBox} (readRes : ReadRes.t) (payload : list byte)
    (key : option (list byte)) (offset : Z) : result (list byte) :=
  match
    (if ReadRes.Encryption readRes =? EncryptionSecretBox then
       match decryptChunk payload key with
       | Err decErr => Err (Wrapf "decryption failed at offset %d: %w" [inr offset] decErr)
       | Ok payload => Ok payload
       end
     else Ok payload)
  with
  | Err err => Err err
  | Ok payload =>
    match decompressChunk payload (ReadRes.Compression readRes) with
    | Err err => Err (Wrapf "decompression failed at offset %d: %w" [inr offset] err)
    | Ok data => Ok data
    end
  end.

(** ** Round trips *)

Lemma decompress_compress `{GzipOk} data algo out a :
  compressChunk data algo = Ok (out, a) →
  decompressChunk out a = Ok data ∧ zlen out <= zlen data
  ∧ (a = CompressionNone ∧ out = data ∨ a = CompressionGzip ∧ zlen out < zlen data).
Proof.
  unfold compressChunk, decompressChunk.
  destruct (_ || _) eqn:E1; [intros ?; simplify_eq; split_and!; [done|lia|by left]|].
  destruct (algo =? CompressionGzip) eqn:E2.
  2: { intros ?; simplify_eq. split_and!; [done|lia|by left]. }
  destruct (gzip_write data) as [z|] eqn:Ez; [|done].
  destruct (_ <=? _) eqn:E3; intros ?; simplify_eq; zbool; [split_and!; [done|lia|by left]|].
  subst a. change (CompressionGzip =? CompressionNone) with false. cbn [orb].
  split_and!; [|lia|by right].
  apply gzip_roundtrip in Ez. destruct (zlen out =? 0) eqn:E4; [|done]. zbool.
  apply zlen_0_inv in E4 as ->. pose proof gzip_empty as He. by rewrite Ez in He.
Qed.

Lemma decrypt_encrypt `{SecretBoxOk} nonce data key out :
  encryptChunk nonce data key = Ok out → (∀ n, nonce = Ok n → length n = 24%nat) →
  decryptChunk out key = Ok data
  ∧ zlen out = zlen data + (if bool_decide (key = None) || (zlen data =? 0) then 0 else 40).
Proof.
  unfold encryptChunk, decryptChunk. intros He Hn. destruct key as [key|].
  2: { simplify_eq. split; [done|]. rewrite bool_decide_true by done. cbn [orb]. lia. }
  rewrite bool_decide_false by done. cbn [orb].
  destruct (zlen data =? 0) eqn:E0; [simplify_eq; rewrite E0; split; [done|lia]|].
  destruct nonce as [n|]; [|done]. injection He as <-. specialize (Hn n eq_refl).
  rewrite zlen_app, box_overhead. pose proof (zlen_nonneg data).
  assert (zlen n = 24) by (unfold zlen; by rewrite Hn).
  zbool.
  rewrite (proj2 (Z.eqb_neq (zlen n + _) 0)), (proj2 (Z.ltb_ge (zlen n + _) 24)) by lia.
  rewrite take_app_length', drop_app_length' by done.
  rewrite box_roundtrip. split; [done|]. lia.
Qed.

(** ** Instances for the closed examples *)

(** A run-length "gzip": a tag byte, then the input, or one byte and a count. *)
#[export] Instance toy_gzip : Gzip := {
  gzip_write d :=
    Ok (match d with
        | b :: _ => if bool_decide (d = replicate (length d) b ∧ length d < 256)%nat
                    then [x01; b; byte_of_Z (zlen d)] else x00 :: d
        | [] => x00 :: d
        end);
  gzip_read z :=
    match z with
    | x00 :: d => Ok d
    | [x01; b; n] => Ok (replicate (Z.to_nat (zbyte n)) b)
    | _ => Err io_ErrUnexpectedEOF
    end;
}.

#[export] Instance toy_gzip_ok : GzipOk.
Proof.
  split; [|done]. intros d z Hz. simpl in Hz. injection Hz as <-.
  destruct d as [|b d]; [done|]. case_bool_decide as Hd; [|done]. destruct Hd as [Hd Hl].
  simpl gzip_read. rewrite zbyte_of_Z. unfold u8. rewrite Z.mod_small by (unfold zlen; lia).
  unfold zlen. rewrite Nat2Z.id. by rewrite <- Hd.
Qed.

(** A "secretbox" that appends sixteen bytes depending on key and nonce. *)
Definition toy_tag (nonce key : list byte) : list byte := take 16 (key ++ nonce ++ replicate 16 x00).

#[export] Instance toy_box : SecretBox := {
  box_seal m nonce key := toy_tag nonce key ++ m;
  box_open b nonce key :=
    if bool_decide (take 16 b = toy_tag nonce key) then Some (drop 16 b) else None;
}.

Lemma length_toy_tag nonce key : length (toy_tag nonce key) = 16%nat.
Proof. unfold toy_tag. rewrite length_take, !length_app, length_replicate. lia. Qed.

#[export] Instance toy_box_ok : SecretBoxOk.
Proof.
  split.
  - intros m nonce key. simpl. rewrite take_app_length', drop_app_length' by (by rewrite length_toy_tag).
    by rewrite bool_decide_true.
  - intros m nonce key. simpl. rewrite zlen_app. unfold zlen at 1. rewrite length_toy_tag. lia.
Qed.
