(* ===== verification/Auth.v ===== *)
(** Authentication ([src/auth.go]): the session store, the search of an SSH key in
    the users' [authorized_keys], signature verification and key derivation.

    The third-party SSH package is the parameter [SSH]; [os/user] is [UserDB].
    Files are read through the interface [OS].  A session's [*sessionInfo] is
    reachable only through the store (and the handler that just created it), so the
    store holds the records themselves. *)
From S2P Require Import Prelude GoStd GoHash OS.
From Stdlib Require Import Ascii Strings.Byte.

(** ** Parameters *)

(** [golang.org/x/crypto/ssh] *)
Class SSH := {
  PublicKey : Type;
  Signature : Type;
  ssh_ParsePublicKey : list byte → result PublicKey;
  ssh_UnmarshalSignature : list byte → result Signature;
  ssh_Verify : PublicKey → list byte → Signature → option error;
  ssh_Marshal : PublicKey → list byte;
  ssh_ParseAuthorizedKey : string → result PublicKey;
  ssh_MarshalAuthorizedKey : PublicKey → list byte;
}.

(** [os/user]: the home directory [user.Lookup] gives. *)
Class UserDB := user_Lookup : string → result string.

(** ** [bufio.Scanner] over the contents of a file *)

Definition maxScanTokenSize : nat := 65536.

Definition drop_cr (l : list byte) : list byte :=
  match last l with Some x0d => take (length l - 1) l | _ => l end.

(** Split at newlines; [cur] is the current line, reversed. *)
Fixpoint split_lines (cur : list byte) (s : list byte) : list (list byte) :=
  match s with
  | [] => match cur with [] => [] | _ => [reverse cur] end
  | x0a :: s => reverse cur :: split_lines [] s
  | b :: s => split_lines (b :: cur) s
  end.

(** The lines up to the first one the scanner's buffer cannot hold. *)
Fixpoint scannable (ls : list (list byte)) : list (list byte) :=
  match ls with
  | [] => []
  | l :: ls => if bool_decide (length l < maxScanTokenSize)%nat then l :: scannable ls else []
  end.

Definition scan_text (s : list byte) : list string :=
  (λ l, String.string_of_list_byte (drop_cr l)) <$> scannable (split_lines [] s).

Section Files.
  Context `{OS}.

(** [os.Open(p)] and a scanner over the file, which is closed when done; a read
    error ends the scan like the end of the file. *)
Definition open_and_scan (p : string) (w : world) : world * result (list string) :=
  match os_OpenFile p O_RDONLY 0 w with
  | (w, Err e) => (w, Err e)
  | (w, Ok f) =>
    let '(w, r) := f_ReadRest f w in
    let '(w, _) := f_Close f w in
    (w, Ok (match r with Ok d => scan_text d | Err _ => [] end))
  end.

End Files.

(** ** The session store *)

Record sessionInfo : Set := {
  User : string;
  Home : string;
  EncryptionKey : option (list byte);
}.

Definition sessionStore : Type := gmap string sessionInfo.

Definition newSessionStore : sessionStore := ∅.

(** [b] is what [rand.Read] put into the 32-byte buffer, whose error is ignored. *)
Definition sessionTokenHex (rnd : result (list byte)) : string :=
  EncodeToString (match rnd with Ok b => b | Err _ => replicate 32 x00 end).

Definition sessions_Put (rnd : result (list byte)) (user home : string) (s : sessionStore)
    : sessionStore * (string * sessionInfo) :=
  let token := sessionTokenHex rnd in
  let info := {| User := user; Home := home; EncryptionKey := None |} in
  (<[token := info]> s, (token, info)).

Definition sessions_Get (token : string) (s : sessionStore) : option sessionInfo := s !! token.

Definition sessions_Delete (token : string) (s : sessionStore) : sessionStore := delete token s.

(** [info.EncryptionKey = key] on the record the store holds under [token]. *)
Definition set_EncryptionKey (token : string) (key : option (list byte)) (s : sessionStore)
    : sessionStore :=
  alter (λ i, {| User := User i; Home := Home i; EncryptionKey := key |}) token s.

Definition sessionTTL : Z := 5 * 60 * 1000000000.

Definition challengeLen : nat := 32.

Definition generateChallenge (rnd : result (list byte)) : result (list byte) :=
  match rnd with
  | Err e => Err (Wrapf "generate challenge: %w" [] e)
  | Ok b => Ok b
  end.

(** ** Keys and users *)

Lemma set_EncryptionKey_insert token k i s :
  set_EncryptionKey token k (<[token := i]> s) =
  <[token := {| User := User i; Home := Home i; EncryptionKey := k |}]> s.
Proof. exact (alter_insert_eq (M:=gmap string) s token _ i). Qed.

Lemma sessions_lookup_insert (s : sessionStore) t u i :
  (<[t := i]> s : sessionStore) !! u = if decide (t = u) then Some i else s !! u.
Proof. exact (lookup_insert (M:=gmap string) s t u i). Qed.

Lemma open_and_scan_quiet `{OSLaws} p w w' r : open_and_scan p w = (w', r) → quiet w w'.
Proof.
  unfold open_and_scan. intros Ho. destruct (os_OpenFile _ _ _ w) as [w1 [f|e]] eqn:E1.
  - destruct (f_ReadRest f w1) as [w2 d] eqn:E2. destruct (f_Close f w2) as [w3 e] eqn:E3. simplify_eq.
    eapply open_close_quiet; [exact E1|done|by eapply rest_quiet|exact E3].
  - simplify_eq. by eapply open_err_quiet.
Qed.

Section Keys.
  Context `{SSH, OS, UserDB}.

Definition verifySSHSignature (pubKeyBytes challenge sigBytes : list byte) : result PublicKey :=
  match ssh_ParsePublicKey pubKeyBytes with
  | Err e => Err (Wrapf "parse public key: %w" [] e)
  | Ok pubKey =>
    match ssh_UnmarshalSignature sigBytes with
    | Err e => Err (Wrapf "unmarshal signature: %w" [] e)
    | Ok sig =>
      match ssh_Verify pubKey challenge sig with
      | Some e => Err (Wrapf "verify signature: %w" [] e)
      | None => Ok pubKey
      end
    end
  end.

(** The loop over the lines of an [authorized_keys]: is the key among them? *)
Fixpoint scan_authorized (targetBytes : list byte) (lines : list string) : bool :=
  match lines with
  | [] => false
  | l :: lines =>
    let line := TrimSpace l in
    if bool_decide (line = "") || HasPrefix line "#" then scan_authorized targetBytes lines else
    match ssh_ParseAuthorizedKey line with
    | Err _ => scan_authorized targetBytes lines
    | Ok pubKey =>
      if bool_decide (ssh_Marshal pubKey = targetBytes) then true
      else scan_authorized targetBytes lines
    end
  end.

Definition lookupHomeNSS (username : string) : result string := user_Lookup username.

(** The home of the first well-formed line of [/etc/passwd] that names the user. *)
Fixpoint passwd_home (username : string) (lines : list string) : option string :=
  match lines with
  | [] => None
  | l :: lines =>
    let parts := Split l ":"%char in
    if bool_decide (7 ≤ length parts)%nat && bool_decide (parts !! 0%nat = Some username)
    then parts !! 5%nat
    else passwd_home username lines
  end.

Definition lookupHome (username : string) (w : world) : world * result string :=
  match open_and_scan "/etc/passwd" w with
  | (w, Err _) => (w, lookupHomeNSS username)
  | (w, Ok lines) =>
    match passwd_home username lines with
    | Some home => (w, Ok home)
    | None => (w, lookupHomeNSS username)
    end
  end.

(** The entries (name, home) of [/etc/passwd], in order. *)
Definition passwd_entries (lines : list string) : list (string * string) :=
  omap (λ l, let parts := Split l ":"%char in
             if bool_decide (length parts < 7)%nat then None
             else n ← parts !! 0%nat; h ← parts !! 5%nat; Some (n, h)) lines.

(** The scan over all users. *)
Fixpoint find_entry (targetBytes : list byte) (entries : list (string * string)) (w : world)
    : world * option (string * string) :=
  match entries with
  | [] => (w, None)
  | (name, home) :: entries =>
    match open_and_scan (Join [home; ".ssh"; "authorized_keys"]) w with
    | (w, Err _) => find_entry targetBytes entries w
    | (w, Ok lines) =>
      if scan_authorized targetBytes lines then (w, Some (name, home))
      else find_entry targetBytes entries w
    end
  end.

Definition findUserByPubKey (targetKey : PublicKey) (hintUser : string) (w : world)
    : world * result (string * string) :=
  let targetBytes := ssh_Marshal targetKey in
  if negb (bool_decide (hintUser = "")) then
    match lookupHome hintUser w with
    | (w, Err e) => (w, Err (Wrapf "hint user %q not found: %w" [inl hintUser] e))
    | (w, Ok home) =>
      match open_and_scan (Join [home; ".ssh"; "authorized_keys"]) w with
      | (w, Err _) => (w, Err (Errorf "no authorized_keys for user %q" [inl hintUser]))
      | (w, Ok lines) =>
        if scan_authorized targetBytes lines then (w, Ok (hintUser, home))
        else (w, Err (Errorf "no matching key in %s's authorized_keys" [inl hintUser]))
      end
    end
  else
    match os_OpenFile "/etc/passwd" O_RDONLY 0 w with
    | (w, Err e) => (w, Err (Wrapf "open /etc/passwd: %w" [] e))
    | (w, Ok f) =>
      let '(w, r) := f_ReadRest f w in
      let lines := match r with Ok d => scan_text d | Err _ => [] end in
      let '(w, found) := find_entry targetBytes (passwd_entries lines) w in
      let '(w, _) := f_Close f w in
      match found with
      | Some (name, home) => (w, Ok (name, home))
      | None => (w, Err (Errorf "no matching user found for the provided SSH key" []))
      end
    end.

Definition hashPubKey (pubKeyBytes : list byte) : string := EncodeToString (Sum256 pubKeyBytes).

(** [*[32]byte]: never nil. *)
Definition deriveEncryptionKey (pubKey : PublicKey) : option (list byte) :=
  Some (Sum256 (ssh_MarshalAuthorizedKey pubKey)).

(** ** Specification *)

(** A line that authorizes the key. *)
Definition authorizes (targetBytes : list byte) (l : string) : Prop :=
  ∃ k, TrimSpace l ≠ "" ∧ HasPrefix (TrimSpace l) "#" = false
    ∧ ssh_ParseAuthorizedKey (TrimSpace l) = Ok k ∧ ssh_Marshal k = targetBytes.

(** The [authorized_keys] under a home directory holds the key. *)
Definition key_of_home `{!OSLaws} (w : world) (targetBytes : list byte) (home : string) : Prop :=
  ∃ i d l, at_path w (Join [home; ".ssh"; "authorized_keys"]) = Some i ∧ idata w i = Some d
    ∧ l ∈ scan_text d ∧ authorizes targetBytes l.

Lemma scan_authorized_spec t lines :
  scan_authorized t lines = true ↔ ∃ l, l ∈ lines ∧ authorizes t l.
Proof.
  induction lines as [|l lines IH]; simpl.
  - split; [done|]. intros (l & Hl & _). by apply not_elem_of_nil in Hl.
  - setoid_rewrite elem_of_cons.
    destruct (bool_decide (TrimSpace l = "") || HasPrefix (TrimSpace l) "#") eqn:E1.
    + rewrite IH. split; [naive_solver|]. intros (l' & [->|?] & Ha); [|eauto].
      destruct Ha as (k & Hne & Hp & _). rewrite bool_decide_false, Hp in E1 by done. done.
    + apply orb_false_iff in E1 as [E1 E2]. apply bool_decide_eq_false in E1.
      destruct (ssh_ParseAuthorizedKey (TrimSpace l)) as [k|e] eqn:E3.
      * case_bool_decide as E4.
        -- split; [|done]. intros _. exists l. split; [by left|]. by exists k.
        -- rewrite IH. split; [naive_solver|]. intros (l' & [->|?] & Ha); [|eauto].
           destruct Ha as (k' & _ & _ & Hk & Hm). congruence.
      * rewrite IH. split; [naive_solver|]. intros (l' & [->|?] & Ha); [|eauto].
        destruct Ha as (k' & _ & _ & Hk & _). congruence.
Qed.

Lemma key_of_home_same `{!OSLaws} w w' t h : same_files w w' → key_of_home w' t h → key_of_home w t h.
Proof.
  intros [Hd Hp] (i & d & l & Hi & Hdi & Hl). exists i, d, l. by rewrite <- Hp, <- Hd.
Qed.

Lemma open_and_scan_same `{!OSLaws} p w w' r : open_and_scan p w = (w', r) → same_files w w'.
Proof.
  unfold open_and_scan. destruct (os_OpenFile _ _ _ w) as [w1 [f|e]] eqn:E1.
  - destruct (f_ReadRest f w1) as [w2 d] eqn:E2. destruct (f_Close f w2) as [w3 e] eqn:E3. intros ?; simplify_eq.
    etrans; [by eapply open_same; [| |exact E1]|]. etrans; [by eapply rest_same|by eapply close_same].
  - intros ?; simplify_eq. by eapply open_err_same.
Qed.

Lemma open_and_scan_lines `{!OSLaws} p w w' lines l : open_and_scan p w = (w', Ok lines) → l ∈ lines →
  ∃ i d, at_path w p = Some i ∧ idata w i = Some d ∧ l ∈ scan_text d.
Proof.
  unfold open_and_scan. destruct (os_OpenFile _ _ _ w) as [w1 [f|e]] eqn:E1; [|done].
  destruct (f_ReadRest f w1) as [w2 [d|e]] eqn:E2; destruct (f_Close f w2) as [w3 e'] eqn:E3; intros ? Hl; simplify_eq.
  - destruct (open_read_contents _ _ _ _ _ _ _ _ E1 eq_refl eq_refl E2) as (i & Hi & Hd). by exists i, d.
  - by apply not_elem_of_nil in Hl.
Qed.

Lemma scan_home `{!OSLaws} t h w w' lines :
  open_and_scan (Join [h; ".ssh"; "authorized_keys"]) w = (w', Ok lines) →
  scan_authorized t lines = true → key_of_home w t h.
Proof.
  intros Ho (l & Hl & Ha)%scan_authorized_spec.
  destruct (open_and_scan_lines _ _ _ _ _ Ho Hl) as (i & d & ? & ? & ?). by exists i, d, l.
Qed.

Lemma find_entry_sound `{!OSLaws} t entries w w' n h :
  find_entry t entries w = (w', Some (n, h)) → (n, h) ∈ entries ∧ key_of_home w t h.
Proof.
  revert w. induction entries as [|[n' h'] entries IH]; intros w Hf; cbn [find_entry] in Hf; [done|].
  destruct (open_and_scan _ w) as [w1 [lines|e]] eqn:Ho.
  - destruct (scan_authorized t lines) eqn:Hs.
    + simplify_eq. split; [by left|]. by eapply scan_home.
    + apply IH in Hf as [? ?]. split; [by right|].
      eapply key_of_home_same; [|done]. by eapply open_and_scan_same.
  - apply IH in Hf as [? ?]. split; [by right|].
    eapply key_of_home_same; [|done]. by eapply open_and_scan_same.
Qed.

Lemma lookupHome_same `{!OSLaws} u w w' r : lookupHome u w = (w', r) → same_files w w' ∧ quiet w w'.
Proof.
  unfold lookupHome. destruct (open_and_scan _ w) as [w0 [lines|e]] eqn:Ho; intros Hl;
    pose proof (open_and_scan_same _ _ _ _ Ho); pose proof (open_and_scan_quiet _ _ _ _ Ho);
    repeat case_match; by simplify_eq.
Qed.

Lemma findUser_sound `{!OSLaws} key hint w w' u h :
  findUserByPubKey key hint w = (w', Ok (u, h)) →
  key_of_home w (ssh_Marshal key) h ∧ (hint ≠ "" → u = hint).
Proof.
  unfold findUserByPubKey. case_bool_decide as Hh; cbn [negb].
  - destruct (os_OpenFile _ _ _ w) as [w1 [f|e]] eqn:E1; [|done]. destruct (f_ReadRest f w1) as [w2 r] eqn:E2.
    destruct (find_entry _ _ w2) as [w3 found] eqn:Hf. destruct (f_Close f w3) as [w4 e].
    destruct found as [[n h']|]; [|done]. intros ?. simplify_eq.
    apply find_entry_sound in Hf as [_ ?]. split; [|done].
    eapply key_of_home_same; [|done].
    etrans; [by eapply open_same; [| |exact E1]|by eapply rest_same].
  - destruct (lookupHome hint w) as [w1 [h'|e]] eqn:E1; [|done].
    destruct (open_and_scan _ w1) as [w2 [lines|e]] eqn:Ho; [|done].
    destruct (scan_authorized _ lines) eqn:Hs; [|done]. intros ?. simplify_eq.
    split; [|done]. eapply key_of_home_same; [by eapply lookupHome_same|]. by eapply scan_home.
Qed.

Lemma find_entry_quiet `{!OSLaws} t entries w w' r : find_entry t entries w = (w', r) → quiet w w'.
Proof.
  revert w. induction entries as [|[n h] entries IH]; intros w Hf; cbn [find_entry] in Hf.
  - by simplify_eq.
  - destruct (open_and_scan _ w) as [w1 [lines|e]] eqn:Ho; apply open_and_scan_quiet in Ho.
    + destruct (scan_authorized t lines); [by simplify_eq|]. etrans; [done|by apply IH].
    + etrans; [done|by apply IH].
Qed.

Lemma find_entry_same `{!OSLaws} t entries w w' r : find_entry t entries w = (w', r) → same_files w w'.
Proof.
  revert w. induction entries as [|[n h] entries IH]; intros w Hf; cbn [find_entry] in Hf.
  - by simplify_eq.
  - destruct (open_and_scan _ w) as [w1 [lines|e]] eqn:Ho; apply open_and_scan_same in Ho.
    + destruct (scan_authorized t lines); [by simplify_eq|]. etrans; [done|by apply IH].
    + etrans; [done|by apply IH].
Qed.

Lemma findUser_same `{!OSLaws} key hint w w' r : findUserByPubKey key hint w = (w', r) → same_files w w'.
Proof.
  unfold findUserByPubKey. case_bool_decide; cbn [negb].
  - destruct (os_OpenFile _ _ _ w) as [w1 [f|e]] eqn:E1.
    2: { intros ?. simplify_eq. by eapply open_err_same. }
    destruct (f_ReadRest f w1) as [w2 d] eqn:E2. destruct (find_entry _ _ w2) as [w3 found] eqn:Hf.
    destruct (f_Close f w3) as [w4 e] eqn:E3. intros Hr.
    assert (w4 = w') as <- by (by destruct found as [[]|]; simplify_eq).
    etrans; [by eapply open_same; [| |exact E1]|]. etrans; [by eapply rest_same|].
    etrans; [by eapply find_entry_same|by eapply close_same].
  - destruct (lookupHome hint w) as [w1 r1] eqn:E1. intros Hr. apply lookupHome_same in E1 as [Hq _].
    destruct r1 as [home|e]; [|by simplify_eq]. etrans; [exact Hq|].
    destruct (open_and_scan _ w1) as [w2 [lines|e]] eqn:Ho; apply open_and_scan_same in Ho;
      repeat case_match; by simplify_eq.
Qed.

(** The search reads files and closes what it opens. *)
Lemma findUser_quiet `{!OSLaws} key hint w w' r : findUserByPubKey key hint w = (w', r) → quiet w w'.
Proof.
  unfold findUserByPubKey. case_bool_decide; cbn [negb].
  - destruct (os_OpenFile _ _ _ w) as [w1 [f|e]] eqn:E1.
    2: { intros ?. simplify_eq. by eapply open_err_quiet. }
    destruct (f_ReadRest f w1) as [w2 d] eqn:E2. destruct (find_entry _ _ w2) as [w3 found] eqn:Hf.
    destruct (f_Close f w3) as [w4 e] eqn:E3. intros Hr.
    assert (w4 = w') as <- by (by destruct found as [[]|]; simplify_eq).
    eapply open_close_quiet; [exact E1|done| |exact E3].
    etrans; [by eapply rest_quiet|by eapply find_entry_quiet].
  - destruct (lookupHome hint w) as [w1 r1] eqn:E1. intros Hr.
    apply lookupHome_same in E1 as [_ Hq].
    destruct r1 as [home|e]; [|by simplify_eq]. etrans; [exact Hq|].
    destruct (open_and_scan _ w1) as [w2 [lines|e]] eqn:Ho; apply open_and_scan_quiet in Ho;
      repeat case_match; by simplify_eq.
Qed.

End Keys.
