(* ===== verification/FdCache.v ===== *)
(** The server's cache of open file descriptors ([src/serve.go], [fdCache]).

    The mutex makes each of [get], [evict], [close] and one tick of [sweepLoop] a
    single step on the pair of the operating system and the cache.  The file a
    [get] returns is used after the mutex is released: FileSpec.v has what that
    means for the interleavings. *)
From S2P Require Import Prelude GoStd OS.
From Stdlib Require Import Strings.Byte.

Section FdCache.
  Context `{OS}.

(** Times are nanoseconds; [0x1A4] is [0644]. *)
Record fdEntry : Type := {
  e_file : file;
  e_writable : bool;
  e_lastAccess : Z;
}.

Record fdCache : Type := {
  idleTimeout : Z;
  files : gmap string fdEntry;
}.

Definition set_files (m : gmap string fdEntry) (fc : fdCache) : fdCache :=
  {| idleTimeout := idleTimeout fc; files := m |}.

Definition newFDCache (idle : Z) : fdCache := {| idleTimeout := idle; files := ∅ |}.

Definition get (path : string) (writable : bool) (now : Z) (w : world) (fc : fdCache)
    : world * fdCache * result file :=
  match files fc !! path with
  | Some e =>
    if writable && negb (e_writable e) then
      let '(w, _) := f_Close (e_file e) w in
      match os_OpenFile path O_RDWR 0x1A4 w with
      | (w, Err err) => (w, set_files (delete path (files fc)) fc, Err err)
      | (w, Ok f) =>
        (w, set_files (<[path := {| e_file := f; e_writable := true; e_lastAccess := now |}]> (files fc)) fc, Ok f)
      end
    else
      (w, set_files (<[path := {| e_file := e_file e; e_writable := e_writable e; e_lastAccess := now |}]> (files fc)) fc,
       Ok (e_file e))
  | None =>
    match os_OpenFile path (if writable then O_RDWR else O_RDONLY) 0x1A4 w with
    | (w, Err err) => (w, fc, Err err)
    | (w, Ok f) =>
      (w, set_files (<[path := {| e_file := f; e_writable := writable; e_lastAccess := now |}]> (files fc)) fc, Ok f)
    end
  end.

Definition evict (path : string) (w : world) (fc : fdCache) : world * fdCache :=
  match files fc !! path with
  | Some e => let '(w, _) := f_Close (e_file e) w in (w, set_files (delete path (files fc)) fc)
  | None => (w, fc)
  end.

(** [e.file.Close()] for each entry of a list. *)
Definition close_all (l : list (string * fdEntry)) (w : world) : world :=
  foldl (λ w '(_, e), fst (f_Close (e_file e) w)) w l.

(** [close], after the sweep goroutine has stopped; the map is ranged over in the
    order of [map_to_list] (Go's order is unspecified). *)
Definition close (w : world) (fc : fdCache) : world * fdCache :=
  (close_all (map_to_list (files fc)) w, set_files ∅ fc).

(** One iteration of the range loop of [sweepLoop]. *)
Definition sweep_entry (now : Z) (s : world * fdCache) (x : string * fdEntry) : world * fdCache :=
  if idleTimeout (snd s) <? now - e_lastAccess (snd x) then
    (fst (f_Close (e_file (snd x)) (fst s)), set_files (delete (fst x) (files (snd s))) (snd s))
  else s.

(** One tick of [sweepLoop]. *)
Definition sweep (now : Z) (w : world) (fc : fdCache) : world * fdCache :=
  foldl (sweep_entry now) (w, fc) (map_to_list (files fc)).

(** ** The invariant *)

Definition owned (fc : fdCache) (f : file) : Prop :=
  ∃ p e, files fc !! p = Some e ∧ e_file e = f.

(** The open files of the process are those of the cache, each under one path, on
    the inode the path names, and open for writing as the entry says. *)
Record fd_inv `{!OSLaws} (w : world) (fc : fdCache) : Prop := {
  fi_open p e : files fc !! p = Some e →
    ∃ i, handle w (e_file e) = Some (i, e_writable e) ∧ at_path w p = Some i;
  fi_inj p q e d : files fc !! p = Some e → files fc !! q = Some d → e_file e = e_file d → p = q;
  fi_owned f : handle w f ≠ None → owned fc f;
}.

#[local] Existing Instance file_eq_dec.

Section Laws.
  Context {LAWS : OSLaws}.

Lemma fd_inv_new idle w : (∀ f, handle w f = None) → fd_inv w (newFDCache idle).
Proof. intros Hw. split; [done..|]. intros f Hf. by rewrite Hw in Hf. Qed.

(** Operations that keep open files open and names naming keep the invariant. *)
Lemma fd_inv_handles w w' fc : fd_inv w fc → (∀ g, handle w' g = handle w g) →
  (∀ p i, at_path w p = Some i → at_path w' p = Some i) → fd_inv w' fc.
Proof.
  intros [Ho Hi Hw] Hq Hp. split.
  - intros p e He. destruct (Ho p e He) as (i & Hh & Hat). exists i. rewrite Hq. auto.
  - done.
  - intros f. rewrite Hq. apply Hw.
Qed.

Lemma fd_inv_quiet w w' fc : fd_inv w fc → quiet w w' → fd_inv w' fc.
Proof. intros Hi [Hq _ Hp]. by eapply fd_inv_handles. Qed.

(** Closing the file of an entry and dropping the entry. *)
Lemma fd_inv_drop w w' fc p e err : fd_inv w fc → files fc !! p = Some e →
  f_Close (e_file e) w = (w', err) → fd_inv w' (set_files (delete p (files fc)) fc).
Proof.
  intros [Ho Hi Hw] He Hc. destruct (close_law _ _ _ _ Hc) as (Hcf & Hcg & _ & Hp). split; simpl.
  - intros q d Hd. apply lookup_delete_Some in Hd as [Hne Hd].
    destruct (Ho q d Hd) as (i & Hh & Hat). exists i. rewrite Hp, Hcg; [done|].
    intros Heq. apply Hne. by eapply Hi.
  - intros q r d d' Hd Hd'. apply lookup_delete_Some in Hd as [_ Hd].
    apply lookup_delete_Some in Hd' as [_ Hd']. by eapply Hi.
  - intros f Hf. destruct (decide (f = e_file e)) as [->|Hne]; [by rewrite Hcf in Hf|].
    rewrite Hcg in Hf by done. destruct (Hw f Hf) as (q & d & Hd & <-).
    exists q, d. split; [|done]. simpl. rewrite lookup_delete_ne; [done|]. intros ->. congruence.
Qed.

(** Opening a file and adding it to the cache under a path that has no entry. *)
Lemma fd_inv_add w w' fc p fl m f now : fd_inv w fc → files fc !! p = None →
  os_OpenFile p fl m w = (w', Ok f) →
  fd_inv w' (set_files (<[p := {| e_file := f; e_writable := o_write fl; e_lastAccess := now |}]> (files fc)) fc).
Proof.
  intros [Ho Hi Hw] Hn Hop.
  destruct (open_ok _ _ _ _ _ _ Hop) as (Hf & Hg & Hp & i & Hfi & Hat & _).
  assert (∀ q e, files fc !! q = Some e → e_file e ≠ f) as Hne.
  { intros q e He Heq. destruct (Ho q e He) as (k & Hk & _). congruence. }
  split; simpl.
  - intros q e He. apply lookup_insert_Some in He as [[<- <-]|[_ He]]; [by exists i|].
    destruct (Ho q e He) as (k & Hk & Hkat). exists k. rewrite Hg by (by eapply Hne). auto.
  - intros q r e d He Hd Heq.
    apply lookup_insert_Some in He as [[<- <-]|[? He]]; apply lookup_insert_Some in Hd as [[<- <-]|[? Hd]]; simpl in *.
    + done.
    + by destruct (Hne r d Hd).
    + by destruct (Hne q e He).
    + by eapply Hi.
  - intros g Hgo. destruct (decide (g = f)) as [->|Hgf].
    + exists p. eexists. simpl. by rewrite lookup_insert_eq.
    + rewrite Hg in Hgo by done. destruct (Hw g Hgo) as (q & d & Hd & <-). exists q, d. simpl.
      split; [|done]. rewrite lookup_insert_ne; [done|]. intros ->. congruence.
Qed.

(** A new access time. *)
Lemma fd_inv_touch w fc p e now : fd_inv w fc → files fc !! p = Some e →
  fd_inv w (set_files (<[p := {| e_file := e_file e; e_writable := e_writable e; e_lastAccess := now |}]> (files fc)) fc).
Proof.
  intros [Ho Hi Hw] He. split; simpl.
  - intros q d Hd. apply lookup_insert_Some in Hd as [[<- <-]|[_ Hd]]; [exact (Ho p e He)|exact (Ho q d Hd)].
  - intros q r d d' Hd Hd' Heq.
    apply lookup_insert_Some in Hd as [[<- <-]|[? Hd]]; apply lookup_insert_Some in Hd' as [[<- <-]|[? Hd']];
      simpl in *; [done|by eapply Hi..].
  - intros f Hf. destruct (Hw f Hf) as (q & d & Hd & <-). destruct (decide (p = q)) as [<-|].
    + exists p. eexists. simpl. rewrite lookup_insert_eq. split; [done|]. simpl. congruence.
    + exists q, d. simpl. by rewrite lookup_insert_ne.
Qed.

(** What [get] gives: the file of the path's entry, open on the inode the path
    names, and for writing if that was asked; or an error, and no entry. *)
Definition get_post (p : string) (wr : bool) (w' : world) (fc' : fdCache) (r : result file) : Prop :=
  match r with
  | Ok f => ∃ e i, files fc' !! p = Some e ∧ e_file e = f ∧ handle w' f = Some (i, e_writable e)
              ∧ (wr = true → e_writable e = true) ∧ at_path w' p = Some i
  | Err _ => files fc' !! p = None
  end.

Lemma get_add p wr now fl m w fc w' f :
  fl = O_RDWR ∨ fl = O_RDONLY ∧ wr = false → fd_inv w fc → files fc !! p = None →
  os_OpenFile p fl m w = (w', Ok f) →
  let fc' := set_files (<[p := {| e_file := f; e_writable := o_write fl; e_lastAccess := now |}]> (files fc)) fc in
  fd_inv w' fc' ∧ get_post p wr w' fc' (Ok f) ∧ same_files w w'.
Proof.
  intros Hfl Hi Hn Ho fc'. split_and!.
  - by eapply fd_inv_add.
  - destruct (open_ok _ _ _ _ _ _ Ho) as (_ & _ & _ & i & Hf & Hat & _).
    eexists _, i. simpl. rewrite lookup_insert_eq. split_and!; try done. simpl.
    destruct Hfl as [->|[-> ->]]; done.
  - destruct Hfl as [->|[-> _]]; (eapply open_same; [| |exact Ho]); done.
Qed.

Lemma get_correct p wr now w fc w' fc' r : fd_inv w fc → get p wr now w fc = (w', fc', r) →
  fd_inv w' fc' ∧ get_post p wr w' fc' r ∧ same_files w w'
  ∧ idleTimeout fc' = idleTimeout fc ∧ (∀ q, q ≠ p → files fc' !! q = files fc !! q).
Proof.
  intros Hinv Hg. unfold get in Hg.
  destruct (files fc !! p) as [e|] eqn:He.
  - destruct (wr && negb (e_writable e)) eqn:Hup.
    + destruct (f_Close (e_file e) w) as [w1 err] eqn:Hc.
      pose proof (fd_inv_drop _ _ _ _ _ _ Hinv He Hc) as Hinv1. pose proof (close_same _ _ _ _ Hc) as Hs1.
      destruct (os_OpenFile p O_RDWR 0x1A4 w1) as [w2 [f|er]] eqn:Ho; simplify_eq.
      * destruct (get_add p wr now _ _ _ _ _ _ (or_introl eq_refl) Hinv1 (lookup_delete_eq _ _) Ho)
          as (H1 & H2 & H3).
        unfold set_files in *. simpl in *. rewrite insert_delete_eq in H1, H2.
        split_and!; try done; [by etrans|]. intros q Hq. by rewrite lookup_insert_ne.
      * split_and!; try done.
        -- eapply fd_inv_quiet; [done|]. by eapply open_err_quiet.
        -- simpl. apply lookup_delete_eq.
        -- etrans; [done|]. by eapply open_err_same.
        -- intros q Hq. simpl. by rewrite lookup_delete_ne.
    + simplify_eq. destruct (fi_open _ _ Hinv p e He) as (i & Hh & Hat). split_and!.
      * by apply fd_inv_touch.
      * eexists _, i. simpl. rewrite lookup_insert_eq. split_and!; try done. simpl.
        intros ->. by destruct (e_writable e).
      * done.
      * done.
      * intros q Hq. simpl. by rewrite lookup_insert_ne.
  - destruct (os_OpenFile p (if wr then O_RDWR else O_RDONLY) 0x1A4 w) as [w2 [f|er]] eqn:Ho; simplify_eq.
    + destruct (get_add p wr now (if wr then O_RDWR else O_RDONLY) 0x1A4 w fc w' f) as (H1 & H2 & H3); try done.
      { destruct wr; [by left|by right]. }
      replace (o_write (if wr then O_RDWR else O_RDONLY)) with wr in * by (by destruct wr).
      split_and!; try done. intros q Hq. simpl. by rewrite lookup_insert_ne.
    + split_and!; try done.
      * eapply fd_inv_quiet; [done|]. by eapply open_err_quiet.
      * by eapply open_err_same.
Qed.

Lemma evict_correct p w fc w' fc' : fd_inv w fc → evict p w fc = (w', fc') →
  fd_inv w' fc' ∧ files fc' = delete p (files fc) ∧ same_files w w' ∧ idleTimeout fc' = idleTimeout fc
  ∧ (∀ e, files fc !! p = Some e → handle w' (e_file e) = None).
Proof.
  intros Hinv Hev. unfold evict in Hev. destruct (files fc !! p) as [e|] eqn:He.
  - destruct (f_Close (e_file e) w) as [w1 err] eqn:Hc. simplify_eq. split_and!; try done.
    + by eapply fd_inv_drop.
    + by eapply close_same.
    + intros e' [= <-]. by destruct (close_law _ _ _ _ Hc) as [? _].
  - simplify_eq. split_and!; try done. by rewrite delete_id.
Qed.

(** The sweep of a list of entries of the cache, each once. *)
Lemma sweep_list now l w fc w' fc' :
  NoDup l.*1 → (∀ p e, (p, e) ∈ l → files fc !! p = Some e) → fd_inv w fc →
  foldl (sweep_entry now) (w, fc) l = (w', fc') →
  fd_inv w' fc' ∧ same_files w w' ∧ idleTimeout fc' = idleTimeout fc
  ∧ (∀ p, p ∉ l.*1 → files fc' !! p = files fc !! p)
  ∧ (∀ p e, (p, e) ∈ l → files fc' !! p = if idleTimeout fc <? now - e_lastAccess e then None else Some e).
Proof.
  revert w fc. induction l as [|[p e] l IH]; intros w fc Hnd Hl Hinv Hf.
  - simpl in Hf. simplify_eq. split_and!; try done. intros p e Hp. by apply not_elem_of_nil in Hp.
  - simpl in Hnd. apply NoDup_cons in Hnd as [Hpl Hnd].
    assert (files fc !! p = Some e) as Hpe by (apply Hl; by left).
    cbn [foldl] in Hf. unfold sweep_entry at 2 in Hf. cbn [fst snd] in Hf.
    assert (∀ q d, (q, d) ∈ l → q ≠ p) as Hne.
    { intros q d Hq ->. apply Hpl. apply list_elem_of_fmap. by exists (p, d). }
    destruct (idleTimeout fc <? now - e_lastAccess e) eqn:Hi.
    + destruct (f_Close (e_file e) w) as [w1 err] eqn:Hc. cbn [fst] in Hf.
      apply IH in Hf as (H1 & H2 & H3 & H4 & H5); [|done| |by eapply fd_inv_drop].
      2: { intros q d Hq. simpl. rewrite lookup_delete_ne by (by apply not_eq_sym; eauto). apply Hl. by right. }
      simpl in *. split_and!; try done.
      * etrans; [by eapply close_same|done].
      * intros q Hq. apply not_elem_of_cons in Hq as [Hqp Hq]. rewrite H4, lookup_delete_ne; done.
      * intros q d Hq. apply elem_of_cons in Hq as [[= -> ->]|Hq]; [|by apply H5].
        rewrite Hi, H4 by done. by rewrite lookup_delete_eq.
    + apply IH in Hf as (H1 & H2 & H3 & H4 & H5); [|done| |done].
      2: { intros q d Hq. apply Hl. by right. }
      split_and!; try done.
      * intros q Hq. apply not_elem_of_cons in Hq as [Hqp Hq]. by rewrite H4.
      * intros q d Hq. apply elem_of_cons in Hq as [[= -> ->]|Hq]; [|by apply H5].
        rewrite Hi, H4 by done. done.
Qed.

Lemma sweep_correct now w fc w' fc' : fd_inv w fc → sweep now w fc = (w', fc') →
  fd_inv w' fc' ∧ same_files w w' ∧ idleTimeout fc' = idleTimeout fc
  ∧ (∀ p, files fc' !! p = e ← files fc !! p; if idleTimeout fc <? now - e_lastAccess e then None else Some e).
Proof.
  intros Hinv Hs. unfold sweep in Hs. apply sweep_list in Hs as (H1 & H2 & H3 & H4 & H5); try done.
  - split_and!; try done. intros p. destruct (files fc !! p) as [e|] eqn:He; simpl.
    + apply H5. by apply elem_of_map_to_list.
    + rewrite H4; [done|]. intros ([q e] & -> & Hin)%list_elem_of_fmap. apply elem_of_map_to_list in Hin. simpl in *. congruence.
  - apply NoDup_fst_map_to_list.
  - intros p e. apply elem_of_map_to_list.
Qed.

Lemma close_all_correct l w :
  (∀ f, (∀ x, x ∈ l → e_file (snd x) ≠ f) → handle (close_all l w) f = handle w f)
  ∧ (∀ x, x ∈ l → handle (close_all l w) (e_file (snd x)) = None)
  ∧ same_files w (close_all l w).
Proof.
  revert w. induction l as [|[p e] l IH]; intros w.
  - split_and!; try done. intros x Hx. by apply not_elem_of_nil in Hx.
  - unfold close_all. cbn [foldl]. fold (close_all l).
    destruct (f_Close (e_file e) w) as [w1 err] eqn:Hc. cbn [fst].
    destruct (close_law _ _ _ _ Hc) as (Hcf & Hcg & Hcd & Hcp).
    destruct (IH w1) as (H1 & H2 & H3). split_and!.
    + intros f Hf. rewrite H1, Hcg; [done| |].
      * intros ->. by apply (Hf (p, e)); [left|].
      * intros x Hx. apply Hf. by right.
    + intros x Hx. apply elem_of_cons in Hx as [->|Hx]; [|by apply H2]. simpl.
      destruct (decide (Exists (λ y, e_file (snd y) = e_file e) l)) as [Hex|Hex].
      * apply Exists_exists in Hex as (y & Hy & <-). by apply H2.
      * rewrite H1; [done|]. intros y Hy Heq. apply Hex, Exists_exists. by exists y.
    + etrans; [by eapply close_same|done].
Qed.

(** [close] closes every descriptor the process has open and empties the cache. *)
Lemma close_correct w fc : fd_inv w fc →
  let '(w', fc') := close w fc in
  (∀ f, handle w' f = None) ∧ files fc' = ∅ ∧ same_files w w' ∧ fd_inv w' fc'.
Proof.
  intros Hi. unfold close. destruct (close_all_correct (map_to_list (files fc)) w) as (Hother & Hclosed & Hsame).
  assert (∀ f, handle (close_all (map_to_list (files fc)) w) f = None) as Hnone.
  2: { split_and!; try done. split; [done..|]. intros f Hf. by rewrite Hnone in Hf. }
  intros f. destruct (handle w f) as [hd|] eqn:Hf.
  - destruct (fi_owned _ _ Hi f) as (p & e & He & <-); [congruence|].
    apply (Hclosed (p, e)). by apply elem_of_map_to_list.
  - rewrite Hother; [done|]. intros [p e] Hx%elem_of_map_to_list Heq. simpl in Heq.
    destruct (fi_open _ _ Hi p e Hx) as (i & Hh & _). congruence.
Qed.

End Laws.

End FdCache.
