(* ===== verification/Hoare.v ===== *)
(** Weakest preconditions for the state monad [ST]: a computation is verified by
    stepping through its binds. *)
From S2P Require Import Prelude.

Section WP.
  Context {S : Type}.

(** [Q] holds of the result and the final state of [m] run from [s]. *)
Definition wp {A} (m : ST S A) (Q : A → S → Prop) (s : S) : Prop := Q (eval m s) (exec m s).

Lemma wp_ret {A} (a : A) Q (s : S) : Q a s → wp (mret a) Q s.
Proof. done. Qed.

Lemma wp_bind {A B} (m : ST S A) (f : A → ST S B) Q s :
  wp m (λ a s', wp (f a) Q s') s → wp (m ≫= f) Q s.
Proof.
  unfold wp, eval, exec, mbind, ST_bind. by destruct (m s).
Qed.

Lemma wp_mono {A} (m : ST S A) (Q R : A → S → Prop) s :
  wp m Q s → (∀ a s', Q a s' → R a s') → wp m R s.
Proof. unfold wp. auto. Qed.

Lemma wp_modify f (Q : () → S → Prop) s : Q () (f s) → wp (modify_st f) Q s.
Proof. done. Qed.

Lemma exec_bind {A B} (m : ST S A) (f : A → ST S B) s :
  exec (m ≫= f) s = exec (f (eval m s)) (exec m s).
Proof. unfold exec at 1. by rewrite run_bind. Qed.

Lemma wp_exec {A} (m : ST S A) (Q : S → Prop) s : wp m (λ _, Q) s → Q (exec m s).
Proof. done. Qed.

End WP.

#[global] Arguments wp : simpl never.
