(* ===== verification/Server.v ===== *)
(** The server ([src/serve.go]): the connections and their authentication state,
    the handlers of the nine request messages, the dispatch of the workers and the
    event [OnTraffic].

    The state of the process is the record [srv]; a handler is a computation of the
    state monad [ST srv].  gnet's [Conn] is the record [conn]: its context, whether
    it is closed, the bytes received and not yet consumed, the bytes sent.  A
    goroutine of [process] runs one handler at a time; [ServerStep] interleaves them.
    Log output is left out. *)
From S2P Require Import Prelude Message GoStd GoHash OS Chunk Auth FdCache.
From Stdlib Require Import Strings.Byte Strings.Ascii.

(** ** Randomness: what the k-th read of [n] bytes of [crypto/rand] gives *)

Class Rand := rand_bytes : nat → nat → result (list byte).
Class RandOk `{Rand} : Prop := rand_length k n b : rand_bytes k n = Ok b → length b = n.

(** ** Per-connection state *)

Inductive authState : Set := authNew | authPending | authOK.

#[export] Instance authState_eq_dec : EqDecision authState.
Proof. solve_decision. Defined.

Record connAuth : Set := {
  ca_state : authState;
  ca_challenge : option (list byte);
  ca_pubKey : list byte;
  ca_user : string;
  ca_home : string;
  ca_encryptionKey : option (list byte);
}.

(** [c_ctx] is the connection context, [None] when unset; [c_sent] is a ghost: the
    messages behind the bytes of [c_out]. *)
Record conn : Type := {
  c_ctx : option connAuth;
  c_closed : bool;
  c_in : conn_buf;
  c_out : list byte;
  c_sent : list (MSG * list byte);
}.

Definition new_conn : conn := {| c_ctx := None; c_closed := false; c_in := []; c_out := []; c_sent := [] |}.

Definition net_ErrClosed : error := ErrVar "net.ErrClosed" "use of closed network connection".

#[export] Instance conn_writer : Writer conn := λ c b,
  if c_closed c then (c, Some net_ErrClosed)
  else ({| c_ctx := c_ctx c; c_closed := c_closed c; c_in := c_in c; c_out := c_out c ++ b;
         c_sent := c_sent c |}, None).

Definition getConnAuth (c : conn) : option connAuth := c_ctx c.
Definition setConnAuth (ca : connAuth) (c : conn) : conn :=
  {| c_ctx := Some ca; c_closed := c_closed c; c_in := c_in c; c_out := c_out c; c_sent := c_sent c |}.
Definition close_conn (c : conn) : conn :=
  {| c_ctx := c_ctx c; c_closed := true; c_in := c_in c; c_out := c_out c; c_sent := c_sent c |}.
Definition set_in (b : conn_buf) (c : conn) : conn :=
  {| c_ctx := c_ctx c; c_closed := c_closed c; c_in := b; c_out := c_out c; c_sent := c_sent c |}.

Definition log_sent (msg : MSG) (payload : list byte) (c : conn) : conn :=
  {| c_ctx := c_ctx c; c_closed := c_closed c; c_in := c_in c; c_out := c_out c;
     c_sent := if c_closed c then c_sent c else c_sent c ++ [(msg, payload)] |}.

(** A connection is named by a number. *)
Definition conn_id : Set := nat.

Record wrappedMsg : Set := { wm_msg : MSG; wm_payload : list byte; wm_conn : conn_id }.

(** [sandboxPath ca reqPath]; [None] is the nil pointer. *)
Definition sandboxPath (ca : option connAuth) (reqPath : string) : result string :=
  match ca with
  | None => Err (Errorf "not authenticated" [])
  | Some ca =>
    if HasPrefix reqPath "~/" then Ok (Join [ca_home ca; str_drop 2 reqPath]) else
    if IsAbs reqPath then Ok (Clean reqPath) else
    Ok (Join [ca_home ca; reqPath])
  end.

(** [make([]byte, n)] succeeds: the runtime panics for a negative or absurd length. *)
Definition make_ok (n : Z) : bool := (0 <=? n) && (n <=? 2 ^ 48).

Section Server.
  Context `{Cbor, GoFmt, OS, SSH, UserDB, Gzip, SecretBox, Rand}.

(** ** The state of the process *)

Record srv : Type := {
  s_world : world;
  s_fds : fdCache;
  s_sessions : sessionStore;
  s_conns : gmap conn_id conn;
  s_queue : list wrappedMsg;  (* processMsgChan *)
  s_busy : list wrappedMsg;   (* taken by a worker, not yet handled *)
  s_processNum : nat;
  s_draws : nat;              (* reads of crypto/rand so far *)
  s_now : Z;
  s_panic : bool;
}.

Definition set_world (w : world) (fc : fdCache) (s : srv) : srv :=
  {| s_world := w; s_fds := fc; s_sessions := s_sessions s; s_conns := s_conns s;
     s_queue := s_queue s; s_busy := s_busy s; s_processNum := s_processNum s;
     s_draws := s_draws s; s_now := s_now s; s_panic := s_panic s |}.
Definition set_sessions (x : sessionStore) (s : srv) : srv :=
  {| s_world := s_world s; s_fds := s_fds s; s_sessions := x; s_conns := s_conns s;
     s_queue := s_queue s; s_busy := s_busy s; s_processNum := s_processNum s;
     s_draws := s_draws s; s_now := s_now s; s_panic := s_panic s |}.
Definition set_conns (x : gmap conn_id conn) (s : srv) : srv :=
  {| s_world := s_world s; s_fds := s_fds s; s_sessions := s_sessions s; s_conns := x;
     s_queue := s_queue s; s_busy := s_busy s; s_processNum := s_processNum s;
     s_draws := s_draws s; s_now := s_now s; s_panic := s_panic s |}.
Definition set_queue (q b : list wrappedMsg) (s : srv) : srv :=
  {| s_world := s_world s; s_fds := s_fds s; s_sessions := s_sessions s; s_conns := s_conns s;
     s_queue := q; s_busy := b; s_processNum := s_processNum s;
     s_draws := s_draws s; s_now := s_now s; s_panic := s_panic s |}.
Definition set_env (draws : nat) (now : Z) (panic : bool) (s : srv) : srv :=
  {| s_world := s_world s; s_fds := s_fds s; s_sessions := s_sessions s; s_conns := s_conns s;
     s_queue := s_queue s; s_busy := s_busy s; s_processNum := s_processNum s;
     s_draws := draws; s_now := now; s_panic := panic |}.

Definition conn_at (s : srv) (c : conn_id) : conn := default new_conn (s_conns s !! c).
Definition upd_conn (c : conn_id) (f : conn → conn) (s : srv) : srv :=
  set_conns (<[c := f (conn_at s c)]> (s_conns s)) s.

(** ** The effects of the handlers *)

#[local] Notation M := (ST srv).

Definition on_world {A} (f : world → world * A) : M A := λ s,
  let '(w, a) := f (s_world s) in (a, set_world w (s_fds s) s).
Definition ask_world {A} (f : world → A) : M A := λ s, (f (s_world s), s).
Definition fds_get (path : string) (writable : bool) : M (result file) := λ s,
  let '(w, fc, r) := get path writable (s_now s) (s_world s) (s_fds s) in (r, set_world w fc s).
Definition fds_evict (path : string) : M () := λ s,
  let '(w, fc) := evict path (s_world s) (s_fds s) in ((), set_world w fc s).
Definition rand_read (n : nat) : M (result (list byte)) := λ s,
  (rand_bytes (s_draws s) n, set_env (S (s_draws s)) (s_now s) (s_panic s) s).
Definition on_sessions {A} (f : sessionStore → sessionStore * A) : M A := λ s,
  let '(x, a) := f (s_sessions s) in (a, set_sessions x s).
(** [message.WriteMessage(conn, msg, payload)], whose error the handlers ignore. *)
Definition send (c : conn_id) (msg : MSG) (payload : list byte) : M () :=
  modify_st (upd_conn c (λ cn, log_sent msg payload (fst (WriteMessage cn msg payload)))).
Definition conn_Close (c : conn_id) : M () := modify_st (upd_conn c close_conn).
Definition set_auth (c : conn_id) (ca : connAuth) : M () := modify_st (upd_conn c (setConnAuth ca)).
Definition get_auth (c : conn_id) : M (option connAuth) := λ s, (getConnAuth (conn_at s c), s).
(** A Go panic in a worker: the process dies. *)
Definition panic : M () := modify_st (λ s, set_env (s_draws s) (s_now s) true s).

(** ** Authentication *)

Definition rejectUnauthenticated (c : conn_id) (msgt : MessageType) (id : Z) : M () :=
  let errMsg := Sprintf "authentication required before type %d" [inr msgt] in
  send c (MAuthRes {| AuthRes.ID := id; AuthRes.Success := false; AuthRes.Challenge := [];
                      AuthRes.Token := ""; AuthRes.User := ""; AuthRes.Error := errMsg |}) [];;
  conn_Close c.

(** The refusals of [handleAuth]: an [AuthRes] with an error, then [Close]. *)
Definition auth_refuse (c : conn_id) (req : AuthReq.t) (errMsg : string) : M () :=
  send c (MAuthRes {| AuthRes.ID := AuthReq.ID req; AuthRes.Success := false; AuthRes.Challenge := [];
                      AuthRes.Token := ""; AuthRes.User := ""; AuthRes.Error := errMsg |}) [];;
  conn_Close c.

(** The branch with a session token. *)
Definition handleAuth_token (c : conn_id) (req : AuthReq.t) : M () :=
  info ← on_sessions (λ x, (x, sessions_Get (AuthReq.Token req) x));
  match info with
  | None => auth_refuse c req "invalid or expired session token"
  | Some info =>
    set_auth c {| ca_state := authOK; ca_challenge := None; ca_pubKey := [];
                  ca_user := User info; ca_home := Home info; ca_encryptionKey := EncryptionKey info |};;
    send c (MAuthRes {| AuthRes.ID := AuthReq.ID req; AuthRes.Success := true; AuthRes.Challenge := [];
                        AuthRes.Token := ""; AuthRes.User := User info; AuthRes.Error := "" |}) []
  end.

(** The branch with a signature, from [getConnAuth] on. *)
Definition handleAuth_signature (c : conn_id) (req : AuthReq.t) : M () :=
  ca ← get_auth c;
  match ca with
  | Some {| ca_state := authPending; ca_challenge := Some challenge |} =>
    match verifySSHSignature (AuthReq.PubKey req) challenge (AuthReq.Signature req) with
    | Err err => auth_refuse c req (Sprintf "signature verification failed: %v" [inl (error_text err)])
    | Ok pubKey =>
      found ← on_world (findUserByPubKey pubKey (AuthReq.User req));
      match found with
      | Err err => auth_refuse c req (error_text err)
      | Ok (user, home) =>
        rnd ← rand_read 32;
        put ← on_sessions (sessions_Put rnd user home);
        let '(token, info) := put in
        let key := deriveEncryptionKey pubKey in
        on_sessions (λ x, (set_EncryptionKey token key x, ()));;
        set_auth c {| ca_state := authOK; ca_challenge := None; ca_pubKey := [];
                      ca_user := User info; ca_home := Home info; ca_encryptionKey := key |};;
        send c (MAuthRes {| AuthRes.ID := AuthReq.ID req; AuthRes.Success := true; AuthRes.Challenge := [];
                            AuthRes.Token := token; AuthRes.User := user; AuthRes.Error := "" |}) []
      end
    end
  | _ => auth_refuse c req "no pending challenge"
  end.

(** The first phase: a public key without a signature. *)
Definition handleAuth_challenge (c : conn_id) (req : AuthReq.t) : M () :=
  if zlen (AuthReq.PubKey req) =? 0 then auth_refuse c req "missing public key" else
  rnd ← rand_read challengeLen;
  match generateChallenge rnd with
  | Err _ => auth_refuse c req "internal error"
  | Ok challenge =>
    set_auth c {| ca_state := authPending; ca_challenge := Some challenge; ca_pubKey := AuthReq.PubKey req;
                  ca_user := ""; ca_home := ""; ca_encryptionKey := None |};;
    send c (MAuthRes {| AuthRes.ID := AuthReq.ID req; AuthRes.Success := false; AuthRes.Challenge := challenge;
                        AuthRes.Token := ""; AuthRes.User := ""; AuthRes.Error := "" |}) []
  end.

Definition handleAuth (c : conn_id) (req : AuthReq.t) : M () :=
  if (0 <? zlen (AuthReq.Signature req)) || negb (bool_decide (AuthReq.Token req = "")) then
    if negb (bool_decide (AuthReq.Token req = "")) then handleAuth_token c req
    else handleAuth_signature c req
  else handleAuth_challenge c req.

(** ** The request handlers *)

Definition createFailed (c : conn_id) (req : CreateReq.t) (err : option error) : M () :=
  let errMsg := match err with Some e => error_text e | None => "" end in
  send c (MCreateRes {| CreateRes.ID := CreateReq.ID req; CreateRes.Success := false;
                        CreateRes.Error := errMsg |}) [].

Definition createSuccess (c : conn_id) (req : CreateReq.t) : M () :=
  send c (MCreateRes {| CreateRes.ID := CreateReq.ID req; CreateRes.Success := true;
                        CreateRes.Error := "" |}) [].

(** The branch of [create] for a path that does not exist. *)
Definition create_new (c : conn_id) (req : CreateReq.t) (spath : string) : M () :=
  opened ← on_world (os_OpenFile spath O_CREATE_RDWR (CreateReq.Mode req));
  match opened with
  | Err fdErr => createFailed c req (Some fdErr)
  | Ok fd =>
    if 0 <? CreateReq.Size req then
      truncErr ← on_world (f_Truncate fd (CreateReq.Size req));
      match truncErr with
      | Some truncErr => on_world (f_Close fd);; createFailed c req (Some truncErr)
      | None => on_world (f_Close fd);; createSuccess c req
      end
    else on_world (f_Close fd);; createSuccess c req
  end.

Definition create (c : conn_id) (req : CreateReq.t) (ca : option connAuth) : M () :=
  match sandboxPath ca (CreateReq.Path req) with
  | Err err => createFailed c req (Some err)
  | Ok spath =>
    if CreateReq.IsDir req then
      err ← on_world (os_MkdirAll spath (CreateReq.Mode req));
      match err with
      | Some err => createFailed c req (Some err)
      | None => createSuccess c req
      end
    else
      err ← on_world (os_MkdirAll (Dir spath) 0x1ED);
      match err with
      | Some err => createFailed c req (Some err)
      | None =>
        info ← ask_world (os_Stat spath);
        match info with
        | Ok info =>
          if fi_IsDir info then createFailed c req (Some (Errorf "path is a directory" []))
          else createSuccess c req
        | Err err =>
          if negb (is_not_exist err) then createFailed c req (Some err)
          else create_new c req spath
        end
      end
  end.

Definition writeFailed (c : conn_id) (req : WriteReq.t) (err : option error) : M () :=
  let errMsg := match err with Some e => error_text e | None => "" end in
  send c (MWriteRes {| WriteRes.ID := WriteReq.ID req; WriteRes.Success := false; WriteRes.N := 0;
                       WriteRes.Error := errMsg |}) [].

Definition writeSuccess (c : conn_id) (req : WriteReq.t) (n : Z) : M () :=
  send c (MWriteRes {| WriteRes.ID := WriteReq.ID req; WriteRes.Success := true; WriteRes.N := i32 n;
                       WriteRes.Error := "" |}) [].

(** The payload of a write request, checked, decrypted and decompressed. *)
Definition write_payload (req : WriteReq.t) (payload : list byte) (ca : connAuth) : result (list byte) :=
  if negb (WriteReq.Checksum req =? 0) && negb (ChecksumIEEE payload =? WriteReq.Checksum req)
  then Err (Errorf "checksum mismatch" []) else
  match
    (if WriteReq.Encryption req =? EncryptionSecretBox then
       match decryptChunk payload (ca_encryptionKey ca) with
       | Err err => Err (Wrapf "decrypt: %w" [] err)
       | Ok decrypted => Ok decrypted
       end
     else Ok payload)
  with
  | Err err => Err err
  | Ok chunk => decompressChunk chunk (WriteReq.Compression req)
  end.

Definition write (c : conn_id) (req : WriteReq.t) (payload : list byte) (ca : connAuth) : M () :=
  match write_payload req payload ca with
  | Err err => writeFailed c req (Some err)
  | Ok data =>
    match sandboxPath (Some ca) (WriteReq.Path req) with
    | Err err => writeFailed c req (Some err)
    | Ok spath =>
      got ← fds_get spath true;
      match got with
      | Err err => writeFailed c req (Some err)
      | Ok fd =>
        wrote ← on_world (f_WriteAt fd data (WriteReq.Offset req));
        match wrote with
        | (_, Some err) => fds_evict spath;; writeFailed c req (Some err)
        | (n, None) => writeSuccess c req n
        end
      end
    end
  end.

Definition readFailed (c : conn_id) (req : ReadReq.t) (err : option error) : M () :=
  let errMsg := match err with Some e => error_text e | None => "" end in
  send c (MReadRes {| ReadRes.ID := ReadReq.ID req; ReadRes.Success := false; ReadRes.N := 0;
                      ReadRes.Checksum := 0; ReadRes.Compression := 0; ReadRes.Encryption := 0;
                      ReadRes.Error := errMsg |}) [].

Definition readSuccess (c : conn_id) (req : ReadReq.t) (data : list byte)
    (compressionAlgo encryptionAlgo fileSize : Z) : M () :=
  let checksum := ChecksumIEEE data in
  send c (MReadRes {| ReadRes.ID := ReadReq.ID req; ReadRes.Success := true; ReadRes.N := zlen data;
                      ReadRes.Checksum := checksum; ReadRes.Compression := compressionAlgo;
                      ReadRes.Encryption := encryptionAlgo; ReadRes.Error := "" |}) data.

(** The answer to a read of [data]: compress, encrypt, send. *)
Definition read_reply (c : conn_id) (req : ReadReq.t) (data : list byte) (ca : connAuth) (size : Z) : M () :=
  match compressChunk data (ReadReq.Compression req) with
  | Err err => readFailed c req (Some err)
  | Ok (compressed, algo) =>
    if ReadReq.Encryption req =? EncryptionSecretBox then
      nonce ← rand_read 24;
      match encryptChunk nonce compressed (ca_encryptionKey ca) with
      | Err err => readFailed c req (Some (Wrapf "encrypt: %w" [] err))
      | Ok encrypted => readSuccess c req encrypted algo EncryptionSecretBox size
      end
    else readSuccess c req compressed algo EncryptionNone size
  end.

Definition read (c : conn_id) (req : ReadReq.t) (ca : connAuth) : M () :=
  match sandboxPath (Some ca) (ReadReq.Path req) with
  | Err err => readFailed c req (Some err)
  | Ok spath =>
    got ← fds_get spath false;
    match got with
    | Err err => readFailed c req (Some err)
    | Ok fd =>
      info ← ask_world (f_Stat fd);
      match info with
      | Err err => readFailed c req (Some err)
      | Ok info =>
        if negb (make_ok (ReadReq.Size req)) then panic else
        rd ← ask_world (f_ReadAt fd (ReadReq.Size req) (ReadReq.Offset req));
        match rd with
        | ([], Some err) => readFailed c req (Some err)
        | (data, _) => read_reply c req data ca (fi_Size info)
        end
      end
    end
  end.

Definition readDirFailed (c : conn_id) (req : ReadDirReq.t) (err : option error) : M () :=
  let errMsg := match err with Some e => error_text e | None => "" end in
  send c (MReadDirRes {| ReadDirRes.ID := ReadDirReq.ID req; ReadDirRes.Success := false;
                         ReadDirRes.Entries := []; ReadDirRes.Error := errMsg |}) [].

Definition dir_entry (e : OsDirEntry) : DirEntry.t :=
  match de_Info e with
  | Err _ => {| DirEntry.IsDir := de_IsDir e; DirEntry.Mode := 0; DirEntry.Name := de_Name e;
                DirEntry.Size := 0; DirEntry.ModTime := 0 |}
  | Ok info => {| DirEntry.IsDir := de_IsDir e; DirEntry.Mode := u32 (fi_Mode info);
                  DirEntry.Name := de_Name e; DirEntry.Size := fi_Size info;
                  DirEntry.ModTime := fi_ModTime info |}
  end.

Definition readDirSuccess (c : conn_id) (req : ReadDirReq.t) (entries : list OsDirEntry) : M () :=
  send c (MReadDirRes {| ReadDirRes.ID := ReadDirReq.ID req; ReadDirRes.Success := true;
                         ReadDirRes.Entries := dir_entry <$> entries; ReadDirRes.Error := "" |}) [].

Definition readDir (c : conn_id) (req : ReadDirReq.t) (ca : option connAuth) : M () :=
  match sandboxPath ca (ReadDirReq.Path req) with
  | Err err => readDirFailed c req (Some err)
  | Ok spath =>
    entries ← ask_world (os_ReadDir spath);
    match entries with
    | Err err => readDirFailed c req (Some err)
    | Ok entries => readDirSuccess c req entries
    end
  end.

Definition statFailed (c : conn_id) (req : StatReq.t) (err : option error) : M () :=
  let errMsg := match err with Some e => error_text e | None => "" end in
  send c (MStatRes {| StatRes.ID := StatReq.ID req; StatRes.Success := false; StatRes.Size := 0;
                      StatRes.Mode := 0; StatRes.IsDir := false; StatRes.Error := errMsg |}) [].

Definition statSuccess (c : conn_id) (req : StatReq.t) (info : FileInfo) : M () :=
  send c (MStatRes {| StatRes.ID := StatReq.ID req; StatRes.Success := true; StatRes.Size := fi_Size info;
                      StatRes.Mode := u32 (fi_Mode info); StatRes.IsDir := fi_IsDir info;
                      StatRes.Error := "" |}) [].

Definition stat (c : conn_id) (req : StatReq.t) (ca : option connAuth) : M () :=
  match sandboxPath ca (StatReq.Path req) with
  | Err err => statFailed c req (Some err)
  | Ok spath =>
    info ← ask_world (os_Stat spath);
    match info with
    | Err err => statFailed c req (Some err)
    | Ok info => statSuccess c req info
    end
  end.

Definition hashFailed (c : conn_id) (req : HashReq.t) (err : option error) : M () :=
  let errMsg := match err with Some e => error_text e | None => "" end in
  send c (MHashRes {| HashRes.ID := HashReq.ID req; HashRes.Success := false; HashRes.Hash := [];
                      HashRes.Error := errMsg |}) [].

(** [hash] between the [defer] and the return. *)
Definition hash_body (c : conn_id) (req : HashReq.t) (spath : string) : M () :=
  got ← fds_get spath false;
  match got with
  | Err err => hashFailed c req (Some err)
  | Ok fd =>
    sought ← on_world (f_SeekStart fd);
    match sought with
    | Some err => hashFailed c req (Some err)
    | None =>
      copied ← on_world (f_ReadRest fd);
      match copied with
      | Err err => hashFailed c req (Some err)
      | Ok data =>
        send c (MHashRes {| HashRes.ID := HashReq.ID req; HashRes.Success := true;
                            HashRes.Hash := Sum256 data; HashRes.Error := "" |}) []
      end
    end
  end.

Definition hash (c : conn_id) (req : HashReq.t) (ca : option connAuth) : M () :=
  match sandboxPath ca (HashReq.Path req) with
  | Err err => hashFailed c req (Some err)
  | Ok spath => hash_body c req spath;; fds_evict spath
  end.

(** ** Dispatch: what a worker of [process] does with one message *)

Definition dispatch (wm : wrappedMsg) (ca : connAuth) : M () :=
  match wm_msg wm with
  | MCreateReq msg => create (wm_conn wm) msg (Some ca)
  | MWriteReq msg => write (wm_conn wm) msg (wm_payload wm) ca
  | MReadReq msg => read (wm_conn wm) msg ca
  | MStatReq msg => stat (wm_conn wm) msg (Some ca)
  | MReadDirReq msg => readDir (wm_conn wm) msg (Some ca)
  | MHashReq msg => hash (wm_conn wm) msg (Some ca)
  | _ => mret ()
  end.

Definition process (wm : wrappedMsg) : M () :=
  match wm_msg wm with
  | MAuthReq req => handleAuth (wm_conn wm) req
  | msg =>
    ca ← get_auth (wm_conn wm);
    match ca with
    | Some ca =>
      if bool_decide (ca_state ca = authOK) then dispatch wm ca
      else rejectUnauthenticated (wm_conn wm) (msg_Type msg) (msg_GetID msg)
    | None => rejectUnauthenticated (wm_conn wm) (msg_Type msg) (msg_GetID msg)
    end
  end.

(** ** [OnTraffic] *)

Inductive Action : Set := gnet_None | gnet_Close.

(** [err == message.ErrIncompletePacket]: the variable itself, not an error that wraps it. *)
Definition is_ErrIncompletePacket (err : error) : bool :=
  match err with ErrVar n _ => bool_decide (n = "message.ErrIncompletePacket") | _ => false end.

(** One iteration of the loop: [None] to go on. *)
Definition OnTraffic_iter (c : conn_id) : M (option Action) := λ s,
  let '(r, res) := ReadMessage (c_in (conn_at s c)) in
  let s := upd_conn c (set_in r) s in
  match res with
  | Err err =>
    (Some (if is_ErrIncompletePacket err then gnet_None else gnet_Close), s)
  | Ok (msg, payload) =>
    (None, set_queue (s_queue s ++ [{| wm_msg := msg; wm_payload := payload; wm_conn := c |}]) (s_busy s) s)
  end.

(** The loop, when the channel has room; [None] when the fuel runs out. *)
Fixpoint OnTraffic (fuel : nat) (c : conn_id) : M (option Action) :=
  match fuel with
  | O => mret None
  | S fuel =>
    a ← OnTraffic_iter c;
    match a with
    | Some a => mret (Some a)
    | None => OnTraffic fuel c
    end
  end.

Definition newServer (processNum : nat) (w : world) (now : Z) : srv :=
  {| s_world := w; s_fds := newFDCache (30 * 1000000000); s_sessions := newSessionStore; s_conns := ∅;
     s_queue := []; s_busy := []; s_processNum := processNum; s_draws := 0; s_now := now;
     s_panic := false |}.

(** The flags of [gcp serve] and their defaults; [serveCmd] up to [gnet.Run], which runs the
    transitions of ServerStep.v.  [make] panics for a negative [--process-num]. *)
Record serveFlags : Set := { fl_listen : string; fl_process_num : Z; fl_multicore : bool }.
Definition serveDefaults : serveFlags :=
  {| fl_listen := "tcp://0.0.0.0:5031"; fl_process_num := 4; fl_multicore := true |}.
Definition serveCmd (fl : serveFlags) (w : world) (now : Z) : option srv :=
  if fl_process_num fl <? 0 then None else Some (newServer (Z.to_nat (fl_process_num fl)) w now).

End Server.
