(* ===== verification/ServerStep.v ===== *)
(** The server as a transition system, and what its handlers do to each part of
    the state: the rules of the weakest-precondition calculus for the effects of
    Server.v, the frame conditions of the handlers, and the invariants. *)
From S2P Require Import Prelude Message GoStd GoHash OS Chunk Auth FdCache Server Hoare.
From Stdlib Require Import Strings.Byte.

Section ServerStep.
  Context `{Cbor, GoFmt, OS, SSH, UserDB, Gzip, SecretBox, Rand}.

(** ** The transition system

    [step_accept] is a new connection, [step_receive] bytes that arrive on it,
    [step_traffic] one iteration of [OnTraffic] (which waits for room in the
    channel), [step_take] a free worker taking the next message, [step_work] a
    worker handling the message it took, [step_sweep] a tick of the sweeper,
    [step_tick] time passing, [step_disconnect] the peer closing,
    [step_shutdown] the goroutine of [serveCmd] closing the cache when its context ends (the
    event loop may still run until it stops). *)
Inductive step (s : srv) : srv → Prop :=
  | step_accept c :
      s_panic s = false → s_conns s !! c = None →
      step s (set_conns (<[c := new_conn]> (s_conns s)) s)
  | step_receive c cn d :
      s_panic s = false → s_conns s !! c = Some cn → c_closed cn = false →
      step s (upd_conn c (λ cn, set_in (c_in cn ++ d) cn) s)
  | step_traffic c cn s' a :
      s_panic s = false → s_conns s !! c = Some cn → c_closed cn = false →
      (length (s_queue s) < s_processNum s)%nat → OnTraffic_iter c s = (a, s') →
      step s (match a with Some gnet_Close => upd_conn c close_conn s' | _ => s' end)
  | step_take wm q :
      s_panic s = false → s_queue s = wm :: q → (length (s_busy s) < s_processNum s)%nat →
      step s (set_queue q (wm :: s_busy s) s)
  | step_work wm b1 b2 :
      s_panic s = false → s_busy s = b1 ++ wm :: b2 →
      step s (exec (process wm) (set_queue (s_queue s) (b1 ++ b2) s))
  | step_sweep :
      s_panic s = false →
      step s (set_world (fst (sweep (s_now s) (s_world s) (s_fds s)))
                (snd (sweep (s_now s) (s_world s) (s_fds s))) s)
  | step_tick t :
      s_panic s = false → s_now s <= t → step s (set_env (s_draws s) t (s_panic s) s)
  | step_disconnect c cn :
      s_panic s = false → s_conns s !! c = Some cn → step s (upd_conn c close_conn s)
  | step_shutdown :
      s_panic s = false →
      step s (set_world (fst (FdCache.close (s_world s) (s_fds s))) (snd (FdCache.close (s_world s) (s_fds s))) s).

(** The states of a server started with [n] workers on [w] at time [now]. *)
Definition reachable (n : nat) (w : world) (now : Z) (s : srv) : Prop :=
  rtc step (newServer n w now) s.

(** ** What a step of a handler leaves alone *)

(** Only the file system, the descriptor cache and the random source may differ. *)
Record io_only (s s' : srv) : Prop := {
  io_sessions : s_sessions s' = s_sessions s;
  io_conns : s_conns s' = s_conns s;
  io_queue : s_queue s' = s_queue s;
  io_busy : s_busy s' = s_busy s;
  io_num : s_processNum s' = s_processNum s;
  io_now : s_now s' = s_now s;
  io_panic : s_panic s' = s_panic s;
}.

(** A computation that ends with exactly one message, satisfying [Q], sent on [c]. *)
Definition replied (c : conn_id) (Q : MSG → list byte → Prop) (s s' : srv) : Prop :=
  ∃ r p s0, io_only s s0 ∧ io_only (exec (send c r p) s0) s' ∧ Q r p.

#[export] Instance io_only_preorder : PreOrder io_only.
Proof.
  split; [by split|]. intros s1 s2 s3 [] []. split; congruence.
Qed.

(** ** Rules for the effects *)

Lemma wp_on_world {A} (f : world → world * A) Q s :
  (∀ w a, f (s_world s) = (w, a) → Q a (set_world w (s_fds s) s)) → wp (on_world f) Q s.
Proof. intros HQ. unfold wp, on_world, eval, exec. destruct (f (s_world s)) eqn:E. by apply HQ. Qed.

Lemma wp_ask_world {A} (f : world → A) Q s : Q (f (s_world s)) s → wp (ask_world f) Q s.
Proof. done. Qed.

Lemma wp_fds_get p wr Q s :
  (∀ w fc r, get p wr (s_now s) (s_world s) (s_fds s) = (w, fc, r) → Q r (set_world w fc s)) →
  wp (fds_get p wr) Q s.
Proof.
  intros HQ. unfold wp, fds_get, eval, exec. destruct (get _ _ _ _ _) as [[w fc] r] eqn:E. by apply HQ.
Qed.

Lemma wp_fds_evict p (Q : () → srv → Prop) s :
  (∀ w fc, evict p (s_world s) (s_fds s) = (w, fc) → Q () (set_world w fc s)) → wp (fds_evict p) Q s.
Proof.
  intros HQ. unfold wp, fds_evict, eval, exec. destruct (evict _ _ _) as [w fc] eqn:E. by apply HQ.
Qed.

Lemma wp_rand n Q s :
  Q (rand_bytes (s_draws s) n) (set_env (S (s_draws s)) (s_now s) (s_panic s) s) → wp (rand_read n) Q s.
Proof. done. Qed.

Lemma wp_on_sessions {A} (f : sessionStore → sessionStore * A) Q s :
  (∀ x a, f (s_sessions s) = (x, a) → Q a (set_sessions x s)) → wp (on_sessions f) Q s.
Proof. intros HQ. unfold wp, on_sessions, eval, exec. destruct (f (s_sessions s)) eqn:E. by apply HQ. Qed.

Lemma wp_get_auth c Q s : Q (getConnAuth (conn_at s c)) s → wp (get_auth c) Q s.
Proof. done. Qed.

Lemma io_set_world s w fc : io_only s (set_world w fc s).
Proof. by split. Qed.
Lemma io_draw s : io_only s (set_env (S (s_draws s)) (s_now s) (s_panic s) s).
Proof. by split. Qed.

Lemma replied_io c Q s s1 s' : io_only s s1 → replied c Q s1 s' → replied c Q s s'.
Proof. intros Hio (r & p & s0 & Ha & Hb & HQ). exists r, p, s0. split_and!; [by etrans|done|done]. Qed.

Lemma replied_then c Q s s1 s' : replied c Q s s1 → io_only s1 s' → replied c Q s s'.
Proof. intros (r & p & s0 & Ha & Hb & HQ) Hio. exists r, p, s0. split_and!; [done|by etrans|done]. Qed.

Lemma wp_send c (Q : MSG → list byte → Prop) s s1 r p :
  io_only s s1 → Q r p → wp (send c r p) (λ _ s', replied c Q s s') s1.
Proof. intros Hio HQ. by exists r, p, s1. Qed.

Lemma replied_mono c (Q R : MSG → list byte → Prop) s s' :
  replied c Q s s' → (∀ r p, Q r p → R r p) → replied c R s s'.
Proof. intros (r & p & s0 & ? & ? & ?) HR. exists r, p, s0. auto. Qed.

End ServerStep.

(** One step through a computation: split a bind, run an effect, or decide a branch. *)
Ltac wp_step :=
  lazymatch goal with
  | |- wp (mbind _ _) _ _ => apply wp_bind
  | |- wp (mret _) _ _ => apply wp_ret
  | |- wp (on_world _) _ _ => let w := fresh "w" in let a := fresh "a" in let E := fresh "Ew" in
                              apply wp_on_world; intros w a E
  | |- wp (ask_world _) _ _ => apply wp_ask_world
  | |- wp (fds_get _ _) _ _ => let w := fresh "w" in let fc := fresh "fc" in let r := fresh "r" in
                               let E := fresh "Eg" in apply wp_fds_get; intros w fc r E
  | |- wp (fds_evict _) _ _ => let w := fresh "w" in let fc := fresh "fc" in let E := fresh "Ee" in
                               apply wp_fds_evict; intros w fc E
  | |- wp (rand_read _) _ _ => apply wp_rand
  | |- wp (on_sessions _) _ _ => let x := fresh "x" in let a := fresh "a" in let E := fresh "Es" in
                                 apply wp_on_sessions; intros x a E
  | |- wp (get_auth _) _ _ => apply wp_get_auth
  | |- wp (modify_st _) _ _ => apply wp_modify
  | |- wp (match ?x with _ => _ end) _ _ => destruct x eqn:?
  | |- wp (let _ := _ in _) _ _ => cbv zeta
  end; cbv beta.

(** The last step of a handler: its reply. *)
Ltac wp_reply := apply wp_send; [by split|]; try by split.

Section Replies.
  Context `{Cbor, GoFmt, OS, SSH, UserDB, Gzip, SecretBox, Rand}.

(** A reply to request [id], of the type [t]. *)
Definition reply_to (id : Z) (t : MessageType) (r : MSG) (p : list byte) : Prop :=
  msg_GetID r = id ∧ msg_Type r = t.

Lemma create_new_replies c req spath s0 s :
  io_only s0 s →
  wp (create_new c req spath) (λ _ s', replied c (reply_to (CreateReq.ID req) CreateResT) s0 s') s.
Proof.
  intros Hio. unfold create_new, createFailed, createSuccess.
  repeat wp_step; (apply wp_send; [etrans; [exact Hio|by split]|by split]).
Qed.

Lemma create_replies c req ca s :
  wp (create c req ca) (λ _ s', replied c (reply_to (CreateReq.ID req) CreateResT) s s') s.
Proof.
  unfold create.
  repeat (wp_step || (apply create_new_replies; by split)); unfold createFailed, createSuccess; wp_reply.
Qed.

Lemma write_replies c req payload ca s :
  wp (write c req payload ca) (λ _ s', replied c (reply_to (WriteReq.ID req) WriteResT) s s') s.
Proof. unfold write. repeat wp_step; unfold writeFailed, writeSuccess; wp_reply. Qed.

Lemma read_replies c req ca s : make_ok (ReadReq.Size req) = true →
  wp (read c req ca) (λ _ s', replied c (reply_to (ReadReq.ID req) ReadResT) s s') s.
Proof.
  intros Hm. unfold read, read_reply. rewrite Hm. cbn [negb].
  repeat wp_step; unfold readFailed, readSuccess; wp_reply.
Qed.

Lemma readDir_replies c req ca s :
  wp (readDir c req ca) (λ _ s', replied c (reply_to (ReadDirReq.ID req) ReadDirResT) s s') s.
Proof. unfold readDir. repeat wp_step; unfold readDirFailed, readDirSuccess; wp_reply. Qed.

Lemma stat_replies c req ca s :
  wp (stat c req ca) (λ _ s', replied c (reply_to (StatReq.ID req) StatResT) s s') s.
Proof. unfold stat. repeat wp_step; unfold statFailed, statSuccess; wp_reply. Qed.

Lemma hash_body_replies c req spath s :
  wp (hash_body c req spath) (λ _ s', replied c (reply_to (HashReq.ID req) HashResT) s s') s.
Proof. unfold hash_body. repeat wp_step; unfold hashFailed; wp_reply. Qed.

Lemma hash_replies c req ca s :
  wp (hash c req ca) (λ _ s', replied c (reply_to (HashReq.ID req) HashResT) s s') s.
Proof.
  unfold hash. wp_step; [|unfold hashFailed; wp_reply].
  apply wp_bind. eapply wp_mono; [apply hash_body_replies|]. intros u s' Hr. cbv beta in Hr |- *.
  wp_step. eapply replied_then; [exact Hr|by split].
Qed.

(** The response type of a request; none for the other messages. *)
Definition response_type (m : MSG) : option MessageType :=
  match m with
  | MCreateReq _ => Some CreateResT | MWriteReq _ => Some WriteResT | MReadReq _ => Some ReadResT
  | MStatReq _ => Some StatResT | MReadDirReq _ => Some ReadDirResT | MHashReq _ => Some HashResT
  | MAuthReq _ => Some AuthResT
  | _ => None
  end.

(** A request whose handling does not panic. *)
Definition no_panic (m : MSG) : Prop :=
  match m with MReadReq r => make_ok (ReadReq.Size r) = true | _ => True end.

#[export] Instance no_panic_dec m : Decision (no_panic m).
Proof. destruct m; apply _. Defined.

Lemma dispatch_replies wm ca t s :
  response_type (wm_msg wm) = Some t → msg_Type (wm_msg wm) ≠ AuthReqT → no_panic (wm_msg wm) →
  wp (dispatch wm ca) (λ _ s', replied (wm_conn wm) (reply_to (msg_GetID (wm_msg wm)) t) s s') s.
Proof.
  unfold dispatch. intros Ht Hna Hnp. destruct (wm_msg wm); simpl in Ht; simplify_eq.
  - apply create_replies.
  - apply write_replies.
  - by apply read_replies.
  - apply stat_replies.
  - apply readDir_replies.
  - apply hash_replies.
Qed.

(** The worker panicked: the process is dead, and nothing was sent, closed or stored. *)
Record panicked (s s' : srv) : Prop := {
  pk_panic : s_panic s' = true;
  pk_conns : s_conns s' = s_conns s;
  pk_sessions : s_sessions s' = s_sessions s;
  pk_queue : s_queue s' = s_queue s;
}.

Lemma panicked_stuck s s'' : s_panic s = true → ¬ step s s''.
Proof. intros Hp Hst. destruct Hst; congruence. Qed.

Lemma read_replies_or_panics c req ca s :
  wp (read c req ca) (λ _ s', replied c (reply_to (ReadReq.ID req) ReadResT) s s' ∨ panicked s s') s.
Proof.
  destruct (make_ok (ReadReq.Size req)) eqn:Hm.
  { eapply wp_mono; [by apply read_replies|]. auto. }
  unfold read, readFailed, panic. rewrite Hm. cbn [negb].
  repeat wp_step; try by right.
  all: eapply (wp_mono _ (λ _, replied c (reply_to (ReadReq.ID req) ReadResT) s)); [wp_reply|auto].
Qed.

Lemma dispatch_replies_or_panics wm ca t s :
  response_type (wm_msg wm) = Some t → msg_Type (wm_msg wm) ≠ AuthReqT →
  wp (dispatch wm ca) (λ _ s', replied (wm_conn wm) (reply_to (msg_GetID (wm_msg wm)) t) s s'
    ∨ ¬ no_panic (wm_msg wm) ∧ panicked s s') s.
Proof.
  intros Ht Hna. destruct (decide (no_panic (wm_msg wm))) as [Hnp|Hnp].
  { eapply wp_mono; [by apply dispatch_replies|]. auto. }
  unfold dispatch. destruct (wm_msg wm); try done. simplify_eq/=.
  eapply wp_mono; [apply read_replies_or_panics|]. intros u s' [?|?]; auto.
Qed.

End Replies.

(** ** What arrives on the wire *)

Section Wire.
  Context `{Cbor, GoFmt, OS, SSH, UserDB, Gzip, SecretBox, Rand}.

(** A frame written to an open connection is appended; a closed one takes nothing. *)
Lemma WriteMessage_conn cn m p :
  fst (WriteMessage cn m p) =
    {| c_ctx := c_ctx cn; c_closed := c_closed cn; c_in := c_in cn;
       c_out := if c_closed cn then c_out cn else c_out cn ++ frame m p; c_sent := c_sent cn |}.
Proof.
  destruct cn as [ctx cl i o l]. unfold WriteMessage, frame. destruct (EncodeMsg m (zlen p)) as [head msgbs].
  destruct cl; [done|]. simpl. by rewrite <- !app_assoc.
Qed.

Lemma conn_at_upd c f s d :
  conn_at (upd_conn c f s) d = if decide (d = c) then f (conn_at s c) else conn_at s d.
Proof.
  unfold conn_at, upd_conn, set_conns. simpl. rewrite lookup_insert.
  case_decide as E1; case_decide as E2; subst; done.
Qed.

Lemma conn_at_io s s' c : io_only s s' → conn_at s' c = conn_at s c.
Proof. intros [_ Hc _ _ _ _ _]. unfold conn_at. by rewrite Hc. Qed.

(** What a reply does to the connections, the sessions and the queues. *)
Lemma replied_conns c Q s s' : replied c Q s s' →
  ∃ r p, Q r p
    ∧ c_out (conn_at s' c) =
        (if c_closed (conn_at s c) then c_out (conn_at s c) else c_out (conn_at s c) ++ frame r p)
    ∧ c_ctx (conn_at s' c) = c_ctx (conn_at s c) ∧ c_closed (conn_at s' c) = c_closed (conn_at s c)
    ∧ c_in (conn_at s' c) = c_in (conn_at s c)
    ∧ (∀ d, d ≠ c → conn_at s' d = conn_at s d)
    ∧ s_sessions s' = s_sessions s ∧ s_queue s' = s_queue s ∧ s_busy s' = s_busy s
    ∧ s_panic s' = s_panic s ∧ s_now s' = s_now s ∧ s_processNum s' = s_processNum s.
Proof.
  intros (r & p & s0 & Ha & Hb & HQ). exists r, p. split; [done|].
  assert (∀ d, conn_at s' d = if decide (d = c) then log_sent r p (fst (WriteMessage (conn_at s c) r p))
    else conn_at s d) as Hat.
  { intros d. rewrite (conn_at_io _ _ _ Hb). unfold send, exec, modify_st. cbn [snd].
    rewrite conn_at_upd, !(conn_at_io _ _ _ Ha). done. }
  assert (∀ d, d ≠ c → conn_at s' d = conn_at s d) as Hd.
  { intros d Hd. by rewrite Hat, decide_False. }
  specialize (Hat c). rewrite decide_True in Hat by done. rewrite Hat, WriteMessage_conn. simpl.
  destruct Ha, Hb. simpl in *. split_and!; try done; congruence.
Qed.

(** ... and to the ghost list of messages. *)
Lemma replied_sent c Q s s' : replied c Q s s' → c_closed (conn_at s c) = false →
  ∃ r p, Q r p ∧ c_sent (conn_at s' c) = c_sent (conn_at s c) ++ [(r, p)].
Proof.
  intros (r & p & s0 & Ha & Hb & HQ) Hcl. exists r, p. split; [done|].
  rewrite (conn_at_io _ _ _ Hb). unfold send, exec, modify_st. cbn [snd].
  rewrite conn_at_upd, decide_True, (conn_at_io _ _ _ Ha), WriteMessage_conn by done. simpl. by rewrite Hcl.
Qed.

End Wire.

(** ** The authentication protocol

    [auth_rule] is the protocol [handleAuth] implements: from the context of the
    connection and the session store to the next ones, the answer, and whether the
    connection is closed.  [w] is the file system, [k] the position in the random
    source. *)
Section Protocol.
  Context `{Cbor, GoFmt, OS, SSH, UserDB, Gzip, SecretBox, Rand}.

Definition auth_answer (id : Z) (ok : bool) (challenge : list byte) (token user err : string) : AuthRes.t :=
  {| AuthRes.ID := id; AuthRes.Success := ok; AuthRes.Challenge := challenge; AuthRes.Token := token;
     AuthRes.User := user; AuthRes.Error := err |}.
Definition auth_error (id : Z) (err : string) : AuthRes.t := auth_answer id false [] "" "" err.

Definition ctx_ok (user home : string) (key : option (list byte)) : connAuth :=
  {| ca_state := authOK; ca_challenge := None; ca_pubKey := []; ca_user := user; ca_home := home;
     ca_encryptionKey := key |}.
Definition ctx_pending (challenge pubKey : list byte) : connAuth :=
  {| ca_state := authPending; ca_challenge := Some challenge; ca_pubKey := pubKey; ca_user := "";
     ca_home := ""; ca_encryptionKey := None |}.

(** The challenge a connection has to sign. *)
Definition pending (ctx : option connAuth) : option (list byte) :=
  match ctx with
  | Some ca => if bool_decide (ca_state ca = authPending) then ca_challenge ca else None
  | None => None
  end.

Inductive auth_rule (w : world) (k : nat) (req : AuthReq.t) (ctx : option connAuth) (ss : sessionStore)
    : option connAuth → sessionStore → AuthRes.t → bool → Prop :=
  | rule_token_bad :
      AuthReq.Token req ≠ "" → ss !! AuthReq.Token req = None →
      auth_rule w k req ctx ss ctx ss
        (auth_error (AuthReq.ID req) "invalid or expired session token") true
  | rule_token info :
      AuthReq.Token req ≠ "" → ss !! AuthReq.Token req = Some info →
      auth_rule w k req ctx ss (Some (ctx_ok (User info) (Home info) (EncryptionKey info))) ss
        (auth_answer (AuthReq.ID req) true [] "" (User info) "") false
  | rule_no_challenge :
      AuthReq.Token req = "" → AuthReq.Signature req ≠ [] → pending ctx = None →
      auth_rule w k req ctx ss ctx ss (auth_error (AuthReq.ID req) "no pending challenge") true
  | rule_signature_bad challenge e :
      AuthReq.Token req = "" → AuthReq.Signature req ≠ [] → pending ctx = Some challenge →
      verifySSHSignature (AuthReq.PubKey req) challenge (AuthReq.Signature req) = Err e →
      auth_rule w k req ctx ss ctx ss
        (auth_error (AuthReq.ID req) (Sprintf "signature verification failed: %v" [inl (error_text e)])) true
  | rule_user_bad challenge pk e :
      AuthReq.Token req = "" → AuthReq.Signature req ≠ [] → pending ctx = Some challenge →
      verifySSHSignature (AuthReq.PubKey req) challenge (AuthReq.Signature req) = Ok pk →
      snd (findUserByPubKey pk (AuthReq.User req) w) = Err e →
      auth_rule w k req ctx ss ctx ss (auth_error (AuthReq.ID req) (error_text e)) true
  | rule_signature challenge pk user home :
      AuthReq.Token req = "" → AuthReq.Signature req ≠ [] → pending ctx = Some challenge →
      verifySSHSignature (AuthReq.PubKey req) challenge (AuthReq.Signature req) = Ok pk →
      snd (findUserByPubKey pk (AuthReq.User req) w) = Ok (user, home) →
      let token := sessionTokenHex (rand_bytes k 32) in
      let key := deriveEncryptionKey pk in
      auth_rule w k req ctx ss (Some (ctx_ok user home key))
        (<[token := {| User := user; Home := home; EncryptionKey := key |}]> ss)
        (auth_answer (AuthReq.ID req) true [] token user "") false
  | rule_no_key :
      AuthReq.Token req = "" → AuthReq.Signature req = [] → AuthReq.PubKey req = [] →
      auth_rule w k req ctx ss ctx ss (auth_error (AuthReq.ID req) "missing public key") true
  | rule_no_random e :
      AuthReq.Token req = "" → AuthReq.Signature req = [] → AuthReq.PubKey req ≠ [] →
      rand_bytes k challengeLen = Err e →
      auth_rule w k req ctx ss ctx ss (auth_error (AuthReq.ID req) "internal error") true
  | rule_challenge challenge :
      AuthReq.Token req = "" → AuthReq.Signature req = [] → AuthReq.PubKey req ≠ [] →
      rand_bytes k challengeLen = Ok challenge →
      auth_rule w k req ctx ss (Some (ctx_pending challenge (AuthReq.PubKey req))) ss
        (auth_answer (AuthReq.ID req) false challenge "" "" "") false.

(** What handling an authentication request does to the rest of the server. *)
Record auth_done `{!OSLaws} (c : conn_id) (ctx : option connAuth) (ss : sessionStore) (r : AuthRes.t)
    (close : bool) (s s' : srv) : Prop := {
  ad_ctx : c_ctx (conn_at s' c) = ctx;
  ad_sessions : s_sessions s' = ss;
  ad_out : c_out (conn_at s' c) =
    (if c_closed (conn_at s c) then c_out (conn_at s c) else c_out (conn_at s c) ++ frame (MAuthRes r) []);
  ad_sent : c_sent (conn_at s' c) =
    (if c_closed (conn_at s c) then c_sent (conn_at s c) else c_sent (conn_at s c) ++ [(MAuthRes r, [])]);
  ad_closed : c_closed (conn_at s' c) = c_closed (conn_at s c) || close;
  ad_in : c_in (conn_at s' c) = c_in (conn_at s c);
  ad_others d : d ≠ c → conn_at s' d = conn_at s d;
  ad_files : same_files (s_world s) (s_world s');
  ad_quiet : quiet (s_world s) (s_world s');
  ad_fds : s_fds s' = s_fds s;
  ad_env : s_queue s' = s_queue s ∧ s_busy s' = s_busy s ∧ s_processNum s' = s_processNum s
    ∧ s_now s' = s_now s ∧ s_panic s' = s_panic s;
  ad_known : is_Some (s_conns s' !! c);
}.

(** Up to the answer, only the file system (read), the sessions and the random source. *)
Record auth_pre `{!OSLaws} (s s' : srv) : Prop := {
  ap_conns : s_conns s' = s_conns s;
  ap_files : same_files (s_world s) (s_world s');
  ap_quiet : quiet (s_world s) (s_world s');
  ap_fds : s_fds s' = s_fds s;
  ap_env : s_queue s' = s_queue s ∧ s_busy s' = s_busy s ∧ s_processNum s' = s_processNum s
    ∧ s_now s' = s_now s ∧ s_panic s' = s_panic s;
}.

Context {LAWS : OSLaws}.

Lemma send_at c m p s d : conn_at (exec (send c m p) s) d =
  if decide (d = c) then log_sent m p (fst (WriteMessage (conn_at s c) m p)) else conn_at s d.
Proof. unfold send, exec, modify_st. cbn [snd]. exact (conn_at_upd c (λ cn, log_sent m p (fst (WriteMessage cn m p))) s d). Qed.

Lemma upd_conn_known c f s : is_Some (s_conns (upd_conn c f s) !! c).
Proof. unfold upd_conn, set_conns. cbn [s_conns]. rewrite lookup_insert_eq. by eexists. Qed.

Lemma conn_at_conns s s' c : s_conns s' = s_conns s → conn_at s' c = conn_at s c.
Proof. unfold conn_at. by intros ->. Qed.

Lemma wp_refuse c req e s s1 : auth_pre s s1 → s_sessions s1 = s_sessions s →
  wp (auth_refuse c req e)
     (λ _ s', auth_done c (c_ctx (conn_at s c)) (s_sessions s) (auth_error (AuthReq.ID req) e) true s s') s1.
Proof.
  intros [Hc Hf Hq Hfd He] Hss. unfold auth_refuse, send, conn_Close. do 3 wp_step.
  match goal with |- auth_done _ _ _ _ _ _ ?s' => set (s2 := s') end.
  assert (∀ d, conn_at s2 d = if decide (d = c) then
    close_conn (log_sent (MAuthRes (auth_error (AuthReq.ID req) e)) []
      (fst (WriteMessage (conn_at s c) (MAuthRes (auth_error (AuthReq.ID req) e)) []))) else conn_at s d) as Hat.
  { intros d. unfold s2. rewrite !conn_at_upd, !(conn_at_conns s s1) by done.
    case_decide; [by rewrite decide_True|]. done. }
  split; rewrite ?Hat, ?decide_True, ?WriteMessage_conn by done; try done.
  - simpl. by rewrite orb_true_r.
  - intros d Hd. by rewrite Hat, decide_False.
  - exact (upd_conn_known _ _ _).
Qed.

Lemma wp_accept c ca r s s1 : auth_pre s s1 →
  wp (set_auth c ca;; send c (MAuthRes r) [])
     (λ _ s', auth_done c (Some ca) (s_sessions s1) r false s s') s1.
Proof.
  intros [Hc Hf Hq Hfd He]. unfold send, set_auth. do 3 wp_step.
  match goal with |- auth_done _ _ _ _ _ _ ?s' => set (s2 := s') end.
  assert (∀ d, conn_at s2 d = if decide (d = c) then
    log_sent (MAuthRes r) [] (fst (WriteMessage (setConnAuth ca (conn_at s c)) (MAuthRes r) [])) else conn_at s d) as Hat.
  { intros d. unfold s2. rewrite !conn_at_upd, !(conn_at_conns s s1) by done.
    case_decide; [by rewrite decide_True|]. done. }
  split; rewrite ?Hat, ?decide_True, ?WriteMessage_conn by done; try done.
  - simpl. by rewrite orb_false_r.
  - intros d Hd. by rewrite Hat, decide_False.
  - exact (upd_conn_known _ _ _).
Qed.

Lemma auth_pre_refl s : auth_pre s s.
Proof. by split. Qed.

Lemma auth_pre_world s w a pk u : findUserByPubKey pk u (s_world s) = (w, a) →
  auth_pre s (set_world w (s_fds s) s).
Proof.
  intros Hf. split; try done; [by eapply findUser_same|by eapply findUser_quiet].
Qed.

Definition auth_spec (c : conn_id) (req : AuthReq.t) (s s' : srv) : Prop :=
  ∃ ctx ss r cl,
    auth_rule (s_world s) (s_draws s) req (c_ctx (conn_at s c)) (s_sessions s) ctx ss r cl
    ∧ auth_done c ctx ss r cl s s'.

Lemma handleAuth_token_spec c req s : AuthReq.Token req ≠ "" →
  wp (handleAuth_token c req) (λ _ s', auth_spec c req s s') s.
Proof.
  intros Ht. unfold handleAuth_token. do 2 wp_step. simplify_eq. wp_step.
  - eapply wp_mono; [apply (wp_accept _ _ _ s); by split|]. intros u s' Hd.
    eexists _, _, _, _. split; [by eapply rule_token|exact Hd].
  - eapply wp_mono; [apply (wp_refuse _ _ _ s); [by split|done]|]. intros u s' Hd.
    eexists _, _, _, _. split; [by apply rule_token_bad|exact Hd].
Qed.

Lemma handleAuth_signature_spec c req s : AuthReq.Token req = "" → AuthReq.Signature req ≠ [] →
  wp (handleAuth_signature c req) (λ _ s', auth_spec c req s s') s.
Proof.
  intros Ht Hs. unfold handleAuth_signature. do 2 wp_step.
  assert (pending (c_ctx (conn_at s c)) = None →
    wp (auth_refuse c req "no pending challenge") (λ _ s', auth_spec c req s s') s) as Hno.
  { intros Hp. eapply wp_mono; [apply (wp_refuse _ _ _ s); [by split|done]|]. intros u s' Hd.
    eexists _, _, _, _. split; [by apply rule_no_challenge|exact Hd]. }
  unfold getConnAuth. destruct (c_ctx (conn_at s c)) as [[[] [ch|] pk0 us hm ek]|] eqn:Hctx; try (by apply Hno).
  assert (pending (c_ctx (conn_at s c)) = Some ch) as Hp by (by rewrite Hctx).
  destruct (verifySSHSignature _ ch _) as [pk|e] eqn:Hv.
  2: { eapply wp_mono; [apply (wp_refuse _ _ _ s); [by split|done]|]. intros u s' Hd.
       eexists _, _, _, _. split; [by eapply rule_signature_bad|exact Hd]. }
  do 2 wp_step. destruct a as [[user home]|e].
  2: { eapply wp_mono; [apply (wp_refuse _ _ _ s); [by eapply auth_pre_world|done]|]. intros u s' Hd.
       eexists _, _, _, _. split; [eapply rule_user_bad; try done; by rewrite Ew|exact Hd]. }
  do 4 wp_step. destruct a as [token info]. unfold sessions_Put in Es. simplify_eq. do 2 wp_step. simplify_eq.
  eapply wp_mono; [apply (wp_accept _ _ _ s); by destruct (auth_pre_world _ _ _ _ _ Ew)|]. intros u s' Hd.
  eexists _, _, _, _. split.
  - eapply rule_signature; try done. by rewrite Ew.
  - simpl in Hd. rewrite set_EncryptionKey_insert in Hd. exact Hd.
Qed.

Lemma handleAuth_challenge_spec c req s : AuthReq.Token req = "" → AuthReq.Signature req = [] →
  wp (handleAuth_challenge c req) (λ _ s', auth_spec c req s s') s.
Proof.
  intros Ht Hs. unfold handleAuth_challenge. destruct (zlen _ =? 0) eqn:E.
  - zbool. apply zlen_0_inv in E. eapply wp_mono; [apply (wp_refuse _ _ _ s); [by split|done]|]. intros u s' Hd.
    eexists _, _, _, _. split; [by apply rule_no_key|exact Hd].
  - assert (AuthReq.PubKey req ≠ []) as Hne by (intros Hk; by rewrite Hk in E).
    do 2 wp_step. unfold generateChallenge. destruct (rand_bytes (s_draws s) challengeLen) as [b|e] eqn:Hr.
    + eapply wp_mono; [apply (wp_accept _ _ _ s); by split|]. intros u s' Hd.
      eexists _, _, _, _. split; [by apply rule_challenge|exact Hd].
    + eapply wp_mono; [apply (wp_refuse _ _ _ s); [by split|done]|]. intros u s' Hd.
      eexists _, _, _, _. split; [by eapply rule_no_random|exact Hd].
Qed.

Lemma handleAuth_spec c req s : wp (handleAuth c req) (λ _ s', auth_spec c req s s') s.
Proof.
  unfold handleAuth. pose proof (zlen_nonneg (AuthReq.Signature req)).
  destruct (bool_decide (AuthReq.Token req = "")) eqn:Ht; cbn [negb]; rewrite ?orb_true_r, ?orb_false_r.
  - apply bool_decide_eq_true in Ht. destruct (0 <? zlen (AuthReq.Signature req)) eqn:Hs.
    + apply handleAuth_signature_spec; [done|]. intros Hn. by rewrite Hn in Hs.
    + apply handleAuth_challenge_spec; [done|]. zbool. apply zlen_0_inv. lia.
  - apply handleAuth_token_spec. by apply bool_decide_eq_false in Ht.
Qed.

End Protocol.
