(* ===== verification/ServerInv.v ===== *)
(** The invariants of the server: what every reachable state satisfies, by
    induction over the transitions of ServerStep.v.  The descriptor cache accounts
    for every open file; every session and every authenticated connection goes back
    to a signature, over a challenge of this server, by a key that the
    [authorized_keys] of the user's home directory held at that time. *)
From S2P Require Import Prelude Message GoStd GoHash OS Chunk Auth FdCache Server Hoare ServerStep.
From Stdlib Require Import Strings.Byte.

(** ** The descriptor cache *)

Section Fds.
  Context `{Cbor, GoFmt, OS, SSH, UserDB, Gzip, SecretBox, Rand} {LAWS : OSLaws}.

Definition fds_ok (s : srv) : Prop := fd_inv (s_world s) (s_fds s).

Lemma wp_send_fds c r p s : fds_ok s → wp (send c r p) (λ _, fds_ok) s.
Proof. done. Qed.

Lemma create_new_fds c req spath s : fds_ok s → wp (create_new c req spath) (λ _, fds_ok) s.
Proof.
  unfold fds_ok. intros Hi. unfold create_new. do 2 wp_step. destruct a as [fd|e].
  2: { apply wp_send_fds. eapply fd_inv_quiet; [exact Hi|by eapply open_err_quiet]. }
  assert (∀ s1 (k : ST srv ()),
    (∀ g, handle (s_world s1) g = handle w g) → (∀ q, at_path (s_world s1) q = at_path w q) →
    s_fds s1 = s_fds s → (∀ s2, fds_ok s2 → wp k (λ _, fds_ok) s2) →
    wp (on_world (f_Close fd);; k) (λ _, fds_ok) s1) as Hclose.
  { intros s1 k Hh Hp Hfd Hk. do 2 wp_step. apply Hk. unfold fds_ok. simpl. rewrite Hfd.
    destruct (open_close_handles _ _ _ _ _ _ (s_world s1) w0 a Ew Hh) as [Ha Hb]; [|done|].
    - intros q i Hq. by rewrite Hp.
    - by eapply fd_inv_handles. }
  destruct (0 <? CreateReq.Size req); [|apply Hclose; try done; intros; by apply wp_send_fds].
  do 2 wp_step. destruct (truncate_law _ _ _ _ _ Ew0) as (Hh & Hp & _).
  destruct a as [e|]; apply Hclose; try done; intros; by apply wp_send_fds.
Qed.

Lemma create_fds c req ca s : fds_ok s → wp (create c req ca) (λ _, fds_ok) s.
Proof.
  intros Hi. unfold create.
  repeat first [ wp_step | apply create_new_fds | apply wp_send_fds
               | done | (eapply fd_inv_quiet; [exact Hi|by eapply mkdir_quiet]) ].
Qed.

Lemma wp_fds_get_ok p wr Q s : fds_ok s →
  (∀ w fc r, get p wr (s_now s) (s_world s) (s_fds s) = (w, fc, r) → fd_inv w fc →
     get_post p wr w fc r → same_files (s_world s) w → Q r (set_world w fc s)) →
  wp (fds_get p wr) Q s.
Proof.
  intros Hi HQ. apply wp_fds_get. intros w fc r Hg.
  destruct (get_correct _ _ _ _ _ _ _ _ Hi Hg) as (H1' & H2' & H3' & _). by eapply HQ.
Qed.

Lemma wp_fds_evict_ok p (Q : () → srv → Prop) s : fds_ok s →
  (∀ w fc, fd_inv w fc → same_files (s_world s) w → Q () (set_world w fc s)) →
  wp (fds_evict p) Q s.
Proof.
  intros Hi HQ. apply wp_fds_evict. intros w fc He.
  destruct (evict_correct _ _ _ _ _ Hi He) as (H1' & _ & H3' & _). by apply HQ.
Qed.

Lemma write_at_fds f d off w w' r fc : f_WriteAt f d off w = (w', r) → fd_inv w fc → fd_inv w' fc.
Proof.
  destruct r as [n e]. intros Hw Hi. destruct (write_law _ _ _ _ _ _ _ Hw) as (Hh & Hp & _).
  eapply fd_inv_handles; [done|done|]. intros q i. by rewrite Hp.
Qed.

Lemma write_fds c req payload ca s : fds_ok s → wp (write c req payload ca) (λ _, fds_ok) s.
Proof.
  intros Hi. unfold write. destruct (write_payload req payload ca) as [data|]; [|by apply wp_send_fds].
  destruct (sandboxPath _ _) as [spath|]; [|by apply wp_send_fds].
  wp_step. apply wp_fds_get_ok; [done|]. intros w fc r Hg Hfd _ _.
  destruct r as [fd|e]; [|by apply wp_send_fds]. do 2 wp_step.
  pose proof (write_at_fds _ _ _ _ _ _ _ Ew Hfd) as Hfd'. destruct a as [n [e|]]; [|by apply wp_send_fds].
  wp_step. apply wp_fds_evict_ok; [done|]. intros. by apply wp_send_fds.
Qed.

Lemma read_fds c req ca s : fds_ok s → wp (read c req ca) (λ _, fds_ok) s.
Proof.
  intros Hi. unfold read. destruct (sandboxPath _ _) as [spath|]; [|by apply wp_send_fds].
  wp_step. apply wp_fds_get_ok; [done|]. intros w fc r Hg Hfd _ _. unfold read_reply, panic.
  repeat first [done | wp_step | by apply wp_send_fds].
Qed.

Lemma hash_fds c req ca s : fds_ok s → wp (hash c req ca) (λ _, fds_ok) s.
Proof.
  intros Hi. unfold hash. destruct (sandboxPath _ _) as [spath|]; [|by apply wp_send_fds].
  wp_step. apply (wp_mono _ (λ _, fds_ok)).
  2: { intros u s' Hs. apply wp_fds_evict_ok; done. }
  unfold hash_body. wp_step. apply wp_fds_get_ok; [done|]. intros w fc r Hg Hfd _ _.
  destruct r as [fd|e]; [|by apply wp_send_fds]. do 2 wp_step.
  assert (fd_inv w0 fc) as Hfd0 by (eapply fd_inv_quiet; [done|by eapply seek_quiet]).
  destruct a as [e|]; [by apply wp_send_fds|]. do 2 wp_step.
  assert (fd_inv w1 fc) as Hfd1 by (eapply fd_inv_quiet; [done|by eapply rest_quiet]).
  destruct a as [d|e]; by apply wp_send_fds.
Qed.

Lemma stat_fds c req ca s : fds_ok s → wp (stat c req ca) (λ _, fds_ok) s.
Proof. intros Hi. unfold stat. repeat first [wp_step | by apply wp_send_fds]. Qed.

Lemma readDir_fds c req ca s : fds_ok s → wp (readDir c req ca) (λ _, fds_ok) s.
Proof. intros Hi. unfold readDir. repeat first [wp_step | by apply wp_send_fds]. Qed.

Lemma process_fds wm s : fds_ok s → wp (process wm) (λ _, fds_ok) s.
Proof.
  intros Hi. unfold process.
  assert (∀ ca, wp (dispatch wm ca) (λ _, fds_ok) s) as Hd.
  { intros ca. unfold dispatch. destruct (wm_msg wm); try done;
      [by apply create_fds|by apply write_fds|by apply read_fds|by apply stat_fds
      |by apply readDir_fds|by apply hash_fds]. }
  destruct (wm_msg wm); try (do 2 wp_step; wp_step; [wp_step; [done|]|]; done).
  eapply wp_mono; [apply handleAuth_spec|]. intros u s' (? & ? & ? & ? & _ & Ha).
  unfold fds_ok. rewrite (ad_fds _ _ _ _ _ _ _ Ha). eapply fd_inv_quiet; [exact Hi|]. by eapply ad_quiet.
Qed.

End Fds.

(** ** Sessions and authenticated connections *)

Section AuthInv.
  Context `{Cbor, GoFmt, OS, SSH, UserDB, Gzip, SecretBox, Rand} {LAWS : OSLaws}.

(** Neither a session nor the context of a connection changes. *)
Definition neutral (s s' : srv) : Prop :=
  s_sessions s' = s_sessions s ∧ ∀ d, c_ctx (conn_at s' d) = c_ctx (conn_at s d).

Lemma neutral_upd c f s : (∀ cn, c_ctx (f cn) = c_ctx cn) → neutral s (upd_conn c f s).
Proof. intros Hf. split; [done|]. intros d. rewrite conn_at_upd. case_decide; [subst; apply Hf|done]. Qed.

Lemma neutral_trans s1 s2 s3 : neutral s1 s2 → neutral s2 s3 → neutral s1 s3.
Proof. intros [Ha Hb] [Hc Hd]. split; [congruence|]. intros d. by rewrite Hd, Hb. Qed.

Lemma wp_send_neutral c r p s s1 : neutral s s1 → wp (send c r p) (λ _, neutral s) s1.
Proof.
  intros Hn. eapply neutral_trans; [exact Hn|]. apply neutral_upd. intros cn. by rewrite WriteMessage_conn.
Qed.

Lemma hash_neutral c req ca s : wp (hash c req ca) (λ _, neutral s) s.
Proof.
  unfold hash, hash_body. wp_step; [|by apply wp_send_neutral]. wp_step.
  apply (wp_mono _ (λ _, neutral s)).
  - repeat first [wp_step | apply wp_send_neutral; by split].
  - intros u s' Hn. wp_step. exact Hn.
Qed.

Lemma dispatch_neutral wm ca s : wp (dispatch wm ca) (λ _, neutral s) s.
Proof.
  unfold dispatch. destruct (wm_msg wm); try done; try apply hash_neutral;
    unfold create, create_new, write, read, read_reply, stat, readDir, panic;
    repeat first [wp_step | done | apply wp_send_neutral; by split].
Qed.

Lemma reject_neutral c t id s : wp (rejectUnauthenticated c t id) (λ _, neutral s) s.
Proof.
  unfold rejectUnauthenticated. cbv zeta. wp_step. eapply wp_mono; [by apply wp_send_neutral|].
  intros u s' Hn. unfold conn_Close. wp_step. eapply neutral_trans; [exact Hn|]. by apply neutral_upd.
Qed.

Lemma process_neutral wm s : msg_Type (wm_msg wm) ≠ AuthReqT → wp (process wm) (λ _, neutral s) s.
Proof.
  intros Ht. unfold process.
  destruct (wm_msg wm); try done; do 2 wp_step; wp_step; try apply reject_neutral;
    (wp_step; [apply dispatch_neutral|apply reject_neutral]).
Qed.

Lemma OnTraffic_iter_neutral c s : neutral s (exec (OnTraffic_iter c) s).
Proof.
  unfold exec, OnTraffic_iter. destruct (ReadMessage _) as [r [[m p]|e]]; cbn [snd].
  - by apply (neutral_upd c (set_in r) s).
  - by apply neutral_upd.
Qed.

Section Run.
  Context (n : nat) (w0 : world) (t0 : Z).

(** Some state of this run has a connection with a challenge of this server
    outstanding and a worker about to handle a request, on that connection, whose
    signature of the challenge verifies under a key that the user's
    [authorized_keys] holds. *)
Definition proven (user home : string) (key : option (list byte)) : Prop :=
  ∃ s1 c req payload challenge pk k,
    reachable n w0 t0 s1
    ∧ {| wm_msg := MAuthReq req; wm_payload := payload; wm_conn := c |} ∈ s_busy s1
    ∧ pending (c_ctx (conn_at s1 c)) = Some challenge ∧ rand_bytes k challengeLen = Ok challenge
    ∧ verifySSHSignature (AuthReq.PubKey req) challenge (AuthReq.Signature req) = Ok pk
    ∧ key_of_home (s_world s1) (ssh_Marshal pk) home
    ∧ (AuthReq.User req ≠ "" → user = AuthReq.User req)
    ∧ key = deriveEncryptionKey pk.

(** What the context of a connection guarantees. *)
Definition ctx_inv (ca : connAuth) : Prop :=
  match ca_state ca with
  | authOK => proven (ca_user ca) (ca_home ca) (ca_encryptionKey ca)
  | authPending => ∃ k ch, ca_challenge ca = Some ch ∧ rand_bytes k challengeLen = Ok ch
  | authNew => False
  end.

Record auth_inv (s : srv) : Prop := {
  ai_sessions t i : s_sessions s !! t = Some i → proven (User i) (Home i) (EncryptionKey i);
  ai_conns c ca : c_ctx (conn_at s c) = Some ca → ctx_inv ca;
}.

Lemma auth_inv_neutral s s' : auth_inv s → neutral s s' → auth_inv s'.
Proof.
  intros [Hs Hc] [Ha Hb]. split.
  - intros t i. rewrite Ha. apply Hs.
  - intros c ca. rewrite Hb. apply Hc.
Qed.

Lemma pending_rand ctx ch : (∀ ca, ctx = Some ca → ctx_inv ca) → pending ctx = Some ch →
  ∃ k, rand_bytes k challengeLen = Ok ch.
Proof.
  destruct ctx as [ca|]; [|done]. simpl. intros Hc. specialize (Hc ca eq_refl). unfold ctx_inv in Hc.
  case_bool_decide as Hp; [|done]. rewrite Hp in Hc. destruct Hc as (k & ch' & Hch & Hk). intros ?.
  exists k. congruence.
Qed.

(** A rule of the protocol applied in a reachable state keeps the invariant. *)
Lemma auth_rule_inv s c req payload k ctx ss r cl s1 :
  reachable n w0 t0 s1 → s_world s1 = s_world s → (∀ d, conn_at s1 d = conn_at s d) →
  {| wm_msg := MAuthReq req; wm_payload := payload; wm_conn := c |} ∈ s_busy s1 →
  auth_inv s → auth_rule (s_world s) k req (c_ctx (conn_at s c)) (s_sessions s) ctx ss r cl →
  (∀ t i, ss !! t = Some i → proven (User i) (Home i) (EncryptionKey i))
  ∧ (∀ ca, ctx = Some ca → ctx_inv ca).
Proof.
  intros Hr Hw Hcn Hb [Hs Hc] Ha. pose proof (Hc c) as Hcc. destruct Ha; try by auto.
  - split; [done|]. intros ca [= <-]. unfold ctx_inv. simpl. by eapply Hs.
  - edestruct pending_rand as [k' Hk']; [exact Hcc|eassumption|].
    assert (proven user home key) as Hp.
    { exists s1, c, req, payload, challenge, pk, k'. rewrite Hw, Hcn.
      destruct (findUserByPubKey pk (AuthReq.User req) (s_world s)) as [w' r'] eqn:Hf. simpl in *. subst r'.
      destruct (findUser_sound _ _ _ _ _ _ Hf). by split_and!. }
    split; [|by intros ca [= <-]]. intros t i. rewrite sessions_lookup_insert.
    case_decide; [|apply Hs]. by intros [= <-].
  - split; [done|]. intros ca [= <-]. by exists k, challenge.
Qed.

Record srv_inv (s : srv) : Prop := {
  si_fds : fds_ok s;
  si_auth : auth_inv s;
}.

Lemma srv_inv_new : (∀ f, handle w0 f = None) → srv_inv (newServer n w0 t0).
Proof.
  intros Hw. split; [by apply fd_inv_new|]. split; [done|]. done.
Qed.

Lemma srv_inv_neutral s s' : srv_inv s → neutral s s' → fds_ok s' → srv_inv s'.
Proof. intros [_ Ha] Hn Hf. split; [done|]. by eapply auth_inv_neutral. Qed.

Lemma work_inv s wm b1 b2 : reachable n w0 t0 s → srv_inv s → s_busy s = b1 ++ wm :: b2 →
  srv_inv (exec (process wm) (set_queue (s_queue s) (b1 ++ b2) s)).
Proof.
  intros Hr [Hf Ha] Hb. set (s1 := set_queue (s_queue s) (b1 ++ b2) s).
  assert (wm ∈ s_busy s) as Hwm by (rewrite Hb; set_solver).
  pose proof (process_fds wm s1 Hf) as Hf'. destruct wm as [m payload c].
  destruct (decide (msg_Type m = AuthReqT)) as [Ht|Ht].
  - destruct m; try done. split; [exact Hf'|].
    destruct (handleAuth_spec c m s1) as (ctx & ss & r & cl & Hrule & Hd).
    assert (∀ d, conn_at s1 d = conn_at s d) as Hcn by done.
    destruct (auth_rule_inv s c m payload (s_draws s) ctx ss r cl s Hr) as [Hs Hc]; try done.
    unfold process. cbn [wm_msg wm_conn]. split.
    + intros t i. rewrite (ad_sessions _ _ _ _ _ _ _ Hd). apply Hs.
    + intros d ca. destruct (decide (d = c)) as [->|Hne].
      * rewrite (ad_ctx _ _ _ _ _ _ _ Hd). apply Hc.
      * rewrite (ad_others _ _ _ _ _ _ _ Hd) by done. rewrite Hcn. apply (ai_conns _ Ha).
  - apply (srv_inv_neutral s); [by split| |exact Hf'].
    pose proof (process_neutral {| wm_msg := m; wm_payload := payload; wm_conn := c |} s1 Ht) as Hn. exact Hn.
Qed.

Lemma step_inv s s' : reachable n w0 t0 s → srv_inv s → step s s' → srv_inv s'.
Proof.
  intros Hr Hi Hst. pose proof (si_fds _ Hi) as Hf. destruct Hst as [c Hp Hc|c cn d Hp Hc|c cn s' a Hp Hc ? ? Ht|
    wm q Hp Hq|wm b1 b2 Hp Hb|Hp|t Hp|c cn Hp Hc|Hp].
  - eapply srv_inv_neutral; [done| |done]. split; [done|]. intros d. unfold conn_at, set_conns. simpl.
    rewrite lookup_insert. case_decide; [subst; by rewrite Hc|done].
  - eapply srv_inv_neutral; [done| |done]. by apply neutral_upd.
  - assert (exec (OnTraffic_iter c) s = s') as <- by (unfold exec; by rewrite Ht).
    pose proof (OnTraffic_iter_neutral c s) as Hn.
    assert (fds_ok (exec (OnTraffic_iter c) s)) as Hf'.
    { unfold fds_ok, exec, OnTraffic_iter. by destruct (ReadMessage _) as [r [[]|]]. }
    eapply srv_inv_neutral; [done| |by destruct a as [[]|]].
    destruct a as [[]|]; try done. eapply neutral_trans; [done|]. by apply neutral_upd.
  - by eapply srv_inv_neutral.
  - by apply work_inv.
  - eapply srv_inv_neutral; [done|done|]. unfold fds_ok. simpl.
    destruct (sweep _ _ _) as [w fc] eqn:Hs. by destruct (sweep_correct _ _ _ _ _ Hf Hs).
  - by eapply srv_inv_neutral.
  - eapply srv_inv_neutral; [done| |done]. by apply neutral_upd.
  - eapply srv_inv_neutral; [done|done|]. unfold fds_ok. simpl. pose proof (close_correct _ _ Hf) as Hc.
    apply Hc.
Qed.

(** The invariants of every reachable state. *)
Lemma reachable_inv s : (∀ f, handle w0 f = None) → reachable n w0 t0 s → srv_inv s.
Proof.
  intros Hw Hr. revert Hr. apply (rtc_ind_r (λ s, srv_inv s)); [by apply srv_inv_new|].
  intros s1 s2 Hr Hs IH. by eapply step_inv.
Qed.

End Run.

End AuthInv.
