(* ===== verification/ServerData.v ===== *)
(** What the file handlers of the server do to file contents: the functional
    postconditions of [write], [read], [create] and [hash], up to the laws of the
    operating system.  The properties of ServerSpec.v are read off them. *)
From S2P Require Import Prelude Message GoStd GoHash OS Chunk Auth FdCache Server Hoare ServerStep ServerInv.
From Stdlib Require Import Strings.Byte.

Section Data.
  Context `{Cbor, GoFmt, OS, SSH, UserDB, Gzip, SecretBox, Rand} {LAWS : OSLaws}.

(** The one message [r] with payload [p] was sent on [c]. *)
Definition answered (c : conn_id) (r : MSG) (p : list byte) : srv → srv → Prop :=
  replied c (λ m q, m = r ∧ q = p).

Lemma wp_answer c r p s s1 (Q : () → srv → Prop) : io_only s s1 →
  (∀ s', answered c r p s s' → s_world s' = s_world s1 → s_fds s' = s_fds s1 → Q () s') →
  wp (send c r p) Q s1.
Proof. intros Hio HQ. apply HQ; [by exists r, p, s1|done|done]. Qed.

(** It is the last message logged for [c]. *)
Lemma answered_last c r p s s' : answered c r p s s' → c_closed (conn_at s c) = false →
  last (c_sent (conn_at s' c)) = Some (r, p).
Proof. intros Ha Hc. destruct (replied_sent _ _ _ _ Ha Hc) as (r' & p' & [-> ->] & ->). by rewrite last_snoc. Qed.

(** ** [write] *)

(** [data] written at [off] of inode [i], everything else as before. *)
Definition written (data : list byte) (off : Z) (i : nat) (w w' : world) : Prop :=
  (∀ q, at_path w' q = at_path w q) ∧ (∀ j, j ≠ i → idata w' j = idata w j)
  ∧ (data = [] → idata w' i = idata w i)
  ∧ (data ≠ [] → 0 <= off ∧ ∃ old, idata w i = Some old ∧ idata w' i = Some (write_at old data (Z.to_nat off))).

Lemma write_law_written f d off w w' n i : f_WriteAt f d off w = (w', (n, None)) →
  fst <$> handle w f = Some i → n = zlen d ∧ written d off i w w'.
Proof.
  intros Hw Hh. destruct (write_law _ _ _ _ _ _ _ Hw) as (_ & Hp & _ & Hok).
  destruct (Hok eq_refl) as (-> & Hnil & Hne). split; [done|].
  destruct (decide (d = [])) as [->|Hd].
  - specialize (Hnil eq_refl). by split_and!.
  - destruct (Hne Hd) as (Ho & k & old & Hk & Hold & Hnew & Hj). rewrite Hk in Hh.
    simpl in Hh. injection Hh as ->. split_and!; try done. intros _. split; [done|]. by exists old.
Qed.

Definition write_post (req : WriteReq.t) (payload : list byte) (ca : connAuth) (w w' : world)
    (r : WriteRes.t) : Prop :=
  WriteRes.ID r = WriteReq.ID req
  ∧ (∀ e, write_payload req payload ca = Err e →
       WriteRes.Success r = false ∧ WriteRes.Error r = error_text e ∧ w' = w)
  ∧ (WriteRes.Success r = true → ∃ data spath i,
       write_payload req payload ca = Ok data ∧ sandboxPath (Some ca) (WriteReq.Path req) = Ok spath
       ∧ at_path w spath = Some i ∧ WriteRes.N r = i32 (zlen data)
       ∧ written data (WriteReq.Offset req) i w w').

Lemma written_same data off i w w1 w' : same_files w w1 → written data off i w1 w' → written data off i w w'.
Proof.
  intros [Hd Hp] (A & B & C & D). split_and!.
  - intros q. by rewrite A, Hp.
  - intros j Hj. by rewrite B, Hd.
  - intros Hn. by rewrite C, Hd.
  - intros Hn. destruct (D Hn) as (? & old & ? & ?). split; [done|]. exists old. by rewrite <- Hd.
Qed.

Lemma writeFailed_post c req payload ca data e s s1 : io_only s s1 →
  write_payload req payload ca = Ok data →
  wp (writeFailed c req e)
     (λ _ s', ∃ r, answered c (MWriteRes r) [] s s' ∧ write_post req payload ca (s_world s) (s_world s') r) s1.
Proof.
  intros Hio Hpl. unfold writeFailed. apply (wp_answer _ _ _ s); [done|]. intros s' Ha _ _.
  eexists. split; [exact Ha|]. unfold write_post. rewrite Hpl. by split_and!.
Qed.

Lemma write_data c req payload ca s : fds_ok s →
  wp (write c req payload ca)
     (λ _ s', ∃ r, answered c (MWriteRes r) [] s s' ∧ write_post req payload ca (s_world s) (s_world s') r) s.
Proof.
  intros Hi. unfold write. destruct (write_payload req payload ca) as [data|e] eqn:Hpl.
  2: { unfold writeFailed. apply (wp_answer _ _ _ s); [done|]. intros s' Ha -> _. eexists. split; [exact Ha|].
       unfold write_post. rewrite Hpl. split_and!; try done. by intros e' [= ->]. }
  pose proof (λ e s1 H, writeFailed_post c req payload ca data e s s1 H Hpl) as Hfail.
  destruct (sandboxPath _ _) as [spath|e] eqn:Hsb; [|by apply Hfail].
  wp_step. apply wp_fds_get_ok; [done|]. intros w fc r Hg Hfd Hpost Hsame.
  destruct r as [fd|e]; [|by apply Hfail]. do 2 wp_step.
  destruct a as [n [e|]]; [do 2 wp_step; by apply Hfail|].
  destruct Hpost as (en & i & _ & _ & Hh & _ & Hat).
  destruct (write_law_written _ _ _ _ _ _ i Ew) as [-> Hwr]; [by simpl; rewrite Hh|].
  apply (wp_answer _ _ _ s); [by split|]. intros s' Ha -> _. eexists. split; [exact Ha|].
  split_and!; [done|by rewrite Hpl|]. intros _. exists data, spath, i. split_and!; try done.
  - by rewrite <- (sf_path _ _ Hsame).
  - by eapply written_same.
Qed.

(** Whatever the answer: names stay, and of the file at the path some part of the write
    may have happened. *)
Definition write_effect (data : list byte) (off : Z) (spath : string) (w w' : world) : Prop :=
  (∀ q, at_path w' q = at_path w q)
  ∧ ∀ i, at_path w spath = Some i → idata w' i = idata w i
      ∨ 0 <= off ∧ ∃ old k, idata w i = Some old ∧ idata w' i = Some (write_at old (take k data) (Z.to_nat off)).

Lemma write_effect_same data off spath w w' : same_files w w' → write_effect data off spath w w'.
Proof. intros [Hd Hp]. split; [done|]. intros i _. by left. Qed.

Lemma write_partly c req payload ca data spath s : fds_ok s →
  write_payload req payload ca = Ok data → sandboxPath (Some ca) (WriteReq.Path req) = Ok spath →
  wp (write c req payload ca)
     (λ _ s', write_effect data (WriteReq.Offset req) spath (s_world s) (s_world s')) s.
Proof.
  intros Hi Hpl Hsb. unfold write. rewrite Hpl, Hsb.
  wp_step. apply wp_fds_get_ok; [done|]. intros w fc r Hg Hfd Hpost Hsame.
  destruct r as [fd|e]; [|by apply write_effect_same]. do 2 wp_step.
  destruct Hpost as (en & i & _ & _ & Hh & _ & Hat). destruct a as [n e].
  assert (write_effect data (WriteReq.Offset req) spath (s_world s) w0) as Hw.
  { simpl in Ew. destruct (write_law _ _ _ _ _ _ _ Ew) as (_ & Hp & _).
    split; [intros q; by rewrite Hp, (sf_path _ _ Hsame)|]. intros k Hk.
    rewrite <- (sf_path _ _ Hsame), Hat in Hk. injection Hk as <-. rewrite <- (sf_data _ _ Hsame).
    by apply (write_partial _ _ _ _ _ _ _ _ _ Ew Hh). }
  destruct e as [e|]; [|exact Hw]. wp_step. apply wp_fds_evict_ok.
  - simpl. by eapply write_at_fds.
  - intros w1 fc1 _ [Hd1 Hp1]. destruct Hw as [Hq Hwi]. split; simpl.
    + intros q. by rewrite Hp1, Hq.
    + intros k Hk. rewrite Hd1. by apply Hwi.
Qed.

(** ** [read] *)

(** No read of the system stops in the middle of a file: the bytes it gives are all that
    was asked for, or all up to the end. *)
Definition reads_whole : Prop := ∀ f n off w d e, f_ReadAt f n off w = (d, e) → d ≠ [] →
  e = None ∨ e = Some io_EOF.

(** The bytes a read at [off] of up to [size] bytes may give: the ones the file has there. *)
Definition read_bytes (w : world) (spath : string) (off size : Z) (data : list byte) : Prop :=
  zlen data <= Z.max 0 size ∧ (0 < size → data ≠ [])
  ∧ ∃ i, at_path w spath = Some i
      ∧ (data ≠ [] → 0 <= off ∧ ∃ old, idata w i = Some old ∧ data `prefix_of` drop (Z.to_nat off) old
           ∧ (reads_whole → data = take (Z.to_nat size) (drop (Z.to_nat off) old))).

(** What a whole read gives of bytes just written there is those bytes. *)
Lemma written_read data off i w w' spath got : reads_whole → data ≠ [] → at_path w spath = Some i →
  written data off i w w' → read_bytes w' spath off (zlen data) got → got = data.
Proof.
  intros Hwhole Hne Hat (Hq & _ & _ & Hw) (_ & Hgne & k & Hk & Hgot).
  destruct (Hw Hne) as (_ & old0 & _ & Hnew). rewrite Hq, Hat in Hk. injection Hk as <-.
  destruct (Hgot (Hgne ltac:(destruct data; [done|unfold zlen; simpl; lia]))) as (_ & old & Hold & _ & ->); [|done].
  rewrite Hnew in Hold. injection Hold as <-. unfold zlen. rewrite Nat2Z.id. apply take_drop_write_at.
Qed.

(** A read that ends at what was asked for or at the end of the file. *)
Lemma whole_prefix (data rest : list byte) size :
  zlen data <= Z.max 0 size → zlen data = Z.max 0 size ∨ rest = [] →
  data = take (Z.to_nat size) (data ++ rest).
Proof.
  unfold zlen. intros Hle [Heq| ->].
  - rewrite take_app_le by lia. rewrite take_ge; [done|lia].
  - rewrite app_nil_r, take_ge; [done|lia].
Qed.

Definition read_post `{!GzipOk, !SecretBoxOk} (req : ReadReq.t) (ca : connAuth) (w w' : world)
    (r : ReadRes.t) (p : list byte) : Prop :=
  ReadRes.ID r = ReadReq.ID req ∧ same_files w w'
  ∧ (ReadRes.Success r = true → ∃ data spath,
       sandboxPath (Some ca) (ReadReq.Path req) = Ok spath
       ∧ read_bytes w spath (ReadReq.Offset req) (ReadReq.Size req) data
       ∧ ReadRes.N r = zlen p ∧ ReadRes.Checksum r = ChecksumIEEE p ∧ zlen p <= zlen data + 40
       ∧ (∀ off, download_payload r p (ca_encryptionKey ca) off = Ok data)).

Lemma readFailed_post `{!GzipOk, !SecretBoxOk} c req ca e s s1 : io_only s s1 →
  same_files (s_world s) (s_world s1) →
  wp (readFailed c req e)
     (λ _ s', ∃ r p, answered c (MReadRes r) p s s' ∧ read_post req ca (s_world s) (s_world s') r p) s1.
Proof.
  intros Hio Hs. unfold readFailed. apply (wp_answer _ _ _ s); [done|]. intros s' Ha -> _.
  eexists _, _. split; [exact Ha|]. by split_and!.
Qed.

Lemma read_reply_post `{!GzipOk, !SecretBoxOk, !RandOk} c req ca data spath size s s1 : io_only s s1 →
  same_files (s_world s) (s_world s1) →
  sandboxPath (Some ca) (ReadReq.Path req) = Ok spath →
  read_bytes (s_world s) spath (ReadReq.Offset req) (ReadReq.Size req) data →
  wp (read_reply c req data ca size)
     (λ _ s', ∃ r p, answered c (MReadRes r) p s s' ∧ read_post req ca (s_world s) (s_world s') r p) s1.
Proof.
  intros Hio Hs Hsb Hrd. unfold read_reply, readSuccess.
  destruct (compressChunk data _) as [[z a]|e] eqn:Hz; [|by apply readFailed_post].
  destruct (decompress_compress _ _ _ _ Hz) as (Hdz & Hlen & _).
  destruct (ReadReq.Encryption req =? EncryptionSecretBox).
  2: { apply (wp_answer _ _ _ s); [done|]. intros s' Ha -> _. eexists _, _. split; [exact Ha|].
       split_and!; try done. intros _. exists data, spath. split_and!; try done; [lia|].
       intros off. unfold download_payload. simpl. by rewrite Hdz. }
  do 2 wp_step. destruct (encryptChunk _ z _) as [out|e] eqn:He.
  2: { apply readFailed_post; [by etrans|done]. }
  destruct (decrypt_encrypt _ _ _ _ He) as [Hdec Hol]; [intros nn; apply rand_length|].
  apply (wp_answer _ _ _ s); [by etrans|]. intros s' Ha -> _. eexists _, _. split; [exact Ha|].
  split_and!; try done. intros _. exists data, spath. split_and!; try done.
  - rewrite Hol. destruct (_ || _); lia.
  - intros off. unfold download_payload. simpl. rewrite Hdec. simpl. by rewrite Hdz.
Qed.

Lemma read_data `{!GzipOk, !SecretBoxOk, !RandOk} c req ca s : fds_ok s → make_ok (ReadReq.Size req) = true →
  wp (read c req ca)
     (λ _ s', ∃ r p, answered c (MReadRes r) p s s' ∧ read_post req ca (s_world s) (s_world s') r p) s.
Proof.
  intros Hi Hm. unfold read. rewrite Hm. cbn [negb].
  destruct (sandboxPath _ _) as [spath|e] eqn:Hsb; [|by apply readFailed_post].
  wp_step. apply wp_fds_get_ok; [done|]. intros w fc r Hg Hfd Hpost Hsame.
  destruct r as [fd|e]; [|by apply readFailed_post]. do 2 wp_step.
  simpl s_world. destruct (f_Stat fd w) as [info|e]; [|by apply readFailed_post]. do 2 wp_step.
  simpl s_world. destruct (f_ReadAt fd _ _ w) as [data er] eqn:Hr.
  destruct Hpost as (en & i & _ & _ & Hh & _ & Hat).
  assert (data ≠ [] ∨ er = None →
    read_bytes (s_world s) spath (ReadReq.Offset req) (ReadReq.Size req) data) as Hrb.
  { intros Hgot. destruct (read_law _ _ _ _ _ _ Hr) as (Hle & Hfull & Hd). split; [done|].
    split. { intros Hs ->. destruct Hgot as [|He]; [done|]. specialize (Hfull He). unfold zlen in Hfull. simpl in Hfull. lia. }
    exists i. split; [by rewrite <- (sf_path _ _ Hsame)|]. intros Hne.
    destruct (Hd Hne) as (Ho & k & wr & old & Hk & Hold & [rest Hpre] & Heof). split; [done|]. exists old.
    rewrite Hh in Hk. injection Hk as <- <-. rewrite <- (sf_data _ _ Hsame). split_and!; [done|by exists rest|].
    intros Hwhole. rewrite Hpre. apply whole_prefix; [done|].
    destruct (Hwhole _ _ _ _ _ _ Hr Hne) as [He|He]; [left; by apply Hfull|right].
    specialize (Heof He). rewrite Heof in Hpre at 1. apply (f_equal length) in Hpre.
    rewrite length_app in Hpre. rewrite <- Heof in Hpre. destruct rest; [done|simpl in Hpre; lia]. }
  destruct data as [|b data]; [destruct er as [e|]; [by apply readFailed_post|]|];
    (eapply read_reply_post; [done|done|done|apply Hrb; by auto]).
Qed.

(** ** [hash] *)

Definition hash_post (req : HashReq.t) (ca : option connAuth) (w w' : world) (r : HashRes.t) : Prop :=
  HashRes.ID r = HashReq.ID req ∧ same_files w w'
  ∧ (HashRes.Success r = true → ∃ spath i d, sandboxPath ca (HashReq.Path req) = Ok spath
       ∧ at_path w spath = Some i ∧ idata w i = Some d ∧ HashRes.Hash r = Sum256 d).

Lemma hashFailed_post c req ca e s s1 : io_only s s1 → same_files (s_world s) (s_world s1) →
  wp (hashFailed c req e)
     (λ _ s', ∃ r, answered c (MHashRes r) [] s s' ∧ fds_ok s' = fds_ok s1
        ∧ hash_post req ca (s_world s) (s_world s') r) s1.
Proof.
  intros Hio Hs. unfold hashFailed. apply (wp_answer _ _ _ s); [done|]. intros s' Ha Hw Hf.
  eexists. unfold fds_ok. rewrite Hw, Hf. split; [exact Ha|]. by split_and!.
Qed.

Lemma hash_body_data c req ca spath s : fds_ok s → sandboxPath ca (HashReq.Path req) = Ok spath →
  wp (hash_body c req spath)
     (λ _ s', fds_ok s' ∧ ∃ r, answered c (MHashRes r) [] s s' ∧ hash_post req ca (s_world s) (s_world s') r) s.
Proof.
  intros Hi Hsb. unfold hash_body.
  assert (∀ e s1, io_only s s1 → fds_ok s1 → same_files (s_world s) (s_world s1) →
    wp (hashFailed c req e) (λ _ s', fds_ok s' ∧ ∃ r, answered c (MHashRes r) [] s s'
      ∧ hash_post req ca (s_world s) (s_world s') r) s1) as Hfail.
  { intros e s1 Hio Hok Hs. eapply wp_mono; [by apply (hashFailed_post c req ca e s)|].
    intros u s' (r & Ha & Hf & Hp). rewrite Hf. eauto. }
  wp_step. apply wp_fds_get_ok; [done|]. intros w fc r Hg Hfd Hpost Hsame.
  destruct r as [fd|e]; [|by apply Hfail]. do 2 wp_step.
  assert (fd_inv w0 fc) as Hfd0 by (eapply fd_inv_quiet; [done|by eapply seek_quiet]).
  assert (same_files (s_world s) w0) as Hs0 by (etrans; [done|by eapply seek_same]).
  destruct a as [e|]; [by apply Hfail|]. do 2 wp_step.
  assert (fd_inv w1 fc) as Hfd1 by (eapply fd_inv_quiet; [done|by eapply rest_quiet]).
  assert (same_files (s_world s) w1) as Hs1 by (etrans; [done|by eapply rest_same]).
  destruct a as [d|e]; [|by apply Hfail].
  destruct Hpost as (en & i & _ & _ & Hh & _ & Hat).
  simpl in Ew, Ew0. destruct (seek_law _ _ _ _ Ew) as (Hsh & _ & _ & Hoff). destruct (rest_law _ _ _ _ Ew0) as (_ & _ & _ & Hrest).
  destruct (Hrest d eq_refl) as (k & wr & old & Hk & Hold & ->).
  rewrite Hsh, Hh in Hk. injection Hk as <- <-. rewrite (Hoff eq_refl), drop_0.
  apply (wp_answer _ _ _ s); [by split|]. intros s' Ha Hw' Hf'. unfold fds_ok. rewrite Hw', Hf'.
  split; [done|]. eexists. split; [exact Ha|]. split_and!; try done. intros _. exists spath, i, old.
  split_and!; try done; [by rewrite <- (sf_path _ _ Hsame)|by rewrite <- (sf_data _ _ Hs0)].
Qed.

Lemma hash_data c req ca s : fds_ok s →
  wp (hash c req ca)
     (λ _ s', ∃ r, answered c (MHashRes r) [] s s' ∧ hash_post req ca (s_world s) (s_world s') r) s.
Proof.
  intros Hi. unfold hash. destruct (sandboxPath _ _) as [spath|e] eqn:Hsb.
  2: { eapply wp_mono; [by apply (hashFailed_post c req ca _ s)|]. intros u s' (r & Ha & _ & Hp). eauto. }
  wp_step. eapply wp_mono; [by apply (hash_body_data c req ca)|].
  intros u s1 (Hok & r & Ha & HID & Hs & Hp). apply wp_fds_evict_ok; [done|]. intros w fc _ Hs'.
  exists r. split; [by eapply replied_then|]. split_and!; [done|by etrans|done].
Qed.

(** ** [stat] *)

Lemma stat_data c req ca s :
  wp (stat c req ca) (λ _ s', s_world s' = s_world s ∧ s_fds s' = s_fds s
    ∧ ∃ r, answered c (MStatRes r) [] s s'
      ∧ (StatRes.Success r = true → ∃ spath info, sandboxPath ca (StatReq.Path req) = Ok spath
           ∧ os_Stat spath (s_world s) = Ok info ∧ StatRes.Size r = fi_Size info
           ∧ StatRes.Mode r = u32 (fi_Mode info) ∧ StatRes.IsDir r = fi_IsDir info)) s.
Proof.
  unfold stat. destruct (sandboxPath ca (StatReq.Path req)) as [spath|e] eqn:Hsb.
  - do 2 wp_step. destruct (os_Stat spath (s_world s)) as [info|e] eqn:Hst;
      (apply (wp_answer _ _ _ s); [done|]; intros s' Ha Hw Hf; split_and!; [done|done|]; eexists; split; [exact Ha|];
       simpl; intros; try done; by exists spath, info).
  - apply (wp_answer _ _ _ s); [done|]. intros s' Ha Hw Hf. split_and!; [done|done|]. eexists. split; [exact Ha|done].
Qed.

(** ** [readDir] *)

Lemma readDir_data c req ca s :
  wp (readDir c req ca) (λ _ s', s_world s' = s_world s ∧ s_fds s' = s_fds s
    ∧ ∃ r, answered c (MReadDirRes r) [] s s'
      ∧ (ReadDirRes.Success r = true → ∃ spath entries, sandboxPath ca (ReadDirReq.Path req) = Ok spath
           ∧ os_ReadDir spath (s_world s) = Ok entries ∧ ReadDirRes.Entries r = dir_entry <$> entries)) s.
Proof.
  unfold readDir. destruct (sandboxPath ca (ReadDirReq.Path req)) as [spath|e] eqn:Hsb.
  - do 2 wp_step. destruct (os_ReadDir spath (s_world s)) as [es|e] eqn:Hst;
      (apply (wp_answer _ _ _ s); [done|]; intros s' Ha Hw Hf; split_and!; [done|done|]; eexists; split; [exact Ha|];
       simpl; intros; try done; by exists spath, es).
  - apply (wp_answer _ _ _ s); [done|]. intros s' Ha Hw Hf. split_and!; [done|done|]. eexists. split; [exact Ha|done].
Qed.

(** ** [create] *)

Definition create_size (req : CreateReq.t) : nat := Z.to_nat (CreateReq.Size req).

(** A new file under [spath], of zeros and of the size asked for. *)
Definition created (spath : string) (size : nat) (w w' : world) : Prop :=
  at_path w spath = None
  ∧ ∃ i, at_path w' spath = Some i ∧ idata w' i = Some (replicate size x00).

(** What is under [spath] was there already; no contents changed. *)
Definition kept_there (spath : string) (w w' : world) : Prop :=
  (∃ i, at_path w spath = Some i ∧ at_path w' spath = Some i) ∧ ∀ i, idata w' i = idata w i.

Definition data_kept (w w' : world) : Prop := ∀ j d, idata w j = Some d → idata w' j = Some d.

Definition create_post (req : CreateReq.t) (ca : option connAuth) (w w' : world) (r : CreateRes.t) : Prop :=
  CreateRes.ID r = CreateReq.ID req ∧ data_kept w w'
  ∧ (CreateRes.Success r = true → CreateReq.IsDir req = false → ∃ spath,
       sandboxPath ca (CreateReq.Path req) = Ok spath
       ∧ (kept_there spath w w' ∨ created spath (create_size req) w w')).

Lemma createFailed_post c req ca e s s1 : io_only s s1 → data_kept (s_world s) (s_world s1) →
  wp (createFailed c req e)
     (λ _ s', ∃ r, answered c (MCreateRes r) [] s s' ∧ create_post req ca (s_world s) (s_world s') r) s1.
Proof.
  intros Hio Hk. unfold createFailed. apply (wp_answer _ _ _ s); [done|]. intros s' Ha -> _.
  eexists. split; [exact Ha|]. by split_and!.
Qed.

Lemma createSuccess_post c req ca s s1 : io_only s s1 → data_kept (s_world s) (s_world s1) →
  (CreateReq.IsDir req = false → ∃ spath, sandboxPath ca (CreateReq.Path req) = Ok spath
     ∧ (kept_there spath (s_world s) (s_world s1)
        ∨ created spath (create_size req) (s_world s) (s_world s1))) →
  wp (createSuccess c req)
     (λ _ s', ∃ r, answered c (MCreateRes r) [] s s' ∧ create_post req ca (s_world s) (s_world s') r) s1.
Proof.
  intros Hio Hk Hp. unfold createSuccess. apply (wp_answer _ _ _ s); [done|]. intros s' Ha -> _.
  eexists. split; [exact Ha|]. by split_and!.
Qed.

(** Creating a file where there is none, and giving it its size. *)
Lemma create_new_post c req ca spath s s1 : io_only s s1 → quiet (s_world s) (s_world s1) →
  sandboxPath ca (CreateReq.Path req) = Ok spath → at_path (s_world s1) spath = None →
  wp (create_new c req spath)
     (λ _ s', ∃ r, answered c (MCreateRes r) [] s s' ∧ create_post req ca (s_world s) (s_world s') r) s1.
Proof.
  intros Hio Hq Hsb Hnone. unfold create_new. do 2 wp_step. destruct a as [fd|e].
  2: { apply createFailed_post; [by etrans|]. intros j d Hj. apply Hq in Hj. simpl.
       destruct (open_err _ _ _ _ _ _ Ew) as (_ & Hd & _). by rewrite Hd. }
  destruct (open_ok _ _ _ _ _ _ Ew) as (_ & _ & _ & i & Hh & Hat & _ & Hoth & [(Hs & _)|(_ & _ & Hfr & Hnew)]);
    [congruence|].
  assert (at_path (s_world s) spath = None) as Hn0.
  { destruct (at_path (s_world s) spath) as [k|] eqn:E; [|done]. apply Hq in E. congruence. }
  assert (∀ w2, (∀ j, j ≠ i → idata w2 j = idata w j) → data_kept (s_world s) w2) as Hkept.
  { intros w2 Hw2 j d Hj. apply (q_data _ _ Hq) in Hj. assert (j ≠ i) by congruence.
    rewrite Hw2, Hoth by done. done. }
  destruct (0 <? CreateReq.Size req) eqn:Hsz; zbool.
  - do 2 wp_step. destruct (truncate_law _ _ _ _ _ Ew0) as (_ & Hp & Hj & Hok). simpl in Hh.
    simpl in Hj. rewrite Hh in Hj. simpl in Hj.
    destruct a as [e|]; do 2 wp_step; destruct (close_law _ _ _ _ Ew1) as (_ & _ & Hcd & Hcp).
    + apply createFailed_post; [by etrans|]. apply Hkept. intros j Hne. simpl. rewrite Hcd. apply Hj. congruence.
    + destruct (Hok eq_refl) as (_ & k & old & Hk & Hold & Htr & _). simpl in *.
      rewrite Hh in Hk. injection Hk as <-. rewrite Hnew in Hold. injection Hold as <-.
      apply createSuccess_post; [by etrans| |].
      * apply Hkept. intros j Hne. simpl. rewrite Hcd. apply Hj. congruence.
      * intros _. exists spath. split; [done|]. right. split; [done|]. exists i. simpl.
        rewrite Hcp, Hp, Hcd, Htr. split; [done|]. unfold truncate_to, create_size.
        by rewrite take_nil, Nat.sub_0_r.
  - do 2 wp_step. destruct (close_law _ _ _ _ Ew0) as (_ & _ & Hcd & Hcp). simpl in *.
    apply createSuccess_post; [by etrans| |].
    + apply Hkept. intros j Hne. simpl. by rewrite Hcd.
    + intros _. exists spath. split; [done|]. right. split; [done|]. exists i. simpl.
      rewrite Hcp, Hcd, Hnew. split; [done|]. unfold create_size.
      by replace (Z.to_nat (CreateReq.Size req)) with 0%nat by lia.
Qed.

Lemma create_data c req ca s :
  wp (create c req ca)
     (λ _ s', ∃ r, answered c (MCreateRes r) [] s s' ∧ create_post req ca (s_world s) (s_world s') r) s.
Proof.
  unfold create. destruct (sandboxPath _ _) as [spath|e] eqn:Hsb; [|apply createFailed_post; [done|by intros ???]].
  destruct (CreateReq.IsDir req) eqn:Hdir; (do 2 wp_step; pose proof (mkdir_quiet _ _ _ _ _ Ew) as Hq;
    assert (data_kept (s_world s) w) as Hk by (intros j d; apply Hq));
    (destruct a as [e|]; [by apply createFailed_post|]).
  { apply createSuccess_post; [by split|done|]. by rewrite Hdir. }
  do 2 wp_step. simpl s_world. destruct (os_Stat spath w) as [info|e] eqn:Hst.
  - destruct (fi_IsDir info) eqn:Hid; [by apply createFailed_post|]. apply createSuccess_post; [by split|done|].
    intros _. exists spath. split; [done|]. left. destruct (mkdir_law _ _ _ _ _ Ew) as (_ & Hd & Hp & _). split; [|done].
    destruct (at_path (s_world s) spath) as [i|] eqn:Hat; [by exists i; split; [|apply Hp]|].
    by rewrite (mkdir_stat _ _ _ _ _ _ _ Ew Hat Hst) in Hid.
  - destruct (is_not_exist e) eqn:He; [|by apply createFailed_post]. cbn [negb].
    apply create_new_post; try done. by eapply stat_not_exist.
Qed.

End Data.

(** ** Which messages change files *)

Section Changes.
  Context `{Cbor, GoFmt, OS, SSH, UserDB, Gzip, SecretBox, Rand} {LAWS : OSLaws}.

Definition files_same (s s' : srv) : Prop := same_files (s_world s) (s_world s').

Lemma wp_send_files c r p s s1 : files_same s s1 → wp (send c r p) (λ _, files_same s) s1.
Proof. done. Qed.

Lemma read_files c req ca s : fds_ok s → wp (read c req ca) (λ _, files_same s) s.
Proof.
  intros Hi. unfold read. destruct (sandboxPath _ _) as [spath|e]; [|by apply wp_send_files].
  wp_step. apply wp_fds_get_ok; [done|]. intros w fc r _ _ _ Hs. unfold read_reply, panic.
  repeat first [done | wp_step | by apply wp_send_files].
Qed.

Lemma hash_files c req ca s : fds_ok s → wp (hash c req ca) (λ _, files_same s) s.
Proof.
  intros Hi. eapply wp_mono; [by apply hash_data|]. by intros u s' (r & _ & _ & Hs & _).
Qed.

(** A message that can change files. *)
Definition modifies (m : MSG) : bool :=
  match m with MCreateReq _ | MWriteReq _ => true | _ => false end.

Lemma dispatch_files wm ca s : fds_ok s → modifies (wm_msg wm) = false →
  wp (dispatch wm ca) (λ _, files_same s) s.
Proof.
  intros Hi Hm. unfold dispatch. destruct (wm_msg wm); try done.
  - by apply read_files.
  - unfold stat. repeat first [wp_step | by apply wp_send_files].
  - unfold readDir. repeat first [wp_step | by apply wp_send_files].
  - by apply hash_files.
Qed.

Lemma reject_world c t id s : wp (rejectUnauthenticated c t id) (λ _ s', s_world s' = s_world s) s.
Proof. done. Qed.

Lemma process_unauth_files wm s : fds_ok s →
  (∀ ca, c_ctx (conn_at s (wm_conn wm)) = Some ca → ca_state ca = authOK → modifies (wm_msg wm) = false) →
  wp (process wm) (λ _, files_same s) s.
Proof.
  intros Hi Hm. unfold process.
  destruct (wm_msg wm) eqn:Hmsg; try (
    do 2 wp_step; unfold getConnAuth; destruct (c_ctx (conn_at s (wm_conn wm))) as [ca|]; [|done];
    case_bool_decide; [|done]; apply dispatch_files; [done|]; rewrite Hmsg; by eapply Hm).
  eapply wp_mono; [apply handleAuth_spec|]. intros u s' (? & ? & ? & ? & _ & Ha). by destruct Ha.
Qed.

(** A worker of [s] takes the message [wm] off its channel, handles it and ends in [s']. *)
Definition worker_handles (wm : wrappedMsg) (s s' : srv) : Prop :=
  ∃ b1 b2, s_busy s = b1 ++ wm :: b2 ∧ s' = exec (process wm) (set_queue (s_queue s) (b1 ++ b2) s).

Lemma step_files s s' : fds_ok s → step s s' →
  files_same s s' ∨ ∃ wm ca, worker_handles wm s s' ∧ c_ctx (conn_at s (wm_conn wm)) = Some ca
    ∧ ca_state ca = authOK ∧ modifies (wm_msg wm) = true.
Proof.
  intros Hi Hst. destruct Hst as [| |c cn s' a Hp Hc ? ? Ht| |wm b1 b2 Hp Hb|Hp| | |]; try (by left).
  - left. unfold OnTraffic_iter in Ht. destruct (ReadMessage _) as [r [[]|]]; simplify_eq; by repeat case_match.
  - destruct (c_ctx (conn_at s (wm_conn wm))) as [ca|] eqn:Hctx.
    1: destruct (decide (ca_state ca = authOK)) as [Hok|Hok]; [destruct (modifies (wm_msg wm)) eqn:Hm|].
    1: { right. exists wm, ca. split_and!; try done. by exists b1, b2. }
    all: left; apply (process_unauth_files wm (set_queue (s_queue s) (b1 ++ b2) s) Hi).
    all: intros ca'; change (conn_at (set_queue _ _ s)) with (conn_at s); rewrite Hctx; intros; by simplify_eq.
  - left. unfold files_same. simpl. destruct (sweep _ _ _) as [w fc] eqn:Hs.
    by destruct (sweep_correct _ _ _ _ _ Hi Hs) as (_ & ? & _).
  - left. unfold files_same. simpl. pose proof (close_correct _ _ Hi) as Hc.
    apply Hc.
Qed.

End Changes.

(** ** A frame that arrives on an idle connection is handled *)

Section ServeOne.
  Context `{CborOk, GoFmt, OS, SSH, UserDB, Gzip, SecretBox, Rand} {LAWS : OSLaws}.

Lemma ReadMessage_conn (b rest : list byte) m p : sendable m p → b = frame m p ++ rest →
  ReadMessage (R:=conn_buf) b = (rest, Ok (m, p)).
Proof.
  intros Hs ->. rewrite (ReadMessage_parse (R:=conn_buf)).
  change (@unread conn_buf _ _ (frame m p ++ rest)) with (frame m p ++ rest).
  rewrite parse_frame_frame by done. f_equal.
  change (drop (Z.to_nat (zlen (frame m p ++ rest) - zlen rest)) (frame m p ++ rest) = rest).
  rewrite zlen_app.
  replace (_ + _ - _) with (zlen (frame m p)) by lia. unfold zlen. by rewrite Nat2Z.id, drop_app_length.
Qed.

Lemma srv_ext (s t : srv) : s_world s = s_world t → s_fds s = s_fds t → s_sessions s = s_sessions t →
  s_conns s = s_conns t → s_queue s = s_queue t → s_busy s = s_busy t → s_processNum s = s_processNum t →
  s_draws s = s_draws t → s_now s = s_now t → s_panic s = s_panic t → s = t.
Proof. destruct s, t. simpl. by intros -> -> -> -> -> -> -> -> -> ->. Qed.

(** Bytes in, and what is left of them after reading a frame. *)
Lemma set_in_twice c cn b s : s_conns s !! c = Some cn → c_in cn = [] →
  upd_conn c (set_in []) (upd_conn c (set_in b) s) = s.
Proof.
  intros Hc Hin. apply srv_ext; try done. unfold upd_conn, set_conns, conn_at. simpl.
  rewrite insert_insert_eq, lookup_insert_eq, Hc. simpl. apply insert_id. rewrite Hc. f_equal.
  destruct cn. simpl in *. by subst.
Qed.

(** A frame arrives, is read by the event loop and taken by a worker. *)
Lemma serve_take n w0 t0 s c cn m p :
  reachable n w0 t0 s → s_panic s = false → s_conns s !! c = Some cn → c_closed cn = false → c_in cn = [] →
  s_queue s = [] → s_busy s = [] → (0 < s_processNum s)%nat → sendable m p →
  reachable n w0 t0 (set_queue [] [{| wm_msg := m; wm_payload := p; wm_conn := c |}] s).
Proof.
  intros Hr Hp Hc Hcl Hin Hq Hb Hn Hs.
  set (wm := {| wm_msg := m; wm_payload := p; wm_conn := c |}).
  set (s2 := upd_conn c (set_in (frame m p)) s).
  assert (step s s2) as H1s.
  { replace s2 with (upd_conn c (λ cn, set_in (c_in cn ++ frame m p) cn) s); [by eapply step_receive|].
    unfold s2, upd_conn. assert (conn_at s c = cn) as -> by (unfold conn_at; by rewrite Hc). by rewrite Hin. }
  assert (conn_at s2 c = set_in (frame m p) cn) as Hcn2.
  { unfold s2. rewrite conn_at_upd, decide_True by done. unfold conn_at. by rewrite Hc. }
  assert (OnTraffic_iter c s2 = (None, set_queue [wm] [] s)) as Ht.
  { unfold OnTraffic_iter. rewrite Hcn2. simpl c_in.
    rewrite (ReadMessage_conn _ [] m p) by (by rewrite ?app_nil_r).
    unfold s2. rewrite (set_in_twice _ cn) by done. f_equal.
    by apply srv_ext; simpl; rewrite ?Hq, ?Hb. }
  eapply rtc_r; [eapply rtc_r; [eapply rtc_r; [exact Hr|exact H1s]|]|].
  - eapply (step_traffic _ c (set_in (frame m p) cn)); try done.
    + unfold s2, upd_conn, set_conns. simpl. rewrite lookup_insert_eq. unfold conn_at. by rewrite Hc.
    + simpl. by rewrite Hq.
  - by apply (step_take (set_queue [wm] [] s) wm []).
Qed.

Lemma serve_one n w0 t0 s c cn m p :
  reachable n w0 t0 s → s_panic s = false → s_conns s !! c = Some cn → c_closed cn = false → c_in cn = [] →
  s_queue s = [] → s_busy s = [] → (0 < s_processNum s)%nat → sendable m p →
  reachable n w0 t0 (exec (process {| wm_msg := m; wm_payload := p; wm_conn := c |}) s).
Proof.
  intros Hr Hp Hc Hcl Hin Hq Hb Hn Hs. pose (wm := {| wm_msg := m; wm_payload := p; wm_conn := c |}).
  eapply rtc_r; [by eapply serve_take|].
  pose proof (step_work (set_queue [] [wm] s) wm [] [] Hp eq_refl) as Hw.
  refine (eq_ind _ (λ x, step _ (exec (process wm) x)) Hw s _). by apply srv_ext.
Qed.

End ServeOne.
