(* ===== verification/Demo.v ===== *)
(** The closed instances the examples of the development run on: a toy SSH (a key
    is a byte string, and signs by prefixing itself), a user data base, a random
    source that counts, and a machine with one user. *)
From S2P Require Import Prelude Message PlainCodec GoStd GoHash OS MemFS Chunk Auth FdCache Server ServerData.
From Stdlib Require Import Strings.Byte.

Definition demo_err (t : string) : error := ErrVar "demo" t.

#[export] Instance toy_ssh : SSH := {
  PublicKey := list byte;
  Signature := list byte;
  ssh_ParsePublicKey b := match b with [] => Err (demo_err "empty key") | _ => Ok b end;
  ssh_UnmarshalSignature b := Ok b;
  ssh_Verify k ch sig := if bool_decide (sig = k ++ ch) then None else Some (demo_err "bad signature");
  ssh_Marshal k := k;
  ssh_ParseAuthorizedKey l := Ok (String.list_byte_of_string l);
  ssh_MarshalAuthorizedKey k := k;
}.

#[export] Instance toy_users : UserDB := λ u, Err (demo_err "unknown user").
#[export] Instance toy_fmt : GoFmt := plain_fmt.
#[export] Instance toy_rand : Rand := λ k n, Ok (replicate n (byte_of_Z (Z.of_nat k))).
#[export] Instance toy_rand_ok : RandOk.
Proof. intros k n b [= <-]. apply length_replicate. Qed.

(** A file with the given contents. *)
Definition put_file (p : string) (d : list byte) (w : memfs) : memfs :=
  match mem_OpenFile p O_CREATE_RDWR 0x1A4 w with
  | (w, Ok f) => fst (mem_Close f (fst (mem_WriteAt f d 0 w)))
  | (w, Err _) => w
  end.

Definition demo_key : list byte := String.list_byte_of_string "ssh-toy-key".

(** The user [u], whose [authorized_keys] holds [demo_key]; a file [/home/u/f]. *)
Definition demo_world : @world MemOS :=
  put_file "/home/u/f" [x61; x62; x63; x64; x65]
  (put_file "/home/u/.ssh/authorized_keys" (demo_key ++ [x0a])
  (put_file "/etc/passwd" (String.list_byte_of_string "u:x:1:1::/home/u:/bin/sh" ++ [x0a])
  (mem_init ["/etc"; "/home"; "/home/u"; "/home/u/.ssh"]))).

Lemma demo_no_handles : ∀ f, handle demo_world f = None.
Proof. intros f. vm_compute. by destruct f. Qed.

Definition demo_ca : connAuth :=
  {| ca_state := authOK; ca_challenge := None; ca_pubKey := []; ca_user := "u"; ca_home := "/home/u";
     ca_encryptionKey := Some (replicate 32 x07) |}.

(** A server with one authenticated connection. *)
Definition demo_srv : srv :=
  upd_conn 0%nat (setConnAuth demo_ca) (newServer 4 demo_world 0).

Lemma demo_fds : fd_inv (s_world demo_srv) (s_fds demo_srv).
Proof. apply fd_inv_new, demo_no_handles. Qed.

(** A run that authenticates: connect, send the public key, sign the challenge the
    random source gives (32 zero bytes). *)
Definition demo_auth1 : AuthReq.t :=
  {| AuthReq.ID := 1; AuthReq.User := "u"; AuthReq.PubKey := demo_key; AuthReq.Signature := [];
     AuthReq.Token := "" |}.
Definition demo_auth2 : AuthReq.t :=
  {| AuthReq.ID := 2; AuthReq.User := "u"; AuthReq.PubKey := demo_key;
     AuthReq.Signature := demo_key ++ replicate 32 x00; AuthReq.Token := "" |}.

Definition demo_msg (m : MSG) : wrappedMsg := {| wm_msg := m; wm_payload := []; wm_conn := 0%nat |}.

Definition demo_run0 : srv := set_conns {[ 0%nat := new_conn ]} (newServer 4 demo_world 0).
Definition demo_run1 : srv := exec (process (demo_msg (MAuthReq demo_auth1))) demo_run0.
Definition demo_run2 : srv := exec (process (demo_msg (MAuthReq demo_auth2))) demo_run1.

Lemma demo_auth1_sendable : sendable (MAuthReq demo_auth1) [].
Proof. split_and!; vm_compute; intuition congruence. Qed.
Lemma demo_auth2_sendable : sendable (MAuthReq demo_auth2) [].
Proof. split_and!; vm_compute; intuition congruence. Qed.

(** The file system of the examples reads whole. *)
Lemma mem_reads_whole : reads_whole.
Proof.
  intros f n off w d e. unfold f_ReadAt, MemOS, mem_ReadAt.
  repeat (case_match; try (intros [= <- <-]; done)).
  all: intros [= <- <-]; auto.
Qed.
