(* ===== verification/ServerSpec.v ===== *)
(** The properties of the server: who may do what, what each handler answers and
    does to the files, that no descriptor is lost, and how the event loop feeds the
    workers. *)
From S2P Require Import Prelude Message PlainCodec GoStd GoHash OS MemFS Chunk Auth FdCache Server Hoare ServerStep ServerInv ServerData Demo.
From Stdlib Require Import Strings.Byte.

(** ** The example run *)

Lemma demo_reachable0 : reachable 4 demo_world 0 demo_run0.
Proof. apply rtc_once. apply (step_accept (newServer 4 demo_world 0) 0%nat); reflexivity. Qed.

Lemma demo_reachable1 : reachable 4 demo_world 0 demo_run1.
Proof.
  eapply (serve_one _ _ _ demo_run0); [exact demo_reachable0|..|exact demo_auth1_sendable];
    try reflexivity. simpl. lia.
Qed.

Lemma demo_reachable2 : reachable 4 demo_world 0 demo_run2.
Proof.
  eapply (serve_one _ _ _ demo_run1); [exact demo_reachable1|..|exact demo_auth2_sendable];
    try (vm_compute; reflexivity). vm_compute. lia.
Qed.

Definition demo_write : WriteReq.t :=
  {| WriteReq.ID := 9; WriteReq.Path := "f"; WriteReq.Offset := 1; WriteReq.Checksum := 0;
     WriteReq.Compression := 0; WriteReq.Encryption := 0 |}.
Definition demo_hash : HashReq.t := {| HashReq.ID := 12; HashReq.Path := "f" |}.

(** ** Properties *)

Section Safety.
  Context `{Cbor, GoFmt, OS, SSH, UserDB, Gzip, SecretBox, Rand} {LAWS : OSLaws}.

(** C7: whatever the interleaving of connections, workers, sweeps and time, every
    connection the server treats as authenticated, and every session token it
    accepts, goes back to a signature that verified over a challenge drawn by this
    server for the connection it was sent on, under a key that the
    [authorized_keys] of the user's home held, and carries the encryption key
    derived from it. *)
Theorem authenticated_means_proven n w0 t0 s :
  (∀ f, handle w0 f = None) → reachable n w0 t0 s →
  (∀ c ca, c_ctx (conn_at s c) = Some ca → ca_state ca = authOK →
     proven n w0 t0 (ca_user ca) (ca_home ca) (ca_encryptionKey ca))
  ∧ (∀ t i, s_sessions s !! t = Some i → proven n w0 t0 (User i) (Home i) (EncryptionKey i)).
Proof.
  intros Hw Hr. destruct (reachable_inv _ _ _ _ Hw Hr) as [_ [Hs Hc]]. split; [|done].
  intros c ca Hca Hok. specialize (Hc c ca Hca). unfold ctx_inv in Hc. by rewrite Hok in Hc.
Qed.

(** C18: [handleAuth] implements the authentication protocol: on every request it
    follows one rule of [auth_rule] (which fixes the answer, the next context of
    the connection, the session store and whether the connection is closed),
    answers exactly once, on that connection only, leaves all other connections,
    the queues, the descriptor cache and all file contents and names alone. *)
Theorem handleAuth_implements_protocol c req s :
  ∃ ctx ss r cl,
    auth_rule (s_world s) (s_draws s) req (c_ctx (conn_at s c)) (s_sessions s) ctx ss r cl
    ∧ auth_done c ctx ss r cl s (exec (handleAuth c req) s).
Proof. exact (handleAuth_spec c req s). Qed.

(** C25: a request other than [AuthReq] on a connection that is not authenticated is
    answered with an unsuccessful [AuthRes] that carries its ID, the connection is
    closed, and neither files, descriptors nor sessions change. *)
Theorem unauthenticated_rejected wm s :
  msg_Type (wm_msg wm) ≠ AuthReqT →
  (∀ ca, c_ctx (conn_at s (wm_conn wm)) = Some ca → ca_state ca ≠ authOK) →
  let c := wm_conn wm in
  let s' := exec (process wm) s in
  ∃ r, AuthRes.ID r = msg_GetID (wm_msg wm) ∧ AuthRes.Success r = false
    ∧ c_out (conn_at s' c) = (if c_closed (conn_at s c) then c_out (conn_at s c)
                              else c_out (conn_at s c) ++ frame (MAuthRes r) [])
    ∧ c_closed (conn_at s' c) = true ∧ c_ctx (conn_at s' c) = c_ctx (conn_at s c)
    ∧ (∀ d, d ≠ c → conn_at s' d = conn_at s d)
    ∧ s_world s' = s_world s ∧ s_fds s' = s_fds s ∧ s_sessions s' = s_sessions s.
Proof.
  intros Ht Hno c s'.
  assert (s' = exec (rejectUnauthenticated c (msg_Type (wm_msg wm)) (msg_GetID (wm_msg wm))) s) as ->.
  { subst s'. subst c. unfold process, exec. destruct (wm_msg wm); try done;
      rewrite run_bind; unfold get_auth, eval, exec, getConnAuth; cbn [fst snd];
      destruct (c_ctx (conn_at s (wm_conn wm))) as [ca|] eqn:Hca; try done;
      rewrite bool_decide_false by (by apply Hno); done. }
  set (id := msg_GetID (wm_msg wm)).
  pose (req := {| AuthReq.ID := id; AuthReq.User := ""; AuthReq.PubKey := []; AuthReq.Signature := [];
                  AuthReq.Token := "" |}).
  pose proof (wp_refuse c req (Sprintf "authentication required before type %d" [inr (msg_Type (wm_msg wm))])
                s s (auth_pre_refl s) eq_refl) as Hd.
  change (exec (rejectUnauthenticated c (msg_Type (wm_msg wm)) id) s) with (exec (auth_refuse c req
    (Sprintf "authentication required before type %d" [inr (msg_Type (wm_msg wm))])) s).
  destruct Hd as [Hctx Hss Hout _ Hcl _ Hoth _ _ _ _]. rewrite orb_true_r in Hcl.
  eexists. split_and!; [| |exact Hout|exact Hcl|exact Hctx|exact Hoth|..]; done.
Qed.

(** C19: a step of the server that changes the contents or the names of files is a
    worker taking a [CreateReq] or a [WriteReq] off its channel and handling it, and
    that request came on an authenticated connection. *)
Theorem files_change_only_when_authenticated n w0 t0 s s' :
  (∀ f, handle w0 f = None) → reachable n w0 t0 s → step s s' →
  ¬ same_files (s_world s) (s_world s') →
  ∃ wm ca b1 b2, s_busy s = b1 ++ wm :: b2
    ∧ s' = exec (process wm) (set_queue (s_queue s) (b1 ++ b2) s)
    ∧ c_ctx (conn_at s (wm_conn wm)) = Some ca ∧ ca_state ca = authOK ∧ modifies (wm_msg wm) = true.
Proof.
  intros Hw Hr Hst Hne. destruct (reachable_inv _ _ _ _ Hw Hr) as [Hf _].
  destruct (step_files s s' Hf Hst) as [?|(wm & ca & (b1 & b2 & ? & ?) & ?)]; [done|]. by exists wm, ca, b1, b2.
Qed.

(** C20: on an authenticated connection, every request but an [AuthReq] is answered by
    exactly one message with the request's ID and the response type of the request, on that
    connection and written if it is still open; nothing is sent to other connections, and no
    session, queue or context changes.  There is one exception, a [ReadReq] whose size the
    runtime cannot allocate (a negative one, say): it may be answered like the others, with an
    error, or kill the server, which then sends nothing and does nothing more. *)
Theorem request_answered_once wm ca t s :
  c_ctx (conn_at s (wm_conn wm)) = Some ca → ca_state ca = authOK →
  response_type (wm_msg wm) = Some t → t ≠ AuthResT →
  let c := wm_conn wm in
  let s' := exec (process wm) s in
  (∃ r p, msg_GetID r = msg_GetID (wm_msg wm) ∧ msg_Type r = t
     ∧ c_out (conn_at s' c) = (if c_closed (conn_at s c) then c_out (conn_at s c)
                               else c_out (conn_at s c) ++ frame r p)
     ∧ c_ctx (conn_at s' c) = c_ctx (conn_at s c) ∧ c_closed (conn_at s' c) = c_closed (conn_at s c)
     ∧ (∀ d, d ≠ c → conn_at s' d = conn_at s d)
     ∧ s_sessions s' = s_sessions s ∧ s_queue s' = s_queue s ∧ s_panic s' = s_panic s)
  ∨ (∃ req, wm_msg wm = MReadReq req ∧ make_ok (ReadReq.Size req) = false
     ∧ s_panic s' = true ∧ (∀ d, conn_at s' d = conn_at s d)
     ∧ s_sessions s' = s_sessions s ∧ ∀ s'', ¬ step s' s'').
Proof.
  intros Hca Hok Ht Hna c s'.
  assert (msg_Type (wm_msg wm) ≠ AuthReqT) as Hty.
  { intros E. destruct (wm_msg wm); simpl in *; try done. by simplify_eq. }
  assert (s' = exec (dispatch wm ca) s) as ->.
  { subst s' c. unfold process, exec. destruct (wm_msg wm); try done;
      rewrite run_bind; unfold get_auth, eval, exec, getConnAuth; cbn [fst snd];
      rewrite Hca, bool_decide_true by done; done. }
  destruct (dispatch_replies_or_panics wm ca t s Ht Hty) as [Hr|[Hnp [Hp Hc Hs _]]].
  - left. destruct (replied_conns _ _ _ _ Hr)
      as (r & p & [Hid Htr] & Hout & Hctx & Hcl & _ & Hoth & Hs & Hq & _ & Hpn & _).
    exists r, p. by split_and!.
  - right. destruct (wm_msg wm) as [| | | |req| | | | | | | | |] eqn:Hm; try by destruct Hnp.
    exists req. split_and!; try done.
    + by apply not_true_is_false.
    + intros d. unfold conn_at. by rewrite Hc.
    + intros s''. by apply panicked_stuck.
Qed.

(** With [--process-num 0] there is no worker and no room in their channel: whatever clients
    send, the server never answers anything. *)
Theorem no_workers_no_answer fl w0 t0 s0 s c : fl_process_num fl = 0 → serveCmd fl w0 t0 = Some s0 →
  rtc step s0 s → c_out (conn_at s c) = [].
Proof.
  intros Hn. unfold serveCmd. rewrite Hn. intros [= <-] Hr.
  assert (s_processNum s = 0%nat ∧ s_busy s = [] ∧ ∀ c, c_out (conn_at s c) = []) as (_ & _ & Ho); [|done].
  revert Hr. apply (rtc_ind_r (λ s, s_processNum s = 0%nat ∧ s_busy s = [] ∧ ∀ c, c_out (conn_at s c) = [])); [done|].
  intros s1 s2 _ Hst (Hp & Hb & Ho).
  destruct Hst as [d _ Hd|d cn b _ Hd|d cn s' a _ _ _ Hlt|wm q _ _ Hlt|wm b1 b2 _ Hq|_|t _|d cn _ _|_];
    rewrite ?Hp in *; try lia; try (split_and!; [done|done|]; intros e).
  - unfold conn_at, set_conns. cbn [s_conns]. rewrite lookup_insert. case_decide; [done|apply Ho].
  - rewrite conn_at_upd. case_decide; [|done]. subst. apply Ho.
  - by destruct b1; rewrite Hb in Hq.
  - apply Ho.
  - apply Ho.
  - rewrite conn_at_upd. case_decide; [|done]. subst. apply Ho.
  - apply Ho.
Qed.

(** When the context of [gcp serve] ends, the process closes every descriptor it has open,
    changes no file, and its cache is empty: a worker that is still to run opens afresh. *)
Theorem shutdown_closes_all n w0 t0 s :
  (∀ f, handle w0 f = None) → reachable n w0 t0 s → s_panic s = false →
  ∃ s', step s s' ∧ (∀ f, handle (s_world s') f = None) ∧ files (s_fds s') = ∅
    ∧ same_files (s_world s) (s_world s') ∧ s_conns s' = s_conns s.
Proof.
  intros Hw Hr Hp. eexists. split; [by apply step_shutdown|].
  destruct (reachable_inv _ _ _ _ Hw Hr) as [Hf _]. by destruct (close_correct _ _ Hf) as (? & ? & ? & _).
Qed.

(** C16: the descriptors the process has open are, in every reachable state, exactly
    those of the cache, each open on the inode its path names and with the access
    its entry records: no handler leaks a descriptor, none is shared by two paths. *)
Theorem no_descriptor_leak n w0 t0 s :
  (∀ f, handle w0 f = None) → reachable n w0 t0 s →
  (∀ f, handle (s_world s) f ≠ None ↔ owned (s_fds s) f)
  ∧ (∀ p e, files (s_fds s) !! p = Some e →
       ∃ i, handle (s_world s) (e_file e) = Some (i, e_writable e) ∧ at_path (s_world s) p = Some i)
  ∧ (∀ p q e d, files (s_fds s) !! p = Some e → files (s_fds s) !! q = Some d → e_file e = e_file d → p = q).
Proof.
  intros Hw Hr. destruct (reachable_inv _ _ _ _ Hw Hr) as [[Ho Hi Hf] _]. split_and!; [|exact Ho|exact Hi].
  intros f. split; [apply Hf|]. intros (p & e & He & <-). destruct (Ho p e He) as (i & Hh & _). congruence.
Qed.

End Safety.

Lemma authenticated_means_proven_witness :
  (∃ ca, c_ctx (conn_at demo_run2 0%nat) = Some ca ∧ ca_state ca = authOK)
  ∧ ∀ c ca, c_ctx (conn_at demo_run2 c) = Some ca → ca_state ca = authOK →
       proven 4 demo_world 0 (ca_user ca) (ca_home ca) (ca_encryptionKey ca).
Proof.
  split; [eexists; split; vm_compute; reflexivity|].
  exact (proj1 (authenticated_means_proven 4 demo_world 0 demo_run2 demo_no_handles demo_reachable2)).
Defined.

Lemma unauthenticated_rejected_witness :
  c_closed (conn_at (exec (process (demo_msg (MHashReq demo_hash))) demo_run1) 0%nat) = true.
Proof.
  destruct (unauthenticated_rejected (demo_msg (MHashReq demo_hash)) demo_run1)
    as (r & _ & _ & _ & Hcl & _).
  - discriminate.
  - intros ca Hca. vm_compute in Hca. injection Hca as <-. discriminate.
  - exact Hcl.
Defined.

(** A worker about to write on the authenticated connection of the example. *)
Definition demo_wmsg : wrappedMsg :=
  {| wm_msg := MWriteReq demo_write; wm_payload := [x58; x59]; wm_conn := 0%nat |}.
Definition demo_run3 : srv :=
  upd_conn 0%nat (set_in (frame (MWriteReq demo_write) [x58; x59])) demo_run2.
Definition demo_run5 : srv := set_queue [] [demo_wmsg] demo_run2.

Lemma demo_write_sendable : sendable (MWriteReq demo_write) [x58; x59].
Proof. split_and!; vm_compute; intuition congruence. Qed.

Lemma demo_reachable5 : reachable 4 demo_world 0 demo_run5.
Proof.
  eapply (serve_take _ _ _ demo_run2 _ _ (MWriteReq demo_write)); [exact demo_reachable2|..|exact demo_write_sendable];
    try (vm_compute; reflexivity). vm_compute. lia.
Qed.

Definition demo_ctx2 : connAuth := default demo_ca (c_ctx (conn_at demo_run2 0%nat)).
Definition demo_run6 : srv := exec (process demo_wmsg) (set_queue (s_queue demo_run5) ([] ++ []) demo_run5).

Lemma demo_step6 : step demo_run5 demo_run6.
Proof.
  unfold demo_run6. refine (step_work demo_run5 demo_wmsg [] [] _ _); [vm_compute|]; reflexivity.
Qed.

(** The step in which the worker writes seven bytes. *)
Lemma files_change_only_when_authenticated_witness :
  ∃ wm ca b1 b2, s_busy demo_run5 = b1 ++ wm :: b2
    ∧ demo_run6 = exec (process wm) (set_queue (s_queue demo_run5) (b1 ++ b2) demo_run5)
    ∧ c_ctx (conn_at demo_run5 (wm_conn wm)) = Some ca ∧ ca_state ca = authOK ∧ modifies (wm_msg wm) = true.
Proof.
  apply (files_change_only_when_authenticated 4 demo_world 0 demo_run5 demo_run6 demo_no_handles
           demo_reachable5 demo_step6).
  intros [Hd _]. specialize (Hd 7%nat). vm_compute in Hd. discriminate.
Defined.

Lemma request_answered_once_witness :
  ∃ r p, msg_GetID r = msg_GetID (wm_msg demo_wmsg) ∧ msg_Type r = WriteResT
    ∧ c_out (conn_at (exec (process demo_wmsg) demo_run2) (wm_conn demo_wmsg)) =
        (if c_closed (conn_at demo_run2 (wm_conn demo_wmsg)) then c_out (conn_at demo_run2 (wm_conn demo_wmsg))
         else c_out (conn_at demo_run2 (wm_conn demo_wmsg)) ++ frame r p).
Proof.
  destruct (request_answered_once demo_wmsg demo_ctx2 WriteResT demo_run2)
    as [(r & p & Hid & Ht & Hout & _)|(req & Hm & _)];
    [vm_compute; reflexivity|vm_compute; reflexivity|reflexivity|discriminate| |discriminate Hm].
  exists r, p. exact (conj Hid (conj Ht Hout)).
Defined.

Definition demo_fd0 : @file MemOS := 0%nat.

Lemma no_descriptor_leak_witness :
  handle (s_world demo_run2) demo_fd0 ≠ None ↔ owned (s_fds demo_run2) demo_fd0.
Proof. exact (proj1 (no_descriptor_leak 4 demo_world 0 demo_run2 demo_no_handles demo_reachable2) demo_fd0). Defined.
