(* ===== verification/FileSpec.v ===== *)
(** The properties of the file handlers of the server and of its descriptor cache:
    what a write, a read, a create and a hash do to and tell about file contents,
    what a bad request does, and what the cache promises and does not promise to
    the handlers that share it. *)
From S2P Require Import Prelude Message PlainCodec GoStd GoHash OS MemFS Chunk Auth FdCache Server Hoare ServerStep ServerInv ServerData Demo.
From Stdlib Require Import Strings.Byte.

Definition demo_write : WriteReq.t :=
  {| WriteReq.ID := 9; WriteReq.Path := "f"; WriteReq.Offset := 1; WriteReq.Checksum := 0;
     WriteReq.Compression := 0; WriteReq.Encryption := 0 |}.
Definition demo_read (off size : Z) : ReadReq.t :=
  {| ReadReq.ID := 10; ReadReq.Path := "f"; ReadReq.Offset := off; ReadReq.Size := size;
     ReadReq.Compression := 1; ReadReq.Encryption := 1 |}.
Definition demo_hash : HashReq.t := {| HashReq.ID := 12; HashReq.Path := "f" |}.

Section Files.
  Context `{Cbor, GoFmt, OS, SSH, UserDB, Gzip, SecretBox, Rand} {LAWS : OSLaws}.

(** C11: a write answers once, with the request's ID; when it reports success, the
    payload passed the checksum, decryption and decompression and gave some [data],
    and the file at the sandboxed path holds exactly its old bytes with [data] at
    the offset (a gap filled with zeros), the reported count is the length of
    [data], and no other file changed. *)
Theorem write_updates_file c req payload ca s :
  fds_ok s →
  let s' := exec (write c req payload ca) s in
  ∃ r, answered c (MWriteRes r) [] s s' ∧ WriteRes.ID r = WriteReq.ID req
    ∧ (WriteRes.Success r = true → ∃ data spath i,
         write_payload req payload ca = Ok data ∧ sandboxPath (Some ca) (WriteReq.Path req) = Ok spath
         ∧ at_path (s_world s) spath = Some i ∧ WriteRes.N r = i32 (zlen data)
         ∧ written data (WriteReq.Offset req) i (s_world s) (s_world s')).
Proof.
  intros Hi. destruct (write_data c req payload ca s Hi) as (r & Ha & Hid & _ & Hok). by exists r.
Qed.

(** C27: a payload that fails the checksum, the decryption or the decompression
    leaves the machine exactly as it was; in particular a payload whose CRC-32 is
    not the non-zero one of the request.  The answer carries the error. *)
Theorem write_rejects_bad_payload c req payload ca s :
  fds_ok s →
  let s' := exec (write c req payload ca) s in
  (WriteReq.Checksum req ≠ 0 → ChecksumIEEE payload ≠ WriteReq.Checksum req →
     write_payload req payload ca = Err (Errorf "checksum mismatch" []))
  ∧ ∀ e, write_payload req payload ca = Err e →
      ∃ r, answered c (MWriteRes r) [] s s' ∧ WriteRes.ID r = WriteReq.ID req
        ∧ WriteRes.Success r = false ∧ WriteRes.Error r = error_text e ∧ s_world s' = s_world s.
Proof.
  intros Hi. split.
  - intros Hz Hne. unfold write_payload. by rewrite (proj2 (Z.eqb_neq _ _) Hz), (proj2 (Z.eqb_neq _ _) Hne).
  - intros e He. destruct (write_data c req payload ca s Hi) as (r & Ha & Hid & Hbad & _).
    destruct (Hbad e He) as (? & ? & ?). exists r. by split_and!.
Qed.

(** C13: a read of a size the runtime can allocate answers once and changes no file;
    when it reports success, what the client's decryption and decompression make of
    the payload are bytes the file has at the offset, at most as many as were asked
    for; the payload's CRC-32 and length are the ones announced, and the encoding
    adds at most 40 bytes. *)
Theorem read_returns_contents `{!GzipOk, !SecretBoxOk, !RandOk} c req ca s :
  fds_ok s → make_ok (ReadReq.Size req) = true →
  let s' := exec (read c req ca) s in
  ∃ r p, answered c (MReadRes r) p s s' ∧ ReadRes.ID r = ReadReq.ID req
    ∧ same_files (s_world s) (s_world s')
    ∧ (ReadRes.Success r = true → ∃ data spath,
         sandboxPath (Some ca) (ReadReq.Path req) = Ok spath
         ∧ read_bytes (s_world s) spath (ReadReq.Offset req) (ReadReq.Size req) data
         ∧ ReadRes.N r = zlen p ∧ ReadRes.Checksum r = ChecksumIEEE p ∧ zlen p <= zlen data + 40
         ∧ (∀ off, download_payload r p (ca_encryptionKey ca) off = Ok data)).
Proof.
  intros Hi Hm. destruct (read_data c req ca s Hi Hm) as (r & p & Ha & Hid & Hs & Hok). by exists r, p.
Qed.

(** C12: reading back, over any pair of connections of the same user and whatever
    compression and encryption either side asks for, the range a successful write just
    wrote gives exactly that data, all of it, and announces the length and the CRC-32 of
    the payload that carries it; on a system whose reads stop only at the end of a file. *)
Theorem write_then_read `{!GzipOk, !SecretBoxOk, !RandOk} c d wreq payload rreq ca s data :
  reads_whole →
  fds_ok s → write_payload wreq payload ca = Ok data → data ≠ [] →
  ReadReq.Path rreq = WriteReq.Path wreq → ReadReq.Offset rreq = WriteReq.Offset wreq →
  ReadReq.Size rreq = zlen data → make_ok (zlen data) = true →
  let s1 := exec (write c wreq payload ca) s in
  let s2 := exec (read d rreq ca) s1 in
  ∃ r1 r2 p, answered c (MWriteRes r1) [] s s1 ∧ answered d (MReadRes r2) p s1 s2
    ∧ (WriteRes.Success r1 = true → ReadRes.Success r2 = true →
       (∀ off, download_payload r2 p (ca_encryptionKey ca) off = Ok data)
       ∧ ReadRes.N r2 = zlen p ∧ ReadRes.Checksum r2 = ChecksumIEEE p).
Proof.
  intros Hwhole Hi Hpl Hne Hpath Hoff Hsz Hm s1 s2.
  destruct (write_data c wreq payload ca s Hi) as (r1 & Ha1 & _ & _ & Hok1).
  pose proof (write_fds c wreq payload ca s Hi) as Hi1. change (fds_ok s1) in Hi1.
  rewrite <- Hsz in Hm. destruct (read_data d rreq ca s1 Hi1 Hm) as (r2 & p & Ha2 & _ & _ & Hok2).
  exists r1, r2, p. split_and!; [exact Ha1|exact Ha2|]. intros S1 S2.
  destruct (Hok1 S1) as (data' & spath & i & Hpl' & Hsb & Hat & _ & Hw). rewrite Hpl in Hpl'. injection Hpl' as <-.
  destruct (Hok2 S2) as (got & spath' & Hsb' & Hrd & HN & Hck & _ & Hdl). split; [|done].
  rewrite Hpath, Hsb in Hsb'. injection Hsb' as <-. rewrite Hoff, Hsz in Hrd.
  enough (got = data) as ->; [exact Hdl|]. by eapply written_read.
Qed.

(** C28: creating a file never changes the contents of an existing file, whatever the
    answer; when it reports success for a regular file, the sandboxed path names
    a file: the one that was there, or a new one of the requested size, all zeros. *)
Theorem create_keeps_or_makes c req ca s :
  let s' := exec (create c req ca) s in
  ∃ r, answered c (MCreateRes r) [] s s' ∧ CreateRes.ID r = CreateReq.ID req
    ∧ data_kept (s_world s) (s_world s')
    ∧ (CreateRes.Success r = true → CreateReq.IsDir req = false → ∃ spath,
         sandboxPath ca (CreateReq.Path req) = Ok spath
         ∧ (kept_there spath (s_world s) (s_world s')
            ∨ created spath (create_size req) (s_world s) (s_world s'))).
Proof. exact (create_data c req ca s). Qed.

(** A hash answers once and changes no file; when it reports success it is the
    SHA-256 of the whole contents of the file, wherever the shared descriptor was. *)
Theorem hash_is_sha256_of_file c req ca s :
  fds_ok s →
  let s' := exec (hash c req ca) s in
  ∃ r, answered c (MHashRes r) [] s s' ∧ HashRes.ID r = HashReq.ID req
    ∧ same_files (s_world s) (s_world s')
    ∧ (HashRes.Success r = true → ∃ spath i d, sandboxPath ca (HashReq.Path req) = Ok spath
         ∧ at_path (s_world s) spath = Some i ∧ idata (s_world s) i = Some d ∧ HashRes.Hash r = Sum256 d).
Proof. intros Hi. exact (hash_data c req ca s Hi). Qed.

(** One request kills the server: a [ReadReq] with a negative size on a file that
    opens panics the worker, and no step of the server follows. *)
Theorem read_negative_size_panics c req ca s spath w fc fd info :
  sandboxPath (Some ca) (ReadReq.Path req) = Ok spath →
  get spath false (s_now s) (s_world s) (s_fds s) = (w, fc, Ok fd) → f_Stat fd w = Ok info →
  ReadReq.Size req < 0 →
  let s' := exec (read c req ca) s in
  s_panic s' = true ∧ s_conns s' = s_conns s ∧ ∀ s'', ¬ step s' s''.
Proof.
  intros Hsb Hg Hst Hsz.
  assert (exec (read c req ca) s = exec panic (set_world w fc s)) as ->.
  { unfold read. rewrite Hsb. unfold exec at 1. rewrite run_bind. unfold fds_get, eval, exec. rewrite Hg. simpl.
    rewrite run_bind. unfold ask_world, eval, exec. simpl. rewrite Hst. unfold make_ok.
    by rewrite (proj2 (Z.leb_gt 0 _) Hsz). }
  split_and!; try done. intros s'' Hstep. by destruct Hstep.
Qed.

(** A read of the system that stops half-way with an error is reported as a success: [read] looks
    at the error of [ReadAt] only when no byte was read. *)
Theorem partial_read_succeeds c req ca s spath w fc fd info b data e :
  sandboxPath (Some ca) (ReadReq.Path req) = Ok spath →
  get spath false (s_now s) (s_world s) (s_fds s) = (w, fc, Ok fd) → f_Stat fd w = Ok info →
  make_ok (ReadReq.Size req) = true → f_ReadAt fd (ReadReq.Size req) (ReadReq.Offset req) w = (b :: data, Some e) →
  ReadReq.Compression req = CompressionNone → ReadReq.Encryption req = EncryptionNone →
  ∃ r, answered c (MReadRes r) (b :: data) s (exec (read c req ca) s) ∧ ReadRes.Success r = true.
Proof.
  intros Hsb Hg Hst Hm Hrd Hc He.
  assert (∃ r, exec (read c req ca) s = exec (send c (MReadRes r) (b :: data)) (set_world w fc s) ∧ ReadRes.Success r = true)
    as (r & -> & Hr).
  { unfold read. rewrite Hsb. unfold exec at 1. rewrite run_bind. unfold fds_get, eval, exec. rewrite Hg. simpl.
    rewrite run_bind. unfold ask_world, eval, exec. simpl. rewrite Hst, Hm. cbn [negb]. rewrite run_bind.
    unfold eval, exec. simpl. rewrite Hrd. unfold read_reply, compressChunk. rewrite Hc. cbn [orb Z.eqb].
    unfold CompressionNone at 1. rewrite He. by eexists. }
  exists r. split; [|done]. by exists (MReadRes r), (b :: data), (set_world w fc s).
Qed.

End Files.

(** ** The descriptor cache *)

Section Cache.
  Context `{OSLaws}.

(** [get] keeps the cache sound; it gives a descriptor that is open on the file
    its path names, for writing if that was asked (upgrading a read-only one), or an
    error and no entry; neither changes any file nor the entries of other paths. *)
Theorem get_gives_usable_descriptor p wr now w fc w' fc' r :
  fd_inv w fc → get p wr now w fc = (w', fc', r) →
  fd_inv w' fc' ∧ same_files w w' ∧ (∀ q, q ≠ p → files fc' !! q = files fc !! q)
  ∧ match r with
    | Ok f => ∃ e i, files fc' !! p = Some e ∧ e_file e = f ∧ handle w' f = Some (i, e_writable e)
                ∧ (wr = true → e_writable e = true) ∧ at_path w' p = Some i
    | Err _ => files fc' !! p = None
    end.
Proof.
  intros Hi Hg. destruct (get_correct _ _ _ _ _ _ _ _ Hi Hg) as (? & Hp & ? & _ & ?). by split_and!.
Qed.

(** A tick of the sweeper closes exactly the descriptors that have been idle for
    longer than the timeout and drops their entries; the others keep theirs. *)
Theorem sweep_closes_idle now w fc w' fc' :
  fd_inv w fc → sweep now w fc = (w', fc') →
  fd_inv w' fc' ∧ same_files w w'
  ∧ (∀ p e, files fc !! p = Some e → idleTimeout fc < now - e_lastAccess e →
       files fc' !! p = None ∧ handle w' (e_file e) = None)
  ∧ (∀ p e, files fc !! p = Some e → now - e_lastAccess e <= idleTimeout fc → files fc' !! p = Some e).
Proof.
  intros Hi Hs. destruct (sweep_correct _ _ _ _ _ Hi Hs) as (Hi' & Hsame & _ & Hf). split_and!; try done.
  - intros p e He Hidle. assert (files fc' !! p = None) as Hn.
    { rewrite Hf, He. simpl. by rewrite (proj2 (Z.ltb_lt _ _) Hidle). }
    split; [done|]. destruct (handle w' (e_file e)) eqn:Hh; [|done].
    destruct (fi_owned _ _ Hi' (e_file e)) as (q & d & Hd & Heq); [congruence|].
    assert (files fc !! q = Some d) as Hdq.
    { rewrite Hf in Hd. destruct (files fc !! q) as [d'|]; [|done]. simpl in Hd. by destruct (_ <? _). }
    rewrite (fi_inj _ _ Hi q p d e) in Hd by done. congruence.
  - intros p e He Hfresh. rewrite Hf, He. simpl. by rewrite (proj2 (Z.ltb_ge _ _) Hfresh).
Qed.

(** C38: the descriptor [get] returns is not protected until it is used: when another
    worker evicts the path (as every [hash] does, and every failed write), or
    upgrades the entry of a reader to a writable one, before the first worker
    writes or reads with it, that worker's descriptor is closed, and writing any
    data with it fails. *)
Theorem shared_descriptor_closed_under_user p wr now w fc w1 fc1 f :
  fd_inv w fc → get p wr now w fc = (w1, fc1, Ok f) →
  (∀ w2 fc2, evict p w1 fc1 = (w2, fc2) → handle w2 f = None
     ∧ ∀ d off w3 n e, f_WriteAt f d off w2 = (w3, (n, e)) → d ≠ [] → e ≠ None)
  ∧ (∀ w2 fc2 g now', get p true now' w1 fc1 = (w2, fc2, Ok g) →
       (∀ e, files fc1 !! p = Some e → e_writable e = false) → g ≠ f → handle w2 f = None).
Proof.
  intros Hi Hg. destruct (get_correct _ _ _ _ _ _ _ _ Hi Hg) as (Hi1 & (en & i & He & <- & _) & _). split.
  - intros w2 fc2 Hev. destruct (evict_correct _ _ _ _ _ Hi1 Hev) as (_ & _ & _ & _ & Hcl).
    specialize (Hcl en He). split; [done|]. intros d off w3 n e Hw Hd. by eapply write_closed.
  - intros w2 fc2 g now' Hg2 Hro Hne.
    destruct (get_correct _ _ _ _ _ _ _ _ Hi1 Hg2) as (Hi2 & (en2 & i2 & He2 & <- & _) & _ & _ & Hoth).
    destruct (handle w2 (e_file en)) eqn:Hh; [|done].
    destruct (fi_owned _ _ Hi2 (e_file en)) as (q & d & Hd & Heq); [congruence|].
    destruct (decide (q = p)) as [->|Hqp]; [congruence|]. rewrite Hoth in Hd by done.
    by destruct (Hqp (fi_inj _ _ Hi1 q p d en Hd He Heq)).
Qed.

End Cache.

(** ** Concrete instances *)

Lemma write_updates_file_witness :
  ∃ r, answered 0%nat (MWriteRes r) [] demo_srv (exec (write 0%nat demo_write [x58; x59] demo_ca) demo_srv)
    ∧ WriteRes.ID r = 9.
Proof.
  destruct (write_updates_file 0%nat demo_write [x58; x59] demo_ca demo_srv demo_fds) as (r & Ha & Hid & _).
  exists r. exact (conj Ha Hid).
Defined.

(** The file [/home/u/f] of the example, before and after. *)
Example demo_write_contents :
  (λ i, (idata (s_world demo_srv) i, idata (s_world (exec (write 0%nat demo_write [x58; x59] demo_ca) demo_srv)) i))
    <$> at_path (s_world demo_srv) "/home/u/f"
  = Some (Some [x61; x62; x63; x64; x65], Some [x61; x58; x59; x64; x65]).
Proof. vm_compute. reflexivity. Qed.

Definition demo_bad_write : WriteReq.t :=
  {| WriteReq.ID := 9; WriteReq.Path := "f"; WriteReq.Offset := 1; WriteReq.Checksum := 1;
     WriteReq.Compression := 0; WriteReq.Encryption := 0 |}.

Lemma write_rejects_bad_payload_witness :
  s_world (exec (write 0%nat demo_bad_write [x58; x59] demo_ca) demo_srv) = s_world demo_srv.
Proof.
  destruct (write_rejects_bad_payload 0%nat demo_bad_write [x58; x59] demo_ca demo_srv demo_fds) as [Hbad Hno].
  destruct (Hno _ (Hbad ltac:(discriminate) ltac:(vm_compute; discriminate))) as (r & _ & _ & _ & _ & Hw).
  exact Hw.
Defined.

Lemma read_returns_contents_witness :
  ∃ r p, answered 0%nat (MReadRes r) p demo_srv (exec (read 0%nat (demo_read 1 3) demo_ca) demo_srv)
    ∧ ReadRes.ID r = 10.
Proof.
  destruct (read_returns_contents 0%nat (demo_read 1 3) demo_ca demo_srv demo_fds eq_refl) as (r & p & Ha & Hid & _).
  exists r, p. exact (conj Ha Hid).
Defined.

(** The answer a connection was sent last says success. *)
Definition succeeded (m : MSG) : bool :=
  match m with MWriteRes r => WriteRes.Success r | MReadRes r => ReadRes.Success r | _ => false end.

Lemma answered_succeeds c r p s s' : answered c r p s s' → c_closed (conn_at s c) = false →
  (succeeded ∘ fst <$> last (c_sent (conn_at s' c))) = Some true → succeeded r = true.
Proof. intros Ha Hc. rewrite (answered_last _ _ _ _ _ Ha Hc). by intros [= ->]. Qed.

(** Two bytes written over one connection and read back, compressed and encrypted,
    over another: both requests succeed and the payload decodes to the bytes. *)
Lemma write_then_read_witness :
  let s1 := exec (write 0%nat demo_write [x58; x59] demo_ca) demo_srv in
  let s2 := exec (read 1%nat (demo_read 1 2) demo_ca) s1 in
  ∃ r1 r2 p, answered 0%nat (MWriteRes r1) [] demo_srv s1 ∧ answered 1%nat (MReadRes r2) p s1 s2
    ∧ WriteRes.Success r1 = true ∧ ReadRes.Success r2 = true
    ∧ ∀ off, download_payload r2 p (ca_encryptionKey demo_ca) off = Ok [x58; x59].
Proof.
  intros s1 s2.
  destruct (write_then_read 0%nat 1%nat demo_write [x58; x59] (demo_read 1 2) demo_ca demo_srv [x58; x59]
    mem_reads_whole demo_fds eq_refl ltac:(discriminate) eq_refl eq_refl eq_refl eq_refl)
    as (r1 & r2 & p & Ha1 & Ha2 & Hback).
  assert (WriteRes.Success r1 = true) as S1.
  { apply (answered_succeeds _ _ _ _ _ Ha1 eq_refl). vm_compute. reflexivity. }
  assert (ReadRes.Success r2 = true) as S2.
  { apply (answered_succeeds _ _ _ _ _ Ha2 eq_refl). vm_compute. reflexivity. }
  exists r1, r2, p. exact (conj Ha1 (conj Ha2 (conj S1 (conj S2 (proj1 (Hback S1 S2)))))).
Defined.

Lemma hash_is_sha256_of_file_witness :
  ∃ r, answered 0%nat (MHashRes r) [] demo_srv (exec (hash 0%nat demo_hash (Some demo_ca)) demo_srv)
    ∧ HashRes.ID r = 12.
Proof.
  destruct (hash_is_sha256_of_file 0%nat demo_hash (Some demo_ca) demo_srv demo_fds) as (r & Ha & Hid & _).
  exists r. exact (conj Ha Hid).
Defined.

(** [get] of the example file, for reading. *)
Definition demo_fd : @file MemOS := 0%nat.
Definition demo_get := get "/home/u/f" false 0 demo_world (newFDCache 30).

Definition demo_get0 := get "/home/u/f" false (s_now demo_srv) (s_world demo_srv) (s_fds demo_srv).

Lemma demo_get0_ok : demo_get0 = (fst (fst demo_get0), snd (fst demo_get0), Ok demo_fd).
Proof.
  assert (snd demo_get0 = Ok demo_fd) as <- by (vm_compute; reflexivity). by destruct demo_get0 as [[w fc] r].
Qed.

Definition demo_info : FileInfo := {| fi_Name := "."; fi_Size := 5; fi_Mode := 420; fi_ModTime := 0 |}.

Lemma demo_stat0 : f_Stat demo_fd (fst (fst demo_get0)) = Ok demo_info.
Proof. vm_compute. reflexivity. Qed.

Lemma demo_path0 : sandboxPath (Some demo_ca) "f" = Ok "/home/u/f".
Proof. vm_compute. reflexivity. Qed.

Lemma read_negative_size_panics_witness :
  s_panic (exec (read 0%nat (demo_read 0 (-1)) demo_ca) demo_srv) = true.
Proof.
  exact (proj1 (read_negative_size_panics 0%nat (demo_read 0 (-1)) demo_ca demo_srv "/home/u/f"
    (fst (fst demo_get0)) (snd (fst demo_get0)) demo_fd demo_info demo_path0 demo_get0_ok demo_stat0 eq_refl)).
Defined.

Lemma demo_get_inv : fd_inv demo_world (newFDCache 30).
Proof. apply fd_inv_new, demo_no_handles. Qed.

Lemma demo_get_ok : demo_get = (fst (fst demo_get), snd (fst demo_get), Ok demo_fd).
Proof.
  assert (snd demo_get = Ok demo_fd) as <- by (vm_compute; reflexivity). by destruct demo_get as [[w fc] r].
Qed.

Lemma get_gives_usable_descriptor_inv : fd_inv (fst (fst demo_get)) (snd (fst demo_get)).
Proof.
  exact (proj1 (get_correct "/home/u/f" false 0 demo_world (newFDCache 30) (fst (fst demo_get))
    (snd (fst demo_get)) (Ok demo_fd) demo_get_inv demo_get_ok)).
Qed.

Lemma get_gives_usable_descriptor_witness : fd_inv (fst (fst demo_get)) (snd (fst demo_get)).
Proof.
  destruct (get_gives_usable_descriptor "/home/u/f" false 0 demo_world (newFDCache 30)
              (fst (fst demo_get)) (snd (fst demo_get)) (snd demo_get) demo_get_inv) as [Hi _].
  - unfold demo_get. destruct (get _ _ _ _ _) as [[w fc] r]. reflexivity.
  - exact Hi.
Defined.

Lemma demo_entry_time : e_lastAccess <$> (files (snd (fst demo_get)) !! "/home/u/f") = Some 0.
Proof. vm_compute. reflexivity. Qed.

Lemma demo_entry_at : ∃ e, files (snd (fst demo_get)) !! "/home/u/f" = Some e ∧ 30 < 31 - e_lastAccess e.
Proof.
  destruct (proj1 (fmap_Some _ _ _) demo_entry_time) as (e & He & Ht). exists e. split; [exact He|]. lia.
Qed.

Lemma demo_timeout : idleTimeout (snd (fst demo_get)) = 30.
Proof. vm_compute. reflexivity. Qed.

(** The cache with one descriptor, swept at time 31 with the timeout 30. *)
Lemma sweep_closes_idle_witness :
  let '(w', fc') := sweep 31 (fst (fst demo_get)) (snd (fst demo_get)) in
  files fc' !! "/home/u/f" = None ∧ ∃ f, handle (fst (fst demo_get)) f ≠ None ∧ handle w' f = None.
Proof.
  destruct (sweep 31 (fst (fst demo_get)) (snd (fst demo_get))) as [w' fc'] eqn:E.
  destruct (sweep_closes_idle 31 (fst (fst demo_get)) (snd (fst demo_get)) w' fc'
              get_gives_usable_descriptor_inv E) as (_ & _ & Hc & _).
  destruct demo_entry_at as (e & He & Ht). rewrite demo_timeout in Hc.
  destruct (Hc "/home/u/f" e He Ht) as [Hn Hh]. split; [exact Hn|]. exists (e_file e). split; [|exact Hh].
  destruct (fi_open _ _ get_gives_usable_descriptor_inv _ _ He) as (i & Hi & _). rewrite Hi. discriminate.
Defined.

Lemma shared_descriptor_closed_under_user_witness :
  handle (fst (evict "/home/u/f" (fst (fst demo_get)) (snd (fst demo_get)))) demo_fd = None.
Proof.
  destruct (evict "/home/u/f" (fst (fst demo_get)) (snd (fst demo_get))) as [w2 fc2] eqn:E.
  exact (proj1 (proj1 (shared_descriptor_closed_under_user "/home/u/f" false 0 demo_world (newFDCache 30)
    (fst (fst demo_get)) (snd (fst demo_get)) demo_fd demo_get_inv demo_get_ok) w2 fc2 E)).
Defined.
