(* ===== verification/AuthSpec.v ===== *)
(** The properties of authentication, paths and chunk codecs, and of the event loop
    that feeds the server. *)
From S2P Require Import Prelude Message PlainCodec MessageSpec Receive GoStd GoHash OS MemFS Chunk Auth FdCache Server Hoare ServerStep ServerInv ServerData Demo.
From Stdlib Require Import Strings.Byte.

(** ** Keys and sessions *)

Section AuthProps.
  Context `{SSH, OS, UserDB} {LAWS : OSLaws}.

(** The user and home [findUserByPubKey] gives are backed by an
    [authorized_keys] file under that home, one of whose lines authorizes exactly
    the key that was asked for; with a hint, the user is the hint. *)
Theorem findUser_is_authorized key hint w w' user home :
  findUserByPubKey key hint w = (w', Ok (user, home)) →
  (∃ i d l k, at_path w (Join [home; ".ssh"; "authorized_keys"]) = Some i ∧ idata w i = Some d
     ∧ l ∈ scan_text d ∧ TrimSpace l ≠ "" ∧ HasPrefix (TrimSpace l) "#" = false
     ∧ ssh_ParseAuthorizedKey (TrimSpace l) = Ok k ∧ ssh_Marshal k = ssh_Marshal key)
  ∧ (hint ≠ "" → user = hint) ∧ same_files w w' ∧ quiet w w'.
Proof.
  intros Hf. destruct (findUser_sound _ _ _ _ _ _ Hf) as [(i & d & l & ? & ? & ? & k & ? & ? & ? & ?) Hh].
  split_and!; [by exists i, d, l, k|done|by eapply findUser_same|by eapply findUser_quiet].
Qed.

End AuthProps.

Lemma demo_find : findUserByPubKey (demo_key : @PublicKey toy_ssh) "u" demo_world
  = (fst (findUserByPubKey (demo_key : @PublicKey toy_ssh) "u" demo_world), Ok ("u", "/home/u")).
Proof.
  assert (snd (findUserByPubKey (demo_key : @PublicKey toy_ssh) "u" demo_world) = Ok ("u", "/home/u")) as <-
    by (vm_compute; reflexivity).
  by destruct (findUserByPubKey _ _ _).
Qed.

Lemma findUser_is_authorized_witness :
  "u" = "u" ∧ quiet demo_world (fst (findUserByPubKey (demo_key : @PublicKey toy_ssh) "u" demo_world)).
Proof.
  destruct (findUser_is_authorized (demo_key : @PublicKey toy_ssh) "u" demo_world _ "u" "/home/u" demo_find)
    as (_ & Hu & _ & Hq).
  split; [apply Hu; discriminate|exact Hq].
Defined.

Section Sessions.
  Context `{Cbor, GoFmt, OS, SSH, UserDB, Gzip, SecretBox, Rand} {LAWS : OSLaws}.

Lemma step_sessions s s' t i : step s s' → s_sessions s !! t = Some i → is_Some (s_sessions s' !! t).
Proof.
  intros Hst Ht.
  assert (neutral s s' → is_Some (s_sessions s' !! t)) as Hn by (intros [-> _]; by exists i).
  destruct Hst as [| |c cn s' a Hp Hc ? ? Htr| |[m payload c] b1 b2 Hp Hb| | | |]; try (by exists i).
  - pose proof (OnTraffic_iter_neutral c s) as [Hs _]. unfold exec in Hs. rewrite Htr in Hs. simpl in Hs.
    assert (is_Some (s_sessions s' !! t)) by (rewrite Hs; by exists i). by destruct a as [[]|].
  - set (s1 := set_queue (s_queue s) (b1 ++ b2) s) in *.
    destruct (decide (msg_Type m = AuthReqT)) as [Hty|Hty].
    2: { apply Hn. exact (process_neutral {| wm_msg := m; wm_payload := payload; wm_conn := c |} s1 Hty). }
    destruct m; try done. destruct (handleAuth_spec c m s1) as (ctx & ss & r & cl & Hrule & Hd).
    change (process _) with (handleAuth c m). rewrite (ad_sessions _ _ _ _ _ _ _ Hd).
    destruct Hrule; try (by exists i). rewrite sessions_lookup_insert. case_decide; [done|by exists i].
Qed.

(** A session token stays valid for as long as the server runs: no transition,
    however much time passes, removes it ([sessionTTL] is never consulted). *)
Theorem sessions_never_expire s s' t i :
  rtc step s s' → s_sessions s !! t = Some i → is_Some (s_sessions s' !! t).
Proof.
  intros Hr. revert i. induction Hr as [|s1 s2 s3 Hst _ IH]; intros i Hi; [by exists i|].
  destruct (step_sessions s1 s2 t i Hst Hi) as [i' Hi']. by eapply IH.
Qed.

End Sessions.

Definition demo_token : string := sessionTokenHex (rand_bytes 1 32).

Lemma demo_session_user : User <$> (s_sessions demo_run2 !! demo_token) = Some "u".
Proof. vm_compute. reflexivity. Qed.

Lemma demo_session : ∃ i, s_sessions demo_run2 !! demo_token = Some i.
Proof. destruct (proj1 (fmap_Some _ _ _) demo_session_user) as (i & Hi & _). by exists i. Qed.

(** A year later, in nanoseconds. *)
Definition demo_later : srv := set_env (s_draws demo_run2) 31536000000000000 (s_panic demo_run2) demo_run2.

Lemma demo_later_step : rtc step demo_run2 demo_later.
Proof. apply rtc_once. unfold demo_later. refine (step_tick demo_run2 _ _ _); vm_compute; congruence. Qed.

Lemma sessions_never_expire_witness : is_Some (s_sessions demo_later !! demo_token).
Proof.
  destruct demo_session as (i & Ht). exact (sessions_never_expire demo_run2 demo_later demo_token i demo_later_step Ht).
Defined.

(** ** Paths *)

Lemma sandboxPath_abs ca reqPath spath :
  IsAbs (ca_home ca) = true → sandboxPath (Some ca) reqPath = Ok spath →
  ∃ q, spath = Clean q ∧ IsAbs q = true.
Proof.
  unfold sandboxPath. intros Hh Hs. destruct (HasPrefix reqPath "~/"); [|destruct (IsAbs reqPath) eqn:Ha];
    injection Hs as <-.
  - exact (Join_abs (ca_home ca) [str_drop 2 reqPath] Hh).
  - by exists reqPath.
  - exact (Join_abs (ca_home ca) [reqPath] Hh).
Qed.

(** For a user with an absolute home directory, the path the server works on is
    absolute and cleaned (no ["."], no [".."], no double slash), whatever the client
    sent, and resolving it once more changes nothing. *)
Theorem sandboxPath_absolute ca reqPath spath :
  IsAbs (ca_home ca) = true → sandboxPath (Some ca) reqPath = Ok spath →
  (∃ l, spath = "/" +:+ StrJoin l slash ∧ Forall normal l)
  ∧ Clean spath = spath ∧ sandboxPath (Some ca) spath = Ok spath.
Proof.
  intros Hh Hs. destruct (sandboxPath_abs ca reqPath spath Hh Hs) as (q & -> & Hq).
  destruct (Clean_abs q Hq) as (l & Hl & Hn). split; [by exists l|]. split; [apply Clean_idemp|].
  assert (HasPrefix (Clean q) "~/" = false) as Hp by (by rewrite Hl).
  assert (IsAbs (Clean q) = true) as Ha by (rewrite Hl; by apply IsAbs_app).
  unfold sandboxPath. by rewrite Hp, Ha, Clean_idemp.
Qed.

Lemma sandboxPath_absolute_witness :
  ∃ l, sandboxPath (Some demo_ca) "~/../v//./x" = Ok ("/" +:+ StrJoin l slash) ∧ Forall normal l.
Proof.
  destruct (sandboxPath_absolute demo_ca "~/../v//./x" "/home/v/x" eq_refl ltac:(vm_compute; reflexivity))
    as ((l & Hl & Hn) & _).
  exists l. split; [rewrite <- Hl; vm_compute; reflexivity|exact Hn].
Defined.

(** Paths are resolved, not confined: a relative path can leave the home directory. *)
Example sandboxPath_leaves_home : sandboxPath (Some demo_ca) "../../etc/passwd" = Ok "/etc/passwd".
Proof. vm_compute. reflexivity. Qed.

(** ** Chunk codecs *)

(** What [compressChunk] gives is never longer than the data, [decompressChunk]
    with the algorithm it reports gives the data back, and it reports gzip only
    when that made the data shorter. *)
Theorem compress_roundtrip `{GzipOk} data algo out a :
  compressChunk data algo = Ok (out, a) →
  decompressChunk out a = Ok data ∧ zlen out <= zlen data
  ∧ (a = CompressionNone ∧ out = data ∨ a = CompressionGzip ∧ zlen out < zlen data).
Proof. apply decompress_compress. Qed.

Lemma compress_roundtrip_witness :
  decompressChunk [x01; x61; x04] CompressionGzip = Ok [x61; x61; x61; x61].
Proof.
  exact (proj1 (compress_roundtrip [x61; x61; x61; x61] CompressionGzip [x01; x61; x04] CompressionGzip eq_refl)).
Defined.

(** [decryptChunk] with the same key undoes [encryptChunk]; the encryption adds
    40 bytes (nonce and tag), and nothing to an empty chunk or without a key. *)
Theorem encrypt_roundtrip `{SecretBoxOk, RandOk} k data key out :
  encryptChunk (rand_bytes k 24) data key = Ok out →
  decryptChunk out key = Ok data
  ∧ zlen out = zlen data + (if bool_decide (key = None) || (zlen data =? 0) then 0 else 40).
Proof. intros He. apply (decrypt_encrypt _ _ _ _ He). intros n. apply rand_length. Qed.

Lemma encrypt_roundtrip_witness :
  ∃ out, decryptChunk out (Some [x07]) = Ok [x61; x62] ∧ zlen out = 42.
Proof.
  destruct (encryptChunk (rand_bytes 3 24) [x61; x62] (Some [x07])) as [out|e] eqn:E;
    [|vm_compute in E; discriminate].
  exists out. exact (encrypt_roundtrip 3 [x61; x62] (Some [x07]) out E).
Defined.

(** ** The event loop *)

Section Loop.
  Context `{CborOk, GoFmt, OS, SSH, UserDB, Gzip, SecretBox, Rand} {LAWS : OSLaws}.

(** The loop reads all the frames and leaves the rest. *)
Lemma OnTraffic_exact fs c s rest fuel :
  Forall (λ f, sendable f.1 f.2) fs → c_in (conn_at s c) = wire fs ++ rest →
  parse_frame rest = PIncomplete → (length fs < fuel)%nat →
  OnTraffic fuel c s = (Some gnet_None,
    set_queue (s_queue s ++ ((λ f, {| wm_msg := f.1; wm_payload := f.2; wm_conn := c |}) <$> fs)) (s_busy s)
      (upd_conn c (set_in rest) s)).
Proof.
  revert s fuel. induction fs as [|[m p] fs IH]; intros s fuel Hfs Hin Hrest Hfuel;
    (destruct fuel as [|fuel]; [simpl in Hfuel; lia|]); cbn [OnTraffic]; rewrite run_bind.
  - assert (OnTraffic_iter c s = (Some gnet_None, upd_conn c (set_in rest) s)) as Hit.
    { unfold OnTraffic_iter. rewrite Hin. change (wire [] ++ rest) with rest.
      rewrite (ReadMessage_parse (R:=conn_buf)). change (@unread conn_buf _ _ rest) with rest. by rewrite Hrest. }
    unfold eval, exec. rewrite Hit. cbn [fst snd fmap list_fmap]. rewrite app_nil_r. by destruct s.
  - apply Forall_cons in Hfs as [Hs Hfs]. simpl in Hs.
    set (s1 := set_queue (s_queue s ++ [{| wm_msg := m; wm_payload := p; wm_conn := c |}]) (s_busy s)
                 (upd_conn c (set_in (wire fs ++ rest)) s)).
    assert (OnTraffic_iter c s = (None, s1)) as Hit.
    { unfold OnTraffic_iter. rewrite Hin, (ReadMessage_conn _ (wire fs ++ rest) m p); [done|done|].
      unfold wire. simpl. by rewrite app_assoc. }
    unfold eval, exec. rewrite Hit. cbn [fst snd]. rewrite (IH s1 fuel); try done; [| |simpl in Hfuel; lia].
    + unfold s1, upd_conn. cbn -[conn_at]. f_equal.
      change (conn_at (set_queue _ _ ?x)) with (conn_at x).
      pose proof (conn_at_upd c (set_in (wire fs ++ rest)) s c) as Hc. rewrite decide_True in Hc by done.
      unfold upd_conn in Hc. unfold set_queue. cbn -[conn_at]. rewrite Hc.
      unfold set_conns. cbn -[conn_at]. by rewrite insert_insert_eq, <- app_assoc.
    + unfold s1. change (conn_at (set_queue _ _ ?x)) with (conn_at x). by rewrite conn_at_upd, decide_True.
Qed.

Lemma OnTraffic_frames fs c s rest fuel :
  Forall (λ f, sendable f.1 f.2) fs → c_in (conn_at s c) = wire fs ++ rest →
  parse_frame rest = PIncomplete → (length fs < fuel)%nat →
  ∃ s', OnTraffic fuel c s = (Some gnet_None, s')
    ∧ s_queue s' = s_queue s ++ ((λ f, {| wm_msg := f.1; wm_payload := f.2; wm_conn := c |}) <$> fs)
    ∧ c_in (conn_at s' c) = rest ∧ (∀ d, d ≠ c → conn_at s' d = conn_at s d)
    ∧ s_world s' = s_world s ∧ s_sessions s' = s_sessions s ∧ s_busy s' = s_busy s.
Proof.
  intros Hfs Hin Hrest Hfuel. eexists. split; [by apply OnTraffic_exact|].
  change (conn_at (set_queue _ _ ?x)) with (conn_at x). split; [done|]. split; [by rewrite conn_at_upd, decide_True|].
  split_and!; try done. intros d Hd. change (conn_at (set_queue _ _ ?x)) with (conn_at x).
  by rewrite conn_at_upd, decide_False.
Qed.

(** C24: when a connection's buffer holds a stream of frames followed by an unfinished
    one, [OnTraffic] hands the workers exactly those messages with their payloads,
    in order, keeps the unfinished bytes for later, and keeps the connection open;
    it needs one iteration per frame and one more. *)
Theorem OnTraffic_delivers fs last_msg last_payload partial missing c s :
  Forall (λ f, sendable f.1 f.2) fs → sendable last_msg last_payload →
  frame last_msg last_payload = partial ++ missing → missing ≠ [] →
  c_in (conn_at s c) = wire fs ++ partial →
  ∃ s', OnTraffic (S (length fs)) c s = (Some gnet_None, s')
    ∧ s_queue s' = s_queue s ++ ((λ f, {| wm_msg := f.1; wm_payload := f.2; wm_conn := c |}) <$> fs)
    ∧ c_in (conn_at s' c) = partial ∧ (∀ d, d ≠ c → conn_at s' d = conn_at s d)
    ∧ s_world s' = s_world s ∧ s_sessions s' = s_sessions s ∧ s_busy s' = s_busy s.
Proof.
  intros Hfs Hl Hf Hm Hin. apply OnTraffic_frames; try done; [|lia].
  by apply (parse_frame_prefix last_msg last_payload _ missing).
Qed.

End Loop.

Definition demo_conn_in : srv :=
  upd_conn 0%nat (set_in (wire [(MWriteReq demo_req, demo_payload)] ++ [xa8])) (newServer 4 demo_world 0).

Lemma OnTraffic_delivers_witness :
  ∃ s', OnTraffic 2 0%nat demo_conn_in = (Some gnet_None, s')
    ∧ s_queue s' = [{| wm_msg := MWriteReq demo_req; wm_payload := demo_payload; wm_conn := 0%nat |}].
Proof.
  destruct (OnTraffic_delivers [(MWriteReq demo_req, demo_payload)] (MWriteReq demo_req) demo_payload [xa8]
    (drop 1 (frame (MWriteReq demo_req) demo_payload)) 0%nat demo_conn_in) as (s' & Hr & Hq & _).
  - constructor; [exact demo_sendable|constructor].
  - exact demo_sendable.
  - reflexivity.
  - discriminate.
  - reflexivity.
  - exists s'. exact (conj Hr Hq).
Defined.
