(* ===== verification/Client.v ===== *)
(** The client ([src/client.go]): the remote calls.

    A call ([Create], [Write], [Read], [ReadDir], [Stat], [Hash]) builds one
    request, hands it to the hub (Hub.v) and waits for the response or the end of
    the context; that wait is the operation [call] of the interface [Transport], so
    the calls and the transfers built on them are generic in the network.  A call that
    is never taken by the hub ([ClientSpec.ended_call_never_returns]) has no outcome:
    the theorems about transfers are about runs whose calls return. *)
From S2P Require Import Prelude Message GoStd GoHash Chunk Hoare Server.
From Stdlib Require Import Strings.Byte.

(** ** The network, as the callers see it

    [call m p] submits the request [m] with payload [p] and gives the response and
    its payload, or the error of the context. *)
Class Transport := {
  net : Type;
  call : MSG → list byte → net → net * result (MSG * list byte);
}.

Definition clientWrappedMsg : Set := MSG * list byte.

(** The fields of [copierClient] the calls use; [cc_draws] counts the reads of
    [crypto/rand]. *)
Record client : Set := {
  cc_id : Z;
  cc_batch : Z;
  cc_useChecksum : bool;
  cc_useEncryption : bool;
  cc_authToken : string;
  cc_authUser : string;
  cc_encryptionKey : option (list byte);
  cc_draws : nat;
}.

Definition set_id (id : Z) (cc : client) : client :=
  {| cc_id := id; cc_batch := cc_batch cc; cc_useChecksum := cc_useChecksum cc;
     cc_useEncryption := cc_useEncryption cc; cc_authToken := cc_authToken cc; cc_authUser := cc_authUser cc;
     cc_encryptionKey := cc_encryptionKey cc; cc_draws := cc_draws cc |}.
Definition set_draws (k : nat) (cc : client) : client :=
  {| cc_id := cc_id cc; cc_batch := cc_batch cc; cc_useChecksum := cc_useChecksum cc;
     cc_useEncryption := cc_useEncryption cc; cc_authToken := cc_authToken cc; cc_authUser := cc_authUser cc;
     cc_encryptionKey := cc_encryptionKey cc; cc_draws := k |}.

Section Calls.
  Context `{Transport, Gzip, SecretBox, Rand}.

#[local] Notation M := (ST (client * net)).

Definition ask_cc {A} (f : client → A) : M A := λ s, (f (fst s), s).

(** [atomic.AddInt64(&cc.id, 1)]. *)
Definition genMsgID : M Z := λ '(cc, n),
  let id := i64 (cc_id cc + 1) in (id, (set_id id cc, n)).

Definition client_rand (len : nat) : M (result (list byte)) := λ '(cc, n),
  (rand_bytes (cc_draws cc) len, (set_draws (S (cc_draws cc)) cc, n)).

Definition submit (m : MSG) (p : list byte) : M (result clientWrappedMsg) := λ '(cc, n),
  let '(n, r) := call m p n in (r, (cc, n)).

Definition Create (target : string) (size mode : Z) : M (result clientWrappedMsg) :=
  id ← genMsgID;
  submit (MCreateReq {| CreateReq.ID := id; CreateReq.Size := size; CreateReq.Mode := u32 mode;
                        CreateReq.Path := target; CreateReq.IsDir := false |}) [].

(** The end of [Write]: the request around the bytes to send. *)
Definition write_submit (target : string) (off : Z) (toSend : list byte) (algo encAlgo : Z)
    : M (result clientWrappedMsg) :=
  id ← genMsgID;
  useChecksum ← ask_cc cc_useChecksum;
  let checksum := if useChecksum && (0 <? zlen toSend) then ChecksumIEEE toSend else 0 in
  submit (MWriteReq {| WriteReq.ID := id; WriteReq.Path := target; WriteReq.Offset := off;
                       WriteReq.Checksum := checksum; WriteReq.Compression := algo;
                       WriteReq.Encryption := encAlgo |}) toSend.

Definition Write (target : string) (off : Z) (payload : list byte) (compressionAlgo : Z)
    : M (result clientWrappedMsg) :=
  match compressChunk payload compressionAlgo with
  | Err err => mret (Err err)
  | Ok (compressed, algo) =>
    useEncryption ← ask_cc cc_useEncryption;
    if useEncryption : bool then
      key ← ask_cc cc_encryptionKey;
      nonce ← client_rand 24;
      match encryptChunk nonce compressed key with
      | Err err => mret (Err err)
      | Ok encrypted => write_submit target off encrypted algo EncryptionSecretBox
      end
    else write_submit target off compressed algo EncryptionNone
  end.

Definition Read (target : string) (off size compressionAlgo : Z) : M (result clientWrappedMsg) :=
  useEncryption ← ask_cc cc_useEncryption;
  let encAlgo := if useEncryption : bool then EncryptionSecretBox else EncryptionNone in
  id ← genMsgID;
  submit (MReadReq {| ReadReq.ID := id; ReadReq.Path := target; ReadReq.Offset := off; ReadReq.Size := size;
                      ReadReq.Compression := compressionAlgo; ReadReq.Encryption := encAlgo |}) [].

Definition ReadDir (target : string) : M (result clientWrappedMsg) :=
  id ← genMsgID;
  submit (MReadDirReq {| ReadDirReq.ID := id; ReadDirReq.Path := target |}) [].

Definition Stat (target : string) : M (result clientWrappedMsg) :=
  id ← genMsgID;
  submit (MStatReq {| StatReq.ID := id; StatReq.Path := target |}) [].

Definition Hash (target : string) : M (result clientWrappedMsg) :=
  id ← genMsgID;
  submit (MHashReq {| HashReq.ID := id; HashReq.Path := target |}) [].

End Calls.

(** ** What a call to [Write] puts on the wire *)

Section WriteCall.
  Context `{Transport, GzipOk, SecretBoxOk, RandOk}.

(** What the server decodes from the request of [write_submit]. *)
Lemma write_payload_ok req toSend algo ca z data :
  WriteReq.Checksum req = 0 ∨ WriteReq.Checksum req = ChecksumIEEE toSend →
  WriteReq.Compression req = algo → decompressChunk z algo = Ok data →
  (WriteReq.Encryption req = EncryptionNone ∧ toSend = z
   ∨ WriteReq.Encryption req = EncryptionSecretBox ∧ decryptChunk toSend (ca_encryptionKey ca) = Ok z) →
  write_payload req toSend ca = Ok data.
Proof.
  intros Hc <- Hz He. unfold write_payload.
  assert (negb (WriteReq.Checksum req =? 0) && negb (ChecksumIEEE toSend =? WriteReq.Checksum req) = false) as ->.
  { destruct Hc as [->| ->]; [done|]. by rewrite Z.eqb_refl, andb_false_r. }
  destruct He as [[-> ->]|[-> He]]; simpl; [done|]. by rewrite He.
Qed.

(** The outcome of [Write]: an error before anything is sent, or one request, from
    which a server that holds the same key recovers the data. *)
Definition write_called (target : string) (off : Z) (data : list byte) (cc : client) (n : net)
    (r : result clientWrappedMsg) (s' : client * net) : Prop :=
  (∃ e, r = Err e ∧ snd s' = n ∧ cc_id (fst s') = cc_id cc)
  ∨ ∃ req p, WriteReq.Path req = target ∧ WriteReq.Offset req = off
      ∧ WriteReq.ID req = i64 (cc_id cc + 1) ∧ cc_id (fst s') = WriteReq.ID req
      ∧ call (MWriteReq req) p n = (snd s', r) ∧ zlen p <= zlen data + 40
      ∧ (∀ ca, ca_encryptionKey ca = cc_encryptionKey cc → write_payload req p ca = Ok data).

Lemma write_submit_called target off data z toSend algo enc cc cc' n :
  cc_id cc' = cc_id cc → zlen toSend <= zlen data + 40 → decompressChunk z algo = Ok data →
  (enc = EncryptionNone ∧ toSend = z
   ∨ enc = EncryptionSecretBox ∧ decryptChunk toSend (cc_encryptionKey cc) = Ok z) →
  wp (write_submit target off toSend algo enc) (λ r s', write_called target off data cc n r s') (cc', n).
Proof.
  intros Hid Hlen Hz He. unfold write_submit, wp.
  destruct (call (MWriteReq {| WriteReq.ID := i64 (cc_id cc' + 1); WriteReq.Path := target; WriteReq.Offset := off;
    WriteReq.Checksum := if cc_useChecksum cc' && (0 <? zlen toSend) then ChecksumIEEE toSend else 0;
    WriteReq.Compression := algo; WriteReq.Encryption := enc |}) toSend n) as [n' r] eqn:Hcall.
  assert (write_submit target off toSend algo enc (cc', n) = (r, (set_id (i64 (cc_id cc' + 1)) cc', n'))) as Hrun.
  { unfold write_submit. rewrite run_bind. unfold genMsgID, eval, exec. cbn [fst snd]. rewrite run_bind.
    unfold ask_cc, eval, exec. cbn [fst snd]. unfold submit. cbn [cc_useChecksum set_id]. by rewrite Hcall. }
  unfold eval, exec. fold (write_submit target off toSend algo enc). rewrite Hrun. cbn [fst snd].
  right. eexists _, toSend. rewrite <- Hid. split_and!; [..|exact Hcall|done|]; try done.
  intros ca Hca. apply (write_payload_ok _ _ algo ca z data); try done.
  - simpl. destruct (_ && _); [by right|by left].
  - simpl. rewrite Hca. by destruct He as [[-> ->]|[-> He]]; [left|right].
Qed.

Lemma Write_called target off data algo cc n :
  wp (Write target off data algo) (λ r s', write_called target off data cc n r s') (cc, n).
Proof.
  unfold Write. destruct (compressChunk data algo) as [[z a]|e] eqn:Hz; [|apply wp_ret; left; by exists e].
  destruct (decompress_compress _ _ _ _ Hz) as (Hdz & Hlen & _).
  apply wp_bind. change (ask_cc cc_useEncryption (cc, n)) with (cc_useEncryption cc, (cc, n)).
  unfold wp at 1, ask_cc, eval, exec. cbn [fst snd]. destruct (cc_useEncryption cc).
  2: { apply write_submit_called with (z := z); try done; [lia|by left]. }
  apply wp_bind. unfold wp at 1, ask_cc, eval, exec. cbn [fst snd].
  apply wp_bind. unfold wp at 1, client_rand, eval, exec. cbn [fst snd].
  destruct (encryptChunk _ z _) as [out|e] eqn:He; [|apply wp_ret; left; by exists e].
  destruct (decrypt_encrypt _ _ _ _ He) as [Hdec Hol]; [intros nn; apply rand_length|].
  apply write_submit_called with (z := z); try done; [|by right].
  rewrite Hol. destruct (_ || _); lia.
Qed.

End WriteCall.
