(* ===== verification/Hub.v ===== *)
(** The message hub of the client ([src/client.go], [processMsg]), its callers and the
    connections' senders ([handleSend]), as a transition system.

    A caller is a number.  It blocks on [cc.msgIn <-] ([h_calling]), then on its own channel
    or the end of the context ([h_waiting]).  The hub blocks on [cc.sendHandle <-] and on a
    caller's channel; it looks at the context between messages only. *)
From S2P Require Import Prelude Message Client.

(** [HSending] and [HDelivering] are the two places where the hub blocks on an unbuffered
    channel. *)
Inductive hub_state : Set :=
  | HIdle
  | HSending (m : clientWrappedMsg)
  | HDelivering (waiter : nat) (m : clientWrappedMsg)
  | HReturned.

Record hub : Set := {
  h_state : hub_state;
  h_done : bool;                              (* the context has ended *)
  h_resCache : gmap Z nat;                    (* request ID to the caller's channel *)
  h_calling : gmap nat clientWrappedMsg;      (* callers blocked on msgIn, and their request *)
  h_waiting : gmap nat Z;                     (* callers in their select, and the ID they wait for *)
  h_wire : list clientWrappedMsg;             (* requests written to some connection *)
  h_answers : list (nat * clientWrappedMsg);  (* what each caller received, oldest first *)
}.

Definition hub_init : hub :=
  {| h_state := HIdle; h_done := false; h_resCache := ∅; h_calling := ∅; h_waiting := ∅; h_wire := []; h_answers := [] |}.

Definition set_state (s : hub_state) (h : hub) : hub :=
  {| h_state := s; h_done := h_done h; h_resCache := h_resCache h; h_calling := h_calling h;
     h_waiting := h_waiting h; h_wire := h_wire h; h_answers := h_answers h |}.

(** A caller reaches [cc.msgIn <-]. *)
Definition hub_call (w : nat) (m : clientWrappedMsg) (h : hub) : hub :=
  {| h_state := h_state h; h_done := h_done h; h_resCache := h_resCache h; h_calling := <[w := m]> (h_calling h);
     h_waiting := h_waiting h; h_wire := h_wire h; h_answers := h_answers h |}.

(** [case msg := <-cc.msgIn]: the hub takes a caller's request. *)
Definition hub_submit (w : nat) (m : clientWrappedMsg) (h : hub) : hub :=
  {| h_state := HSending m; h_done := h_done h; h_resCache := <[msg_GetID (fst m) := w]> (h_resCache h);
     h_calling := delete w (h_calling h); h_waiting := <[w := msg_GetID (fst m)]> (h_waiting h);
     h_wire := h_wire h; h_answers := h_answers h |}.

(** [cc.sendHandle <- msg], taken by a [handleSend] whose write succeeds or fails. *)
Definition hub_sent (ok : bool) (m : clientWrappedMsg) (h : hub) : hub :=
  {| h_state := HIdle; h_done := h_done h; h_resCache := h_resCache h; h_calling := h_calling h;
     h_waiting := h_waiting h; h_wire := if ok then h_wire h ++ [m] else h_wire h; h_answers := h_answers h |}.

(** [case wmsg := <-cc.receiveHandle]: a response arrives. *)
Definition hub_receive (m : clientWrappedMsg) (h : hub) : hub :=
  set_state match h_resCache h !! msg_GetID (fst m) with
            | Some w => HDelivering w m | None => HIdle end h.

(** [ch <- wmsg], taken by its caller, and [delete(resCache, key)]. *)
Definition hub_deliver (w : nat) (m : clientWrappedMsg) (h : hub) : hub :=
  {| h_state := HIdle; h_done := h_done h; h_resCache := delete (msg_GetID (fst m)) (h_resCache h);
     h_calling := h_calling h; h_waiting := delete w (h_waiting h); h_wire := h_wire h;
     h_answers := h_answers h ++ [(w, m)] |}.

(** [case <-cc.ctx.Done()] of a caller: it returns [ctx.Err()]. *)
Definition hub_leave (w : nat) (h : hub) : hub :=
  {| h_state := h_state h; h_done := h_done h; h_resCache := h_resCache h; h_calling := h_calling h;
     h_waiting := delete w (h_waiting h); h_wire := h_wire h; h_answers := h_answers h |}.

(** The context ends. *)
Definition hub_end (h : hub) : hub :=
  {| h_state := h_state h; h_done := true; h_resCache := h_resCache h; h_calling := h_calling h;
     h_waiting := h_waiting h; h_wire := h_wire h; h_answers := h_answers h |}.

(** A caller makes one call at a time, with an ID of its own ([genMsgID]). *)
Definition may_call (w : nat) (m : clientWrappedMsg) (h : hub) : Prop :=
  h_calling h !! w = None ∧ h_waiting h !! w = None ∧ h_resCache h !! msg_GetID (fst m) = None ∧
  ∀ v k, h_calling h !! v = Some k → msg_GetID (fst k) ≠ msg_GetID (fst m).

Inductive hub_step (h : hub) : hub → Prop :=
  | hub_step_call w m : may_call w m h → hub_step h (hub_call w m h)
  | hub_step_submit w m : h_state h = HIdle → h_calling h !! w = Some m → hub_step h (hub_submit w m h)
  | hub_step_sent ok m : h_state h = HSending m → hub_step h (hub_sent ok m h)
  | hub_step_receive m : h_state h = HIdle → hub_step h (hub_receive m h)
  | hub_step_deliver w m : h_state h = HDelivering w m → h_waiting h !! w = Some (msg_GetID (fst m)) →
      hub_step h (hub_deliver w m h)
  | hub_step_leave w i : h_done h = true → h_waiting h !! w = Some i → hub_step h (hub_leave w h)
  | hub_step_end : hub_step h (hub_end h)
  | hub_step_return : h_state h = HIdle → h_done h = true → hub_step h (set_state HReturned h).

(** ** Invariant *)

(** The cache has the waiting callers, and until the context ends nobody else; the callers
    on [msgIn] have IDs of their own. *)
Record hub_inv (h : hub) : Prop := {
  hi_cached w i : h_waiting h !! w = Some i → h_resCache h !! i = Some w;
  hi_waits w i : h_resCache h !! i = Some w → h_done h = false → h_waiting h !! w = Some i;
  hi_deliver w m : h_state h = HDelivering w m → h_resCache h !! msg_GetID (fst m) = Some w;
  hi_one w m : h_calling h !! w = Some m → h_waiting h !! w = None;
  hi_fresh w m : h_calling h !! w = Some m → h_resCache h !! msg_GetID (fst m) = None;
  hi_apart w v m k : h_calling h !! w = Some m → h_calling h !! v = Some k →
    msg_GetID (fst m) = msg_GetID (fst k) → w = v;
}.

Lemma hub_inv_init : hub_inv hub_init.
Proof. split; intros; simpl in *; rewrite ?lookup_empty in *; congruence. Qed.

Lemma hub_call_inv w m h : hub_inv h → may_call w m h → hub_inv (hub_call w m h).
Proof.
  intros [Hc Hw Hd Ho Hf Ha] (Hn & Hnw & Hnr & Hne). split; simpl; try done.
  - intros v k. rewrite lookup_insert_Some. intros [[-> ->]|[_ Hv]]; [done|by eapply Ho].
  - intros v k. rewrite lookup_insert_Some. intros [[-> ->]|[_ Hv]]; [done|by eapply Hf].
  - intros v u k l. rewrite !lookup_insert_Some. intros [[-> ->]|[_ Hv]] [[-> ->]|[_ Hu]] E; try done.
    + by destruct (Hne _ _ Hu).
    + by destruct (Hne _ _ Hv).
    + by eapply Ha.
Qed.

Lemma hub_submit_inv w m h : hub_inv h → h_state h = HIdle → h_calling h !! w = Some m → hub_inv (hub_submit w m h).
Proof.
  intros [Hc Hw Hd Ho Hf Ha] Hs Hm. pose proof (Ho _ _ Hm) as Hnw. pose proof (Hf _ _ Hm) as Hnr. split; simpl; try done.
  - intros v i. rewrite !lookup_insert_Some. intros [[-> ->]|[Hne Hv]]; [by left|]. right.
    apply Hc in Hv. split; [congruence|done].
  - intros v i. rewrite !lookup_insert_Some. intros [[-> ->]|[Hne Hv]] Hl; [by left|]. right.
    specialize (Hw _ _ Hv Hl). split; [congruence|done].
  - intros v k. rewrite lookup_delete_Some. intros [Hne Hv]. rewrite lookup_insert_ne by done. by eapply Ho.
  - intros v k. rewrite lookup_delete_Some. intros [Hne Hv]. rewrite lookup_insert_ne; [by eapply Hf|].
    intros E. apply Hne. by eapply Ha.
  - intros v u k l. rewrite !lookup_delete_Some. intros [_ Hv] [_ Hu]. by eapply Ha.
Qed.

Lemma hub_deliver_inv w m h : hub_inv h → h_state h = HDelivering w m → hub_inv (hub_deliver w m h).
Proof.
  intros [Hc Hw Hd Ho Hf Ha] Hs. pose proof (Hd _ _ Hs) as Hcw. split; simpl; try done.
  - intros v i. rewrite !lookup_delete_Some. intros [Hne Hv]. apply Hc in Hv. split; [congruence|done].
  - intros v i. rewrite !lookup_delete_Some. intros [Hne Hv] Hl. specialize (Hw _ _ Hcw Hl) as Hww.
    specialize (Hw _ _ Hv Hl). split; [congruence|done].
  - intros v k Hv. apply lookup_delete_None. right. by eapply Ho.
  - intros v k Hv. apply lookup_delete_None. right. by eapply Hf.
Qed.

Lemma hub_step_inv h h' : hub_inv h → hub_step h h' → hub_inv h'.
Proof.
  intros Hi Hst. destruct Hst as [w m Hm|w m Hs Hm|ok m Hs|m Hs|w m Hs Hw|w i Hd Hw| |Hs Hd].
  - by apply hub_call_inv.
  - by apply hub_submit_inv.
  - destruct Hi. by split.
  - destruct Hi as [Hc Hw Hd Ho Hf Ha]. split; simpl; try done. intros w k. by destruct (h_resCache h !! _) eqn:E; intros [= -> ->].
  - by apply hub_deliver_inv.
  - destruct Hi as [Hc Hw' Hd' Ho Hf Ha]. split; simpl; try done; try congruence.
    + intros v j. rewrite lookup_delete_Some. intros [_ Hv]. by apply Hc.
    + intros v k Hv. apply lookup_delete_None. right. by eapply Ho.
  - destruct Hi. by split.
  - destruct Hi. by split.
Qed.

Lemma hub_reachable_inv h : rtc hub_step hub_init h → hub_inv h.
Proof.
  apply (rtc_ind_r (λ h, hub_inv h)); [apply hub_inv_init|]. intros h1 h2 _ Hs Hi. by eapply hub_step_inv.
Qed.

(** Once the context has ended it stays so. *)
Lemma hub_done_step h h' : hub_step h h' → h_done h = true → h_done h' = true.
Proof. by destruct 1. Qed.

Lemma hub_live_before h h' : rtc hub_step h h' → h_done h' = false → h_done h = false.
Proof.
  induction 1 as [|h1 h2 h3 Hst _ IH]; [done|]. intros Hd. destruct (h_done h1) eqn:E; [|done].
  apply (hub_done_step _ _ Hst) in E. by rewrite IH in E.
Qed.

(** ** A network that invents nothing *)

(** A step of the hub with a server that answers requests it was sent: a response the hub
    takes up has the ID of a request on the wire. *)
Definition honest_step (h h' : hub) : Prop :=
  hub_step h h' ∧ ∀ w r, h_state h = HIdle → h_state h' = HDelivering w r →
    ∃ k, k ∈ h_wire h ∧ msg_GetID (fst k) = msg_GetID (fst r).

(** The caller [w] has a request of ID [i] that the hub no longer has and no connection ever
    had; [l] are the answers at the time. *)
Record hub_lost (w : nat) (i : Z) (l : list (nat * clientWrappedMsg)) (h : hub) : Prop := {
  lo_wire k : k ∈ h_wire h → msg_GetID (fst k) ≠ i;
  lo_sending k : h_state h = HSending k → msg_GetID (fst k) ≠ i;
  lo_delivering v r : h_state h = HDelivering v r → msg_GetID (fst r) ≠ i;
  lo_cached : h_resCache h !! i = Some w;
  lo_answers v r : (v, r) ∈ h_answers h → msg_GetID (fst r) = i → (v, r) ∈ l;
}.

Lemma hub_lost_step w i l h h' : hub_inv h → honest_step h h' → hub_lost w i l h → hub_lost w i l h'.
Proof.
  intros Hi [Hst Hnet] [Lw Ls Ld Lc La].
  destruct Hst as [v k _|v k Hs Hk|ok k Hs|k Hs|v k Hs Hv|v k Hd Hv| |Hs Hd]; try by split.
  - assert (msg_GetID (fst k) ≠ i) as Hne by (intros <-; apply (hi_fresh _ Hi) in Hk; congruence).
    split; simpl; try done; [by intros ? [= <-]|by rewrite lookup_insert_ne].
  - split; simpl; try done. intros k'. destruct ok; [|apply Lw].
    intros [Hin| ->%list_elem_of_singleton]%elem_of_app; [by apply Lw|by apply Ls].
  - split; simpl; try done; [by intros k'; case_match|].
    intros v r Hv. simpl in Hnet. destruct (Hnet v r Hs Hv) as (q & Hq & <-). by apply Lw.
  - split; simpl; try done; [rewrite lookup_delete_ne; [done|by eapply Ld]|].
    intros u r [Hin|Heq%list_elem_of_singleton]%elem_of_app E; [by apply La|]. simplify_eq. by destruct (Ld v k Hs).
Qed.

Lemma hub_lost_run w i l h h' : rtc hub_step hub_init h → rtc honest_step h h' → hub_lost w i l h →
  rtc hub_step hub_init h' ∧ hub_lost w i l h'.
Proof.
  intros Hr. induction 1 as [|h1 h2 h3 Hst _ IH]; [done|]. intros Hl. apply IH; [by eapply rtc_r; [|apply Hst]|].
  eapply hub_lost_step; [by apply hub_reachable_inv|done..].
Qed.
