(* ===== verification/ClientAuth.v ===== *)
(** The client's side of the authentication: the user's SSH setup ([src/auth.go]:
    [sshConfigLookup], [clientSigner] and the signers it tries) and the connections
    ([src/client.go]: [newClient], [dialAndAuth], [tokenAuth], [runConn]).

    The SSH packages are the parameters [SshConfig] and [SSHClient], the user's
    environment is [ClientEnv].  A TCP connection is reached through the interface
    [Dialer]: what is written goes to the other end at once, and [tconn_bytes] is what the
    connection will deliver before it ends or the other end waits for more; [readResp] is
    the one of Receive.v, on those bytes. *)
From S2P Require Import Prelude Message Receive GoStd OS Auth Chunk Server Client.
From Stdlib Require Import Ascii Strings.Byte.

(** [os] and [os/user], as far as they look at the environment. *)
Class ClientEnv := {
  os_UserHomeDir : result string;
  os_Getenv : string → string;
  os_ExpandEnv : string → string;
  user_Current : result string;
}.

(** [github.com/kevinburke/ssh_config] *)
Class SshConfig := {
  Config : Type;
  ssh_config_Decode : list byte → result Config;
  cfg_Get : Config → string → string → result string;
}.

(** What the client uses of [golang.org/x/crypto/ssh] and its [agent]. *)
Class SSHClient `{SSH} := {
  Signer : Type;
  signer_PublicKey : Signer → PublicKey;
  signer_Sign : Signer → list byte → result Signature;
  ssh_ParsePrivateKey : list byte → result Signer;
  ssh_MarshalSignature : Signature → list byte;   (* ssh.Marshal(sig) *)
  agent_Dial : string → option error;             (* net.Dial("unix", socket) *)
  agent_Signers : string → result (list Signer);
}.

(** The documented laws of the two halves of the SSH package. *)
Class SSHClientOk `{SSHClient} : Prop := {
  ssh_parse_marshal k : ssh_ParsePublicKey (ssh_Marshal k) = Ok k;
  ssh_marshal_nonempty k : ssh_Marshal k ≠ [];
  ssh_signature_roundtrip sig : ssh_UnmarshalSignature (ssh_MarshalSignature sig) = Ok sig;
  ssh_signature_nonempty sig : ssh_MarshalSignature sig ≠ [];
  ssh_sign_verify s ch sig : signer_Sign s ch = Ok sig → ssh_Verify (signer_PublicKey s) ch sig = None;
}.

Section Files.
  Context `{OS}.

(** [os.ReadFile]. *)
Definition os_ReadFile (p : string) (w : world) : world * result (list byte) :=
  match os_OpenFile p O_RDONLY 0 w with
  | (w, Err e) => (w, Err e)
  | (w, Ok f) =>
    let '(w, r) := f_ReadRest f w in
    let '(w, _) := f_Close f w in (w, r)
  end.

Lemma os_ReadFile_same `{!OSLaws} p w w' r : os_ReadFile p w = (w', r) → same_files w w'.
Proof.
  unfold os_ReadFile. destruct (os_OpenFile _ _ _ w) as [w1 [f|e]] eqn:E1; [|intros ?; simplify_eq; by eapply open_err_same].
  destruct (f_ReadRest f w1) as [w2 d] eqn:E2. destruct (f_Close f w2) as [w3 e] eqn:E3. intros ?; simplify_eq.
  etrans; [by eapply open_same; [| |exact E1]|]. etrans; [by eapply rest_same|by eapply close_same].
Qed.
End Files.

(** ** The SSH configuration *)

Record sshConfigEntry : Set := {
  sc_Host : string;
  sc_HostName : string;
  sc_User : string;
  sc_IdentityFile : string;
}.

Section Config.
  Context `{OS, ClientEnv, SshConfig}.

(** [if v, err := cfg.Get(host, key); err == nil && v != ""]: the value, or empty. *)
Definition cfg_value (cfg : Config) (host key : string) : string :=
  match cfg_Get cfg host key with Ok v => v | Err _ => "" end.

(** [~] and relative paths, relative to [~/.ssh]. *)
Definition expand_identity (home v : string) : string :=
  let expanded := os_ExpandEnv v in
  if HasPrefix expanded "~/" then GoStd.Join [home; str_drop 2 expanded]
  else if negb (IsAbs expanded) then GoStd.Join [home; ".ssh"; expanded]
  else expanded.

Definition sshConfigLookup (host : string) (w : world) : world * option sshConfigEntry :=
  match os_UserHomeDir with
  | Err _ => (w, None)
  | Ok home =>
    match os_ReadFile (GoStd.Join [home; ".ssh"; "config"]) w with
    | (w, Err _) => (w, None)
    | (w, Ok d) =>
      match ssh_config_Decode d with
      | Err _ => (w, None)
      | Ok cfg =>
        let v := cfg_value cfg host "IdentityFile" in
        (w, Some {| sc_Host := host; sc_HostName := cfg_value cfg host "HostName";
                    sc_User := cfg_value cfg host "User";
                    sc_IdentityFile := if bool_decide (v = "") then "" else expand_identity home v |})
      end
    end
  end.

(** The configuration is only read. *)
Lemma sshConfigLookup_same `{!OSLaws} host w w' r : sshConfigLookup host w = (w', r) → same_files w w'.
Proof.
  unfold sshConfigLookup. destruct os_UserHomeDir; [|by intros [= <- <-]].
  destruct (os_ReadFile _ w) as [w1 [d|e]] eqn:E; apply os_ReadFile_same in E; [|by intros [= <- <-]].
  by destruct (ssh_config_Decode d); intros [= <- <-].
Qed.
End Config.

(** ** The signer *)

Section Signers.
  Context `{OS, ClientEnv, SSHClient}.

Definition sshAgentSigner : result (Signer * PublicKey) :=
  let socket := os_Getenv "SSH_AUTH_SOCK" in
  if bool_decide (socket = "") then Err (Errorf "SSH_AUTH_SOCK not set" []) else
  match agent_Dial socket with
  | Some err => Err (Wrapf "ssh-agent dial: %w" [] err)
  | None =>
    match agent_Signers socket with
    | Ok (s :: _) => Ok (s, signer_PublicKey s)
    | _ => Err (Errorf "no keys in ssh-agent" [])
    end
  end.

(** The loop over the candidates: the first that reads and parses. *)
Fixpoint first_key (candidates : list string) (w : world) : world * option Signer :=
  match candidates with
  | [] => (w, None)
  | p :: candidates =>
    match os_ReadFile p w with
    | (w, Err _) => first_key candidates w
    | (w, Ok keyBytes) =>
      match ssh_ParsePrivateKey keyBytes with
      | Err _ => first_key candidates w
      | Ok signer => (w, Some signer)
      end
    end
  end.

Definition privateKeySigner (w : world) : world * result (Signer * PublicKey) :=
  match os_UserHomeDir with
  | Err err => (w, Err err)
  | Ok home =>
    match first_key ((λ n, GoStd.Join [home; ".ssh"; n]) <$> ["id_ed25519"; "id_rsa"; "id_ecdsa"]) w with
    | (w, Some signer) => (w, Ok (signer, signer_PublicKey signer))
    | (w, None) => (w, Err (Errorf "no private key found in %s/.ssh" [inl home]))
    end
  end.

Definition privateKeyFileSigner (path : string) (w : world) : world * result (Signer * PublicKey) :=
  match os_ReadFile path w with
  | (w, Err err) => (w, Err (Wrapf "read identity file %q: %w" [inl path] err))
  | (w, Ok keyBytes) =>
    match ssh_ParsePrivateKey keyBytes with
    | Err err => (w, Err (Wrapf "parse identity file %q: %w" [inl path] err))
    | Ok signer => (w, Ok (signer, signer_PublicKey signer))
    end
  end.

Definition clientSigner (identityFile : string) (w : world) : world * result (Signer * PublicKey) :=
  if negb (bool_decide (identityFile = "")) then privateKeyFileSigner identityFile w else
  match sshAgentSigner with
  | Ok r => (w, Ok r)
  | Err _ =>
    match privateKeySigner w with
    | (w, Ok r) => (w, Ok r)
    | (w, Err _) => (w, Err (Errorf "no SSH key available (try ssh-agent or add a key to ~/.ssh/id_{ed25519,rsa,ecdsa})" []))
    end
  end.

(** The public key a signer comes with is its own. *)
Lemma clientSigner_key idf w w' s pk : clientSigner idf w = (w', Ok (s, pk)) → pk = signer_PublicKey s.
Proof.
  unfold clientSigner, privateKeyFileSigner, privateKeySigner, sshAgentSigner.
  repeat (case_match; simplify_eq/=; try done); naive_solver.
Qed.
End Signers.

(** ** Connections *)

Class Dialer := {
  dnet : Type;
  tconn : Type;
  net_Dial : string → dnet → dnet * result tconn;
  tconn_Write : tconn → list byte → dnet → dnet * option error;
  tconn_bytes : tconn → dnet → list byte;
  tconn_rest : tconn → list byte → dnet → dnet;   (* what is left to read *)
  tconn_Close : tconn → dnet → dnet;
}.

Section Dial.
  Context `{Cbor, Dialer, OS, ClientEnv, SSHClient}.

(** [message.WriteMessage(conn, msg, nil)]. *)
Definition tconn_send (c : tconn) (msg : MSG) (n : dnet) : dnet * option error :=
  @WriteMessage dnet _ (λ n b, tconn_Write c b n) n msg [].

(** [readResp(conn)]. *)
Definition tconn_readResp (c : tconn) (n : dnet) : dnet * result MSG :=
  let '(rest, r) := readResp (tconn_bytes c n) in (tconn_rest c rest n, r).

Definition auth_req (id : Z) (user : string) (pubKey signature : list byte) (token : string) : MSG :=
  MAuthReq {| AuthReq.ID := id; AuthReq.User := user; AuthReq.PubKey := pubKey;
              AuthReq.Signature := signature; AuthReq.Token := token |}.

Definition set_session (token user : string) (key : option (list byte)) (cc : client) : client :=
  {| cc_id := cc_id cc; cc_batch := cc_batch cc; cc_useChecksum := cc_useChecksum cc;
     cc_useEncryption := cc_useEncryption cc; cc_authToken := token; cc_authUser := user;
     cc_encryptionKey := key; cc_draws := cc_draws cc |}.

(** Step 2 of [dialAndAuth]: the challenge signed, and the verdict. *)
Definition answer_challenge (cc : client) (signer : Signer) (pubKey : PublicKey) (conn : tconn)
    (challenge : list byte) (n : dnet) : dnet * result client :=
  match signer_Sign signer challenge with
  | Err err => (n, Err (Wrapf "auth sign challenge: %w" [] err))
  | Ok sig =>
    match tconn_send conn (auth_req 2 (cc_authUser cc) (ssh_Marshal pubKey) (ssh_MarshalSignature sig) "") n with
    | (n, Some err) => (n, Err (Wrapf "auth send signature: %w" [] err))
    | (n, None) =>
      match tconn_readResp conn n with
      | (n, Err err) => (n, Err (Wrapf "auth recv result: %w" [] err))
      | (n, Ok (MAuthRes authRes)) =>
        if AuthRes.Success authRes then
          (n, Ok (set_session (AuthRes.Token authRes) (AuthRes.User authRes) (deriveEncryptionKey pubKey) cc))
        else (n, Err (Errorf "auth: %s"
                        [inl (if bool_decide (AuthRes.Error authRes = "") then "auth denied" else AuthRes.Error authRes)]))
      | (n, Ok _) => (n, Err (Errorf "auth: %s" [inl "auth denied"]))
      end
    end
  end.

(** [dialAndAuth] between the [defer] and the start of the pool. *)
Definition exchange (cc : client) (signer : Signer) (pubKey : PublicKey) (conn : tconn) (n : dnet)
    : dnet * result client :=
  match tconn_send conn (auth_req 1 (cc_authUser cc) (ssh_Marshal pubKey) [] "") n with
  | (n, Some err) => (n, Err (Wrapf "auth send pubkey: %w" [] err))
  | (n, None) =>
    match tconn_readResp conn n with
    | (n, Err err) => (n, Err (Wrapf "auth recv challenge: %w" [] err))
    | (n, Ok (MAuthRes challengeRes)) =>
      if AuthRes.Success challengeRes then (n, Err (Errorf "unexpected auth response" []))
      else answer_challenge cc signer pubKey conn (AuthRes.Challenge challengeRes) n
    | (n, Ok _) => (n, Err (Errorf "unexpected auth response" []))
    end
  end.

Definition dialAndAuth (target identityFile : string) (cc : client) (n : dnet) (w : world)
    : dnet * world * result client :=
  match clientSigner identityFile w with
  | (w, Err err) => (n, w, Err (Wrapf "auth: %w" [] err))
  | (w, Ok (signer, pubKey)) =>
    match net_Dial target n with
    | (n, Err err) => (n, w, Err (Wrapf "dial %s: %w" [inl target] err))
    | (n, Ok conn) =>
      let '(n, r) := exchange cc signer pubKey conn n in (tconn_Close conn n, w, r)
    end
  end.

(** [newClient]: the client with its session, or the error. *)
Definition newClient (target user identityFile : string) (batch : Z) (useChecksum useEncryption : bool)
    (n : dnet) (w : world) : dnet * world * result client :=
  dialAndAuth target identityFile
    {| cc_id := 0; cc_batch := batch; cc_useChecksum := useChecksum; cc_useEncryption := useEncryption;
       cc_authToken := ""; cc_authUser := user; cc_encryptionKey := None; cc_draws := 0 |} n w.

Definition tokenAuth (cc : client) (conn : tconn) (n : dnet) : dnet * option error :=
  match tconn_send conn (auth_req 0 "" [] [] (cc_authToken cc)) n with
  | (n, Some err) => (n, Some err)
  | (n, None) =>
    match tconn_readResp conn n with
    | (n, Err err) => (n, Some err)
    | (n, Ok (MAuthRes authRes)) =>
      (n, if AuthRes.Success authRes then None else Some (Errorf "token auth rejected" []))
    | (n, Ok _) => (n, Some (Errorf "token auth rejected" []))
    end
  end.

(** ** [runConn] *)

Definition Millisecond : Z := 1000000.
Definition maxBackoff : Z := 5 * 1000000000.

Definition next_backoff (backoff : Z) : Z := if backoff <? maxBackoff then i64 (backoff * 2) else backoff.

(** Where a pool connection is in the loop. *)
Inductive run_state : Type :=
  | RDial (backoff : Z)
  | RWait (backoff : Z)          (* select on ctx.Done() and time.After(backoff) *)
  | RAuth (conn : tconn)
  | RServe (conn : tconn)        (* handleSend and handleReceive run *)
  | RReturned.

(** A step, with what the world does: the network, and whether the context has ended. *)
Inductive runConn_step (target : string) (cc : client) (ctx_done : bool)
    : run_state → dnet → run_state → dnet → Prop :=
  | run_dial b n n' conn : net_Dial target n = (n', Ok conn) →
      runConn_step target cc ctx_done (RDial b) n (RAuth conn) n'
  | run_dial_err b n n' err : net_Dial target n = (n', Err err) →
      runConn_step target cc ctx_done (RDial b) n (RWait b) n'
  | run_wait b n :
      runConn_step target cc ctx_done (RWait b) n (RDial (next_backoff b)) n
  | run_wait_done b n : ctx_done = true →
      runConn_step target cc ctx_done (RWait b) n RReturned n
  | run_auth conn n n' : tokenAuth cc conn n = (n', None) →
      runConn_step target cc ctx_done (RAuth conn) n (RServe conn) n'
  | run_auth_err conn n n' err : tokenAuth cc conn n = (n', Some err) →
      runConn_step target cc ctx_done (RAuth conn) n (RDial (100 * Millisecond)) (tconn_Close conn n')
  | run_served conn n n' : ctx_done = false →
      runConn_step target cc ctx_done (RServe conn) n (RDial (100 * Millisecond)) n'
  | run_served_done conn n n' : ctx_done = true →
      runConn_step target cc ctx_done (RServe conn) n RReturned n'.

End Dial.
