(* ===== verification/Address.v ===== *)
(** The addresses of the command line ([src/cp.go]): ["host:path"] and
    ["user@host:path"], resolved through the user's SSH configuration. *)
From S2P Require Import Prelude Message GoStd GoPath OS Client ClientAuth.
From Stdlib Require Import Ascii.

Local Open Scope string_scope.

Definition isRemoteAddr (s : string) : bool := Contains s ":".

Definition parseCompressionFlag (s : string) : Z :=
  if bool_decide (s = "gzip") then CompressionGzip else CompressionNone.

(** The results of [parseRemoteAddr]; all empty with an error. *)
Record remoteAddr : Set := {
  ra_hostPort : string;
  ra_userName : string;
  ra_path : string;
  ra_identityFile : string;
  ra_hostAlias : string;
}.

Definition no_addr : remoteAddr :=
  {| ra_hostPort := ""; ra_userName := ""; ra_path := ""; ra_identityFile := ""; ra_hostAlias := "" |}.

Definition addr_or_empty (r : result remoteAddr) : remoteAddr :=
  match r with Ok a => a | Err _ => no_addr end.

Section Address.
  Context `{OS, ClientEnv, SshConfig}.

(** [HostName], [User] and [IdentityFile] of the configuration, where it has them. *)
Definition entry_host (host : string) (entry : option sshConfigEntry) : string :=
  match entry with
  | Some e => if bool_decide (sc_HostName e = "") then host else sc_HostName e
  | None => host
  end.
Definition entry_user (userName : string) (entry : option sshConfigEntry) : string :=
  match entry with
  | Some e => if bool_decide (userName = "") && negb (bool_decide (sc_User e = "")) then sc_User e else userName
  | None => userName
  end.
Definition entry_identity (entry : option sshConfigEntry) : string :=
  match entry with Some e => sc_IdentityFile e | None => "" end.

(** The user fallback: explicit, configured, current. *)
Definition user_or_current (userName : string) : result string :=
  if bool_decide (userName = "") then
    match user_Current with
    | Err uErr => Err (Wrapf "cannot determine current user: %w" [] uErr)
    | Ok current => Ok current
    end
  else Ok userName.

(** [parseRemoteAddr] after the split. *)
Definition resolveAddr (userName host path defaultPort : string) (entry : option sshConfigEntry)
    : result remoteAddr :=
  let hostName := entry_host host entry in
  match user_or_current (entry_user userName entry) with
  | Err err => Err err
  | Ok user =>
    if negb (ParseIP_ok hostName) && Contains hostName ":" then
      Err (Errorf "IPv6 not supported: %q" [inl hostName])
    else Ok {| ra_hostPort := JoinHostPort hostName defaultPort; ra_userName := user; ra_path := path;
               ra_identityFile := entry_identity entry; ra_hostAlias := host |}
  end.

Definition parseRemoteAddr (s defaultPort : string) (w : world) : world * result remoteAddr :=
  let '(userName, rest) :=
    match LastIndex s "@" with
    | Some atIdx => (str_take atIdx s, str_drop (S atIdx) s)
    | None => ("", s)
    end in
  match Index rest ":" with
  | None => (w, Err (Errorf "invalid remote address %q: missing colon" [inl s]))
  | Some colonIdx =>
    let host := str_take colonIdx rest in
    if bool_decide (host = "") then (w, Err (Errorf "invalid remote address %q: empty host" [inl s])) else
    let '(w, entry) := sshConfigLookup host w in
    (w, resolveAddr userName host (str_drop (S colonIdx) rest) defaultPort entry)
  end.

(** [fmt.Sprintf("%s@%s:%s", user, hostAlias, path)]. *)
Definition format_addr (user hostAlias path : string) : string := user ++ "@" ++ hostAlias ++ ":" ++ path.

(** ** What parses to what *)

Lemma parse_format user host path port w :
  no_char "@" host → no_char ":" host → host ≠ "" → no_char "@" path →
  parseRemoteAddr (format_addr user host path) port w =
  (let '(w, entry) := sshConfigLookup host w in (w, resolveAddr user host path port entry)).
Proof.
  intros Ha Hc Hne Hp. unfold parseRemoteAddr, format_addr.
  change ("@" ++ host ++ ":" ++ path) with (String "@" (host ++ String ":" path)).
  rewrite LastIndex_after, str_take_app, str_drop_app_S.
  - rewrite Index_after, str_take_app, str_drop_app_S by done. by rewrite bool_decide_false.
  - apply no_char_app. split; [done|]. apply no_char_cons. by split.
Qed.

Lemma parse_plain host path port w :
  no_char "@" host → no_char ":" host → host ≠ "" → no_char "@" path →
  parseRemoteAddr (host ++ ":" ++ path) port w =
  (let '(w, entry) := sshConfigLookup host w in (w, resolveAddr "" host path port entry)).
Proof.
  intros Ha Hc Hne Hp. unfold parseRemoteAddr. change (":" ++ path) with (String ":" path).
  rewrite LastIndex_none, Index_after, str_take_app, str_drop_app_S by
    (first [done|apply no_char_app; split; [done|by apply no_char_cons]]).
  by rewrite bool_decide_false.
Qed.

(** An index splits a string. *)
Lemma Index_split s c i : Index s c = Some i →
  s = str_take i s ++ String c (str_drop (S i) s) ∧ no_char c (str_take i s).
Proof.
  revert i. induction s as [|d s IH]; intros i; [done|]. cbn. destruct (Ascii.eqb_spec d c) as [->|Hd].
  - intros [= <-]. done.
  - destruct (Index s c) as [j|]; [|done]. intros [= <-]. destruct (IH j eq_refl) as [Heq Hn]. split.
    + rewrite Heq at 1. done.
    + by apply no_char_cons.
Qed.

Lemma LastIndex_split s c i : LastIndex s c = Some i →
  s = str_take i s ++ String c (str_drop (S i) s) ∧ no_char c (str_drop (S i) s).
Proof.
  revert i. induction s as [|d s IH]; intros i; [done|]. cbn. destruct (LastIndex s c) as [j|] eqn:E.
  - intros [= <-]. destruct (IH j eq_refl) as [Heq Hn]. split; [|done]. rewrite Heq at 1. done.
  - destruct (Ascii.eqb_spec d c) as [->|]; [|done]. intros [= <-]. split; [done|]. clear IH.
    induction s as [|e s IH]; [done|]. cbn in E. destruct (LastIndex s c); [done|].
    destruct (Ascii.eqb_spec e c) as [|He]; [done|]. apply no_char_cons. split; [done|]. by apply IH.
Qed.

Lemma LastIndex_no_char s c : LastIndex s c = None → no_char c s.
Proof.
  induction s as [|e s IH]; [done|]. cbn. destruct (LastIndex s c); [done|].
  destruct (Ascii.eqb_spec e c) as [|He]; [done|]. intros _. apply no_char_cons. split; [done|]. by apply IH.
Qed.

(** What an address that parses is made of. *)
Lemma parse_ok_inv s port w w' a : parseRemoteAddr s port w = (w', Ok a) →
  ∃ user entry, sshConfigLookup (ra_hostAlias a) w = (w', entry)
    ∧ resolveAddr user (ra_hostAlias a) (ra_path a) port entry = Ok a
    ∧ no_char "@" (ra_hostAlias a) ∧ no_char ":" (ra_hostAlias a) ∧ ra_hostAlias a ≠ "" ∧ no_char "@" (ra_path a)
    ∧ (s = format_addr user (ra_hostAlias a) (ra_path a) ∨ user = "" ∧ s = ra_hostAlias a ++ ":" ++ ra_path a).
Proof.
  unfold parseRemoteAddr. intros Hp.
  destruct (match LastIndex s "@" with Some i => _ | None => _ end) as [user rest] eqn:Hsplit.
  assert (no_char "@" rest ∧ (s = user ++ "@" ++ rest ∨ user = "" ∧ s = rest)) as [Hrest Hs].
  { destruct (LastIndex s "@") as [i|] eqn:E; injection Hsplit as <- <-.
    - apply LastIndex_split in E as [Heq Hn]. split; [done|]. by left.
    - apply LastIndex_no_char in E. split; [done|]. by right. }
  destruct (Index rest ":") as [i|] eqn:Hi; [|done]. apply Index_split in Hi as [Heq Hh].
  rewrite Heq in Hrest. apply no_char_app in Hrest as [Hh1 [_ Hp1]%no_char_cons].
  case_bool_decide as Hne; [done|]. destruct (sshConfigLookup _ w) as [w1 entry] eqn:Hl. injection Hp as -> Hr.
  assert (ra_hostAlias a = str_take i rest ∧ ra_path a = str_drop (S i) rest) as [Ha Hpath].
  { unfold resolveAddr in Hr. destruct (user_or_current _); [|done].
    destruct (_ && _); [done|]. by injection Hr as <-. }
  rewrite Ha, Hpath. exists user, entry. split_and!; try done.
  rewrite Heq in Hs. destruct Hs as [->|[-> ->]]; [by left|by right].
Qed.

(** Parsing only reads the configuration. *)
Lemma parseRemoteAddr_same `{!OSLaws} s port w w' r : parseRemoteAddr s port w = (w', r) → same_files w w'.
Proof.
  unfold parseRemoteAddr. destruct (match LastIndex s "@" with Some i => _ | None => _ end) as [user rest].
  destruct (Index rest ":"); [|by intros [= <- <-]]. case_bool_decide; [by intros [= <- <-]|].
  destruct (sshConfigLookup _ w) as [w1 entry] eqn:E. intros [= <- <-]. by eapply sshConfigLookup_same.
Qed.

Lemma resolve_identity user host path port entry a :
  resolveAddr user host path port entry = Ok a → ra_identityFile a = entry_identity entry.
Proof. unfold resolveAddr. destruct (user_or_current _); [|done]. destruct (_ && _); [done|]. by intros [= <-]. Qed.

(** A user that was resolved resolves to itself. *)
Lemma resolve_again user host path port entry a path' :
  resolveAddr user host path port entry = Ok a →
  resolveAddr (ra_userName a) host path' port entry =
  Ok {| ra_hostPort := ra_hostPort a; ra_userName := ra_userName a; ra_path := path';
        ra_identityFile := ra_identityFile a; ra_hostAlias := host |}.
Proof.
  unfold resolveAddr. destruct (user_or_current (entry_user user entry)) as [n|e] eqn:Hn; [|done].
  destruct (negb _ && _); [done|]. intros [= <-]. cbn.
  assert (user_or_current (entry_user n entry) = Ok n) as ->; [|done].
  unfold user_or_current, entry_user in *. destruct entry as [e|]; repeat case_bool_decide; naive_solver.
Qed.

End Address.
