(* ===== verification/Listing.v ===== *)
(** The lines [gcp ls] prints ([src/ls.go]): [modeString], [sizeString], [timeString] and
    [printEntry], with what they use of Go: [fs.FileMode.String], and the conversion of a
    Unix time to a date.

    [humanize.IBytes] is the parameter [Humanize]; the local time zone is [LocalZone], its
    offset from UTC in seconds at a Unix time.  Times so large that Go's own arithmetic
    overflows are outside the model. *)
From S2P Require Import Prelude Message GoStd OS.
From stdpp Require Import sorting pretty.
From Stdlib Require Import Ascii.

Local Open Scope string_scope.
Local Open Scope Z_scope.

Class Humanize := IBytes : Z → string.
Class LocalZone := zone_offset : Z → Z.

(** ** [fs.FileMode.String] *)

(** The characters of [str] whose bits, from bit [b] down, are set. *)
Fixpoint flag_chars (str : string) (b : Z) (m : Z) : string :=
  match str with
  | "" => ""
  | String c str => (if Z.testbit m b then String c "" else "") ++ flag_chars str (b - 1) m
  end.

(** The same, with a dash for a bit that is not set. *)
Fixpoint perm_chars (str : string) (b : Z) (m : Z) : string :=
  match str with
  | "" => ""
  | String c str => String (if Z.testbit m b then c else "-"%char) (perm_chars str (b - 1) m)
  end.

Definition FileMode_String (m : Z) : string :=
  let flags := flag_chars "dalTLDpSugct?" 31 m in
  (if bool_decide (flags = "") then "-" else flags) ++ perm_chars "rwxrwxrwx" 8 m.

Definition modeString (mode : Z) : string := FileMode_String mode.

(** ** Sizes and times *)

(** [%6s] and [%6d]. *)
Definition pad_left (s : string) : string := Repeat " " (6 - String.length s)%nat ++ s.

Section Columns.
  Context `{Humanize, LocalZone}.

Definition sizeString (size : Z) (human : bool) : string :=
  if human then pad_left (IBytes (size mod 2 ^ 64)) else pad_left (pretty size).

(** The day [n] days after 1970-01-01, in the Gregorian calendar: years are counted from
    March, in eras of 400 of them. *)
Definition civil (n : Z) : Z * Z * Z :=
  let z := n + 719468 in
  let era := z / 146097 in
  let doe := z mod 146097 in
  let yoe := (doe - doe / 1460 + doe / 36524 - doe / 146096) / 365 in
  let doy := doe - (365 * yoe + yoe / 4 - yoe / 100) in
  let mp := (5 * doy + 2) / 153 in
  let month := if mp <? 10 then mp + 3 else mp - 9 in
  (yoe + era * 400 + (if month <=? 2 then 1 else 0), month, doy - (153 * mp + 2) / 5 + 1).

(** At least [k] digits. *)
Definition digits (k : nat) (z : Z) : string :=
  let s := pretty (Z.abs z) in
  (if z <? 0 then "-" else "") ++ Repeat "0" (k - String.length s)%nat ++ s.

Definition timeString (unix : Z) : string :=
  if unix =? 0 then Repeat " " 16 else
  let t := unix + zone_offset unix in
  let '(year, month, day) := civil (t / 86400) in
  let s := t mod 86400 in
  digits 4 year ++ "-" ++ digits 2 month ++ "-" ++ digits 2 day ++ " "
    ++ digits 2 (s / 3600) ++ ":" ++ digits 2 (s mod 3600 / 60).

(** The line, without its newline. *)
Definition printEntry (entry : DirEntry.t) (long human : bool) : string :=
  let name := if DirEntry.IsDir entry then DirEntry.Name entry ++ "/" else DirEntry.Name entry in
  if long then
    modeString (DirEntry.Mode entry) ++ "  " ++ sizeString (DirEntry.Size entry) human ++ "  "
      ++ timeString (DirEntry.ModTime entry) ++ "  " ++ name
  else name.
End Columns.

(** ** The order of the entries *)

(** [sort.Slice] by name. *)
Fixpoint insert_entry (e : DirEntry.t) (l : list DirEntry.t) : list DirEntry.t :=
  match l with
  | [] => [e]
  | d :: l' => if String.ltb (DirEntry.Name d) (DirEntry.Name e) then d :: insert_entry e l' else e :: l
  end.
Definition sort_entries (l : list DirEntry.t) : list DirEntry.t := foldr insert_entry [] l.

Definition name_le (d e : DirEntry.t) : Prop := String.leb (DirEntry.Name d) (DirEntry.Name e) = true.

Lemma ltb_leb (s t : string) : String.ltb s t = negb (String.leb t s).
Proof.
  unfold String.ltb, String.leb. rewrite (String.compare_antisym t s). by destruct (String.compare s t).
Qed.

Lemma insert_entry_perm e l : insert_entry e l ≡ₚ e :: l.
Proof. induction l as [|d l IH]; [done|]. simpl. destruct (String.ltb _ _); [|done]. rewrite IH. apply perm_swap. Qed.

Lemma sort_entries_perm l : sort_entries l ≡ₚ l.
Proof. induction l as [|e l IH]; [done|]. simpl. by rewrite insert_entry_perm, IH. Qed.

Lemma insert_entry_hd e d l : HdRel name_le d l → name_le d e → HdRel name_le d (insert_entry e l).
Proof. destruct l as [|x l]; simpl; [by constructor|]. destruct (String.ltb _ _); intros Hx He; inversion Hx; by constructor. Qed.

Lemma insert_entry_sorted e l : Sorted name_le l → Sorted name_le (insert_entry e l).
Proof.
  induction 1 as [|d l Hl IH Hd]; simpl; [by repeat constructor|]. destruct (String.ltb _ _) eqn:Hlt.
  - constructor; [done|]. apply insert_entry_hd; [done|]. unfold name_le. rewrite ltb_leb in Hlt.
    destruct (String.leb_total (DirEntry.Name d) (DirEntry.Name e)) as [?|Hge]; [done|]. by rewrite Hge in Hlt.
  - constructor; [by constructor|]. constructor. unfold name_le. rewrite ltb_leb in Hlt. by destruct (String.leb _ _).
Qed.

Lemma sort_entries_sorted l : Sorted name_le (sort_entries l).
Proof. induction l as [|e l IH]; [constructor|]. by apply insert_entry_sorted. Qed.

(** ** Checks against Go *)

#[local] Instance utc : LocalZone := λ _, 0.
#[local] Instance no_units : Humanize := λ z, pretty z.

Example mode_dir : modeString (ModeDir + 0x1ED) = "drwxr-xr-x". Proof. vm_compute. reflexivity. Qed.
Example mode_file : modeString 0x1A4 = "-rw-r--r--". Proof. vm_compute. reflexivity. Qed.
Example mode_sticky : modeString (ModeDir + 2 ^ 20 + 0x1FF) = "dtrwxrwxrwx". Proof. vm_compute. reflexivity. Qed.
Example time_epoch : timeString 60 = "1970-01-01 00:01". Proof. vm_compute. reflexivity. Qed.
Example time_leap : timeString 951825599 = "2000-02-29 11:59". Proof. vm_compute. reflexivity. Qed.
Example time_past : timeString (-1) = "1969-12-31 23:59". Proof. vm_compute. reflexivity. Qed.
Example size_plain : sizeString 42 false = "    42". Proof. vm_compute. reflexivity. Qed.
