(* ===== verification/ClientSpec.v ===== *)
(** The properties of the client: what a call to [Write] puts on the wire, how the
    hub routes responses, and what it does not promise. *)
From S2P Require Import Prelude Message PlainCodec GoStd GoHash OS MemFS Chunk Auth FdCache Hoare Server Demo Client Hub.
From Stdlib Require Import Strings.Byte.

(** ** Calls *)

(** Whatever compression the caller asks for and whether or not the client
    encrypts and checksums, [Write] either fails before sending anything or submits
    exactly one [WriteReq], with the next request ID, the target and the offset, whose
    payload is at most 40 bytes longer than the data and from which every server
    handler that holds the client's key recovers exactly the data. *)
Theorem Write_submits_decodable `{Transport, GzipOk, SecretBoxOk, RandOk} target off data algo cc n :
  let '(r, (cc', n')) := Write target off data algo (cc, n) in
  (∃ e, r = Err e ∧ n' = n ∧ cc_id cc' = cc_id cc)
  ∨ ∃ req p, WriteReq.Path req = target ∧ WriteReq.Offset req = off
      ∧ WriteReq.ID req = i64 (cc_id cc + 1) ∧ cc_id cc' = WriteReq.ID req
      ∧ call (MWriteReq req) p n = (n', r) ∧ zlen p <= zlen data + 40
      ∧ (∀ ca, ca_encryptionKey ca = cc_encryptionKey cc → write_payload req p ca = Ok data).
Proof.
  pose proof (Write_called target off data algo cc n) as Hw. unfold wp, eval, exec in Hw.
  destruct (Write target off data algo (cc, n)) as [r [cc' n']]. exact Hw.
Qed.

(** The network of the closed example answers every request with success. *)
#[export] Instance echo_net : Transport := {
  net := list (MSG * list byte);
  call m p n := (n ++ [(m, p)], Ok (MWriteRes {| WriteRes.ID := msg_GetID m; WriteRes.Success := true;
                                                 WriteRes.N := 0; WriteRes.Error := "" |}, []));
}.

Definition demo_client : client :=
  {| cc_id := 41; cc_batch := 4; cc_useChecksum := true; cc_useEncryption := true; cc_authToken := "t";
     cc_authUser := "u"; cc_encryptionKey := Some (replicate 32 x07); cc_draws := 0 |}.

Definition demo_write_call := Write "f" 0 (replicate 9 x61) CompressionGzip (demo_client, [] : @net echo_net).

Lemma demo_write_call_ok : is_Ok (fst demo_write_call) = true.
Proof. vm_compute. reflexivity. Qed.

Lemma Write_submits_decodable_witness :
  ∃ req p, WriteReq.ID req = 42 ∧ write_payload req p demo_ca = Ok (replicate 9 x61).
Proof.
  pose proof (Write_submits_decodable "f" 0 (replicate 9 x61) CompressionGzip demo_client ([] : @net echo_net)) as Hw.
  pose proof demo_write_call_ok as Hok. unfold demo_write_call in Hok.
  destruct (Write _ _ _ _ _) as [r [cc' n']].
  destruct Hw as [(e & -> & _)|(req & p & _ & _ & Hid & _ & _ & _ & Hd)]; [discriminate Hok|].
  exists req, p. split; [exact Hid|]. apply Hd. reflexivity.
Defined.

(** ** The hub *)

(** C29: in every reachable state of the hub, a response that is being delivered goes, while the
    context lives, to the caller that waits for its ID, so the hub is never blocked on a channel
    nobody reads; and a caller's wait ends only with the delivery of a response with the ID of its
    own request or with the end of the context. *)
Theorem hub_routes_responses h :
  rtc hub_step hub_init h →
  (∀ w m, h_state h = HDelivering w m → h_done h = false → h_waiting h !! w = Some (msg_GetID (fst m)))
  ∧ ∀ h' w i, hub_step h h' → h_waiting h !! w = Some i →
      h_waiting h' !! w = Some i
      ∨ (∃ m, msg_GetID (fst m) = i ∧ h_state h = HDelivering w m ∧ h' = hub_deliver w m h)
      ∨ h_done h = true ∧ h' = hub_leave w h.
Proof.
  intros Hr. pose proof (hub_reachable_inv _ Hr) as Hi. split.
  - intros w m Hs Hl. apply (hi_waits _ Hi); [|done]. by apply (hi_deliver _ Hi).
  - intros h' w i Hst Hw. destruct Hst as [v m _|v m Hs Hm|ok m Hs|m Hs|v m Hs Hv|v k Hd Hv| |Hs Hd]; try (by left).
    + left. simpl. rewrite lookup_insert_ne; [done|]. intros ->. apply (hi_one _ Hi) in Hm. congruence.
    + simpl. destruct (decide (v = w)) as [->|Hne]; [|left; by rewrite lookup_delete_ne].
      right. left. exists m. split; [congruence|done].
    + simpl. destruct (decide (v = w)) as [->|Hne]; [by right; right|left; by rewrite lookup_delete_ne].
Qed.

(** The hub delivers a response at most once and drops what nobody waits for: while the context
    lives, a response whose ID has no waiting caller changes nothing, and delivering a response
    leaves none waiting for its ID. *)
Theorem hub_drops_unexpected h :
  rtc hub_step hub_init h → h_done h = false →
  (∀ m, h_state h = HIdle → (∀ w, h_waiting h !! w ≠ Some (msg_GetID (fst m))) → hub_receive m h = h)
  ∧ ∀ w m, h_state h = HDelivering w m → ∀ v, h_waiting (hub_deliver w m h) !! v ≠ Some (msg_GetID (fst m)).
Proof.
  intros Hr Hl. pose proof (hub_reachable_inv _ Hr) as Hi. split.
  - intros m Hs Hno. unfold hub_receive. destruct (h_resCache h !! _) as [w|] eqn:E.
    + apply (hi_waits _ Hi) in E; [|done]. by destruct (Hno w).
    + rewrite <- Hs. by destruct h.
  - intros w m Hs v. simpl. apply (hi_deliver _ Hi) in Hs. intros [Hne Hv]%lookup_delete_Some.
    apply (hi_cached _ Hi) in Hv. congruence.
Qed.

(** C39: a request whose write to the connection failed is lost for good.  Whatever happens
    then, with a server that answers only what it was sent: no request of its ID ever reaches
    a connection (the hub neither keeps nor resends it); as long as the context lives its
    caller goes on waiting, for there is no timeout on a call; and the caller never receives
    an answer to it. *)
Theorem lost_request_waits_forever h h' w m : let i := msg_GetID (fst m) in
  rtc hub_step hub_init h → h_state h = HSending m → h_waiting h !! w = Some i →
  (∀ k, k ∈ h_wire h → msg_GetID (fst k) ≠ i) →
  rtc honest_step (hub_sent false m h) h' →
  (∀ k, k ∈ h_wire h' → msg_GetID (fst k) ≠ i)
  ∧ (h_done h' = false → h_waiting h' !! w = Some i)
  ∧ ∀ v r, (v, r) ∈ h_answers h' → msg_GetID (fst r) = i → (v, r) ∈ h_answers h.
Proof.
  intros i Hr Hs Hw Hnew Hrun.
  assert (rtc hub_step hub_init (hub_sent false m h)) as Hr0 by (eapply rtc_r; [exact Hr|by constructor]).
  assert (hub_lost w i (h_answers h) (hub_sent false m h)) as Hl0.
  { split; try done. by apply (hi_cached _ (hub_reachable_inv _ Hr)). }
  destruct (hub_lost_run _ _ _ _ _ Hr0 Hrun Hl0) as [Hr' Hl]. split_and!; [apply Hl| |apply Hl].
  apply (hi_waits _ (hub_reachable_inv _ Hr')), Hl.
Qed.

(** A caller on [msgIn] stays there once the hub has returned. *)
Lemma returned_keeps h h' w m : hub_step h h' → h_state h = HReturned → h_calling h !! w = Some m →
  h_state h' = HReturned ∧ h_calling h' !! w = Some m.
Proof.
  intros Hst Hs Hm. destruct Hst as [v k (Hn & _)|v k Hs' _|ok k Hs'|k Hs'|v k Hs' _|v k _ _| |Hs' _]; try congruence; try done.
  split; [done|]. simpl. rewrite lookup_insert_ne; [done|]. congruence.
Qed.

(** C40: a call made while the context ends may never return: [cc.msgIn <- request] has no
    [ctx.Done()] case, and [processMsg] receives nothing any more once it has seen the end of the
    context. From every reachable idle state and for every caller that may call there is such a
    run, after which the caller is blocked in every state that can follow. *)
Theorem ended_call_never_returns h w m : rtc hub_step hub_init h → h_state h = HIdle → may_call w m h →
  ∃ h1, rtc hub_step h h1 ∧ ∀ h', rtc hub_step h1 h' → h_calling h' !! w = Some m ∧ h_waiting h' !! w = None.
Proof.
  intros Hr Hs Hc. exists (set_state HReturned (hub_end (hub_call w m h))).
  assert (rtc hub_step h (set_state HReturned (hub_end (hub_call w m h)))) as Hrun.
  { eapply rtc_l; [by apply hub_step_call|]. eapply rtc_l; [apply hub_step_end|]. by apply rtc_once, hub_step_return. }
  split; [done|]. intros h' Hrun'.
  assert (h_calling h' !! w = Some m) as Hm; [|split; [done|]].
  - assert (h_state h' = HReturned ∧ h_calling h' !! w = Some m) as [_ ?]; [|done].
    revert Hrun'. apply (rtc_ind_r (λ h', h_state h' = HReturned ∧ h_calling h' !! w = Some m)).
    + split; [done|]. simpl. apply lookup_insert_eq.
    + intros h1 h2 _ Hst [Hs1 Hm1]. by eapply returned_keeps.
  - eapply hi_one; [|exact Hm]. apply hub_reachable_inv. by etrans; [etrans|].
Qed.

(** Two callers, two requests. *)
Definition demo_stat (id : Z) : clientWrappedMsg := (MStatReq {| StatReq.ID := id; StatReq.Path := "f" |}, []).
Definition demo_statres (id : Z) : clientWrappedMsg :=
  (MStatRes {| StatRes.ID := id; StatRes.Success := true; StatRes.Size := 5; StatRes.Mode := 420;
               StatRes.IsDir := false; StatRes.Error := "" |}, []).

Definition demo_hub0 : hub := hub_call 0 (demo_stat 1) hub_init.
Definition demo_hub1 : hub := hub_submit 0 (demo_stat 1) demo_hub0.
Definition demo_hub2 : hub := hub_sent true (demo_stat 1) demo_hub1.
Definition demo_hub3 : hub := hub_receive (demo_statres 1) demo_hub2.

Lemma demo_may_call : may_call 0 (demo_stat 1) hub_init.
Proof. by split_and!. Qed.

Lemma demo_hub1_reach : rtc hub_step hub_init demo_hub1.
Proof.
  eapply rtc_l; [apply hub_step_call, demo_may_call|]. by apply rtc_once, hub_step_submit.
Qed.
Lemma demo_hub3_reach : rtc hub_step hub_init demo_hub3.
Proof.
  eapply rtc_r; [eapply rtc_r; [exact demo_hub1_reach|]|].
  - by apply hub_step_sent.
  - by apply hub_step_receive.
Qed.

Lemma hub_routes_responses_witness : h_waiting demo_hub3 !! 0%nat = Some 1.
Proof. exact (proj1 (hub_routes_responses demo_hub3 demo_hub3_reach) 0%nat (demo_statres 1) eq_refl eq_refl). Defined.

Lemma hub_drops_unexpected_witness :
  h_waiting (hub_deliver 0 (demo_statres 1) demo_hub3) !! 0%nat ≠ Some 1.
Proof. exact (proj2 (hub_drops_unexpected demo_hub3 demo_hub3_reach eq_refl) 0%nat (demo_statres 1) eq_refl 0%nat). Defined.

(** After the first caller's request is lost, a second caller's call is answered. *)
Definition demo_lost : hub := hub_sent false (demo_stat 1) demo_hub1.
Definition demo_later : hub :=
  hub_deliver 1 (demo_statres 2) (hub_receive (demo_statres 2) (hub_sent true (demo_stat 2)
    (hub_submit 1 (demo_stat 2) (hub_call 1 (demo_stat 2) demo_lost)))).

Lemma demo_later_run : rtc honest_step demo_lost demo_later.
Proof.
  eapply rtc_l; [split; [apply (hub_step_call _ 1 (demo_stat 2))|done]; split_and!; vm_compute; done|].
  eapply rtc_l; [split; [by apply (hub_step_submit _ 1 (demo_stat 2))|done]|].
  eapply rtc_l; [split; [by apply (hub_step_sent _ true (demo_stat 2))|done]|].
  eapply rtc_l; [split; [by apply (hub_step_receive _ (demo_statres 2))|]|].
  { intros w r _ E. vm_compute in E. injection E as <- <-. exists (demo_stat 2). split; [apply list_elem_of_here|done]. }
  apply rtc_once. split; [by apply hub_step_deliver|done].
Qed.

Lemma lost_request_waits_forever_witness :
  h_waiting demo_later !! 0%nat = Some 1 ∧ h_answers demo_later = [(1%nat, demo_statres 2)].
Proof.
  split; [|reflexivity].
  exact (proj1 (proj2 (lost_request_waits_forever demo_hub1 demo_later 0%nat (demo_stat 1)
    demo_hub1_reach eq_refl eq_refl (λ k Hk, False_ind _ (not_elem_of_nil k Hk)) demo_later_run)) eq_refl).
Defined.

Lemma ended_call_never_returns_witness :
  ∃ h1, rtc hub_step hub_init h1 ∧ ∀ h', rtc hub_step h1 h' →
    h_calling h' !! 0%nat = Some (demo_stat 1) ∧ h_waiting h' !! 0%nat = None.
Proof. exact (ended_call_never_returns hub_init 0%nat (demo_stat 1) (rtc_refl _ _) eq_refl demo_may_call). Defined.
