(* ===== verification/Prog.v ===== *)
(** Programs that run interleaved with others: a resumption monad whose atomic
    actions are the points where another goroutine may step in, and a
    rely/guarantee logic for it.  The transfers' chunk functions are such programs;
    Pool.v runs many of them at once. *)
From S2P Require Import Prelude.

(** [Act f] performs the atomic action [f] and goes on as it says. *)
Inductive prog {S A : Type} : Type :=
  | Ret (a : A)
  | Act (f : S → S * prog).
#[global] Arguments prog : clear implicits.

#[export] Instance prog_ret {S} : MRet (prog S) := λ A a, Ret a.

#[export] Instance prog_bind {S} : MBind (prog S) := λ A B k,
  fix go m :=
    match m with
    | Ret a => k a
    | Act f => Act (λ s, let '(s', m') := f s in (s', go m'))
    end.

(** One atomic action. *)
Definition atomic {S A} (f : S → S * A) : prog S A := Act (λ s, let '(s', a) := f s in (s', Ret a)).

(** Run alone, with nothing stepping in. *)
Fixpoint run_alone {S A} (m : prog S A) (s : S) : S * A :=
  match m with
  | Ret a => (s, a)
  | Act f => let '(s', m') := f s in run_alone m' s'
  end.

(** [t] is a state [m], run alone from [s], goes through. *)
Fixpoint visits {S A} (m : prog S A) (s t : S) : Prop :=
  t = s ∨ match m with Ret _ => False | Act f => visits (snd (f s)) (fst (f s)) t end.

(** Run alone from [s]: [V] holds of every state on the way, and [Q] at the end. *)
Fixpoint along {S A} (V : S → Prop) (m : prog S A) (Q : A → S → Prop) (s : S) : Prop :=
  V s ∧ match m with Ret a => Q a s | Act f => along V (snd (f s)) Q (fst (f s)) end.

(** At most [n] actions, each of which preserves [K]. *)
Fixpoint within {S A} (K : S → Prop) (n : nat) (m : prog S A) : Prop :=
  match m with
  | Ret _ => True
  | Act f =>
    match n with
    | O => False
    | Datatypes.S n => ∀ s, (K s → K (fst (f s))) ∧ within K n (snd (f s))
    end
  end.

(** The induction principle that reaches the rest of the program after an action. *)
Definition prog_induction {S A} (P : prog S A → Prop) (HR : ∀ a, P (Ret a))
    (HA : ∀ f, (∀ s, P (snd (f s))) → P (Act f)) : ∀ m, P m :=
  fix go m := match m with
    | Ret a => HR a
    | Act f => HA f (λ s, go (snd (f s)))
    end.

Section Prog.
  Context {S : Type}.

Lemma run_alone_bind {A B} (m : prog S A) (k : A → prog S B) s :
  run_alone (m ≫= k) s = run_alone (k (snd (run_alone m s))) (fst (run_alone m s)).
Proof.
  revert s. induction m as [a|f IH] using prog_induction; intros s; [done|].
  cbn. specialize (IH s). destruct (f s) as [s' m']. apply IH.
Qed.

Lemma run_atomic {A B} (f : S → S * A) (k : A → prog S B) s :
  run_alone (atomic f ≫= k) s = run_alone (k (snd (f s))) (fst (f s)).
Proof. cbn. by destruct (f s). Qed.

Lemma along_atomic {A B} V (f : S → S * A) (k : A → prog S B) Q s :
  V s → (∀ s' a, f s = (s', a) → along V (k a) Q s') → along V (atomic f ≫= k) Q s.
Proof. intros HV Hk. cbn. destruct (f s) as [s' a]. split; [done|]. by apply Hk. Qed.

Lemma along_ret {A} V (a : A) Q s : V s → Q a s → along V (mret a : prog S A) Q s.
Proof. done. Qed.

Lemma along_visits {A} V (m : prog S A) Q s t : along V m Q s → visits m s t → V t.
Proof.
  revert s. induction m as [a|f IH] using prog_induction; intros s [HV Hm] [->|Ht]; try done. by eapply IH.
Qed.

Lemma along_run {A} V (m : prog S A) Q s : along V m Q s → Q (snd (run_alone m s)) (fst (run_alone m s)).
Proof.
  revert s. induction m as [a|f IH] using prog_induction; intros s [HV Hm]; [done|].
  specialize (IH _ _ Hm). simpl. by destruct (f s).
Qed.

Lemma visits_end {A} (m : prog S A) s : visits m s (fst (run_alone m s)).
Proof.
  revert s. induction m as [a|f IH] using prog_induction; intros s; [by left|].
  right. specialize (IH s (fst (f s))). simpl. by destruct (f s).
Qed.

Lemma within_mono {A} (K : S → Prop) n n' (m : prog S A) : (n ≤ n')%nat → within K n m → within K n' m.
Proof.
  revert n' m. induction n as [|n IH]; intros n' [a|f] Hle Hm; [by destruct n'|done|by destruct n'|].
  destruct n' as [|n']; [lia|]. simpl in *. intros s. destruct (Hm s) as [Hk Hw]. split; [done|].
  eapply IH; [|done]. lia.
Qed.

Lemma within_bind {A B} (K : S → Prop) n n' (m : prog S A) (k : A → prog S B) :
  within K n m → (∀ a, within K n' (k a)) → within K (n + n') (m ≫= k).
Proof.
  revert m. induction n as [|n IH]; intros [a|f] Hm Hk; try done.
  - apply Hk.
  - eapply within_mono; [|apply Hk]. lia.
  - cbn. intros s. destruct (Hm s) as [Hs Hw]. destruct (f s) as [s' m']. split; [done|]. by apply IH.
Qed.

Lemma within_iff {A} (K K' : S → Prop) n (m : prog S A) : (∀ s, K s ↔ K' s) → within K' n m → within K n m.
Proof.
  intros HK. revert m. induction n as [|n IH]; intros [a|f] Hm; try done.
  simpl in *. intros s. destruct (Hm s) as [Hs Hw]. rewrite !HK. split; [done|by apply IH].
Qed.

Lemma within_ret {A} (K : S → Prop) n (a : A) : within K n (mret a : prog S A).
Proof. by destruct n. Qed.

Lemma within_atomic {A} (K : S → Prop) (f : S → S * A) :
  (∀ s, K s → K (fst (f s))) → within K 1 (atomic f).
Proof. intros Hf. cbn. intros s. specialize (Hf s). by destruct (f s). Qed.

Lemma within_run {A} (K : S → Prop) n (m : prog S A) s : within K n m → K s → K (fst (run_alone m s)).
Proof.
  revert m s. induction n as [|n IH]; intros [a|f] s Hm HK; try done. simpl in *.
  destruct (Hm s) as [Hs Hw]. destruct (f s) as [s' m']. by apply IH; [|apply Hs].
Qed.

(** ** Rely and guarantee

    [rely] is what the steps of the others may do, [guar] what a step of the
    program must keep to. *)
Context (rely guar : S → S → Prop).

Definition stable (P : S → Prop) : Prop := ∀ s s', rely s s' → P s → P s'.

(** From every state with [P], each action keeps to [guar] and gives something the
    others preserve, and the result satisfies [Q]. *)
Fixpoint rg {A} (P : S → Prop) (m : prog S A) (Q : A → S → Prop) : Prop :=
  match m with
  | Ret a => ∀ s, P s → Q a s
  | Act f => ∀ s, P s →
      guar s (fst (f s)) ∧ ∃ P', stable P' ∧ P' (fst (f s)) ∧ rg P' (snd (f s)) Q
  end.

Lemma rg_weaken {A} (P P' : S → Prop) (m : prog S A) (Q Q' : A → S → Prop) :
  (∀ s, P' s → P s) → (∀ a s, Q a s → Q' a s) → rg P m Q → rg P' m Q'.
Proof.
  intros HP HQ. revert P P' HP. induction m as [a|f IH] using prog_induction; intros P P' HP Hm.
  - intros s Hs. by apply HQ, Hm, HP.
  - intros s Hs. destruct (Hm s (HP s Hs)) as (Hg & P1 & Hst & H1 & Hr). split; [done|].
    exists P1. split_and!; try done. by eapply IH.
Qed.

Lemma rg_ret {A} (P : S → Prop) (a : A) (Q : A → S → Prop) :
  (∀ s, P s → Q a s) → rg P (mret a : prog S A) Q.
Proof. done. Qed.

(** A fact about the values at hand, not about the state. *)
Lemma rg_pure {A} (F : Prop) (P : S → Prop) (m : prog S A) (Q : A → S → Prop) :
  (F → rg P m Q) → rg (λ s, P s ∧ F) m Q.
Proof. destruct m as [a|f]; intros Hm s [HP HF]; exact (Hm HF s HP). Qed.

(** One action, then the rest from whatever stable assertion it established. *)
Lemma rg_bind {A B} (P : S → Prop) (m : prog S A) (k : A → prog S B) (M : A → S → Prop)
    (Q : B → S → Prop) :
  rg P m M → (∀ a, rg (M a) (k a) Q) → rg P (m ≫= k) Q.
Proof.
  intros Hm Hk. revert P Hm. induction m as [a|f IH] using prog_induction; intros P Hm.
  - cbn. by eapply rg_weaken; [| |apply Hk].
  - cbn. intros s Hs. destruct (Hm s Hs) as (Hg & P1 & Hst & H1 & Hr). specialize (IH s P1 Hr).
    destruct (f s) as [s' m']. split; [done|]. by exists P1.
Qed.

Lemma rg_atomic {A} (P : S → Prop) (f : S → S * A) (Q : A → S → Prop) :
  (∀ a, stable (Q a)) → (∀ s, P s → guar s (fst (f s)) ∧ Q (snd (f s)) (fst (f s))) →
  rg P (atomic f) Q.
Proof.
  intros Hst Hf s Hs. destruct (Hf s Hs) as [Hg HQ]. destruct (f s) as [s' a]. simpl in *.
  split; [done|]. by exists (Q a).
Qed.

End Prog.

#[global] Arguments rg : simpl never.
