(* ===== verification/Nondet.v ===== *)
(** Computations whose outcome the schedule of goroutines may choose: [m s a s'] says that
    [m], started in [s], may return [a] in [s'].  The operations that run the pool
    ([uploadFile], [downloadFile]) are such computations; the commands compose them in the
    order the code does. *)
From S2P Require Import Prelude Prog.

Definition nd (S A : Type) : Type := S → A → S → Prop.

#[export] Instance nd_ret {S} : MRet (nd S) := λ A a s b s', b = a ∧ s' = s.
#[export] Instance nd_bind {S} : MBind (nd S) := λ A B k m s b s'',
  ∃ a s', m s a s' ∧ k a s' b s''.

Section Nondet.
  Context {S : Type}.

(** A deterministic step, a program run with nothing stepping in, a look at the state. *)
Definition step_nd {A} (f : S → S * A) : nd S A := λ s a s', f s = (s', a).
Definition alone {A} (m : prog S A) : nd S A := step_nd (run_alone m).
Definition ask_nd {A} (f : S → A) : nd S A := step_nd (λ s, (s, f s)).

Lemma ask_nd_inv {A} (f : S → A) s a s' : ask_nd f s a s' → a = f s ∧ s' = s.
Proof. unfold ask_nd, step_nd. by intros [= <- <-]. Qed.

(** Every outcome of [m] from [s] satisfies [Q]. *)
Definition nd_wp {A} (m : nd S A) (Q : A → S → Prop) (s : S) : Prop := ∀ a s', m s a s' → Q a s'.

Lemma nd_wp_ret {A} (a : A) Q s : Q a s → nd_wp (mret a) Q s.
Proof. by intros HQ b s' [-> ->]. Qed.

Lemma nd_wp_bind {A B} (m : nd S A) (k : A → nd S B) Q s :
  nd_wp m (λ a, nd_wp (k a) Q) s → nd_wp (m ≫= k) Q s.
Proof. intros Hm b s'' (a & s' & Ha & Hb). exact (Hm a s' Ha b s'' Hb). Qed.

Lemma nd_wp_step {A} (f : S → S * A) Q s : Q (snd (f s)) (fst (f s)) → nd_wp (step_nd f) Q s.
Proof. intros HQ a s' Hf. unfold step_nd in Hf. by rewrite Hf in HQ. Qed.

Lemma nd_wp_mono {A} (m : nd S A) (Q R : A → S → Prop) s :
  nd_wp m Q s → (∀ a s', Q a s' → R a s') → nd_wp m R s.
Proof. intros Hm HQ a s' Ha. by apply HQ, Hm. Qed.

(** The run of a bind through an outcome of its first part. *)
Lemma nd_run {A B} (m : nd S A) (k : A → nd S B) s a s' b s'' :
  m s a s' → k a s' b s'' → (m ≫= k) s b s''.
Proof. by exists a, s'. Qed.

Lemma nd_run_step {A} (f : S → S * A) s : step_nd f s (snd (f s)) (fst (f s)).
Proof. unfold step_nd. by destruct (f s). Qed.

End Nondet.

#[global] Arguments nd_wp : simpl never.
