(* ===== verification/Pool.v ===== *)
(** [processChunks] ([src/transfer.go]): the division of a file into chunks, and the
    goroutines that run them, at most [batch] at a time.

    The loop computes offsets and sizes in [int64]; [chunk_loop] is that loop, with
    fuel.  The goroutines, the semaphore and the error channel are the transition
    system [pool_step]: the transfer state [S] is shared, a chunk's function is a
    program ([Prog.prog]) whose atomic actions interleave with those of the others,
    and the caller's context may be cancelled at any time.  The progress channel is
    the subject of Progress.v; what a goroutine may still do after [processChunks] has
    returned an error is left out. *)
From S2P Require Import Prelude Prog.

Definition chunk : Set := Z * Z.  (* offset, size *)

(** ** The division *)

(** The size of the chunk at the front of what remains. *)
Definition next_size (chunkSize remainSize : Z) : Z :=
  if remainSize <? chunkSize then remainSize else chunkSize.

(** The chunks the loop visits, completed ones included; [None] when fuel runs out. *)
Fixpoint chunk_loop (fuel : nat) (chunkSize offset remainSize : Z) : option (list chunk) :=
  if 0 <? remainSize then
    match fuel with
    | O => None
    | S fuel =>
      let size := next_size chunkSize remainSize in
      rest ← chunk_loop fuel chunkSize (i64 (offset + size)) (i64 (remainSize - size));
      Some ((offset, size) :: rest)
    end
  else Some [].

Definition chunks (fuel : nat) (fileSize chunkSize startOffset : Z) : option (list chunk) :=
  chunk_loop fuel chunkSize startOffset (i64 (fileSize - startOffset)).

(** ** The goroutines *)

(** What the pool needs to know of the state of the transfer: the chunks already
    confirmed, the context, and the flush of the resume state at the end. *)
Record pool_env (S : Type) : Type := {
  fn : chunk → prog S (option error);
  completed : chunk → S → bool;   (* isCompleted *)
  cancelled : S → bool;           (* ctx.Done() is ready *)
  cancel : S → S;                 (* the caller's context ends *)
  flush : S → S;                  (* flushResumeState *)
}.
#[global] Arguments fn {_} _ _.
#[global] Arguments completed {_} _ _ _.
#[global] Arguments cancelled {_} _ _.
#[global] Arguments cancel {_} _ _.
#[global] Arguments flush {_} _ _.

Section Pool.
  Context {S : Type} (env : pool_env S) (batch : nat).

Record pool : Type := {
  p_todo : list chunk;               (* not yet dispatched *)
  p_waiting : list chunk;            (* goroutines waiting for the semaphore *)
  p_running : list (chunk * prog S (option error));  (* goroutines that hold it, in fn *)
  p_blocked : list (chunk * error);  (* ... whose fn failed, sending to errChan *)
  p_errs : list error;               (* errChan, of capacity batch *)
  p_done : list chunk;               (* chunks whose fn returned nil, or skipped *)
  p_result : option (option error);  (* what processChunks returned *)
  p_state : S;
}.

Definition pool_init (cs : list chunk) (s : S) : pool :=
  {| p_todo := cs; p_waiting := []; p_running := []; p_blocked := []; p_errs := []; p_done := [];
     p_result := None; p_state := s |}.

Inductive pool_step : pool → pool → Prop :=
  (* case err := <-errChan: cancel, return err *)
  | pool_abort c t w r b e es d s :
      pool_step {| p_todo := c :: t; p_waiting := w; p_running := r; p_blocked := b; p_errs := e :: es;
                   p_done := d; p_result := None; p_state := s |}
                {| p_todo := c :: t; p_waiting := w; p_running := r; p_blocked := b; p_errs := es;
                   p_done := d; p_result := Some (Some e); p_state := s |}
  (* default: the chunk is skipped ... *)
  | pool_skip c t w r b d s :
      completed env c s = true →
      pool_step {| p_todo := c :: t; p_waiting := w; p_running := r; p_blocked := b; p_errs := [];
                   p_done := d; p_result := None; p_state := s |}
                {| p_todo := t; p_waiting := w; p_running := r; p_blocked := b; p_errs := [];
                   p_done := c :: d; p_result := None; p_state := s |}
  (* ... or gets a goroutine *)
  | pool_dispatch c t w r b d s :
      completed env c s = false →
      pool_step {| p_todo := c :: t; p_waiting := w; p_running := r; p_blocked := b; p_errs := [];
                   p_done := d; p_result := None; p_state := s |}
                {| p_todo := t; p_waiting := w ++ [c]; p_running := r; p_blocked := b; p_errs := [];
                   p_done := d; p_result := None; p_state := s |}
  (* case sem <- struct{}{} *)
  | pool_acquire t w1 c w2 r b es d s :
      (length r + length b < batch)%nat →
      pool_step {| p_todo := t; p_waiting := w1 ++ c :: w2; p_running := r; p_blocked := b; p_errs := es;
                   p_done := d; p_result := None; p_state := s |}
                {| p_todo := t; p_waiting := w1 ++ w2; p_running := (c, fn env c) :: r; p_blocked := b;
                   p_errs := es; p_done := d; p_result := None; p_state := s |}
  (* case <-ctx.Done(): the goroutine returns, its chunk not done *)
  | pool_give_up t w1 c w2 r b es d s :
      cancelled env s = true →
      pool_step {| p_todo := t; p_waiting := w1 ++ c :: w2; p_running := r; p_blocked := b; p_errs := es;
                   p_done := d; p_result := None; p_state := s |}
                {| p_todo := t; p_waiting := w1 ++ w2; p_running := r; p_blocked := b;
                   p_errs := es; p_done := d; p_result := None; p_state := s |}
  (* an action of fn *)
  | pool_act t w r1 c f r2 b es d s :
      pool_step {| p_todo := t; p_waiting := w; p_running := r1 ++ (c, Act f) :: r2; p_blocked := b;
                   p_errs := es; p_done := d; p_result := None; p_state := s |}
                {| p_todo := t; p_waiting := w; p_running := r1 ++ (c, snd (f s)) :: r2; p_blocked := b;
                   p_errs := es; p_done := d; p_result := None; p_state := fst (f s) |}
  (* fn returned nil; the semaphore is released *)
  | pool_ok t w r1 c r2 b es d s :
      pool_step {| p_todo := t; p_waiting := w; p_running := r1 ++ (c, Ret None) :: r2; p_blocked := b;
                   p_errs := es; p_done := d; p_result := None; p_state := s |}
                {| p_todo := t; p_waiting := w; p_running := r1 ++ r2; p_blocked := b; p_errs := es;
                   p_done := c :: d; p_result := None; p_state := s |}
  (* fn returned an error *)
  | pool_fail t w r1 c e r2 b es d s :
      pool_step {| p_todo := t; p_waiting := w; p_running := r1 ++ (c, Ret (Some e)) :: r2; p_blocked := b;
                   p_errs := es; p_done := d; p_result := None; p_state := s |}
                {| p_todo := t; p_waiting := w; p_running := r1 ++ r2; p_blocked := (c, e) :: b; p_errs := es;
                   p_done := d; p_result := None; p_state := s |}
  (* case errChan <- err; the semaphore is released *)
  | pool_send t w r b1 c e b2 es d s :
      (length es < batch)%nat →
      pool_step {| p_todo := t; p_waiting := w; p_running := r; p_blocked := b1 ++ (c, e) :: b2; p_errs := es;
                   p_done := d; p_result := None; p_state := s |}
                {| p_todo := t; p_waiting := w; p_running := r; p_blocked := b1 ++ b2; p_errs := es ++ [e];
                   p_done := d; p_result := None; p_state := s |}
  (* case <-ctx.Done(): the error is dropped *)
  | pool_drop t w r b1 c e b2 es d s :
      cancelled env s = true →
      pool_step {| p_todo := t; p_waiting := w; p_running := r; p_blocked := b1 ++ (c, e) :: b2; p_errs := es;
                   p_done := d; p_result := None; p_state := s |}
                {| p_todo := t; p_waiting := w; p_running := r; p_blocked := b1 ++ b2; p_errs := es;
                   p_done := d; p_result := None; p_state := s |}
  (* wg.Wait is over: flush, then the first error, or nil *)
  | pool_return es d s :
      pool_step {| p_todo := []; p_waiting := []; p_running := []; p_blocked := []; p_errs := es;
                   p_done := d; p_result := None; p_state := s |}
                {| p_todo := []; p_waiting := []; p_running := []; p_blocked := []; p_errs := tail es;
                   p_done := d; p_result := Some (head es); p_state := flush env s |}.

(** The caller's context ends. *)
Inductive pool_cancel : pool → pool → Prop :=
  | pool_cancel_ctx t w r b es d s :
      cancelled env s = false →
      pool_cancel {| p_todo := t; p_waiting := w; p_running := r; p_blocked := b; p_errs := es;
                     p_done := d; p_result := None; p_state := s |}
                  {| p_todo := t; p_waiting := w; p_running := r; p_blocked := b; p_errs := es;
                     p_done := d; p_result := None; p_state := cancel env s |}.

Definition pool_move (p p' : pool) : Prop := pool_step p p' ∨ pool_cancel p p'.

(** A run of [processChunks] on the chunks [cs], from [s], that returns [r] with the
    state [s']. *)
Definition pool_run (cs : list chunk) (s : S) (r : option error) (s' : S) : Prop :=
  ∃ p, rtc pool_move (pool_init cs s) p ∧ p_result p = Some r ∧ p_state p = s'.

End Pool.

(** [processChunks]. *)
Definition processChunks {S} (env : pool_env S) (fileSize chunkSize startOffset : Z) (batch : nat)
    (s : S) (r : option error) (s' : S) : Prop :=
  ∃ fuel cs, chunks fuel fileSize chunkSize startOffset = Some cs ∧ pool_run env batch cs s r s'.

(** ** What a run that returns nil has done *)

Section Inv.
  Context {S : Type} (env : pool_env S) (batch : nat) (cs : list chunk).
  (* [I] holds throughout; [wrote c] is what a chunk achieves *)
  Context (I : S → Prop) (wrote : chunk → S → Prop).

(** What the other goroutines leave true for the one of chunk [c], and what it must
    leave true for them. *)
Definition chunk_rely (c : chunk) (s s' : S) : Prop := I s → I s' ∧ (wrote c s → wrote c s').
Definition chunk_guar (c : chunk) (s s' : S) : Prop :=
  (I s → I s' ∧ ∀ d, d ∈ cs → d ≠ c → wrote d s → wrote d s')
  ∧ (cancelled env s = true → cancelled env s' = true).

(** The program of a chunk is correct: whatever the others do, if it returns nil the
    chunk is written. *)
Definition chunk_ok (c : chunk) (P : S → Prop) (m : prog S (option error)) : Prop :=
  rg (chunk_rely c) (chunk_guar c) P m (λ r s, r = None → wrote c s).

(** The other moves keep what the chunks rely on. *)
Definition env_keeps (f : S → S) : Prop := ∀ s, I s →
  I (f s) ∧ (∀ c, c ∈ cs → wrote c s → wrote c (f s)) ∧ (cancelled env s = true → cancelled env (f s) = true).

Context (cs_nodup : NoDup cs).
Context (fn_ok : ∀ c, c ∈ cs → chunk_ok c I (fn env c)).
Context (skip_ok : ∀ c s, c ∈ cs → I s → completed env c s = true → wrote c s).
Context (cancel_ok : env_keeps (cancel env)) (flush_ok : env_keeps (flush env)).
Context (cancel_done : ∀ s, cancelled env (cancel env s) = true).

(** A goroutine in [fn] has some assertion the others preserve. *)
Definition running_ok (s : S) (x : chunk * prog S (option error)) : Prop :=
  ∃ P : S → Prop, stable (chunk_rely (fst x)) P ∧ P s ∧ chunk_ok (fst x) P (snd x).

(** Every chunk is in one place: [F] failed and [L] given up. *)
Record pool_inv (p : pool (S:=S)) (F L : list chunk) : Prop := {
  pi_chunks : cs ≡ₚ p_done p ++ p_todo p ++ p_waiting p ++ (fst <$> p_running p) ++ F ++ L;
  pi_I : I (p_state p);
  pi_done c : c ∈ p_done p → wrote c (p_state p);
  pi_running : Forall (running_ok (p_state p)) (p_running p);
  pi_failed : p_result p = None → length F = (length (p_blocked p) + length (p_errs p))%nat;
  pi_lost : L ≠ [] → cancelled env (p_state p) = true;
  pi_nil : p_result p = Some None → p_todo p = [] ∧ p_waiting p = [] ∧ p_running p = [] ∧ F = [];
}.

Lemma pool_inv_init s : I s → pool_inv (pool_init cs s) [] [].
Proof. intros HI. split; try done; simpl; [by rewrite app_nil_r|set_solver]. Qed.

(** A move that keeps what everybody relies on. *)
Lemma running_keeps s s' r : (∀ c, c ∈ cs → chunk_rely c s s') → (∀ x, x ∈ r → fst x ∈ cs) →
  Forall (running_ok s) r → Forall (running_ok s') r.
Proof.
  intros Hs Hin. rewrite !Forall_forall. intros Hr x Hx. destruct (Hr x Hx) as (P & Hst & HP & Hok).
  exists P. split_and!; try done. by eapply Hst, HP; apply Hs, Hin.
Qed.

Lemma env_keeps_rely f s : env_keeps f → I s → ∀ c, c ∈ cs → chunk_rely c s (f s).
Proof. intros Hf HI c Hc _. destruct (Hf s HI) as (? & ? & _). auto. Qed.

Lemma in_cs (l k : list chunk) c : cs ≡ₚ l ++ c :: k → c ∈ cs.
Proof. intros ->. set_solver. Qed.

Lemma running_in p F L x : pool_inv p F L → x ∈ p_running p → fst x ∈ cs.
Proof.
  intros Hi Hx. rewrite (pi_chunks _ _ _ Hi). rewrite !elem_of_app. do 3 right. left.
  apply list_elem_of_fmap. by exists x.
Qed.

Lemma done_in p F L c : pool_inv p F L → c ∈ p_done p → c ∈ cs.
Proof. intros Hi Hc. rewrite (pi_chunks _ _ _ Hi). rewrite elem_of_app. by left. Qed.

(** A move of the environment. *)
Lemma env_move_inv f p F L t w r b es d s :
  env_keeps f → p = {| p_todo := t; p_waiting := w; p_running := r; p_blocked := b; p_errs := es;
                       p_done := d; p_result := None; p_state := s |} →
  pool_inv p F L → I (f s) ∧ (∀ c, c ∈ d → wrote c (f s)) ∧ Forall (running_ok (f s)) r
    ∧ (L ≠ [] → cancelled env (f s) = true).
Proof.
  intros Hf -> Hi. pose proof (pi_I _ _ _ Hi) as HI. simpl in HI. destruct (Hf s HI) as (H1 & H2 & H3).
  split_and!; [done| | |].
  - intros c Hc. apply H2; [by eapply done_in|]. by apply (pi_done _ _ _ Hi).
  - eapply running_keeps; [by apply env_keeps_rely| |by apply (pi_running _ _ _ Hi)].
    intros x Hx. by eapply running_in.
  - intros HL. by apply H3, (pi_lost _ _ _ Hi).
Qed.

Lemma act_inv t w r1 c f r2 b es d s F L :
  pool_inv {| p_todo := t; p_waiting := w; p_running := r1 ++ (c, Act f) :: r2; p_blocked := b;
              p_errs := es; p_done := d; p_result := None; p_state := s |} F L →
  pool_inv {| p_todo := t; p_waiting := w; p_running := r1 ++ (c, snd (f s)) :: r2; p_blocked := b;
              p_errs := es; p_done := d; p_result := None; p_state := fst (f s) |} F L.
Proof.
  intros Hi. pose proof (pi_I _ _ _ Hi) as HI. pose proof (pi_running _ _ _ Hi) as Hr. simpl in HI, Hr.
  apply Forall_app in Hr as [Hr1 Hr2]. apply Forall_cons in Hr2 as [Hc Hr2].
  destruct Hc as (P & Hst & HP & Hok). destruct (Hok s HP) as ((Hg & Hcan) & P' & Hst' & HP' & Hok').
  destruct (Hg HI) as [HI' Hothers].
  assert (c ∉ d ∧ c ∉ r1.*1 ∧ c ∉ r2.*1) as (Hd & Hn1 & Hn2).
  { pose proof (pi_chunks _ _ _ Hi) as Hcs. simpl in Hcs. rewrite Hcs in cs_nodup.
    rewrite fmap_app, fmap_cons in cs_nodup. repeat rewrite NoDup_app in cs_nodup. rewrite NoDup_cons in cs_nodup.
    set_solver. }
  assert (∀ x, x ∈ r1 ++ r2 → fst x ∈ cs ∧ fst x ≠ c) as Hin.
  { intros x Hx. split.
    - eapply (running_in _ F L); [exact Hi|]. simpl. set_solver.
    - apply elem_of_app in Hx as [Hx|Hx]; intros <-; [apply Hn1|apply Hn2]; apply list_elem_of_fmap; by exists x. }
  assert (Forall (running_ok (fst (f s))) (r1 ++ r2)) as Hrun.
  { rewrite Forall_forall. intros x Hx. destruct (Hin x Hx) as [Hxc Hne].
    assert (running_ok s x) as (Q & HQst & HQ & HQok).
    { apply elem_of_app in Hx as [Hx|Hx]; [eapply Forall_forall in Hr1|eapply Forall_forall in Hr2]; eauto. }
    exists Q. split_and!; try done. eapply HQst; [|exact HQ]. intros _. split; [done|]. by apply Hothers. }
  destruct Hi as [Pc _ Pd _ Pf Pl Pn]. split; simpl in *; try done.
  - rewrite Pc, !fmap_app, !fmap_cons. done.
  - intros e He. apply Hothers; [|congruence|by apply Pd]. rewrite Pc. set_solver.
  - apply Forall_app in Hrun as [? ?]. apply Forall_app. split; [done|]. constructor; [|done]. by exists P'.
  - intros HL. by apply Hcan, Pl.
Qed.

Lemma pool_step_inv p p' F L : pool_inv p F L → pool_step env batch p p' → ∃ F' L', pool_inv p' F' L'.
Proof.
  intros Hi Hst. pose proof (pi_failed _ _ _ Hi) as Hlen. pose proof (pi_running _ _ _ Hi) as Hrun.
  destruct Hst; simpl in Hlen, Hrun; specialize (Hlen eq_refl).
  - exists F, L. by destruct Hi.
  - exists F, L. destruct Hi as [Pc PI Pd Pr Pf Pl Pn]. split; simpl in *; try done.
    + rewrite Pc. solve_Permutation.
    + intros e He. apply elem_of_cons in He as [->|He]; [|by apply Pd]. apply skip_ok; try done.
      rewrite Pc. set_solver.
  - exists F, L. destruct Hi as [Pc PI Pd Pr Pf Pl Pn]. split; simpl in *; try done. rewrite Pc. solve_Permutation.
  - exists F, L. destruct Hi as [Pc PI Pd Pr Pf Pl Pn]. split; simpl in *; try done.
    + rewrite Pc. solve_Permutation.
    + constructor; [|done]. exists I. split_and!; try done.
      * intros s1 s2 Hrel HI. by apply Hrel.
      * apply fn_ok. rewrite Pc. set_solver.
  - exists F, (c :: L). destruct Hi as [Pc PI Pd Pr Pf Pl Pn]. split; simpl in *; try done. rewrite Pc. solve_Permutation.
  - exists F, L. by apply act_inv.
  - exists F, L. apply Forall_app in Hrun as [Hr1 Hr2]. apply Forall_cons in Hr2 as [(P & _ & HP & Hok) Hr2].
    destruct Hi as [Pc PI Pd Pr Pf Pl Pn]. split; simpl in *; try done.
    + rewrite Pc, !fmap_app, !fmap_cons. solve_Permutation.
    + intros e He. apply elem_of_cons in He as [->|He]; [|by apply Pd]. by apply (Hok s HP).
    + by apply Forall_app.
  - exists (c :: F), L. apply Forall_app in Hrun as [Hr1 Hr2]. apply Forall_cons in Hr2 as [_ Hr2].
    destruct Hi as [Pc PI Pd Pr Pf Pl Pn]. split; simpl in *; try done.
    + rewrite Pc, !fmap_app, !fmap_cons. solve_Permutation.
    + by apply Forall_app.
    + intros _. rewrite Hlen. lia.
  - exists F, L. destruct Hi as [Pc PI Pd Pr Pf Pl Pn]. split; simpl in *; try done.
    intros _. repeat rewrite length_app in *. simpl in *. lia.
  - rewrite length_app in Hlen. simpl in Hlen. destruct F as [|c' F]; [simpl in Hlen; lia|].
    exists F, (c' :: L). destruct Hi as [Pc PI Pd Pr Pf Pl Pn]. split; simpl in *; try done.
    + rewrite Pc. solve_Permutation.
    + intros _. rewrite length_app. simpl. lia.
  - exists F, L. destruct (env_move_inv (flush env) _ F L _ _ _ _ _ _ _ flush_ok eq_refl Hi) as (? & ? & ? & ?).
    destruct Hi as [Pc PI Pd Pr Pf Pl Pn]. split; simpl in *; try done.
    intros Hh. destruct es; [|done]. by destruct F.
Qed.

Lemma pool_move_inv p p' F L : pool_inv p F L → pool_move env batch p p' → ∃ F' L', pool_inv p' F' L'.
Proof.
  intros Hi [Hst|Hc]; [by eapply pool_step_inv|]. exists F, L. destruct Hc.
  destruct (env_move_inv (cancel env) _ F L _ _ _ _ _ _ _ cancel_ok eq_refl Hi) as (? & ? & ? & ?). by destruct Hi.
Qed.

Lemma pool_reach_inv s p : I s → rtc (pool_move env batch) (pool_init cs s) p → ∃ F L, pool_inv p F L.
Proof.
  intros HI. apply (rtc_ind_r (λ p, ∃ F L, pool_inv p F L)).
  - exists [], []. by apply pool_inv_init.
  - intros p1 p2 _ Hs (F & L & Hi). by eapply pool_move_inv.
Qed.

(** A run keeps the invariant; one that returns nil without being cancelled has
    written every chunk. *)
Lemma pool_run_ok s r s' : I s → pool_run env batch cs s r s' →
  I s' ∧ (r = None → cancelled env s' = false → ∀ c, c ∈ cs → wrote c s').
Proof.
  intros HI (p & Hr & Hres & <-). destruct (pool_reach_inv s p HI Hr) as (F & L & Hi).
  split; [apply (pi_I _ _ _ Hi)|]. intros -> Hc c Hin.
  destruct (pi_nil _ _ _ Hi Hres) as (H1 & H2 & H3 & H4). apply (pi_done _ _ _ Hi).
  pose proof (pi_chunks _ _ _ Hi) as Hcs. rewrite H1, H2, H3, H4 in Hcs. simpl in Hcs.
  destruct L as [|c' L]; [rewrite app_nil_r in Hcs; by rewrite <- Hcs|].
  rewrite (pi_lost _ _ _ Hi) in Hc; done.
Qed.
End Inv.

(** ** What no action of the chunks breaks *)

Section Keeps.
  Context {S : Type} (env : pool_env S) (batch N : nat) (K : S → Prop) (P : chunk → Prop).
  Context (fn_keeps : ∀ c, P c → within K N (fn env c)).
  Context (cancel_keeps : ∀ s, K s → K (cancel env s)) (flush_keeps : ∀ s, K s → K (flush env s)).

Definition kept_pool (p : pool (S:=S)) : Prop :=
  K (p_state p) ∧ Forall (λ x, ∃ n, within K n (snd x)) (p_running p)
  ∧ Forall P (p_todo p) ∧ Forall P (p_waiting p).

Lemma kept_move p p' : kept_pool p → pool_move env batch p p' → kept_pool p'.
Proof.
  unfold kept_pool. intros (HK & Hr & Ht & Hw) [Hst|Hst]; [|destruct Hst; simpl in *; auto].
  destruct Hst; simpl in *; rewrite ?Forall_app, ?Forall_cons in *; try by intuition auto.
  - destruct Hw as (? & Hc & ?). split_and!; try done. by eexists; apply fn_keeps.
  - destruct Hr as (H1 & (n & Hn) & H2). destruct n as [|n]; [done|]. destruct (Hn s) as [Hs Hw'].
    split_and!; try done; [by apply Hs|by eexists].
Qed.

Lemma pool_keeps cs s r s' : Forall P cs → K s → pool_run env batch cs s r s' → K s'.
Proof.
  intros HP HK (p & Hr & _ & <-). assert (kept_pool p) as [? _]; [|done].
  revert Hr. apply (rtc_ind_r kept_pool); [by split_and!|]. intros; by eapply kept_move.
Qed.
End Keeps.

(** ** Termination and deadlock *)

Section Ends.
  Context {S : Type} (env : pool_env S) (batch N : nat).
  Context (fn_within : ∀ c, within (λ s, cancelled env s = true) N (fn env c)).
  Context (cancel_done : ∀ s, cancelled env (cancel env s) = true).
  Context (flush_done : ∀ s, cancelled env s = true → cancelled env (flush env s) = true).

(** What is left to do, in steps. *)
Record weighs (p : pool (S:=S)) (k : nat) (ns : list nat) : Prop := {
  wt_running : Forall2 (λ x n, within (λ s, cancelled env s = true) n (snd x)) (p_running p) ns;
  wt_sum : k = (length (p_todo p) * (N + 6) + length (p_waiting p) * (N + 5) + sum_list_with (λ n, n + 4) ns
    + length (p_blocked p) * 2 + (if cancelled env (p_state p) then 0 else 1)
    + (if p_result p then 0 else 1))%nat;
}.

Lemma weighs_init cs s : ∃ k, weighs (pool_init cs s) k [] ∧ (k ≤ length cs * (N + 6) + 2)%nat.
Proof. eexists. split; [split; [constructor|done]|]. simpl. destruct (cancelled env s); lia. Qed.

Lemma move_lighter p p' k ns : weighs p k ns → pool_move env batch p p' →
  ∃ k' ns', weighs p' k' ns' ∧ (k' < k)%nat.
Proof.
  intros [Hr ->] [Hst|Hst].
  2: { destruct Hst as [t w r b es d s Hc]. eexists _, ns. split; [by split|]. simpl. rewrite Hc, cancel_done. lia. }
  destruct Hst; simpl in *.
  1-3: eexists _, ns; split; [by split|]; simpl; rewrite ?length_app; simpl; lia.
  - eexists _, (N :: ns). split; [split; [constructor; [apply fn_within|exact Hr]|reflexivity]|]. simpl.
    rewrite !length_app. simpl. lia.
  - eexists _, ns. split; [by split|]. simpl. rewrite !length_app. simpl. lia.
  - apply Forall2_app_inv_l in Hr as (n1 & n2 & H1 & H2 & ->). apply Forall2_cons_inv_l in H2 as (n & n3 & Hn & H3 & ->).
    destruct n as [|n]; [done|]. simpl in Hn. destruct (Hn s) as [Hk Hw].
    eexists _, (n1 ++ n :: n3). split; [split; [apply Forall2_app; [done|by constructor]|reflexivity]|].
    simpl. rewrite !sum_list_with_app. simpl. destruct (cancelled env s) eqn:E.
    + rewrite Hk by done. lia.
    + destruct (cancelled env (fst (f s))); lia.
  - apply Forall2_app_inv_l in Hr as (n1 & n2 & H1 & H2 & ->). apply Forall2_cons_inv_l in H2 as (n & n3 & Hn & H3 & ->).
    eexists _, (n1 ++ n3). split; [split; [by apply Forall2_app|reflexivity]|].
    simpl. rewrite !sum_list_with_app. simpl. lia.
  - apply Forall2_app_inv_l in Hr as (n1 & n2 & H1 & H2 & ->). apply Forall2_cons_inv_l in H2 as (n & n3 & Hn & H3 & ->).
    eexists _, (n1 ++ n3). split; [split; [by apply Forall2_app|reflexivity]|].
    simpl. rewrite !sum_list_with_app. simpl. lia.
  - eexists _, ns. split; [by split|]. simpl. rewrite !length_app. simpl. lia.
  - eexists _, ns. split; [by split|]. simpl. rewrite !length_app. simpl. lia.
  - eexists _, ns. split; [by split|]. apply Forall2_nil_inv_l in Hr as ->. simpl.
    destruct (cancelled env s) eqn:E; [|destruct (cancelled env (flush env s)); lia].
    rewrite flush_done by done. lia.
Qed.

(** A run has a bounded number of moves. *)
Lemma run_bounded p k ns p' n : weighs p k ns → nsteps (pool_move env batch) n p p' → (n ≤ k)%nat.
Proof.
  revert p k ns. induction n as [|n IH]; intros p k ns Hw Hr; [lia|].
  inversion Hr as [|? ? p1 ? H1 H2]; subst. destruct (move_lighter _ _ _ _ Hw H1) as (k1 & ns1 & Hw1 & Hlt).
  specialize (IH _ _ _ Hw1 H2). lia.
Qed.

(** All that is left is goroutines that cannot send their errors, and waiting ones that
    cannot get the semaphore those hold. *)
Definition stuck (p : pool (S:=S)) : Prop :=
  cancelled env (p_state p) = false ∧ p_todo p = [] ∧ p_running p = [] ∧ p_blocked p ≠ []
  ∧ (batch ≤ length (p_errs p))%nat ∧ (p_waiting p ≠ [] → (batch ≤ length (p_blocked p))%nat).

(** ** Calls that never return

    A goroutine of [hung] stays in the call it is in: no action of it ever ends. *)
Section Hung.
  Context (hung : chunk → bool).

Definition held (x : chunk * prog S (option error)) : bool :=
  match snd x with Act _ => hung (fst x) | Ret _ => false end.

(** A step in which no such goroutine takes part. *)
Definition step_without (p p' : pool (S:=S)) : Prop :=
  pool_step env batch p p' ∧ ∀ x, x ∈ p_running p → held x = true → x ∈ p_running p'.

(** All that is left is goroutines in such calls, others that wait for the semaphore or
    for room in the error channel, and no end of the context to release them. *)
Record halted (p : pool (S:=S)) : Prop := {
  ha_todo : p_todo p = [];
  ha_running x : x ∈ p_running p → held x = true;
  ha_blocked : p_blocked p ≠ [] → cancelled env (p_state p) = false ∧ (batch ≤ length (p_errs p))%nat;
  ha_waiting : p_waiting p ≠ [] → cancelled env (p_state p) = false
    ∧ (batch ≤ length (p_running p) + length (p_blocked p))%nat;
  ha_some : p_running p ≠ [] ∨ p_blocked p ≠ [];
}.

Lemma held_stay (r1 r2 r : list (chunk * prog S (option error))) y : held y = false →
  (∀ x, x ∈ r1 ++ r2 → x ∈ r) → ∀ x, x ∈ r1 ++ y :: r2 → held x = true → x ∈ r.
Proof.
  intros Hy Hr x [Hin|[->|Hin]%elem_of_cons]%elem_of_app Hx; [| |]; [|congruence|]; apply Hr, elem_of_app; auto.
Qed.

(** A goroutine that is not in such a call goes on. *)
Lemma running_goes_on t w r1 y r2 b es d s : held y = false →
  ∃ p', step_without {| p_todo := t; p_waiting := w; p_running := r1 ++ y :: r2; p_blocked := b; p_errs := es;
                        p_done := d; p_result := None; p_state := s |} p'.
Proof.
  intros Hy. destruct y as [c [[e|]|f]]; eexists; (split; [constructor|cbn [p_running]; apply held_stay; [done|]]);
    intros x; rewrite !elem_of_app, ?elem_of_cons; tauto.
Qed.

(** Short of that, something else moves. *)
Lemma pool_progress p : (0 < batch)%nat → p_result p = None → (∃ p', step_without p p') ∨ halted p.
Proof.
  destruct p as [t w r b es d res s]. simpl. intros Hb ->.
  destruct t as [|c t].
  2: { left. destruct es as [|e es]; [|by eexists; split; [apply pool_abort|]].
       destruct (completed env c s) eqn:E; eexists; (split; [by constructor|done]). }
  destruct (decide (Forall (λ x, held x = true) r)) as [Hall|Hex].
  2: { left. apply not_Forall_Exists, Exists_exists in Hex as (y & Hin & Hy); [|apply _].
       apply list_elem_of_split in Hin as (r1 & r2 & ->). apply running_goes_on. by apply not_true_is_false. }
  rewrite Forall_forall in Hall. destruct b as [|[c e] b].
  - destruct w as [|c w].
    + destruct r as [|y r]; [left; eexists; split; [apply pool_return|done]|]. right. split; try done; by left.
    + destruct (cancelled env s) eqn:E; [left; eexists; split; [by apply (pool_give_up _ _ _ [])|done]|].
      destruct (decide (length r < batch)%nat).
      { left. eexists. split; [apply (pool_acquire _ _ _ []); simpl; lia|]. intros x Hx _. by right. }
      right. split; try done; [intros _; simpl; split; [done|lia]|]. left. simpl. intros ->. simpl in *. lia.
  - destruct (decide (length es < batch)%nat); [left; eexists; split; [by apply (pool_send _ _ _ _ _ [])|done]|].
    destruct (cancelled env s) eqn:E; [left; eexists; split; [by apply (pool_drop _ _ _ _ _ [])|done]|].
    destruct w as [|c' w].
    { right. split; try done; [intros _; simpl; split; [done|lia]|by right]. }
    destruct (decide (length r + length b + 1 < batch)%nat).
    { left. eexists. split; [apply (pool_acquire _ _ _ []); simpl; lia|]. intros x Hx _. by right. }
    right. split; try done; [intros _; simpl; split; [done|lia]..|by right].
Qed.

(** Without such calls the pool halts only when it is stuck. *)
Lemma halted_stuck p : halted p → p_running p = [] → stuck p.
Proof.
  intros [Ht _ Hb Hw Hs] Hr. rewrite Hr in *. destruct Hs as [|Hs]; [done|]. destruct (Hb Hs) as [Hc He].
  split_and!; try done. intros Hn. by destruct (Hw Hn).
Qed.
(** A pool that has halted takes no step but the end of one of those calls. *)
Lemma halted_only_held p p' : (0 < batch)%nat → halted p → pool_step env batch p p' →
  ∃ r1 c f r2, p_running p = r1 ++ (c, Act f) :: r2 ∧ hung c = true
    ∧ p_running p' = r1 ++ (c, snd (f (p_state p))) :: r2 ∧ p_result p' = None.
Proof.
  intros Hpos [Ht Hr Hb Hw Hs] Hst. destruct Hst; simpl in *; try done; try (destruct (Hb ltac:(by destruct b1)); congruence || lia);
    try (destruct (Hw ltac:(by destruct w1)); congruence || lia).
  - exists r1, c, f, r2. split_and!; try done. apply (Hr (c, Act f)). apply elem_of_app. right. by left.
  - specialize (Hr (c, Ret None) ltac:(apply elem_of_app; right; by left)). done.
  - specialize (Hr (c, Ret (Some e)) ltac:(apply elem_of_app; right; by left)). done.
  - by destruct Hs.
Qed.
End Hung.

(** A stuck pool stays stuck until the context ends. *)
Lemma stuck_no_step p p' : stuck p → p_result p = None → ¬ pool_step env batch p p'.
Proof.
  intros (Hc & Ht & Hr & Hb & He & Hw) Hres Hst. destruct Hst; simpl in *; try congruence; try lia;
    try by destruct r1.
  destruct w1; simpl in *; (assert (batch ≤ length b)%nat by (by apply Hw)); lia.
Qed.
End Ends.

(** ** The division covers the file *)

(** Consecutive chunks of at most [chunkSize] bytes, from [a] to [b]. *)
Inductive tiles (chunkSize : Z) : Z → list chunk → Z → Prop :=
  | tiles_nil a : tiles chunkSize a [] a
  | tiles_cons a sz cs b : 0 < sz → sz <= chunkSize → tiles chunkSize (a + sz) cs b →
      tiles chunkSize a ((a, sz) :: cs) b.

Lemma tiles_le k a cs b : tiles k a cs b → a <= b.
Proof. induction 1; lia. Qed.

Lemma tiles_bounds k a cs b c : tiles k a cs b → c ∈ cs →
  a <= fst c ∧ 0 < snd c ∧ snd c <= k ∧ fst c + snd c <= b.
Proof.
  intros Ht. induction Ht as [|a sz cs b Hs Hk Ht IH]; intros Hc; [by apply not_elem_of_nil in Hc|].
  pose proof (tiles_le _ _ _ _ Ht). apply elem_of_cons in Hc as [->|Hc]; simpl; [lia|].
  destruct (IH Hc) as (? & ? & ? & ?). lia.
Qed.

(** Every byte of the range is in exactly one chunk. *)
Lemma tiles_cover k a cs b j : tiles k a cs b → a <= j < b →
  ∃ c, c ∈ cs ∧ fst c <= j < fst c + snd c.
Proof.
  induction 1 as [|a sz cs b Hs Hk Ht IH]; intros Hj; [lia|].
  destruct (decide (j < a + sz)).
  - exists (a, sz). split; [by left|]. simpl. lia.
  - destruct IH as (c & Hc & Hin); [lia|]. exists c. split; [by right|done].
Qed.

Lemma tiles_disjoint k a cs b c d : tiles k a cs b → c ∈ cs → d ∈ cs → c ≠ d →
  fst c + snd c <= fst d ∨ fst d + snd d <= fst c.
Proof.
  induction 1 as [|a sz cs b Hs Hk Ht IH]; intros Hc Hd Hne; [by apply not_elem_of_nil in Hc|].
  apply elem_of_cons in Hc as [->|Hc]; apply elem_of_cons in Hd as [->|Hd]; simpl.
  - done.
  - left. destruct (tiles_bounds _ _ _ _ _ Ht Hd). lia.
  - right. destruct (tiles_bounds _ _ _ _ _ Ht Hc). lia.
  - by apply IH.
Qed.

Lemma chunk_loop_tiles fuel k off rem :
  0 < k → is_i64 k → 0 <= off → 0 <= rem → is_i64 (off + rem) → rem <= Z.of_nat fuel * k →
  ∃ cs, chunk_loop fuel k off rem = Some cs ∧ tiles k off cs (off + rem).
Proof.
  intros Hk Hk64. revert off rem. induction fuel as [|fuel IH]; intros off rem Ho Hr H64 Hf; cbn [chunk_loop].
  - assert (rem = 0) as -> by lia. exists []. rewrite Z.add_0_r. split; [done|constructor].
  - destruct (0 <? rem) eqn:E; zbool.
    2: { assert (rem = 0) as -> by lia. exists []. rewrite Z.add_0_r. split; [done|constructor]. }
    unfold next_size. unfold is_i64 in *. destruct (rem <? k) eqn:Ek; zbool.
    + rewrite !i64_id by (unfold is_i64; lia). replace (rem - rem) with 0 by lia.
      exists [(off, rem)]. split; [by destruct fuel|]. constructor; [lia|lia|constructor].
    + rewrite !i64_id by (unfold is_i64; lia).
      destruct (IH (off + k) (rem - k)) as (cs & -> & Ht); [lia..|].
      exists ((off, k) :: cs). split; [done|]. constructor; [lia|lia|].
      by replace (off + rem) with (off + k + (rem - k)) by lia.
Qed.

Lemma chunk_loop_zero fuel off rem : 0 < rem → is_i64 rem → chunk_loop fuel 0 off rem = None.
Proof.
  intros Hr H64. revert off. induction fuel as [|fuel IH]; intros off; cbn [chunk_loop];
    rewrite (proj2 (Z.ltb_lt 0 rem)) by done; [done|].
  unfold next_size. rewrite (proj2 (Z.ltb_ge rem 0)) by lia.
  rewrite Z.sub_0_r, (i64_id rem) by done. by rewrite IH.
Qed.

(** Whatever the fuel, a division that ends covers the file. *)
Lemma chunk_loop_some fuel k off rem cs :
  0 < k → is_i64 k → 0 <= off → 0 <= rem → is_i64 (off + rem) → chunk_loop fuel k off rem = Some cs →
  tiles k off cs (off + rem).
Proof.
  intros Hk Hk64. revert off rem cs. induction fuel as [|fuel IH]; intros off rem cs Ho Hr H64; cbn [chunk_loop];
    destruct (0 <? rem) eqn:E; zbool; try done.
  1, 3: intros [= <-]; assert (rem = 0) as -> by lia; rewrite Z.add_0_r; constructor.
  unfold next_size, is_i64 in *. destruct (rem <? k) eqn:Ek; zbool;
    rewrite !i64_id by (unfold is_i64; lia); destruct (chunk_loop fuel k _ _) as [rest|] eqn:Hrest;
    intros [= <-]; apply IH in Hrest; try lia; (constructor; [lia|lia|]).
  - by replace (off + rem + (rem - rem)) with (off + rem) in Hrest by lia.
  - by replace (off + k + (rem - k)) with (off + rem) in Hrest by lia.
Qed.

Lemma tiles_offsets k a cs b c d : tiles k a cs b → c ∈ cs → d ∈ cs → fst c = fst d → c = d.
Proof.
  intros Ht Hc Hd Heq. destruct (decide (c = d)) as [->|Hne]; [done|].
  destruct (tiles_bounds _ _ _ _ _ Ht Hc) as (_ & ? & _). destruct (tiles_bounds _ _ _ _ _ Ht Hd) as (_ & ? & _).
  destruct (tiles_disjoint _ _ _ _ _ _ Ht Hc Hd Hne); lia.
Qed.

Lemma tiles_nodup k a cs b : tiles k a cs b → NoDup cs.
Proof.
  induction 1 as [|a sz cs b Hs Hk Ht IH]; [constructor|]. constructor; [|done].
  intros Hin. destruct (tiles_bounds _ _ _ _ _ Ht Hin) as (Hle & _). simpl in Hle. lia.
Qed.
