(* ===== verification/Resume.v ===== *)
(** The resume state of a transfer ([src/transfer.go], [resumeState]): which chunks a
    former run has confirmed, and the file that keeps it.

    [encoding/json] is the parameter [Json], with the round trip of the four exported
    fields; [os.TempDir] is [TempDir].  The mutex makes each operation atomic.  The
    pointer is an [option]: every operation accepts nil. *)
From S2P Require Import Prelude GoStd GoHash OS Prog.
From stdpp Require Import sorting.
From Stdlib Require Import Strings.Byte.

Local Open Scope Z_scope.

(** The exported fields: what the file holds. *)
Record resumeJSON : Set := {
  j_Version : Z;
  j_SourceSize : Z;
  j_ChunkSize : Z;
  j_Completed : list Z;
}.

Class Json := {
  json_Encode : resumeJSON → list byte;           (* Encoder.Encode, newline included *)
  json_Decode : list byte → result resumeJSON;    (* Decoder.Decode of the first value *)
}.

Class JsonOk `{Json} : Prop := {
  json_roundtrip j : json_Decode (json_Encode j) = Ok j;
  json_nonempty j : json_Encode j ≠ [];
}.

Class TempDir := os_TempDir : string.

Record resumeState : Set := {
  r_Version : Z;
  r_SourceSize : Z;
  r_ChunkSize : Z;
  r_Completed : list Z;
  r_path : string;
  r_completedSet : gset Z;
  r_pending : list Z;
  r_batch : Z;
}.

Definition set_Completed (l : list Z) (s : resumeState) : resumeState :=
  {| r_Version := r_Version s; r_SourceSize := r_SourceSize s; r_ChunkSize := r_ChunkSize s; r_Completed := l;
     r_path := r_path s; r_completedSet := r_completedSet s; r_pending := r_pending s; r_batch := r_batch s |}.
Definition add_done (off : Z) (s : resumeState) : resumeState :=
  {| r_Version := r_Version s; r_SourceSize := r_SourceSize s; r_ChunkSize := r_ChunkSize s;
     r_Completed := r_Completed s; r_path := r_path s; r_completedSet := {[ off ]} ∪ r_completedSet s;
     r_pending := r_pending s ++ [off]; r_batch := r_batch s |}.
Definition to_json (s : resumeState) : resumeJSON :=
  {| j_Version := r_Version s; j_SourceSize := r_SourceSize s; j_ChunkSize := r_ChunkSize s;
     j_Completed := r_Completed s |}.

Section Resume.
  Context `{Json, TempDir, OS}.

Definition stateFilePath (srcPath targetPath : string) : string :=
  let h := Sum256 (String.list_byte_of_string (srcPath +:+ ":" +:+ targetPath)) in
  let name := "gcp-resume-" +:+ EncodeToString (take 16 h) +:+ ".json" in
  GoStd.Join [os_TempDir; "gcp"; name].

(** What the file decodes to, if it belongs to this transfer. *)
Definition state_of_json (p : string) (sourceSize chunkSize batch : Z) (s : resumeJSON) : option resumeState :=
  if negb (j_Version s =? 1) || negb (j_SourceSize s =? sourceSize) || negb (j_ChunkSize s =? chunkSize)
  then None
  else Some {| r_Version := j_Version s; r_SourceSize := j_SourceSize s; r_ChunkSize := j_ChunkSize s;
               r_Completed := j_Completed s; r_path := p;
               r_completedSet := list_to_set (j_Completed s); r_pending := []; r_batch := batch |}.

Definition loadResumeState (srcPath targetPath : string) (sourceSize chunkSize batch : Z)
    : prog world (option resumeState) :=
  let p := stateFilePath srcPath targetPath in
  opened ← atomic (os_OpenFile p O_RDONLY 0);
  match opened with
  | Err _ => mret None
  | Ok f =>
    rd ← atomic (f_ReadRest f);
    atomic (f_Close f);;
    match rd with
    | Err _ => mret None
    | Ok d =>
      match json_Decode d with
      | Err _ => mret None
      | Ok s => mret (state_of_json p sourceSize chunkSize batch s)
      end
    end
  end.

(** [sort.Slice] of the completed offsets. *)
Definition sorted_offsets (s : gset Z) : list Z := merge_sort Z.le (elements s).

(** The encoder writes the whole value with one [Write], at the start of the new file. *)
Definition saveResumeState (s : resumeState) : prog world (resumeState * option error) :=
  err ← atomic (os_MkdirAll (Dir (r_path s)) 0x1ED);
  match err with
  | Some err => mret (s, Some err)
  | None =>
    let s := set_Completed (sorted_offsets (r_completedSet s)) s in
    let tmp := r_path s +:+ ".tmp" in
    opened ← atomic (os_OpenFile tmp O_CREATE_RDWR_TRUNC 0x1B6);
    match opened with
    | Err err => mret (s, Some err)
    | Ok f =>
      wrote ← atomic (f_WriteAt f (json_Encode (to_json s)) 0);
      match wrote with
      | (_, Some err) =>
        atomic (f_Close f);;
        atomic (os_Remove tmp);;
        mret (s, Some err)
      | (_, None) =>
        closed ← atomic (f_Close f);
        match closed with
        | Some err => atomic (os_Remove tmp);; mret (s, Some err)
        | None => err ← atomic (os_Rename tmp (r_path s)); mret (s, err)
        end
      end
    end
  end.

Definition deleteResumeState (s : option resumeState) : prog world () :=
  match s with
  | None => mret ()
  | Some s => atomic (os_Remove (r_path s));; mret ()
  end.

(** The save of an updated state, whose error the callers only log. *)
Definition save_some (s : resumeState) : prog world (option resumeState * option error) :=
  '(s, err) ← saveResumeState s; mret (Some s, err).

Definition addCompletedOffset (s : option resumeState) (offset : Z)
    : prog world (option resumeState * option error) :=
  match s with
  | None => mret (None, None)
  | Some s =>
    let s := add_done offset s in
    let shouldFlush := r_batch s <=? zlen (r_pending s) in
    if shouldFlush then save_some s else mret (Some s, None)
  end.

Definition flushResumeState (s : option resumeState) : prog world (option resumeState * option error) :=
  match s with
  | None => mret (None, None)
  | Some s =>
    let hasPending := 0 <? zlen (r_pending s) in
    if hasPending then save_some s else mret (Some s, None)
  end.

Definition isCompleted (s : option resumeState) (offset : Z) : bool :=
  match s with
  | None => false
  | Some s => bool_decide (offset ∈ r_completedSet s)
  end.

(** ** Saving *)

Context {LAWS : OSLaws}.

Lemma elem_of_sorted s off : off ∈ sorted_offsets s ↔ off ∈ s.
Proof. unfold sorted_offsets. rewrite merge_sort_Permutation. apply elem_of_elements. Qed.

Lemma sorted_offsets_set s : list_to_set (sorted_offsets s) = s.
Proof. apply set_eq. intros off. rewrite elem_of_list_to_set. apply elem_of_sorted. Qed.

(** What a save leaves alone, seen from a file [i] with contents [d] that is not under
    the temporary name: open files, the contents, and that it is not. *)
Record kept (tmp : string) (i : nat) (d : list byte) (w w' : world) : Prop := {
  k_handle g h : handle w g = Some h → handle w' g = Some h;
  k_data : idata w' i = Some d;
  k_tmp : at_path w' tmp ≠ Some i;
}.

Definition names_kept (i : nat) (w w' : world) : Prop := ∀ q, at_path w q = Some i → at_path w' q = Some i.

Section Kept.
  Context (tmp : string) (i : nat) (d : list byte).

Lemma kept_refl w : idata w i = Some d → at_path w tmp ≠ Some i → kept tmp i d w w.
Proof. by split. Qed.

Lemma kept_trans w1 w2 w3 : kept tmp i d w1 w2 → kept tmp i d w2 w3 → kept tmp i d w1 w3.
Proof. intros [A _ _] [B ? ?]. split; [|done|done]. auto. Qed.

Lemma names_kept_trans w1 w2 w3 : names_kept i w1 w2 → names_kept i w2 w3 → names_kept i w1 w3.
Proof. intros A B q Hq. by apply B, A. Qed.

Lemma mkdir_kept p m w w' e : idata w i = Some d → at_path w tmp ≠ Some i →
  os_MkdirAll p m w = (w', e) → kept tmp i d w w' ∧ names_kept i w w'.
Proof.
  intros Hd Ht Hm. destruct (mkdir_law _ _ _ _ _ Hm) as (Hh & Hdd & Hp & Hn). split; [split|].
  - intros g h. by rewrite Hh.
  - by rewrite Hdd.
  - intros Hat. destruct (Hn _ _ Hat); congruence.
  - intros q. apply Hp.
Qed.

Lemma open_tmp_kept fl m w w' f : idata w i = Some d → at_path w tmp ≠ Some i →
  os_OpenFile tmp fl m w = (w', Ok f) →
  kept tmp i d w w' ∧ names_kept i w w' ∧ handle w f = None
  ∧ ∃ j, j ≠ i ∧ handle w' f = Some (j, o_write fl) ∧ at_path w' tmp = Some j.
Proof.
  intros Hd Ht Ho. destruct (open_ok _ _ _ _ _ _ Ho) as (Hf & Hg & Hp & j & Hj & Hat & _ & Hoth & Hcase).
  assert (j ≠ i) as Hne by (destruct Hcase as [[? _]|(_ & _ & ? & _)]; congruence).
  split_and!; [split| |done|].
  - intros g h Hgh. rewrite Hg; [done|]. intros ->. congruence.
  - by rewrite Hoth.
  - congruence.
  - intros q. apply Hp.
  - by exists j.
Qed.

Lemma open_tmp_err_kept fl m w w' e : idata w i = Some d → at_path w tmp ≠ Some i →
  os_OpenFile tmp fl m w = (w', Err e) → kept tmp i d w w' ∧ names_kept i w w'.
Proof.
  intros Hd Ht Ho. destruct (open_err _ _ _ _ _ _ Ho) as (Hh & Hdd & Hp). split; [split|].
  - intros g h. by rewrite Hh.
  - by rewrite Hdd.
  - by rewrite Hp.
  - intros q. by rewrite Hp.
Qed.

Lemma write_kept f x off w w' r j : idata w i = Some d → at_path w tmp ≠ Some i →
  handle w f = Some j → fst j ≠ i → f_WriteAt f x off w = (w', r) →
  kept tmp i d w w' ∧ names_kept i w w' ∧ handle w' f = Some j ∧ at_path w' tmp = at_path w tmp.
Proof.
  intros Hd Ht Hf Hj Hw. destruct r as [n e]. destruct (write_law _ _ _ _ _ _ _ Hw) as (Hh & Hp & Hdd & _).
  split_and!; [split| | |].
  - intros g h. by rewrite Hh.
  - rewrite Hdd; [done|]. rewrite Hf. simpl. congruence.
  - by rewrite Hp.
  - intros q. by rewrite Hp.
  - by rewrite Hh.
  - by rewrite Hp.
Qed.

(** Closing the temporary file, whose handle is newer than [w0]. *)
Lemma close_kept f w0 w w' e : kept tmp i d w0 w → handle w0 f = None → f_Close f w = (w', e) →
  kept tmp i d w0 w' ∧ names_kept i w w' ∧ at_path w' tmp = at_path w tmp.
Proof.
  intros [A B C] Hf Hc. destruct (close_law _ _ _ _ Hc) as (_ & Hg & Hdd & Hp). split_and!; [split| |].
  - intros g h Hgh. rewrite Hg; [by apply A|]. intros ->. congruence.
  - by rewrite Hdd.
  - by rewrite Hp.
  - intros q. by rewrite Hp.
  - by rewrite Hp.
Qed.

Lemma remove_kept p w w' e : idata w i = Some d → at_path w tmp ≠ Some i → os_Remove p w = (w', e) →
  kept tmp i d w w' ∧ (at_path w p ≠ Some i → names_kept i w w').
Proof.
  intros Hd Ht Hr. destruct (remove_law _ _ _ _ Hr) as (Hh & Hdd & Hn & Hk). split; [split|].
  - intros g h. by rewrite Hh.
  - by rewrite Hdd.
  - intros Hat. by apply Ht, Hn.
  - intros Hp q Hq. by apply Hk.
Qed.

Lemma rename_kept p w w' e j dj : idata w i = Some d → at_path w tmp = Some j → j ≠ i →
  idata w j = Some dj → os_Rename tmp p w = (w', e) →
  kept tmp i d w w' ∧ (e ≠ None → names_kept i w w').
Proof.
  intros Hd Ht Hne Hj Hr. destruct e as [e|].
  - destruct (rename_err _ _ _ _ _ Hr) as (Hh & Hdd & Hp). split; [split|].
    + intros g h. by rewrite Hh.
    + by rewrite Hdd.
    + rewrite Hp. congruence.
    + intros _ q. by rewrite Hp.
  - destruct (rename_law _ _ _ _ Hr) as (Hh & Hdd & k & Hk & _ & Hnew).
    rewrite Hk in Ht. injection Ht as ->. split; [split|done].
    + intros g h. by rewrite Hh.
    + by rewrite Hdd.
    + intros Hat. destruct (Hnew (ex_intro _ _ Hj) _ _ Hat); congruence.
Qed.

End Kept.

Context {JOK : JsonOk}.

(** The state a successful save has written. *)
Definition saved_state (s : resumeState) : resumeState := set_Completed (sorted_offsets (r_completedSet s)) s.

(** A save, from a world where the file [i] is not under the temporary name: each state
    it goes through keeps [i] and its names, except that the last one of a successful
    save has the new encoding under the state's own name. *)
Definition save_point (s : resumeState) (i : nat) (d : list byte) (w t : world) : Prop :=
  kept (r_path s +:+ ".tmp") i d w t
  ∧ (names_kept i w t
     ∨ ∃ j, at_path t (r_path s) = Some j ∧ idata t j = Some (json_Encode (to_json (saved_state s)))).

Definition save_done (s : resumeState) (r : resumeState * option error) (t : world) : Prop :=
  snd r = None → fst r = saved_state s
    ∧ ∃ j, at_path t (r_path s) = Some j ∧ idata t j = Some (json_Encode (to_json (saved_state s))).

(** What the temporary file holds once its write succeeded. *)
Lemma tmp_written tmp m w w1 f x w2 n : os_OpenFile tmp O_CREATE_RDWR_TRUNC m w = (w1, Ok f) → x ≠ [] →
  f_WriteAt f x 0 w1 = (w2, (n, None)) → ∃ j, at_path w2 tmp = Some j ∧ idata w2 j = Some x
    ∧ fst <$> handle w1 f = Some j.
Proof.
  intros Ho Hx Hw. destruct (write_law _ _ _ _ _ _ _ Hw) as (_ & Hp & _ & Hok).
  destruct (Hok eq_refl) as (_ & _ & Hne). destruct (Hne Hx) as (_ & j & old & Hj & Hold & Hnew & _).
  pose proof (open_trunc _ _ _ _ _ _ _ _ _ Ho eq_refl Hj Hold) as ->. rewrite write_at_nil in Hnew.
  destruct (open_ok _ _ _ _ _ _ Ho) as (_ & _ & _ & k & Hk & Hat & _).
  rewrite Hj in Hk. injection Hk as <-. exists j. by rewrite Hp, Hj.
Qed.

(** The two ends of a save: remove the temporary file, or rename it. *)
Lemma abandon_along s i d w w1 err :
  kept (r_path s +:+ ".tmp") i d w w1 → names_kept i w w1 →
  along (save_point s i d w) (atomic (os_Remove (r_path s +:+ ".tmp"));; mret (saved_state s, Some err))
    (save_done s) w1.
Proof.
  intros K N. apply along_atomic; [by split; [|left]|]. intros w2 e Hr.
  destruct (remove_kept _ i d _ _ _ _ (k_data _ _ _ _ _ K) (k_tmp _ _ _ _ _ K) Hr) as [K2 N2].
  specialize (N2 (k_tmp _ _ _ _ _ K)). apply along_ret; [|done].
  split; [by eapply kept_trans|left; by eapply names_kept_trans].
Qed.

Lemma commit_along s i d w w1 j :
  kept (r_path s +:+ ".tmp") i d w w1 → names_kept i w w1 →
  at_path w1 (r_path s +:+ ".tmp") = Some j → j ≠ i →
  idata w1 j = Some (json_Encode (to_json (saved_state s))) →
  along (save_point s i d w)
    (err ← atomic (os_Rename (r_path s +:+ ".tmp") (r_path s)); mret (saved_state s, err)) (save_done s) w1.
Proof.
  intros K N Hj Hji Hjd. apply along_atomic; [by split; [|left]|]. intros w2 e Hr.
  destruct (rename_kept _ i d _ _ _ _ _ _ (k_data _ _ _ _ _ K) Hj Hji Hjd Hr) as [K2 N2].
  assert (e = None → ∃ k, at_path w2 (r_path s) = Some k
    ∧ idata w2 k = Some (json_Encode (to_json (saved_state s)))) as Hdone.
  { intros ->. destruct (rename_law _ _ _ _ Hr) as (_ & Hrd & k & Hk1 & Hk2 & _). exists k.
    split; [done|]. rewrite Hrd. congruence. }
  apply along_ret; [|intros He; split; [done|by apply Hdone]].
  split; [by eapply kept_trans|]. destruct e as [e|]; [left|right; by apply Hdone].
  eapply names_kept_trans; [exact N|]. by apply N2.
Qed.

(** Writing the temporary file and closing it. *)
Lemma fill_along s i d w w1 w2 m f : kept (r_path s +:+ ".tmp") i d w w1 → names_kept i w w1 →
  os_OpenFile (r_path s +:+ ".tmp") O_CREATE_RDWR_TRUNC m w1 = (w2, Ok f) →
  along (save_point s i d w)
    (wrote ← atomic (f_WriteAt f (json_Encode (to_json (saved_state s))) 0);
     match wrote with
     | (_, Some err) =>
       atomic (f_Close f);;
       atomic (os_Remove (r_path s +:+ ".tmp"));;
       mret (saved_state s, Some err)
     | (_, None) =>
       closed ← atomic (f_Close f);
       match closed with
       | Some err => atomic (os_Remove (r_path s +:+ ".tmp"));; mret (saved_state s, Some err)
       | None => err ← atomic (os_Rename (r_path s +:+ ".tmp") (r_path s)); mret (saved_state s, err)
       end
     end) (save_done s) w2.
Proof.
  intros K1 N1 Ho.
  destruct (open_tmp_kept _ i d _ _ _ _ _ (k_data _ _ _ _ _ K1) (k_tmp _ _ _ _ _ K1) Ho)
    as (K2 & N2 & Hf & j & Hji & Hj & Hjt).
  assert (handle w f = None) as Hf0.
  { destruct (handle w f) as [h|] eqn:E; [|done]. apply (k_handle _ _ _ _ _ K1) in E. congruence. }
  apply (kept_trans _ _ _ _ _ _ K1) in K2. apply (names_kept_trans _ _ _ _ N1) in N2.
  apply along_atomic; [by split; [|left]|]. intros w3 [n e] Hw.
  destruct (write_kept _ i d _ _ _ _ _ _ _ (k_data _ _ _ _ _ K2) (k_tmp _ _ _ _ _ K2) Hj Hji Hw)
    as (K3 & N3 & Hj3 & Ht3). apply (kept_trans _ _ _ _ _ _ K2) in K3. apply (names_kept_trans _ _ _ _ N2) in N3.
  destruct e as [err|]; (apply along_atomic; [by split; [|left]|]); intros w4 e4 Hc;
    destruct (close_kept _ i d f w _ _ _ K3 Hf0 Hc) as (K4 & N4 & Ht4); apply (names_kept_trans _ _ _ _ N3) in N4.
  { by apply abandon_along. }
  destruct e4 as [err|]; [by apply abandon_along|].
  destruct (tmp_written _ _ _ _ _ _ _ _ Ho (json_nonempty _) Hw) as (k & Hk & Hkd & Hkh).
  rewrite Hj in Hkh. simpl in Hkh. injection Hkh as <-. destruct (close_law _ _ _ _ Hc) as (_ & _ & Hcd & _).
  apply (commit_along _ _ _ _ _ j); try done; [by rewrite Ht4|by rewrite Hcd].
Qed.

Lemma save_along s i d w : idata w i = Some d → at_path w (r_path s +:+ ".tmp") ≠ Some i →
  along (save_point s i d w) (saveResumeState s) (save_done s) w.
Proof.
  intros Hd Ht. pose proof (kept_refl _ i d w Hd Ht) as K0.
  apply along_atomic; [split; [done|by left; intros ?]|]. intros w1 a Hm.
  destruct (mkdir_kept _ i d _ _ _ _ _ Hd Ht Hm) as [K1 N1].
  destruct a as [err|]; [apply along_ret; [by split; [|left]|done]|].
  apply along_atomic; [by split; [|left]|]. intros w2 a Ho.
  change (r_path (set_Completed _ s)) with (r_path s) in Ho. destruct a as [f|err]; [exact (fill_along s i d w w1 w2 _ f K1 N1 Ho)|].
  destruct (open_tmp_err_kept _ i d _ _ _ _ _ (k_data _ _ _ _ _ K1) (k_tmp _ _ _ _ _ K1) Ho) as [K2 N2].
  apply along_ret; [|done]. split; [by eapply kept_trans|left; by eapply names_kept_trans].
Qed.

(** ** Adding and flushing, from a transfer's point of view *)

Definition tmp_path (s : resumeState) : string := r_path s +:+ ".tmp".

(** The state after an update, and the files it leaves alone. *)
Definition updated (s s' : resumeState) (w w' : world) : Prop :=
  r_path s' = r_path s ∧ r_completedSet s' = r_completedSet s ∧ r_pending s' = r_pending s ∧ r_batch s' = r_batch s
  ∧ (∀ i d, idata w i = Some d → at_path w (tmp_path s) ≠ Some i → kept (tmp_path s) i d w w').

Lemma updated_refl s w : updated s s w w.
Proof. split_and!; try done. Qed.

(** A save changes only the sorted list, if anything. *)
Lemma save_result s w : fst (snd (run_alone (saveResumeState s) w)) = s
  ∨ fst (snd (run_alone (saveResumeState s) w)) = saved_state s.
Proof.
  assert (along (λ _, True) (saveResumeState s) (λ r _, fst r = s ∨ fst r = saved_state s) w) as Ha.
  { unfold saveResumeState. cbv zeta.
    repeat first [ apply along_ret; [done|by auto] | apply along_atomic; [done|intros ? ? ?] | case_match ]. }
  exact (along_run _ _ _ _ Ha).
Qed.

Lemma save_some_spec s w : match run_alone (save_some s) w with
  (w', (rs, _)) => ∃ s', rs = Some s' ∧ updated s s' w w' end.
Proof.
  unfold save_some. rewrite run_alone_bind.
  destruct (run_alone (saveResumeState s) w) as [w' [s' e]] eqn:Hr. cbn.
  exists s'. split; [done|].
  assert (∀ i d, idata w i = Some d → at_path w (tmp_path s) ≠ Some i →
    save_point s i d w w' ∧ save_done s (s', e) w') as Hs.
  { intros i d Hd Ht. pose proof (save_along s i d w Hd Ht) as Ha. split.
    - eapply along_visits; [exact Ha|]. pose proof (visits_end (saveResumeState s) w) as Hv. by rewrite Hr in Hv.
    - apply along_run in Ha. by rewrite Hr in Ha. }
  assert (s' = s ∨ s' = saved_state s) as Hcase by (pose proof (save_result s w) as Hs'; by rewrite Hr in Hs').
  split_and!; try by destruct Hcase as [->| ->].
  intros i d Hd Ht. by destruct (Hs i d Hd Ht) as [[? _] _].
Qed.

(** A step of the state of a transfer: nothing without a state, else from [f s]. *)
Definition rs_step (f : resumeState → resumeState) (rs rs' : option resumeState) (w w' : world) : Prop :=
  match rs with
  | None => rs' = None ∧ w' = w
  | Some s => ∃ s', rs' = Some s' ∧ updated (f s) s' w w'
  end.

Lemma add_step rs off w :
  match run_alone (addCompletedOffset rs off) w with (w', (rs', _)) => rs_step (add_done off) rs rs' w w' end.
Proof.
  destruct rs as [s|]; [|done]. unfold addCompletedOffset. cbv zeta. destruct (_ <=? _); [apply save_some_spec|].
  cbn. exists (add_done off s). split; [done|apply updated_refl].
Qed.

Lemma flush_step rs w :
  match run_alone (flushResumeState rs) w with (w', (rs', _)) => rs_step id rs rs' w w' end.
Proof.
  destruct rs as [s|]; [|done]. unfold flushResumeState. cbv zeta. destruct (_ <? _); [apply save_some_spec|].
  cbn. exists s. split; [done|apply updated_refl].
Qed.

(** ** Loading *)

Lemma load_along_state src dst size chunk batch w w1 f w2 d :
  os_OpenFile (stateFilePath src dst) O_RDONLY 0 w = (w1, Ok f) → f_ReadRest f w1 = (w2, Ok d) →
  snd (run_alone (loadResumeState src dst size chunk batch) w) =
    match json_Decode d with
    | Ok j => state_of_json (stateFilePath src dst) size chunk batch j
    | Err _ => None
    end.
Proof.
  intros Ho Hr. unfold loadResumeState. rewrite run_atomic, Ho. cbn [fst snd]. rewrite run_atomic, Hr.
  cbn [fst snd]. rewrite run_atomic. destruct (json_Decode d); done.
Qed.

End Resume.
