(* ===== verification/Transfer.v ===== *)
(** Transfers of one file: [uploadFile] and [uploadFileChunk]
    ([src/cp_to_host.go]), [downloadFile] ([src/cp_from_host.go]) and
    [verifyFileHash] ([src/transfer.go]).

    The state of a transfer is the client, the network, the client's own file system
    and the resume state.  The function of a chunk is a program ([Prog.prog]) whose
    actions are one remote call, one operation on a file, one look at the context;
    Pool.v interleaves them.  A failed type assertion of Go, a panic that ends the
    process, ends the program with the error [bad_assertion].  [time.After] and the cancellation of the
    context are the interface [Ctx]. *)
From S2P Require Import Prelude Message GoStd GoHash OS Chunk Hoare Server Client Prog Pool Resume.
From Stdlib Require Import Strings.Byte.

(** The context of a transfer: [ctx.Err()], its cancellation, and a wait of some
    nanoseconds that the end of the context cuts short. *)
Class Ctx `{Transport} := {
  ctx_Err : net → option error;
  ctx_cancel : net → net;
  ctx_wait : Z → net → net * option error;
}.

Definition bad_assertion : error :=
  ErrVar "runtime.TypeAssertionError" "interface conversion: interface is of another type".

(** What an answer means to a retry loop. *)
Inductive outcome (A : Type) : Type :=
  | Got (a : A)
  | Retry (e : error)
  | Panics.
#[global] Arguments Got {_} _.
#[global] Arguments Retry {_} _.
#[global] Arguments Panics {_}.

(** [time.Duration(100<<attempt) * time.Millisecond]. *)
Definition retry_backoff (attempt : Z) : Z :=
  i64 (i64 (if attempt <? 64 then Z.shiftl 100 attempt else 0) * 1000000).

Section Transfer.
  Context `{Transport, !Ctx, Gzip, SecretBox, Rand, Json, TempDir, OS}.

Record xfer : Type := {
  x_cc : client;
  x_net : net;
  x_w : world;
  x_rs : option resumeState;
}.

Definition set_xw (w : world) (x : xfer) : xfer :=
  {| x_cc := x_cc x; x_net := x_net x; x_w := w; x_rs := x_rs x |}.
Definition set_xrs (rs : option resumeState) (x : xfer) : xfer :=
  {| x_cc := x_cc x; x_net := x_net x; x_w := x_w x; x_rs := rs |}.
Definition set_xnet (n : net) (x : xfer) : xfer :=
  {| x_cc := x_cc x; x_net := n; x_w := x_w x; x_rs := x_rs x |}.
Definition set_xcall (cc : client) (n : net) (x : xfer) : xfer :=
  {| x_cc := cc; x_net := n; x_w := x_w x; x_rs := x_rs x |}.

(** ** The actions *)

#[local] Notation P := (prog xfer).

(** A remote call. *)
Definition on_cc {A} (m : ST (client * net) A) : P A := atomic (λ x,
  let '(a, (cc, n)) := m (x_cc x, x_net x) in (set_xcall cc n x, a)).
Definition ask_x {A} (f : xfer → A) : P A := atomic (λ x, (x, f x)).
(** An operation of the client's system, or several under the lock of the resume state. *)
Definition on_os {A} (m : prog world A) : P A := atomic (λ x,
  let '(w, a) := run_alone m (x_w x) in (set_xw w x, a)).
(** An update of the resume state, whose error is only logged. *)
Definition on_resume (f : option resumeState → prog world (option resumeState * option error)) : P () :=
  atomic (λ x, let '(w, (rs, _)) := run_alone (f (x_rs x)) (x_w x) in (set_xrs rs (set_xw w x), ())).
Definition ctx_done : P (option error) := ask_x (λ x, ctx_Err (x_net x)).
Definition sleep (ns : Z) : P (option error) := atomic (λ x,
  let '(n, e) := ctx_wait ns (x_net x) in (set_xnet n x, e)).

(** The number of iterations of [for attempt := 0; attempt <= maxRetries; attempt++]. *)
Definition attempts (maxRetries : Z) : nat := Z.to_nat (maxRetries + 1).

(** ** Upload *)

Definition write_outcome (off : Z) (r : result clientWrappedMsg) : outcome () :=
  match r with
  | Err wErr => Retry wErr
  | Ok (MWriteRes writeRes, _) =>
    if negb (WriteRes.Success writeRes) then
      Retry (Errorf "remote write failed at offset %d: %s" [inr off; inl (WriteRes.Error writeRes)])
    else Got ()
  | Ok _ => Panics
  end.

(** The loop of [uploadFileChunk], with [fuel] iterations left. *)
Fixpoint upload_attempts (fuel : nat) (attempt maxRetries : Z) (target : string) (off : Z)
    (buf : list byte) (compressionAlgo : Z) (writeErr : option error) : P (option error) :=
  match fuel with
  | O => mret writeErr
  | S fuel =>
    stop ← ctx_done;
    match stop with
    | Some e => mret (Some e)
    | None =>
      res ← on_cc (Write target off buf compressionAlgo);
      match write_outcome off res with
      | Got _ => mret None
      | Panics => mret (Some bad_assertion)
      | Retry writeErr =>
        woken ← (if attempt <? maxRetries then sleep (retry_backoff attempt) else mret None);
        match woken with
        | Some e => mret (Some e)
        | None => upload_attempts fuel (attempt + 1) maxRetries target off buf compressionAlgo (Some writeErr)
        end
      end
    end
  end.

Definition uploadFileChunk (sfd : file) (target : string) (off size maxRetries compressionAlgo : Z)
    : P (option error) :=
  rd ← ask_x (λ x, f_ReadAt sfd size off (x_w x));
  match rd with
  | (_, Some err) => mret (Some err)
  | (buf, None) => upload_attempts (attempts maxRetries) 0 maxRetries target off buf compressionAlgo None
  end.

(** The function [uploadFile] hands to [processChunks]. *)
Definition upload_chunk (sfd : file) (target : string) (maxRetries compressionAlgo : Z) (c : chunk)
    : P (option error) :=
  err ← uploadFileChunk sfd target (fst c) (snd c) maxRetries compressionAlgo;
  match err with
  | Some err => mret (Some err)
  | None => on_resume (λ rs, addCompletedOffset rs (fst c));; mret None
  end.

(** [verifyFileHash]. *)
Definition verifyFileHash (remotePath localPath : string) : P (option error) :=
  res ← on_cc (Hash remotePath);
  match res with
  | Err err => mret (Some (Wrapf "hash request failed: %w" [] err))
  | Ok (MHashRes hashRes, _) =>
    if negb (HashRes.Success hashRes) then mret (Some (Errorf "hash failed: %s" [inl (HashRes.Error hashRes)])) else
    opened ← on_os (atomic (os_OpenFile localPath O_RDONLY 0));
    match opened with
    | Err err => mret (Some (Wrapf "cannot open local file for hash: %w" [] err))
    | Ok fd =>
      copied ← on_os (atomic (f_ReadRest fd));
      on_os (atomic (f_Close fd));;
      match copied with
      | Err err => mret (Some (Wrapf "cannot read local file for hash: %w" [] err))
      | Ok data =>
        let localHash := Sum256 data in
        if negb (zlen (HashRes.Hash hashRes) =? zlen localHash) then
          mret (Some (Errorf "hash length mismatch: server=%d local=%d"
                        [inr (zlen (HashRes.Hash hashRes)); inr (zlen localHash)]))
        else if negb (bool_decide (HashRes.Hash hashRes = localHash)) then
          mret (Some (Errorf "SHA-256 mismatch: file may be corrupted" []))
        else mret None
      end
    end
  | Ok _ => mret (Some bad_assertion)
  end.

(** [uploadFile] up to [processChunks]: the open source file. *)
Definition upload_create (srcPath target : string) (info : FileInfo) : P (option error) :=
  opened ← on_os (atomic (os_OpenFile srcPath O_RDONLY 0));
  match opened with
  | Err err => mret (Some err)
  | Ok sfd =>
    on_os (atomic (f_Close sfd));;
    res ← on_cc (Create target (fi_Size info) (FileMode_Perm (fi_Mode info)));
    match res with
    | Err err => mret (Some err)
    | Ok (MCreateRes createRes, _) =>
      if CreateRes.Success createRes then mret None
      else mret (Some (Errorf "remote create failed: %s" [inl (CreateRes.Error createRes)]))
    | Ok _ => mret (Some bad_assertion)
    end
  end.

Definition load_state (srcPath targetPath : string) (size chunkSize batch : Z) : P (option resumeState) :=
  state ← on_os (loadResumeState srcPath targetPath size chunkSize batch);
  atomic (λ x, (set_xrs state x, state)).

Definition upload_start (srcPath target : string) (info : FileInfo) (chunkSize batch : Z) : P (result file) :=
  state ← load_state srcPath target (fi_Size info) chunkSize batch;
  err ← (match state with
         | None => upload_create srcPath target info
         | Some _ => mret None
         end);
  match err with
  | Some err => mret (Err err)
  | None => on_os (atomic (os_OpenFile srcPath O_RDONLY 0))
  end.

(** [uploadFile] after [processChunks] returned [err]. *)
Definition upload_finish (srcPath target : string) (sfd : file) (useSha256 : bool) (err : option error)
    : P (option error) :=
  err ← (match err with
         | Some err => mret (Some err)
         | None =>
           err ← (if useSha256 then verifyFileHash target srcPath else mret None);
           match err with
           | Some err => mret (Some err)
           | None => state ← ask_x x_rs; on_os (deleteResumeState state);; mret None
           end
         end);
  on_os (atomic (f_Close sfd));;
  mret err.

(** How the pool runs the chunks of a transfer. *)
Definition xfer_env (f : chunk → P (option error)) : pool_env xfer := {|
  fn := f;
  completed c x := isCompleted (x_rs x) (fst c);
  cancelled x := bool_decide (is_Some (ctx_Err (x_net x)));
  cancel x := set_xnet (ctx_cancel (x_net x)) x;
  flush x := fst (run_alone (on_resume flushResumeState) x);
|}.

(** [uploadFile] from [x] may return [r] with [x'], the context ending when it will. *)
Definition uploadFile (srcPath target : string) (info : FileInfo) (chunkSize batch maxRetries : Z)
    (useSha256 : bool) (compressionAlgo : Z) (x : xfer) (r : option error) (x' : xfer) : Prop :=
  match run_alone (upload_start srcPath target info chunkSize batch) x with
  | (x1, Err err) => r = Some err ∧ x' = x1
  | (x1, Ok sfd) => ∃ err x2,
      processChunks (xfer_env (upload_chunk sfd target maxRetries compressionAlgo))
        (fi_Size info) chunkSize 0 (Z.to_nat batch) x1 err x2
      ∧ run_alone (upload_finish srcPath target sfd useSha256 err) x2 = (x', r)
  end.

(** [cpOneFileToHost]. *)
Definition cpOneFileToHost (src target : string) (chunkSize maxRetries : Z) (useSha256 : bool)
    (compressionAlgo : Z) (x : xfer) (r : option error) (x' : xfer) : Prop :=
  match os_Stat src (x_w x) with
  | Err err => r = Some err ∧ x' = x
  | Ok sfinfo =>
    uploadFile src target sfinfo chunkSize (cc_batch (x_cc x)) maxRetries useSha256 compressionAlgo x r x'
  end.

(** ** Download *)

Definition stat_outcome (r : result clientWrappedMsg) : outcome StatRes.t :=
  match r with
  | Err statErr => Retry statErr
  | Ok (MStatRes statRes, _) =>
    if negb (StatRes.Success statRes) then Retry (Errorf "stat failed: %s" [inl (StatRes.Error statRes)])
    else if StatRes.IsDir statRes then Retry (Errorf "path is a directory" [])
    else Got statRes
  | Ok _ => Panics
  end.

(** The loop that asks for the size: the last answer, or why there is none.  It does
    not look at the context before it asks. *)
Fixpoint stat_attempts (fuel : nat) (attempt maxRetries : Z) (src : string)
    (last : result StatRes.t) : P (result StatRes.t) :=
  match fuel with
  | O => mret last
  | S fuel =>
    res ← on_cc (Stat src);
    match stat_outcome res with
    | Got statRes => mret (Ok statRes)
    | Panics => mret (Err bad_assertion)
    | Retry statErr =>
      woken ← (if attempt <? maxRetries then sleep (retry_backoff attempt) else mret None);
      match woken with
      | Some e => mret (Err e)
      | None => stat_attempts fuel (attempt + 1) maxRetries src (Err statErr)
      end
    end
  end.

Definition read_outcome (off : Z) (useChecksum : bool) (r : result clientWrappedMsg)
    : outcome (ReadRes.t * list byte) :=
  match r with
  | Err readErr => Retry readErr
  | Ok (MReadRes readRes, payload) =>
    if negb (ReadRes.Success readRes) then
      Retry (Errorf "read failed at offset %d: %s" [inr off; inl (ReadRes.Error readRes)])
    else if useChecksum && negb (ReadRes.Checksum readRes =? 0)
            && negb (ChecksumIEEE payload =? ReadRes.Checksum readRes) then
      Retry (Errorf "checksum mismatch for offset %d" [inr off])
    else Got (readRes, payload)
  | Ok _ => Panics
  end.

Fixpoint read_attempts (fuel : nat) (attempt maxRetries : Z) (src : string) (off size compressionAlgo : Z)
    (useChecksum : bool) (last : result (ReadRes.t * list byte)) : P (result (ReadRes.t * list byte)) :=
  match fuel with
  | O => mret last
  | S fuel =>
    stop ← ctx_done;
    match stop with
    | Some e => mret (Err e)
    | None =>
      res ← on_cc (Read src off size compressionAlgo);
      match read_outcome off useChecksum res with
      | Got got => mret (Ok got)
      | Panics => mret (Err bad_assertion)
      | Retry readErr =>
        woken ← (if attempt <? maxRetries then sleep (retry_backoff attempt) else mret None);
        match woken with
        | Some e => mret (Err e)
        | None => read_attempts fuel (attempt + 1) maxRetries src off size compressionAlgo useChecksum (Err readErr)
        end
      end
    end
  end.

(** The function [downloadFile] hands to [processChunks].  With a negative
    [maxRetries] nothing is asked and the assertion on the empty answer panics. *)
Definition download_chunk (tfd : file) (src : string) (maxRetries : Z) (useChecksum : bool)
    (compressionAlgo : Z) (c : chunk) : P (option error) :=
  got ← read_attempts (attempts maxRetries) 0 maxRetries src (fst c) (snd c) compressionAlgo useChecksum
          (Err bad_assertion);
  match got with
  | Err readErr => mret (Some readErr)
  | Ok (readRes, payload) =>
    key ← ask_x (λ x, cc_encryptionKey (x_cc x));
    match download_payload readRes payload key (fst c) with
    | Err err => mret (Some err)
    | Ok data =>
      wrote ← on_os (atomic (f_WriteAt tfd data (fst c)));
      match wrote with
      | (_, Some err) => mret (Some err)
      | (_, None) => on_resume (λ rs, addCompletedOffset rs (fst c));; mret None
      end
    end
  end.

(** [downloadFile] up to [processChunks]: the answer of the server and the open target. *)
Definition download_start (src target : string) (chunkSize batch maxRetries : Z)
    : P (result (StatRes.t * file)) :=
  stat ← stat_attempts (attempts maxRetries) 0 maxRetries src (Err bad_assertion);
  match stat with
  | Err statErr => mret (Err statErr)
  | Ok statRes =>
    state ← load_state src target (StatRes.Size statRes) chunkSize batch;
    opened ← on_os (atomic (match state with
      | None => os_OpenFile target O_CREATE_RDWR_TRUNC (FileMode_Perm (StatRes.Mode statRes))
      | Some _ => os_OpenFile target O_RDWR 0x1A4
      end));
    match opened with
    | Err err => mret (Err err)
    | Ok tfd => mret (Ok (statRes, tfd))
    end
  end.

Definition download_finish (src target : string) (statRes : StatRes.t) (tfd : file) (useSha256 : bool)
    (err : option error) : P (option error) :=
  err ← (match err with
         | Some err => mret (Some err)
         | None =>
           err ← on_os (atomic (os_Chmod target (FileMode_Perm (StatRes.Mode statRes))));
           match err with
           | Some err => mret (Some err)
           | None =>
             err ← (if useSha256 then verifyFileHash src target else mret None);
             match err with
             | Some err => mret (Some err)
             | None => state ← ask_x x_rs; on_os (deleteResumeState state);; mret None
             end
           end
         end);
  on_os (atomic (f_Close tfd));;
  mret err.

Definition downloadFile (src target : string) (chunkSize batch maxRetries : Z) (useChecksum useSha256 : bool)
    (compressionAlgo : Z) (x : xfer) (r : option error) (x' : xfer) : Prop :=
  match run_alone (download_start src target chunkSize batch maxRetries) x with
  | (x1, Err err) => r = Some err ∧ x' = x1
  | (x1, Ok (statRes, tfd)) => ∃ err x2,
      processChunks (xfer_env (download_chunk tfd src maxRetries useChecksum compressionAlgo))
        (StatRes.Size statRes) chunkSize 0 (Z.to_nat batch) x1 err x2
      ∧ run_alone (download_finish src target statRes tfd useSha256 err) x2 = (x', r)
  end.

(** [cpOneFileFromHost]. *)
Definition cpOneFileFromHost (src target : string) (chunkSize maxRetries : Z) (useSha256 : bool)
    (compressionAlgo : Z) (x : xfer) (r : option error) (x' : xfer) : Prop :=
  downloadFile src target chunkSize (cc_batch (x_cc x)) maxRetries (cc_useChecksum (x_cc x)) useSha256
    compressionAlgo x r x'.

End Transfer.
