(* ===== verification/Progress.v ===== *)
(** The progress bar ([src/progressbar/progressbar.go]) and the channel it is fed by
    ([src/transfer.go], [processChunks] and [drainProgress]).

    Go's [float64] is the binary64 format of [SpecFloat], whose operations round as IEEE 754
    says.  What Go leaves to the implementation, the conversion of a float to an integer type it
    does not fit, is the parameter [FloatToInt]; [humanize] and [term] are parameters too.  The
    line is the string [fmt.Printf] gets; [None] is a panic. *)
From S2P Require Import Prelude GoStd Listing.
From stdpp Require Import pretty.
From Stdlib Require Import Ascii Floats.SpecFloat.

Local Open Scope string_scope.
Local Open Scope Z_scope.

(** ** [float64] *)

Class FloatToInt := unrepresentable : spec_float → Z.
Class Terminal := term_GetSize : result Z.

Definition float64 (z : Z) : spec_float := binary_normalize 53 1024 z 0 false.
Definition fdiv : spec_float → spec_float → spec_float := SFdiv 53 1024.
Definition fadd : spec_float → spec_float → spec_float := SFadd 53 1024.
Definition fpos (f : spec_float) : bool := SFltb (S754_zero false) f.

(** [m * 2 ^ e], towards zero. *)
Definition scaled (m : positive) (e : Z) : Z := if 0 <=? e then Z.pos m * 2 ^ e else Z.pos m / 2 ^ (- e).

Section Convert.
  Context `{FloatToInt}.

(** A conversion to an integer type with the values [lo] to [hi]. *)
Definition float_to (lo hi : Z) (f : spec_float) : Z :=
  match f with
  | S754_zero _ => 0
  | S754_finite neg m e =>
    let z := if neg then - scaled m e else scaled m e in
    if (lo <=? z) && (z <=? hi) then z else unrepresentable f
  | _ => unrepresentable f
  end.
Definition float_int64 : spec_float → Z := float_to (- 2 ^ 63) (2 ^ 63 - 1).
Definition float_uint64 : spec_float → Z := float_to 0 (2 ^ 64 - 1).
End Convert.

(** The quotient rounded to the nearest integer, ties to even. *)
Definition round_half_even (a b : Z) : Z :=
  let q := a / b in
  let r := a mod b in
  if (2 * r <? b) || ((2 * r =? b) && Z.even q) then q else q + 1.

(** [%.0f] and [%.1f]. *)
Definition format_fixed (k : nat) (f : spec_float) : string :=
  let fixed (neg : bool) (z : Z) :=
    let p := 10 ^ Z.of_nat k in
    (if neg then "-" else "") ++ pretty (z / p) ++ (if bool_decide (k = 0%nat) then "" else "." ++ digits k (z mod p)) in
  match f with
  | S754_nan => "NaN"
  | S754_infinity neg => if neg then "-Inf" else "+Inf"
  | S754_zero neg => fixed neg 0
  | S754_finite neg m e =>
    let p := 10 ^ Z.of_nat k in
    fixed neg (if 0 <=? e then Z.pos m * 2 ^ e * p else round_half_even (Z.pos m * p) (2 ^ (- e)))
  end.

(** ** [time.Duration] *)

Definition Second : Z := 1000000000.

(** [d.Seconds()]. *)
Definition Seconds (d : Z) : spec_float := fadd (float64 (Z.quot d Second)) (fdiv (float64 (Z.rem d Second)) (float64 Second)).

(** [d.Round(time.Second)], for a positive duration. *)
Definition round_seconds (d : Z) : Z :=
  let r := Z.rem d Second in
  if 2 * r <? Second then d - r else
  let d1 := i64 (d + (Second - r)) in
  if d <? d1 then d1 else 2 ^ 63 - 1.

Fixpoint strip_zeros (s : string) : string :=
  match s with
  | "" => ""
  | String c s => match strip_zeros s with
                  | "" => if Ascii.eqb c "0" then "" else String c ""
                  | s => String c s
                  end
  end.

(** [d.String()], for at least a second. *)
Definition Duration_String (d : Z) : string :=
  let secs := d / Second in
  let frac := strip_zeros (digits 9 (d mod Second)) in
  (if 3600 <=? secs then pretty (secs / 3600) ++ "h" else "")
    ++ (if 60 <=? secs then pretty (secs / 60 mod 60) ++ "m" else "")
    ++ pretty (secs mod 60) ++ (if bool_decide (frac = "") then "" else "." ++ frac) ++ "s".

(** ** [printProgress] *)

(** [strings.Repeat] panics for a negative count. *)
Definition repeat_or_panic (s : string) (n : Z) : option string :=
  if n <? 0 then None else Some (Repeat s (Z.to_nat n)).

Section Bar.
  Context `{FloatToInt, Terminal, Humanize}.

Definition getTermWidth : Z := match term_GetSize with Err _ => 80 | Ok w => w end.

(** The bar of width [bw] with [filled] columns filled. *)
Definition draw_bar (filled bw : Z) : option string :=
  if (0 <? filled) && (filled <? bw) then
    l ← repeat_or_panic "=" (filled - 1);
    r ← repeat_or_panic "-" (bw - filled);
    Some (l ++ ">" ++ r)
  else if filled =? bw then repeat_or_panic "=" bw
  else repeat_or_panic "-" bw.

(** The columns to fill for [pct] percent. *)
Definition bar_filled (pct : spec_float) (bw : Z) : Z :=
  let filled := float_int64 (fdiv pct (fdiv (float64 100) (float64 bw))) in
  if bw <? filled then bw else filled.
Definition progress_bar (pct : spec_float) (bw : Z) : option string := draw_bar (bar_filled pct bw) bw.

(** Speed, remaining and elapsed time, from the elapsed nanoseconds. *)
Definition progress_times (sent total elapsed : Z) : string * string * string :=
  let secs := Seconds elapsed in
  if fpos secs && (0 <? sent) then
    let speed := fdiv (float64 sent) secs in
    let remaining := fdiv (float64 (i64 (total - sent))) speed in
    let eta := i64 (float_int64 remaining * Second) in
    (IBytes (float_uint64 speed) ++ "/s",
     if eta <? Second then "0s" else Duration_String (round_seconds eta),
     format_fixed 1 secs ++ "s")
  else ("?/s", "?", "0.0s").

Definition progress_prefix (sent total : Z) : string :=
  IBytes (sent mod 2 ^ 64) ++ " / " ++ IBytes (total mod 2 ^ 64) ++ " [".
Definition percent (sent total : Z) : spec_float := fdiv (float64 (i64 (sent * 100))) (float64 total).
Definition progress_suffix (sent total elapsed : Z) : string :=
  let '(speed, eta, spent) := progress_times sent total elapsed in
  "]  " ++ format_fixed 0 (percent sent total) ++ "%  " ++ speed ++ "  " ++ eta ++ "  " ++ spent.

(** What is left of the terminal for the bar. *)
Definition bar_width (prefix suffix : string) : Z :=
  let bw := getTermWidth - Z.of_nat (String.length prefix) - Z.of_nat (String.length suffix) in
  if bw <? 10 then 10 else bw.

(** The escape sequence that clears the line. *)
Definition clear_line : string := String "027" "[2K" ++ String "013" "".

Definition printProgress (sent total elapsed : Z) : option string :=
  let prefix := progress_prefix sent total in
  let suffix := progress_suffix sent total elapsed in
  bar ← progress_bar (percent sent total) (bar_width prefix suffix);
  Some (clear_line ++ prefix ++ bar ++ suffix).
End Bar.

(** ** The channel *)

(** What [processChunks] reports: the sizes its loop has yet to come to, with whether the
    chunk is skipped; the sizes of the goroutines that have not reported; [progressChan]; the
    sum [Progress] has, until it returns; whether the context has ended. *)
Record reporting : Type := {
  rp_todo : list (bool * Z);
  rp_running : list Z;
  rp_chan : list Z;
  rp_bar : option Z;
  rp_done : bool;
}.

(** [progressChan] is made, [startOffset] is in it, and [Progress] or [drainProgress] runs. *)
Definition reporting_init (startOffset : Z) (todo : list (bool * Z)) : reporting :=
  {| rp_todo := todo; rp_running := []; rp_chan := [startOffset]; rp_bar := Some 0; rp_done := false |}.

Section Reporting.
  Context (quiet : bool) (total : Z) (batch : nat).
  (* what the function of a chunk of the first size may report: an upload the size itself
     ([upload_reports]), a download the length of the data it was given ([download_reports] of
     ProgressSpec.v) *)
  Context (reports : Z → Z → Prop).

(** [sent += size; if sent == total { return }]; [drainProgress] keeps no sum. *)
Definition bar_receive (sent size : Z) : option Z :=
  if quiet then Some sent else
  if i64 (sent + size) =? total then None else Some (i64 (sent + size)).

Inductive report_step : reporting → reporting → Prop :=
  (* progressChan <- size of a skipped chunk, in the loop *)
  | report_skip n t r c b d : (length c < S batch)%nat →
      report_step {| rp_todo := (true, n) :: t; rp_running := r; rp_chan := c; rp_bar := b; rp_done := d |}
                  {| rp_todo := t; rp_running := r; rp_chan := c ++ [n]; rp_bar := b; rp_done := d |}
  (* the other chunks get a goroutine *)
  | report_spawn n t r c b d :
      report_step {| rp_todo := (false, n) :: t; rp_running := r; rp_chan := c; rp_bar := b; rp_done := d |}
                  {| rp_todo := t; rp_running := n :: r; rp_chan := c; rp_bar := b; rp_done := d |}
  (* case progressChan <- size, or int64(len(data)), in a chunk's function *)
  | report_send n m t r1 r2 c b d : reports n m → (length c < S batch)%nat →
      report_step {| rp_todo := t; rp_running := r1 ++ n :: r2; rp_chan := c; rp_bar := b; rp_done := d |}
                  {| rp_todo := t; rp_running := r1 ++ r2; rp_chan := c ++ [m]; rp_bar := b; rp_done := d |}
  (* the goroutine ends without a report: an error, or case <-ctx.Done() *)
  | report_none n t r1 r2 c b d :
      report_step {| rp_todo := t; rp_running := r1 ++ n :: r2; rp_chan := c; rp_bar := b; rp_done := d |}
                  {| rp_todo := t; rp_running := r1 ++ r2; rp_chan := c; rp_bar := b; rp_done := d |}
  (* case size := <-pch *)
  | report_receive n t r c s d :
      report_step {| rp_todo := t; rp_running := r; rp_chan := n :: c; rp_bar := Some s; rp_done := d |}
                  {| rp_todo := t; rp_running := r; rp_chan := c; rp_bar := bar_receive s n; rp_done := d |}
  (* case <-ctx.Done() of Progress and drainProgress *)
  | report_return t r c s :
      report_step {| rp_todo := t; rp_running := r; rp_chan := c; rp_bar := Some s; rp_done := true |}
                  {| rp_todo := t; rp_running := r; rp_chan := c; rp_bar := None; rp_done := true |}
  (* the context ends *)
  | report_cancel t r c b :
      report_step {| rp_todo := t; rp_running := r; rp_chan := c; rp_bar := b; rp_done := false |}
                  {| rp_todo := t; rp_running := r; rp_chan := c; rp_bar := b; rp_done := true |}.

End Reporting.

(** [progressChan <- size], in the function [uploadFile] hands to [processChunks]. *)
Definition upload_reports (size report : Z) : Prop := report = size.
