(* ===== verification/Tree.v ===== *)
(** Directory trees: [filepath.Walk] and [filepath.Glob] of Go, the expansion of local
    sources ([src/glob.go]), and the two directory copies ([src/cp_dir.go],
    [src/cp_from_host_dir.go]).

    [Walk] is written once, in any monad: at [ST] it computes the expansion of a source, at
    [nd] it runs the uploads of a tree.  The recursions on directories have fuel, the depth
    of the tree; a computation that runs out of it has no outcome. *)
From S2P Require Import Prelude Message GoStd GoPath GoHash OS Chunk Hoare Server Client Prog Pool Resume Transfer Nondet.
From Stdlib Require Import Ascii.

(** ** [filepath.Walk] *)

Definition SkipDir : error := ErrVar "SkipDir" "skip this directory".
Definition SkipAll : error := ErrVar "SkipAll" "skip everything and stop the walk".

(** [err == target] for a package-level error of the given name. *)
Definition err_is (e : error) (name : string) : bool :=
  match e with ErrVar n _ => bool_decide (n = name) | _ => false end.

Section Walk.
  Context {M : Type → Type} `{MRet M, MBind M}.
  Context (Lstat : string → M (result FileInfo)) (readDirNames : string → M (result (list string))).
  (* the walk function: the path, the info (absent with an error of [Lstat]), the error *)
  Context (fn : string → option FileInfo → option error → M (option error)).

Definition result_err {A} (r : result A) : option error := match r with Ok _ => None | Err e => Some e end.

(** The loop of [walk] over the names of a directory; [rec] is [walk]. *)
Fixpoint walk_names (rec : string → FileInfo → M (option (option error))) (path : string) (names : list string)
    : M (option (option error)) :=
  match names with
  | [] => mret (Some None)
  | name :: names =>
    let filename := Join [path; name] in
    fileInfo ← Lstat filename;
    match fileInfo with
    | Err err =>
      r ← fn filename None (Some err);
      match r with
      | Some err => if err_is err "SkipDir" then walk_names rec path names else mret (Some (Some err))
      | None => walk_names rec path names
      end
    | Ok fileInfo =>
      r ← rec filename fileInfo;
      match r with
      | Some (Some err) =>
        if negb (fi_IsDir fileInfo) || negb (err_is err "SkipDir") then mret (Some (Some err))
        else walk_names rec path names
      | Some None => walk_names rec path names
      | None => mret None
      end
    end
  end.

Fixpoint walk (fuel : nat) (path : string) (info : FileInfo) : M (option (option error)) :=
  match fuel with
  | O => mret None
  | S fuel =>
    if negb (fi_IsDir info) then r ← fn path (Some info) None; mret (Some r) else
    names ← readDirNames path;
    err1 ← fn path (Some info) (result_err names);
    match names, err1 with
    | Ok names, None => walk_names (walk fuel) path names
    | _, _ => mret (Some err1)
    end
  end.

Definition Walk (fuel : nat) (root : string) : M (option (option error)) :=
  info ← Lstat root;
  r ← (match info with
       | Err err => r ← fn root None (Some err); mret (Some r)
       | Ok info => walk fuel root info
       end);
  mret (match r with
        | Some (Some err) => if err_is err "SkipDir" || err_is err "SkipAll" then Some None else r
        | _ => r
        end).
End Walk.

(** [readDirNames]: the sorted names of a directory. *)
Definition dir_names `{OS} (path : string) (w : world) : result (list string) :=
  match os_ReadDir path w with Ok l => Ok (de_Name <$> l) | Err e => Err e end.

(** ** [filepath.Glob] *)

Definition hasMeta (path : string) : bool := ContainsAny path "*?[\".

Definition cleanGlobPath (path : string) : string :=
  if bool_decide (path = "") then "." else
  if bool_decide (path = "/") then path else str_take (String.length path - 1) path.

Section Glob.
  Context `{OS} (w : world).

(** [glob]: the names of one directory that match, after [matches]. *)
Fixpoint glob_names (dir pattern : string) (names : list string) (matches : list string) : result (list string) :=
  match names with
  | [] => Ok matches
  | n :: names =>
    match Match pattern n with
    | Err err => Err err
    | Ok matched => glob_names dir pattern names (if matched then matches ++ [Join [dir; n]] else matches)
    end
  end.

Definition glob (dir pattern : string) (matches : list string) : result (list string) :=
  match os_Stat dir w with
  | Err _ => Ok matches
  | Ok fi =>
    if negb (fi_IsDir fi) then Ok matches else
    match dir_names dir w with
    | Err _ => Ok matches
    | Ok names => glob_names dir pattern names matches
    end
  end.

Fixpoint glob_dirs (dirs : list string) (pattern : string) (matches : list string) : result (list string) :=
  match dirs with
  | [] => Ok matches
  | d :: dirs =>
    match glob d pattern matches with
    | Err err => Err err
    | Ok matches => glob_dirs dirs pattern matches
    end
  end.

(** [globWithLimit]; [fuel] is what is left of its limit on the depth. *)
Fixpoint globWithLimit (fuel : nat) (pattern : string) : result (list string) :=
  match fuel with
  | O => Err ErrBadPattern
  | S fuel =>
    match Match pattern "" with
    | Err err => Err err
    | Ok _ =>
      if negb (hasMeta pattern) then
        match os_Lstat pattern w with Err _ => Ok [] | Ok _ => Ok [pattern] end
      else
        let '(dir, file) := path_Split pattern in
        let dir := cleanGlobPath dir in
        if negb (hasMeta dir) then glob dir file [] else
        if bool_decide (dir = pattern) then Err ErrBadPattern else
        match globWithLimit fuel dir with
        | Err err => Err err
        | Ok m => glob_dirs m file []
        end
    end
  end.

Definition pathSeparatorsLimit : nat := Z.to_nat 10000.

Definition Glob (pattern : string) : result (list string) := globWithLimit pathSeparatorsLimit pattern.

(** ** [expandLocalSource] *)

Definition hasGlob (s : string) : bool := ContainsAny (Base s) "*?[".

(** [seen] and [result]. *)
Definition expansion : Type := gset string * list string.

(** The walk function: every regular file that was not seen. *)
Definition expand_visit (walkPath : string) (walkInfo : option FileInfo) (walkErr : option error)
    : ST expansion (option error) := λ '(seen, result),
  match walkErr, walkInfo with
  | Some err, _ => (Some err, (seen, result))
  | None, Some info =>
    if FileMode_IsRegular (fi_Mode info) && negb (bool_decide (walkPath ∈ seen))
    then (None, ({[walkPath]} ∪ seen, result ++ [walkPath]))
    else (None, (seen, result))
  | None, None => (None, (seen, result))   (* an absent info comes with an error *)
  end.

(** The body of the loop over the matches; its directories are at most [fuel] deep. *)
Definition expand_match (fuel : nat) (recursive : bool) (m : string) (e : expansion) : option expansion :=
  let '(seen, result) := e in
  if bool_decide (m ∈ seen) then Some e else
  let seen := {[m]} ∪ seen in
  if recursive && match os_Stat m w with Ok info => fi_IsDir info | Err _ => false end then
    match Walk (M:=ST expansion) (λ p, mret (os_Lstat p w)) (λ p, mret (dir_names p w)) expand_visit fuel m (seen, result) with
    | (Some _, e) => Some e
    | (None, _) => None
    end
  else Some (seen, result ++ [m]).

Definition expandLocalSource (fuel : nat) (pattern : string) (recursive : bool) : option (result (list string)) :=
  if negb (hasGlob pattern) then Some (Ok [pattern]) else
  match Glob pattern with
  | Err err => Some (Err err)
  | Ok [] => Some (Err (Errorf "no files match %q" [inl pattern]))
  | Ok matches =>
    match foldl (λ e m, e ≫= expand_match fuel recursive m) (Some (∅, [])) matches with
    | Some (_, result) => Some (Ok result)
    | None => None
    end
  end.
End Glob.

(** ** Uploading a tree *)

Section Trees.
  Context `{Transport, !Ctx, Gzip, SecretBox, Rand, Json, TempDir, OS}.
  Context (chunkSize maxRetries : Z) (useSha256 : bool) (compressionAlgo : Z).

#[local] Notation N := (nd xfer).

(** The walk function of [cpDirToHost]. *)
Definition upload_visit (srcDir target path : string) (info : option FileInfo) (walkErr : option error)
    : N (option error) :=
  match walkErr, info with
  | Some walkErr, _ => mret (Some walkErr)
  | None, None => mret None   (* an absent info comes with an error *)
  | None, Some info =>
    match Rel srcDir path with
    | Err err => mret (Some err)
    | Ok rel =>
      let remotePath := Join [target; rel] in
      if fi_IsDir info then
        res ← alone (on_cc (Create remotePath 0 (FileMode_Perm (fi_Mode info))));
        mret (result_err res)
      else if negb (FileMode_IsRegular (fi_Mode info)) then mret None
      else
        batch ← ask_nd (λ x, cc_batch (x_cc x));
        uploadFile path remotePath info chunkSize batch maxRetries useSha256 compressionAlgo
    end
  end.

Definition local_walk (srcDir target : string) (fuel : nat) : N (option (option error)) :=
  Walk (M:=nd xfer) (λ p, ask_nd (λ x, os_Lstat p (x_w x))) (λ p, ask_nd (λ x, dir_names p (x_w x)))
    (upload_visit srcDir target) fuel srcDir.

Definition cpDirToHost (srcDir target : string) : N (option error) := λ x r x',
  ∃ fuel, local_walk srcDir target fuel x (Some r) x'.

(** ** Downloading a tree *)

(** The body of the loop of [walkRemoteDir]; [rec] is [walkRemoteDir]. *)
Fixpoint remote_entries (rec : string → string → N (option (option error))) (srcDir target : string)
    (useChecksum : bool) (entries : list DirEntry.t) : N (option (option error)) :=
  match entries with
  | [] => mret (Some None)
  | entry :: entries =>
    let remotePath := Join [srcDir; DirEntry.Name entry] in
    let localPath := Join [target; DirEntry.Name entry] in
    r ← (if DirEntry.IsDir entry then rec remotePath localPath
         else
           batch ← ask_nd (λ x, cc_batch (x_cc x));
           err ← downloadFile remotePath localPath chunkSize batch maxRetries useChecksum useSha256 compressionAlgo;
           match err with
           | Some err => mret (Some (Some err))
           | None =>
             if DirEntry.Mode entry =? 0 then mret (Some None) else
             err ← alone (on_os (atomic (os_Chmod localPath (FileMode_Perm (DirEntry.Mode entry)))));
             mret (Some err)
           end);
    match r with
    | Some None => remote_entries rec srcDir target useChecksum entries
    | _ => mret r
    end
  end.

(** The mode of the directory, when the server knows it. *)
Definition chmod_as_remote (target : string) (res : result clientWrappedMsg) : prog xfer (option error) :=
  match res with
  | Err err => mret (Some err)
  | Ok (MStatRes sr, _) =>
    if StatRes.Success sr then on_os (atomic (os_Chmod target (FileMode_Perm (StatRes.Mode sr)))) else mret None
  | Ok _ => mret (Some bad_assertion)
  end.

(** [walkRemoteDir] up to its loop: the entries. *)
Definition remote_dir (srcDir target : string) : prog xfer (result (list DirEntry.t)) :=
  made ← on_os (atomic (os_MkdirAll target 0x1ED));
  match made with
  | Some err => mret (Err err)
  | None =>
    statRes ← on_cc (Stat srcDir);
    err ← chmod_as_remote target statRes;
    match err with
    | Some err => mret (Err err)
    | None =>
      res ← on_cc (ReadDir srcDir);
      match res with
      | Err err => mret (Err err)
      | Ok (MReadDirRes dirRes, _) =>
        if ReadDirRes.Success dirRes then mret (Ok (ReadDirRes.Entries dirRes))
        else mret (Err (Errorf "readdir failed for %s" [inl srcDir]))
      | Ok _ => mret (Err bad_assertion)
      end
    end
  end.

Fixpoint walkRemoteDir (fuel : nat) (useChecksum : bool) (srcDir target : string) : N (option (option error)) :=
  match fuel with
  | O => mret None
  | S fuel =>
    entries ← alone (remote_dir srcDir target);
    match entries with
    | Err err => mret (Some (Some err))
    | Ok entries => remote_entries (walkRemoteDir fuel useChecksum) srcDir target useChecksum entries
    end
  end.

Definition cpDirFromHost (srcDir target : string) : N (option error) := λ x r x',
  ∃ fuel, walkRemoteDir fuel (cc_useChecksum (x_cc x)) srcDir target x (Some r) x'.

End Trees.
