(* ===== verification/Command.v ===== *)
(** The commands [gcp cp] ([src/cp.go], and the remote half of [src/glob.go]) and [gcp ls]
    ([src/ls.go]): from the arguments to the transfers.

    A command starts on the network and on the user's machine ([cmd]).  [newClient] gives it
    a client; the pool that [newClient] starts is the interface [Pool]: the network of
    messages its connections make, until [Close] ends it.  The lines that [ls] and a dry run of
    [cp] print are in the state. *)
From S2P Require Import Prelude Message GoStd GoPath GoHash OS Chunk Auth Hoare Server Client ClientAuth Prog Pool Resume Transfer Nondet Address Listing Tree.
From stdpp Require Import pretty.
From Stdlib Require Import Ascii.

(** ** [copySingle] *)

Section CopySingle.
  Context `{Transport, !Ctx, Gzip, SecretBox, Rand, Json, TempDir, OS, ClientEnv, SshConfig}.

#[local] Notation N := (nd xfer).

(** A step on the user's machine. *)
Definition on_machine {A} (f : world → world * A) : N A := step_nd (λ x,
  let '(w, a) := f (x_w x) in (set_xw w x, a)).

Definition isRemoteDir (path : string) : prog xfer (result bool) :=
  res ← on_cc (Stat path);
  match res with
  | Err err => mret (Err err)
  | Ok (MStatRes statRes, _) =>
    if StatRes.Success statRes then mret (Ok (StatRes.IsDir statRes))
    else mret (Err (Errorf "stat failed for %s: %s" [inl path; inl (StatRes.Error statRes)]))
  | Ok _ => mret (Err bad_assertion)
  end.

(** A target that is empty or ends in a slash names a directory. *)
Definition under_dir (target base : string) : string :=
  if bool_decide (target = "") || HasSuffix target "/" then target +:+ base else target.

Definition ErrOneLocal : error := Errorf "one path must be local, the other remote" [].
Definition ErrNotRecursive : error := Errorf "source is a directory; use -r to copy directories" [].

(** The port given to [parseRemoteAddr] where only the path is used. *)
Definition any_port : string := "5031".

Context (chunkSize maxRetries : Z) (recursive useSha256 : bool) (compressionAlgo : Z).

Definition copy_local_dir (src dst : string) : N (option error) :=
  if negb recursive then mret (Some ErrNotRecursive) else
  if negb (isRemoteAddr dst) then mret (Some (Errorf "downloading directories is not yet supported" [])) else
  addr ← on_machine (parseRemoteAddr dst any_port);
  match addr with
  | Err err => mret (Some err)
  | Ok a => cpDirToHost chunkSize maxRetries useSha256 compressionAlgo src (under_dir (ra_path a) (Base src))
  end.

Definition copy_from_host (src dst : string) : N (option error) :=
  addr ← on_machine (parseRemoteAddr src any_port);
  match addr with
  | Err err => mret (Some err)
  | Ok a =>
    let target := under_dir dst (Base (ra_path a)) in
    isDir ← alone (isRemoteDir (ra_path a));
    match isDir with
    | Ok true =>
      if negb recursive then mret (Some ErrNotRecursive)
      else cpDirFromHost chunkSize maxRetries useSha256 compressionAlgo (ra_path a) target
    | _ => cpOneFileFromHost (ra_path a) target chunkSize maxRetries useSha256 compressionAlgo
    end
  end.

Definition copy_to_host (src dst : string) : N (option error) :=
  addr ← on_machine (parseRemoteAddr dst any_port);
  match addr with
  | Err err => mret (Some err)
  | Ok a => cpOneFileToHost src (under_dir (ra_path a) (Base src)) chunkSize maxRetries useSha256 compressionAlgo
  end.

Definition copySingle (src dst : string) : N (option error) :=
  let srcRemote := isRemoteAddr src in
  let dstRemote := isRemoteAddr dst in
  st ← ask_nd (λ x, os_Stat src (x_w x));
  if negb srcRemote && match st with Ok st => fi_IsDir st | Err _ => false end then copy_local_dir src dst else
  if srcRemote && negb dstRemote then copy_from_host src dst else
  if negb srcRemote && dstRemote then copy_to_host src dst else
  mret (Some ErrOneLocal).

End CopySingle.

(** ** [cpCmd] *)

(** The flags of [gcp cp]. *)
Record cpFlags : Set := {
  fl_chunk : Z;
  fl_batch : Z;
  fl_retry : Z;
  fl_checksum : bool;
  fl_recursive : bool;
  fl_dry_run : bool;
  fl_sha256 : bool;
  fl_compression : string;
  fl_port : Z;
  fl_identity : string;
  fl_encrypt : bool;
}.

(** Their defaults. *)
Definition cpDefaults : cpFlags := {|
  fl_chunk := 32768; fl_batch := 4; fl_retry := 3; fl_checksum := false; fl_recursive := false;
  fl_dry_run := false; fl_sha256 := true; fl_compression := ""; fl_port := 5031; fl_identity := "";
  fl_encrypt := true;
|}.

(** The network of messages that the connections of a client's pool make. *)
Class Pool `{Dialer, Transport} := {
  pool_open : client → dnet → net;
  pool_close : net → dnet;
}.

Section Command.
  Context `{Cbor, Dialer, Transport, !Pool, !Ctx, OS, SSH, !SSHClient, ClientEnv, SshConfig}.
  Context `{Gzip, SecretBox, Rand, Json, TempDir}.

(** The network, the user's machine, and the lines printed so far. *)
Record cmd : Type := {
  m_net : dnet;
  m_w : world;
  m_out : list string;
}.

#[local] Notation C := (nd cmd).

Definition on_home {A} (f : world → world * A) : C A := step_nd (λ m,
  let '(w, a) := f (m_w m) in ({| m_net := m_net m; m_w := w; m_out := m_out m |}, a)).

(** [fmt.Println], line by line. *)
Definition print (lines : list string) : C () := step_nd (λ m,
  ({| m_net := m_net m; m_w := m_w m; m_out := m_out m ++ lines |}, ())).

(** [newClient]. *)
Definition connect (hostPort user identityFile : string) (batch : Z) (useChecksum useEncryption : bool)
    : C (result client) := step_nd (λ m,
  let '(n, w, r) := newClient hostPort user identityFile batch useChecksum useEncryption (m_net m) (m_w m) in
  ({| m_net := n; m_w := w; m_out := m_out m |}, r)).

(** What runs between [newClient] and [cc.Close()]. *)
Definition with_client {A} (cc : client) (body : nd xfer A) : C A := λ m a m', ∃ x',
  body {| x_cc := cc; x_net := pool_open cc (m_net m); x_w := m_w m; x_rs := None |} a x'
  ∧ m' = {| m_net := pool_close (x_net x'); m_w := x_w x'; m_out := m_out m |}.

(** The addresses of the entries that match. *)
Definition matching_entries (user hostAlias parent pattern : string) (entries : list DirEntry.t) : list string :=
  omap (λ entry, match Match pattern (DirEntry.Name entry) with
                 | Ok true => Some (format_addr user hostAlias (GoStd.Join [parent; DirEntry.Name entry]))
                 | _ => None
                 end) entries.

Definition expandRemoteSources (hostPort user hostAlias remotePath : string) (useChecksum : bool)
    : C (result (list string)) :=
  if negb (hasGlob remotePath) then mret (Ok [format_addr user hostAlias remotePath]) else
  let '(parent, pattern) := path_Split remotePath in
  let parent := if bool_decide (parent = "") then "/" else parent in
  cc ← connect hostPort user "" 1 useChecksum true;
  match cc with
  | Err err => mret (Err err)
  | Ok cc =>
    res ← with_client cc (alone (on_cc (ReadDir parent)));
    match res with
    | Err err => mret (Err err)
    | Ok (MReadDirRes dirRes, _) =>
      if negb (ReadDirRes.Success dirRes) then mret (Err (Errorf "readdir failed for %s" [inl parent])) else
      match matching_entries user hostAlias parent pattern (ReadDirRes.Entries dirRes) with
      | [] => mret (Err (Errorf "no files match pattern %q in %s" [inl pattern; inl parent]))
      | result => mret (Ok result)
      end
    | Ok _ => mret (Err bad_assertion)
    end
  end.

(** The two loops that expand the sources; the walks of local directories have fuel. *)
Fixpoint expand_remote (port : string) (useChecksum : bool) (sources : list string) (expanded : list string)
    : C (result (list string)) :=
  match sources with
  | [] => mret (Ok expanded)
  | s :: sources =>
    addr ← on_home (parseRemoteAddr s port);
    match addr with
    | Err pErr => mret (Err pErr)
    | Ok a =>
      matches ← expandRemoteSources (ra_hostPort a) (ra_userName a) (ra_hostAlias a) (ra_path a) useChecksum;
      match matches with
      | Err gErr => mret (Err gErr)
      | Ok matches => expand_remote port useChecksum sources (expanded ++ matches)
      end
    end
  end.

Fixpoint expand_local (recursive : bool) (sources : list string) (expanded : list string) : C (result (list string)) :=
  match sources with
  | [] => mret (Ok expanded)
  | s :: sources =>
    matches ← (λ m r m', m' = m ∧ ∃ fuel, expandLocalSource (m_w m) fuel s recursive = Some r);
    match matches with
    | Err gErr => mret (Err gErr)
    | Ok matches => expand_local recursive sources (expanded ++ matches)
    end
  end.

(** The target of one source: with several sources, under the destination. *)
Definition copy_target (multiple srcRemote : bool) (port src dst : string) (w : world) : world * string :=
  if negb multiple then (w, dst) else
  if srcRemote then
    let '(w, addr) := parseRemoteAddr src port w in
    let rPath := ra_identityFile (addr_or_empty addr) in   (* the fourth result *)
    (w, GoStd.Join [dst; Base rPath])
  else (w, GoStd.Join [dst; Base src]).

(** The loop over the sources. *)
Fixpoint copy_all (fl : cpFlags) (multiple srcRemote : bool) (port dst : string) (expanded : list string)
    : nd xfer (option error) :=
  match expanded with
  | [] => mret None
  | src :: expanded =>
    target ← on_machine (copy_target multiple srcRemote port src dst);
    err ← copySingle (fl_chunk fl) (fl_retry fl) (fl_recursive fl) (fl_sha256 fl)
            (parseCompressionFlag (fl_compression fl)) src target;
    match err with
    | Some err => mret (Some err)
    | None => copy_all fl multiple srcRemote port dst expanded
    end
  end.

(** The [Action] of [cpCmd] once the sources are expanded. *)
Definition cp_run (fl : cpFlags) (multiple srcRemote : bool) (port first dst : string) (expanded : list string)
    : C (option error) :=
  addr ← on_home (parseRemoteAddr (if srcRemote then first else dst) port);
  let a := addr_or_empty addr in
  let identityFile := if bool_decide (fl_identity fl = "") then ra_identityFile a else fl_identity fl in
  cc ← connect (ra_hostPort a) (ra_userName a) identityFile (fl_batch fl) (fl_checksum fl) (fl_encrypt fl);
  match cc with
  | Err err => mret (Some (Wrapf "connect to %s: %w" [inl (ra_hostPort a)] err))
  | Ok cc => with_client cc (copy_all fl multiple srcRemote port dst expanded)
  end.

(** The plan a dry run prints. *)
Definition dry_run_line (srcRemote : bool) (dst src : string) : string :=
  "dry-run: " ++ (if srcRemote then "download " else "upload ") ++ src ++ " to " ++ dst.

Definition cpCmd (fl : cpFlags) (args : list string) : C (option error) :=
  match args with
  | first :: _ :: _ =>
    let sources := removelast args in
    let dst := List.last args "" in
    let srcRemote := isRemoteAddr first in
    let multiple := bool_decide (1 < length sources)%nat in
    let port := pretty (fl_port fl) in
    if negb (forallb (λ s, Bool.eqb (isRemoteAddr s) srcRemote) sources) then
      mret (Some (Errorf "cannot mix local and remote sources" [])) else
    if Bool.eqb srcRemote (isRemoteAddr dst) then mret (Some ErrOneLocal) else
    expanded ← (if srcRemote then expand_remote port (fl_checksum fl) sources []
                else expand_local (fl_recursive fl) sources []);
    match expanded with
    | Err err => mret (Some err)
    | Ok [] => mret (Some (Errorf "no files matched" []))
    | Ok expanded =>
      if fl_dry_run fl then print (dry_run_line srcRemote dst <$> expanded);; mret None
      else cp_run fl multiple srcRemote port first dst expanded
    end
  | _ => mret (Some (Errorf "usage: gcp cp <source>... <destination>" []))
  end.

(** ** [lsCmd] *)

Context `{Humanize, LocalZone}.

(** Between [newClient] and [cc.Close()]: the entries to print. *)
Definition ls_entries (path : string) : prog xfer (result (list DirEntry.t)) :=
  res ← on_cc (Stat path);
  match res with
  | Err err => mret (Err err)
  | Ok (MStatRes statRes, _) =>
    if negb (StatRes.Success statRes) then
      mret (Err (Errorf "stat failed for %s: %s" [inl path; inl (StatRes.Error statRes)]))
    else if StatRes.IsDir statRes then
      res ← on_cc (ReadDir path);
      match res with
      | Err err => mret (Err err)
      | Ok (MReadDirRes dirRes, _) =>
        if negb (ReadDirRes.Success dirRes) then
          mret (Err (Errorf "readdir failed for %s: %s" [inl path; inl (ReadDirRes.Error dirRes)]))
        else mret (Ok (sort_entries (ReadDirRes.Entries dirRes)))
      | Ok _ => mret (Err bad_assertion)
      end
    else mret (Ok [{| DirEntry.Name := path; DirEntry.IsDir := false; DirEntry.Mode := StatRes.Mode statRes;
                      DirEntry.Size := StatRes.Size statRes; DirEntry.ModTime := 0 |}])
  | Ok _ => mret (Err bad_assertion)
  end.

Definition lsCmd (long human : bool) (port : Z) (args : list string) : C (option error) :=
  match args with
  | [] => mret (Some (Errorf "usage: gcp ls [--long] <remote_path>" []))
  | first :: _ =>
    addr ← on_home (parseRemoteAddr first (pretty port));
    match addr with
    | Err err => mret (Some err)
    | Ok a =>
      cc ← connect (ra_hostPort a) (ra_userName a) (ra_identityFile a) 1 false false;
      match cc with
      | Err err => mret (Some err)
      | Ok cc =>
        entries ← with_client cc (alone (ls_entries (ra_path a)));
        match entries with
        | Err err => mret (Some err)
        | Ok entries => print ((λ e, printEntry e long human) <$> entries);; mret None
        end
      end
    end
  end.

End Command.
