(* ===== verification/Remote.v ===== *)
(** What the transfers need of the machine at the other end: the interface
    [RemoteFiles], a view of the network as a set of files under one session key.
    The transfers are verified against it (TransferSpec.v); ServerLink.v proves that
    the server of Server.v, behind a network that loses requests and answers,
    implements it. *)
From S2P Require Import Prelude Message GoStd GoHash OS Chunk Server Client Prog Pool Resume Transfer.
From Stdlib Require Import Strings.Byte.

(** A server that holds [key] recovers [data] from the request. *)
Definition decodes `{Gzip, SecretBox} (key : option (list byte)) (req : WriteReq.t) (p data : list byte) : Prop :=
  ∀ ca, ca_encryptionKey ca = key → write_payload req p ca = Ok data.

(** The requests a transfer makes. *)
Definition client_request (m : MSG) : bool :=
  match m with
  | MReadReq req => make_ok (ReadReq.Size req)
  | MCreateReq req => negb (CreateReq.IsDir req)
  | MWriteReq _ | MStatReq _ | MHashReq _ | MReadDirReq _ => true
  | _ => false
  end.

(** The file after some part of a positional write. *)
Definition partly_written (old new : option (list byte)) (data : list byte) (off : Z) : Prop :=
  new = old ∨ 0 <= off ∧ ∃ o k, old = Some o ∧ new = Some (write_at o (take k data) (Z.to_nat off)).

Class RemoteFiles `{Transport, !Ctx, Gzip, SecretBox} (key : option (list byte)) := {
  net_ok : net → Prop;
  remote : net → string → option (list byte);

  call_net_ok m p n n' r : net_ok n → client_request m = true → call m p n = (n', r) → net_ok n';
  call_ctx m p n n' r : call m p n = (n', r) → is_Some (ctx_Err n) → is_Some (ctx_Err n');

  remote_write req p n n' r data : net_ok n → call (MWriteReq req) p n = (n', r) → decodes key req p data →
    let t := WriteReq.Path req in
    partly_written (remote n t) (remote n' t) data (WriteReq.Offset req)
    ∧ (∀ res q, r = Ok (MWriteRes res, q) → WriteRes.Success res = true → data ≠ [] →
         0 <= WriteReq.Offset req ∧ ∃ old, remote n t = Some old
         ∧ remote n' t = Some (write_at old data (Z.to_nat (WriteReq.Offset req))));

  remote_create req p n n' res q : net_ok n → CreateReq.IsDir req = false →
    call (MCreateReq req) p n = (n', Ok (MCreateRes res, q)) → CreateRes.Success res = true →
    let t := CreateReq.Path req in
    remote n' t = remote n t
    ∨ remote n t = None ∧ remote n' t = Some (replicate (Z.to_nat (CreateReq.Size req)) x00);

  remote_read req p n n' r : net_ok n → make_ok (ReadReq.Size req) = true → call (MReadReq req) p n = (n', r) →
    (∀ t, remote n' t = remote n t)
    ∧ (∀ res q, r = Ok (MReadRes res, q) → ReadRes.Success res = true → 0 < ReadReq.Size req →
         0 <= ReadReq.Offset req ∧ ∃ d, remote n (ReadReq.Path req) = Some d
         ∧ ∀ o, download_payload res q key o
                = Ok (take (Z.to_nat (ReadReq.Size req)) (drop (Z.to_nat (ReadReq.Offset req)) d)));

  remote_stat req p n n' r : net_ok n → call (MStatReq req) p n = (n', r) →
    (∀ t, remote n' t = remote n t)
    ∧ (∀ res q d, r = Ok (MStatRes res, q) → StatRes.Success res = true →
         remote n (StatReq.Path req) = Some d → StatRes.Size res = zlen d);

  remote_readDir req p n n' r : net_ok n → call (MReadDirReq req) p n = (n', r) → ∀ t, remote n' t = remote n t;

  remote_hash req p n n' r : net_ok n → call (MHashReq req) p n = (n', r) →
    (∀ t, remote n' t = remote n t)
    ∧ (∀ res q, r = Ok (MHashRes res, q) → HashRes.Success res = true →
         ∃ d, remote n (HashReq.Path req) = Some d ∧ HashRes.Hash res = Sum256 d);

  cancel_law n : is_Some (ctx_Err (ctx_cancel n)) ∧ (net_ok n → net_ok (ctx_cancel n))
    ∧ (∀ t, remote (ctx_cancel n) t = remote n t);
  wait_law ns n n' e : ctx_wait ns n = (n', e) → (net_ok n → net_ok n') ∧ (∀ t, remote n' t = remote n t)
    ∧ (is_Some (ctx_Err n) → is_Some (ctx_Err n'));
}.
#[global] Arguments net_ok {_ _ _ _} _ {_} _.
#[global] Arguments remote {_ _ _ _} _ {_} _ _.

(** ** Positional writes of the right bytes *)

Section Bytes.
  Context (d : list byte).

(** The part of the file a chunk covers. *)
Definition chunk_bytes (off sz : Z) : list byte := take (Z.to_nat sz) (drop (Z.to_nat off) d).

Lemma chunk_bytes_lookup off sz j k b : 0 <= off → take k (chunk_bytes off sz) !! j = Some b →
  d !! (Z.to_nat off + j)%nat = Some b.
Proof. intros Ho. unfold chunk_bytes. rewrite take_take, lookup_take_Some, lookup_drop. by intros [? _]. Qed.

(** Writing some of a file's bytes where they belong never makes a byte wrong ... *)
Lemma write_right r off sz k j : 0 <= off → r !! j = d !! j → (j < length d)%nat →
  write_at r (take k (chunk_bytes off sz)) (Z.to_nat off) !! j = d !! j.
Proof.
  intros Ho Hr Hj. set (x := take k (chunk_bytes off sz)).
  destruct (decide (x = [])) as [->|Hx]; [done|]. rewrite lookup_write_at by done.
  case_decide as Hin.
  - destruct (lookup_lt_is_Some_2 x (j - Z.to_nat off)) as [b Hb]; [lia|]. rewrite Hb.
    apply (chunk_bytes_lookup off sz _ k) in Hb; [|done]. by replace (Z.to_nat off + (j - Z.to_nat off))%nat with j in Hb by lia.
  - case_decide; [|done]. rewrite Hr. destruct (lookup_lt_is_Some_2 d j Hj) as [b ->]. done.
Qed.

(** ... changes nothing past the end of the file ... *)
Lemma write_beyond r off sz k j : 0 <= off → (length d ≤ j)%nat →
  write_at r (take k (chunk_bytes off sz)) (Z.to_nat off) !! j = r !! j.
Proof.
  intros Ho Hj. set (x := take k (chunk_bytes off sz)).
  destruct (decide (x = [])) as [->|Hx]; [done|].
  assert (Z.to_nat off + length x ≤ length d)%nat as Hl.
  { assert (0 < length x)%nat by (destruct x; [done|simpl; lia]).
    assert (length x ≤ length d - Z.to_nat off)%nat; [|lia].
    unfold x, chunk_bytes. rewrite !length_take, length_drop. lia. }
  rewrite lookup_write_at, decide_False by (done || lia). case_decide; [lia|done].
Qed.

(** ... and the whole chunk makes its bytes right. *)
Lemma write_chunk r off sz j : 0 <= off → off + sz <= zlen d → off <= Z.of_nat j < off + sz →
  write_at r (chunk_bytes off sz) (Z.to_nat off) !! j = d !! j.
Proof.
  intros Ho Hl Hj. unfold zlen in Hl.
  assert (length (chunk_bytes off sz) = Z.to_nat sz) as Hlen.
  { unfold chunk_bytes. rewrite length_take, length_drop. lia. }
  rewrite lookup_write_at by (intros E; rewrite E in Hlen; simpl in Hlen; lia).
  rewrite decide_True by lia. unfold chunk_bytes. rewrite lookup_take_lt by lia. rewrite lookup_drop.
  f_equal. lia.
Qed.

End Bytes.
