(* ===== verification/TransferInv.v ===== *)
(** The invariants of a transfer while its chunks run, and that the chunk functions
    keep them whatever the other goroutines do: the rely/guarantee proofs behind
    TransferSpec.v. *)
From S2P Require Import Prelude Message GoStd GoHash OS Chunk Hoare Server Client Prog Pool Resume Transfer Remote.
From Stdlib Require Import Strings.Byte.

(** ** The calls, run *)

Section Calls.
  Context `{Transport, Gzip, SecretBox, Rand}.

(** A computation of the client that leaves its key alone. *)
Definition keeps_key {A} (m : ST (client * net) A) : Prop :=
  ∀ s, cc_encryptionKey (fst (exec m s)) = cc_encryptionKey (fst s).

Lemma keeps_key_bind {A B} (m : ST (client * net) A) (k : A → ST (client * net) B) :
  keeps_key m → (∀ a, keeps_key (k a)) → keeps_key (m ≫= k).
Proof. intros Hm Hk s. rewrite exec_bind. by rewrite Hk, Hm. Qed.

Lemma keeps_key_ret {A} (a : A) : keeps_key (mret a).
Proof. done. Qed.
Lemma keeps_key_id : keeps_key genMsgID.
Proof. by intros [cc n]. Qed.
Lemma keeps_key_ask {A} (f : client → A) : keeps_key (ask_cc f).
Proof. done. Qed.
Lemma keeps_key_rand k : keeps_key (client_rand k).
Proof. by intros [cc n]. Qed.
Lemma keeps_key_submit m p : keeps_key (submit m p).
Proof. intros [cc n]. unfold exec, submit. by destruct (call m p n). Qed.

Lemma Write_key target off data algo : keeps_key (Write target off data algo).
Proof.
  unfold Write, write_submit.
  repeat first [ apply keeps_key_ret | apply keeps_key_id | apply keeps_key_ask | apply keeps_key_rand
               | apply keeps_key_submit | apply keeps_key_bind; [|intros ?] | case_match ].
Qed.

(** The other calls submit one request and change only the counter. *)
Definition one_call (m : Z → MSG) (r : result clientWrappedMsg) (cc : client) (n : net) (cc' : client) (n' : net)
    : Prop := ∃ id, cc' = set_id id cc ∧ call (m id) [] n = (n', r).

Lemma Create_run target size mode cc n r cc' n' :
  Create target size mode (cc, n) = (r, (cc', n')) →
  one_call (λ id, MCreateReq {| CreateReq.ID := id; CreateReq.Size := size; CreateReq.Mode := u32 mode;
                                CreateReq.Path := target; CreateReq.IsDir := false |}) r cc n cc' n'.
Proof.
  unfold Create. rewrite run_bind. unfold genMsgID, eval, exec, submit. cbn [fst snd].
  destruct (call _ _ _) as [n1 r1] eqn:Hc. intros [= <- <- <-]. by eexists.
Qed.

Lemma Stat_run target cc n r cc' n' : Stat target (cc, n) = (r, (cc', n')) →
  one_call (λ id, MStatReq {| StatReq.ID := id; StatReq.Path := target |}) r cc n cc' n'.
Proof.
  unfold Stat. rewrite run_bind. unfold genMsgID, eval, exec, submit. cbn [fst snd].
  destruct (call _ _ _) as [n1 r1] eqn:Hc. intros [= <- <- <-]. by eexists.
Qed.

Lemma ReadDir_run target cc n r cc' n' : ReadDir target (cc, n) = (r, (cc', n')) →
  one_call (λ id, MReadDirReq {| ReadDirReq.ID := id; ReadDirReq.Path := target |}) r cc n cc' n'.
Proof.
  unfold ReadDir. rewrite run_bind. unfold genMsgID, eval, exec, submit. cbn [fst snd].
  destruct (call _ _ _) as [n1 r1] eqn:Hc. intros [= <- <- <-]. by eexists.
Qed.

Lemma Hash_run target cc n r cc' n' : Hash target (cc, n) = (r, (cc', n')) →
  one_call (λ id, MHashReq {| HashReq.ID := id; HashReq.Path := target |}) r cc n cc' n'.
Proof.
  unfold Hash. rewrite run_bind. unfold genMsgID, eval, exec, submit. cbn [fst snd].
  destruct (call _ _ _) as [n1 r1] eqn:Hc. intros [= <- <- <-]. by eexists.
Qed.

Lemma Read_run target off size algo cc n r cc' n' : Read target off size algo (cc, n) = (r, (cc', n')) →
  one_call (λ id, MReadReq {| ReadReq.ID := id; ReadReq.Path := target; ReadReq.Offset := off;
      ReadReq.Size := size; ReadReq.Compression := algo;
      ReadReq.Encryption := if cc_useEncryption cc then EncryptionSecretBox else EncryptionNone |}) r cc n cc' n'.
Proof.
  unfold Read. rewrite run_bind. unfold ask_cc, eval, exec. cbn [fst snd]. rewrite run_bind.
  unfold genMsgID, eval, exec, submit. cbn [fst snd].
  destruct (call _ _ _) as [n1 r1] eqn:Hc. intros [= <- <- <-]. by eexists.
Qed.

End Calls.

(** ** Uploads *)

Section Upload.
  Context `{Transport, !Ctx, GzipOk, SecretBoxOk, RandOk, JsonOk, TempDir, OSLaws}.
  Context (key : option (list byte)) {RF : RemoteFiles key}.
  (* the source: its contents, inode and handle; the target; what the target held *)
  Context (d : list byte) (i : nat) (sfd : file) (target : string) (old : option (list byte)).
  (* the source's name, and whether the upload started without a resume state *)
  Context (src : string) (fresh : bool) (cs : list chunk).

(** Byte [j] of the remote file is byte [j] of the source. *)
Definition right_at (x : xfer) (j : nat) : Prop :=
  ∃ r, remote key (x_net x) target = Some r ∧ r !! j = d !! j.

Definition up_wrote (c : chunk) (x : xfer) : Prop :=
  ∀ j : nat, fst c <= Z.of_nat j < fst c + snd c → right_at x j.

(** Past the end of the source, the target is as it was. *)
Definition tail_same (r o : option (list byte)) : Prop :=
  match r, o with
  | Some r, Some o => ∀ j, (length d ≤ j)%nat → r !! j = o !! j
  | None, None => True
  | _, _ => False
  end.

Record up_inv (x : xfer) : Prop := {
  ui_net : net_ok key (x_net x);
  ui_key : cc_encryptionKey (x_cc x) = key;
  ui_handle : handle (x_w x) sfd = Some (i, false);
  ui_data : idata (x_w x) i = Some d;
  ui_tmp s : x_rs x = Some s → at_path (x_w x) (tmp_path s) ≠ Some i;
  ui_tail : tail_same (remote key (x_net x) target) old;
  ui_fresh : fresh = true → x_rs x = None ∧ at_path (x_w x) src = Some i;
  ui_resume s c : x_rs x = Some s → c ∈ cs → fst c ∈ r_completedSet s → up_wrote c x;
}.

(** The chunks lie in the file, at distinct offsets. *)
Definition chunks_in : Prop :=
  (∀ c, c ∈ cs → 0 <= fst c ∧ 0 < snd c ∧ fst c + snd c <= zlen d)
  ∧ (∀ c c', c ∈ cs → c' ∈ cs → fst c = fst c' → c = c').
Context (cs_in : chunks_in).

(** What a step of the network does to the target: nothing, or some right bytes. *)
Definition right_move (r r' : option (list byte)) : Prop :=
  ∃ off sz, partly_written r r' (chunk_bytes d off sz) off.

Lemma right_refl r : right_move r r.
Proof. exists 0, 0. by left. Qed.

Lemma right_move_at x x' j : right_move (remote key (x_net x) target) (remote key (x_net x') target) →
  (j < length d)%nat → right_at x j → right_at x' j.
Proof.
  intros (off & sz & [Heq|(Ho & o & k & Hr & Hr')]) Hj (r & Hx & Hrj).
  - exists r. by rewrite Heq.
  - rewrite Hr in Hx. injection Hx as ->. eexists. split; [exact Hr'|]. by apply write_right.
Qed.

Lemma right_move_tail r r' : right_move r r' → tail_same r old → tail_same r' old.
Proof.
  intros (off & sz & [->|(Ho & o & k & -> & ->)]); [done|]. unfold tail_same. destruct old as [o'|]; [|done].
  intros Ht j Hj. rewrite write_beyond by done. by apply Ht.
Qed.

Lemma up_wrote_move c x x' : right_move (remote key (x_net x) target) (remote key (x_net x') target) →
  c ∈ cs → up_wrote c x → up_wrote c x'.
Proof.
  intros Hm Hc Hw j Hj. apply (right_move_at x); [done| |by apply Hw].
  destruct (proj1 cs_in c Hc) as (? & ? & Hl). unfold zlen in Hl. lia.
Qed.

(** A step of the network. *)
Lemma up_net_move cc' n' x : up_inv x → net_ok key n' → cc_encryptionKey cc' = cc_encryptionKey (x_cc x) →
  right_move (remote key (x_net x) target) (remote key n' target) →
  up_inv (set_xcall cc' n' x) ∧ ∀ c, c ∈ cs → up_wrote c x → up_wrote c (set_xcall cc' n' x).
Proof.
  intros [] Hn Hk Hm. assert (∀ c, c ∈ cs → up_wrote c x → up_wrote c (set_xcall cc' n' x)) as Hw
    by (intros; by eapply up_wrote_move). split; [|done].
  split; simpl; try done; [congruence|by eapply right_move_tail|]. intros s c Hs Hc Hin. by eapply Hw, ui_resume0.
Qed.

(** A step of the resume state that adds at most what is written. *)
Lemma up_rs_move f x w' rs' : up_inv x → rs_step f (x_rs x) rs' (x_w x) w' →
  (∀ s, r_path (f s) = r_path s) →
  (∀ s c, x_rs x = Some s → c ∈ cs → fst c ∈ r_completedSet (f s) → up_wrote c x) →
  up_inv (set_xrs rs' (set_xw w' x)) ∧ ∀ c, up_wrote c x → up_wrote c (set_xrs rs' (set_xw w' x)).
Proof.
  intros Hi Hst Hp Hnew. split; [|done]. pose proof (ui_tmp x Hi) as Ht. pose proof (ui_fresh x Hi) as Hfr.
  destruct Hi. unfold rs_step in Hst. destruct (x_rs x) as [s|] eqn:Hs.
  2: { destruct Hst as [-> ->]. split; simpl; try done. }
  destruct Hst as (s' & -> & Hpath & Hset & _ & _ & Hkept).
  assert (tmp_path (f s) = tmp_path s) as Htp by (unfold tmp_path; by rewrite Hp).
  destruct (Hkept i d) as [Kh Kd Kt]; [done|rewrite Htp; by apply Ht|].
  split; simpl; try done.
  - by apply Kh.
  - intros s1 [= <-]. unfold tmp_path. rewrite Hpath. exact Kt.
  - intros Hf. by destruct (Hfr Hf).
  - intros s1 c [= <-] Hc. rewrite Hset. by eapply Hnew.
Qed.

(** *** The chunk function *)

Context (maxRetries algo : Z).
Let env : pool_env xfer := xfer_env (upload_chunk sfd target maxRetries algo).

Lemma up_stable c (F : Prop) : stable (chunk_rely up_inv up_wrote c) (λ x, up_inv x ∧ (F → up_wrote c x)).
Proof. intros x x' Hr [HI Hw]. destruct (Hr HI) as [HI' Hw']. auto. Qed.

Lemma up_stable_inv c : stable (chunk_rely up_inv up_wrote c) up_inv.
Proof. intros x x' Hr HI. by apply Hr. Qed.

Lemma up_guar c x x' : up_inv x' → (∀ e, e ∈ cs → up_wrote e x → up_wrote e x') →
  (is_Some (ctx_Err (x_net x)) → is_Some (ctx_Err (x_net x'))) → chunk_guar env cs up_inv up_wrote c x x'.
Proof. intros HI Hw Hc. split; [auto|]. simpl. rewrite !bool_decide_eq_true. auto. Qed.

#[local] Notation up_rg c := (rg (chunk_rely up_inv up_wrote c) (chunk_guar env cs up_inv up_wrote c)).

Lemma up_ask {A} c (f : xfer → A) : up_rg c up_inv (ask_x f) (λ _, up_inv).
Proof. apply rg_atomic; [intros; apply up_stable_inv|]. intros x HI. split; [|done]. by apply up_guar. Qed.

Lemma up_sleep c ns : up_rg c up_inv (sleep ns) (λ _, up_inv).
Proof.
  apply rg_atomic; [intros; apply up_stable_inv|]. intros x HI.
  destruct (ctx_wait ns (x_net x)) as [n e] eqn:Hw. cbn [fst snd].
  destruct (wait_law _ _ _ _ Hw) as (Hn & Hr & Hc).
  destruct (up_net_move (x_cc x) n x HI) as [HI' Hk].
  - by apply Hn, HI.
  - done.
  - rewrite Hr. apply right_refl.
  - split; [by apply up_guar|done].
Qed.

(** One attempt: it may write any part of the chunk, and all of it if it reports so. *)
Lemma up_write c : c ∈ cs →
  up_rg c up_inv (on_cc (Write target (fst c) (chunk_bytes d (fst c) (snd c)) algo))
    (λ r x, up_inv x ∧ (write_outcome (fst c) r = Got () → up_wrote c x)).
Proof.
  intros Hc. apply rg_atomic; [intros; apply up_stable|]. intros x HI. destruct (proj1 cs_in c Hc) as (Ho & Hs & Hl).
  set (buf := chunk_bytes d (fst c) (snd c)).
  pose proof (Write_called target (fst c) buf algo (x_cc x) (x_net x)) as Hw.
  pose proof (Write_key target (fst c) buf algo (x_cc x, x_net x)) as Hk. unfold wp, write_called, eval, exec in Hw, Hk.
  destruct (Write _ _ _ _ _) as [r [cc n]]. cbn [fst snd] in *.
  destruct Hw as [(e & -> & -> & _)|(req & p & Ht & Hoff & _ & _ & Hcall & _ & Hdec)].
  { destruct (up_net_move cc (x_net x) x HI) as [HI' Hkept]; [apply HI|done|apply right_refl|].
    split; [by apply up_guar|]. by split. }
  assert (decodes key req p buf) as Hdec' by (intros ca Hca; apply Hdec; by rewrite (ui_key x HI)).
  destruct (remote_write _ _ _ _ _ _ (ui_net x HI) Hcall Hdec') as [Hpart Hfull].
  rewrite Ht, Hoff in Hpart, Hfull.
  destruct (up_net_move cc n x HI) as [HI' Hkept].
  - eapply call_net_ok; [apply HI| |exact Hcall]. done.
  - done.
  - by eexists _, _.
  - split; [apply up_guar; try done; by apply (call_ctx _ _ _ _ _ Hcall)|]. split; [done|].
    intros Hgot. unfold write_outcome in Hgot. destruct r as [[[| | | res | | | | | | | | | |] q]|]; try done.
    destruct (WriteRes.Success res) eqn:Hsuc; [|done].
    assert (buf ≠ []) as Hne.
    { intros E. assert (length buf = Z.to_nat (snd c)) as Hlen; [|rewrite E in Hlen; simpl in Hlen; lia].
      unfold buf, chunk_bytes, zlen in *. rewrite length_take, length_drop. lia. }
    destruct (Hfull res q eq_refl Hsuc Hne) as (_ & o & Ho1 & Ho2). intros j Hj.
    eexists. split; [exact Ho2|]. by apply write_chunk.
Qed.

Lemma up_attempts c fuel attempt writeErr : c ∈ cs → (0 < fuel)%nat ∨ writeErr ≠ None →
  up_rg c up_inv (upload_attempts fuel attempt maxRetries target (fst c) (chunk_bytes d (fst c) (snd c)) algo writeErr)
    (λ r x, up_inv x ∧ (r = None → up_wrote c x)).
Proof.
  intros Hc. revert attempt writeErr. induction fuel as [|fuel IH]; intros attempt writeErr Hf; cbn [upload_attempts].
  { apply rg_ret. intros x HI. split; [done|]. intros ->. destruct Hf; [lia|done]. }
  eapply rg_bind; [apply up_ask|]. intros [e|]; [by apply rg_ret|].
  eapply rg_bind; [by apply up_write|]. intros r. cbv beta. destruct (write_outcome (fst c) r) as [[]|e|].
  - apply rg_ret. intros x [HI Hw]. split; [done|]. intros _. by apply Hw.
  - apply (rg_weaken _ _ up_inv _ _ (λ r x, up_inv x ∧ (r = None → up_wrote c x))); [by intros x []|done|].
    eapply (rg_bind _ _ _ _ _ (λ _, up_inv)).
    + destruct (_ <? _); [apply up_sleep|by apply rg_ret].
    + intros [e'|]; [by apply rg_ret|]. apply IH. by right.
  - apply rg_ret. by intros x [HI _].
Qed.

(** Confirming a chunk. *)
Lemma up_confirm c : c ∈ cs → up_rg c (λ x, up_inv x ∧ (True → up_wrote c x))
  (on_resume (λ rs, addCompletedOffset rs (fst c))) (λ _ x, up_inv x ∧ (True → up_wrote c x)).
Proof.
  intros Hc. apply rg_atomic; [intros; apply up_stable|]. intros x [HI Hw].
  pose proof (add_step (x_rs x) (fst c) (x_w x)) as Hst.
  destruct (run_alone _ _) as [w [rs e]]. cbn [fst snd].
  destruct (up_rs_move (add_done (fst c)) x w rs HI Hst) as [HI' Hk].
  - done.
  - intros s e' Hs He Hin. simpl in Hin. apply elem_of_union in Hin as [Hin|Hin].
    + apply elem_of_singleton in Hin. rewrite (proj2 cs_in e' c He Hc Hin). by apply Hw.
    + by eapply (ui_resume x HI).
  - split; [by apply up_guar; auto|]. auto.
Qed.

(** What [ReadAt] reads, when it does. *)
Lemma up_read c x : c ∈ cs → up_inv x → ∀ buf, f_ReadAt sfd (snd c) (fst c) (x_w x) = (buf, None) →
  buf = chunk_bytes d (fst c) (snd c).
Proof.
  intros Hc HI buf Hr. destruct (proj1 cs_in c Hc) as (Ho & Hs & Hl).
  destruct (read_law _ _ _ _ _ _ Hr) as (_ & Hlen & Hd). specialize (Hlen eq_refl).
  assert (buf ≠ []) as Hne by (intros ->; unfold zlen in Hlen; simpl in Hlen; lia).
  destruct (Hd Hne) as (_ & k & wr & dd & Hk & Hdd & [rest Hpre] & _).
  rewrite (ui_handle x HI) in Hk. injection Hk as <- <-. rewrite (ui_data x HI) in Hdd. injection Hdd as <-.
  unfold chunk_bytes. rewrite Hpre. rewrite take_app_le by (unfold zlen in Hlen; lia).
  rewrite take_ge; [done|]. unfold zlen in Hlen. lia.
Qed.

Lemma up_chunk_ok c : 0 <= maxRetries → c ∈ cs →
  chunk_ok env cs up_inv up_wrote c up_inv (upload_chunk sfd target maxRetries algo c).
Proof.
  intros Hm Hc. unfold chunk_ok, upload_chunk, uploadFileChunk.
  apply (rg_bind _ _ _ _ _ (λ r x, up_inv x ∧ (r = None → up_wrote c x))).
  - apply (rg_bind _ _ _ _ _ (λ rd x, up_inv x ∧ ∀ buf, rd = (buf, None) → buf = chunk_bytes d (fst c) (snd c))).
    + apply rg_atomic.
      * intros a x x' Hr [HI Hb]. split; [by apply Hr|done].
      * intros x HI. cbn [fst snd]. split; [by apply up_guar|]. split; [done|]. by apply up_read.
    + intros [buf [e|]]; [apply rg_ret; by intros x [HI _]|].
      apply rg_pure. intros Hb. rewrite (Hb buf eq_refl). apply up_attempts; [done|]. left. unfold attempts. lia.
  - intros [e|]; [by apply rg_ret|]. eapply rg_bind.
    + eapply rg_weaken; [| |by apply (up_confirm c)]; [|done]. intros x [HI Hw]. auto.
    + intros []. apply rg_ret. intros x [HI Hw] _. by apply Hw.
Qed.

(** *** The pool of an upload *)

Lemma up_env_keeps f : (∀ x, up_inv x → up_inv (f x) ∧ (∀ c, c ∈ cs → up_wrote c x → up_wrote c (f x))) →
  (∀ x, is_Some (ctx_Err (x_net x)) → is_Some (ctx_Err (x_net (f x)))) →
  env_keeps env cs up_inv up_wrote f.
Proof.
  intros Hf Hc x HI. destruct (Hf x HI) as [HI' Hw]. split_and!; [done|done|].
  simpl. rewrite !bool_decide_eq_true. apply Hc.
Qed.

Lemma up_cancel : env_keeps env cs up_inv up_wrote (cancel env).
Proof.
  apply up_env_keeps.
  - intros x HI. destruct (cancel_law (x_net x)) as (_ & Hn & Hr). apply (up_net_move (x_cc x)); try done.
    + by apply Hn, HI.
    + rewrite Hr. apply right_refl.
  - intros x _. simpl. apply (cancel_law (x_net x)).
Qed.

Lemma up_flush : env_keeps env cs up_inv up_wrote (flush env).
Proof.
  assert (∀ x, flush env x = set_xrs (fst (snd (run_alone (flushResumeState (x_rs x)) (x_w x))))
                               (set_xw (fst (run_alone (flushResumeState (x_rs x)) (x_w x))) x)) as Hfl.
  { intros x. simpl. by destruct (run_alone (flushResumeState (x_rs x)) (x_w x)) as [w [rs e]]. }
  apply up_env_keeps; [|intros x; by rewrite Hfl].
  intros x HI. rewrite Hfl. pose proof (flush_step (x_rs x) (x_w x)) as Hst.
  destruct (run_alone _ _) as [w [rs e]]. cbn [fst snd].
  destruct (up_rs_move id x w rs HI Hst) as [HI' Hk]; [done| |by auto].
  intros s c Hs Hc Hin. by eapply (ui_resume x HI).
Qed.

(** A run of the chunks keeps the invariant; if it returns nil and the context has not
    ended, every chunk is written. *)
Lemma up_pool batch x r x' : 0 <= maxRetries → NoDup cs → up_inv x → pool_run env batch cs x r x' →
  up_inv x' ∧ (r = None → ctx_Err (x_net x') = None → ∀ c, c ∈ cs → up_wrote c x').
Proof.
  intros Hm Hnd HI Hrun.
  destruct (pool_run_ok env batch cs up_inv up_wrote Hnd) with (s := x) (r := r) (s' := x') as [HI' Hall]; try done.
  - intros c Hc. by apply up_chunk_ok.
  - intros c y Hc HIy Hcomp. simpl in Hcomp. unfold isCompleted in Hcomp. destruct (x_rs y) as [s|] eqn:Hs; [|done].
    apply bool_decide_eq_true in Hcomp. by eapply (ui_resume y HIy).
  - apply up_cancel.
  - apply up_flush.
  - intros y. simpl. apply bool_decide_eq_true. apply (cancel_law (x_net y)).
  - split; [done|]. intros Hr Hc. apply Hall; [done|]. simpl. rewrite Hc.
    apply bool_decide_eq_false. by intros [].
Qed.

End Upload.

(** ** Before and after the chunks *)

Section Ends.
  Context `{Transport, !Ctx, GzipOk, SecretBoxOk, RandOk, JsonOk, TempDir, OSLaws}.
  Context (key : option (list byte)) {RF : RemoteFiles key}.

Lemma run_os {A B} (m : prog world A) (k : A → prog xfer B) x :
  run_alone (on_os m ≫= k) x = run_alone (k (snd (run_alone m (x_w x)))) (set_xw (fst (run_alone m (x_w x))) x).
Proof. cbn. by destruct (run_alone m (x_w x)). Qed.

Lemma run_cc {A B} (m : ST (client * net) A) (k : A → prog xfer B) x :
  run_alone (on_cc m ≫= k) x =
    run_alone (k (eval m (x_cc x, x_net x)))
      (set_xcall (fst (exec m (x_cc x, x_net x))) (snd (exec m (x_cc x, x_net x))) x).
Proof. cbn. unfold eval, exec. by destruct (m (x_cc x, x_net x)) as [a [cc n]]. Qed.

Lemma run_os1 {A B} (f : world → world * A) (k : A → prog xfer B) x :
  run_alone (on_os (atomic f) ≫= k) x = run_alone (k (snd (f (x_w x)))) (set_xw (fst (f (x_w x))) x).
Proof. rewrite run_os. cbn. by destruct (f (x_w x)). Qed.

Lemma run_ask {A B} (f : xfer → A) (k : A → prog xfer B) x : run_alone (ask_x f ≫= k) x = run_alone (k (f x)) x.
Proof. done. Qed.

Lemma run_load src dst size chunk batch x :
  run_alone (load_state src dst size chunk batch) x =
    (set_xrs (snd (run_alone (loadResumeState src dst size chunk batch) (x_w x)))
       (set_xw (fst (run_alone (loadResumeState src dst size chunk batch) (x_w x))) x),
     snd (run_alone (loadResumeState src dst size chunk batch) (x_w x))).
Proof. unfold load_state. by rewrite run_os. Qed.

(** Only the open files of the client's system may differ. *)
Lemma load_same src dst size chunk batch w :
  same_files w (fst (run_alone (loadResumeState src dst size chunk batch) w)).
Proof.
  assert (along (λ _, True) (loadResumeState src dst size chunk batch) (λ _ w', same_files w w') w) as Ha;
    [|exact (along_run _ _ _ _ Ha)].
  unfold loadResumeState. cbv zeta. apply along_atomic; [done|]. intros w1 [f|e] Ho.
  2: { apply along_ret; [done|]. by eapply open_err_same. }
  apply along_atomic; [done|]. intros w2 rd Hr. apply along_atomic; [done|]. intros w3 e Hc.
  assert (same_files w w3) as Hs.
  { etrans; [exact (open_same _ O_RDONLY _ _ _ _ eq_refl eq_refl Ho)|].
    etrans; [by eapply rest_same|by eapply close_same]. }
  repeat case_match; by apply along_ret.
Qed.

(** The resume state that a transfer starts with, if any. *)
Lemma load_path src dst size chunk batch w s :
  snd (run_alone (loadResumeState src dst size chunk batch) w) = Some s → r_path s = stateFilePath src dst.
Proof.
  assert (along (λ _, True) (loadResumeState src dst size chunk batch)
    (λ rs _, ∀ s, rs = Some s → r_path s = stateFilePath src dst) w) as Ha;
    [|exact (along_run _ _ _ _ Ha s)].
  unfold loadResumeState, state_of_json. cbv zeta.
  repeat first [ apply along_ret; [done|by intros ? [= <-]] | apply along_ret; [done|done]
               | apply along_atomic; [done|intros ? ? ?] | case_match ].
Qed.

(** What the target holds after a create that succeeded. *)
Definition after_create (r r' : option (list byte)) (size : Z) : Prop :=
  r' = r ∨ r = None ∧ r' = Some (replicate (Z.to_nat size) x00).

Lemma upload_create_run src target info x x1 : net_ok key (x_net x) →
  run_alone (upload_create src target info) x = (x1, None) →
  net_ok key (x_net x1) ∧ same_files (x_w x) (x_w x1) ∧ x_rs x1 = x_rs x
  ∧ cc_encryptionKey (x_cc x1) = cc_encryptionKey (x_cc x)
  ∧ after_create (remote key (x_net x) target) (remote key (x_net x1) target) (fi_Size info).
Proof.
  intros Hn. unfold upload_create. rewrite run_os1.
  destruct (os_OpenFile src O_RDONLY 0 (x_w x)) as [w1 [f|e]] eqn:Ho; cbn [fst snd]; [|done].
  rewrite run_os1. destruct (f_Close f _) as [w2 e2] eqn:Hc. cbn [fst snd]. rewrite run_cc.
  unfold eval, exec.
  destruct (Create target (fi_Size info) (FileMode_Perm (fi_Mode info)) _) as [r [cc n]] eqn:Hcr.
  cbn [fst snd]. apply Create_run in Hcr as (id & -> & Hcall). simpl in Hcall.
  destruct r as [[[| res | | | | | | | | | | | |] q]|]; try done. destruct (CreateRes.Success res) eqn:Hs; [|done].
  intros [= <-]. cbn. split_and!; try done.
  - by eapply call_net_ok; [exact Hn| |exact Hcall].
  - etrans; [exact (open_same _ O_RDONLY _ _ _ _ eq_refl eq_refl Ho)|by eapply close_same].
  - by apply (remote_create _ _ _ _ _ _ Hn) in Hcall; [|done|exact Hs].
Qed.

(** An open source, the target prepared, the resume state loaded. *)
Lemma upload_start_run src target info chunk batch x x1 sfd : net_ok key (x_net x) →
  run_alone (upload_start src target info chunk batch) x = (x1, Ok sfd) →
  let rs := snd (run_alone (loadResumeState src target (fi_Size info) chunk batch) (x_w x)) in
  net_ok key (x_net x1) ∧ cc_encryptionKey (x_cc x1) = cc_encryptionKey (x_cc x) ∧ x_rs x1 = rs
  ∧ same_files (x_w x) (x_w x1)
  ∧ (∃ i, at_path (x_w x) src = Some i ∧ handle (x_w x1) sfd = Some (i, false))
  ∧ after_create (remote key (x_net x) target) (remote key (x_net x1) target) (fi_Size info)
  ∧ (is_Some rs → remote key (x_net x1) target = remote key (x_net x) target).
Proof.
  intros Hn. unfold upload_start, load_state. rewrite run_alone_bind, run_os.
  set (rs := snd (run_alone _ (x_w x))). pose proof (load_same src target (fi_Size info) chunk batch (x_w x)) as Hl.
  set (w1 := fst (run_alone _ (x_w x))) in *. cbn [run_alone atomic fst snd].
  set (x0 := set_xrs rs (set_xw w1 x)). rewrite run_alone_bind.
  assert (∀ xc, run_alone (match rs with Some _ => mret None | None => upload_create src target info end) x0 = (xc, None) →
    net_ok key (x_net xc) ∧ same_files w1 (x_w xc) ∧ x_rs xc = rs
    ∧ cc_encryptionKey (x_cc xc) = cc_encryptionKey (x_cc x)
    ∧ after_create (remote key (x_net x) target) (remote key (x_net xc) target) (fi_Size info)
    ∧ (is_Some rs → remote key (x_net xc) target = remote key (x_net x) target)) as Hcr.
  { intros xc. destruct rs as [s|] eqn:Ers.
    - intros [= <-]. split_and!; try done. by left.
    - intros Hc. destruct (upload_create_run _ _ _ x0 _ Hn Hc) as (? & ? & ? & ? & ?). split_and!; try done. }
  clearbody rs w1. destruct (run_alone (match rs with Some _ => _ | None => _ end) x0) as [xc [e|]]; [done|].
  destruct (Hcr xc eq_refl) as (H1' & H2' & H3' & H4' & H5' & H6'). cbn [fst snd].
  unfold on_os, atomic. cbn. destruct (os_OpenFile src O_RDONLY 0 (x_w xc)) as [w2 r] eqn:Ho. cbn. intros [= <- ->].
  cbn. pose proof (open_same _ O_RDONLY _ _ _ _ eq_refl eq_refl Ho) as Hs.
  split_and!; try done; [by etrans; [|etrans]|].
  destruct (open_ok _ _ _ _ _ _ Ho) as (_ & _ & _ & i & Hi & Hat & _). exists i. split; [|done].
  rewrite <- (sf_path _ _ Hl), <- (sf_path _ _ H2'), <- (sf_path _ _ Hs). done.
Qed.

(** [verifyFileHash] changes no file at either end; when it returns nil both ends have
    the same hash. *)
Record verify_post (rpath lpath : string) (x x1 : xfer) (r : option error) : Prop := {
  vp_remote t : remote key (x_net x1) t = remote key (x_net x) t;
  vp_files : same_files (x_w x) (x_w x1);
  vp_rs : x_rs x1 = x_rs x;
  vp_ctx : is_Some (ctx_Err (x_net x)) → is_Some (ctx_Err (x_net x1));
  vp_ok : r = None → ∃ i ld rd, at_path (x_w x) lpath = Some i ∧ idata (x_w x) i = Some ld
    ∧ remote key (x_net x) rpath = Some rd ∧ Sum256 rd = Sum256 ld;
}.

Lemma verify_run rpath lpath x x1 r : net_ok key (x_net x) →
  run_alone (verifyFileHash rpath lpath) x = (x1, r) → verify_post rpath lpath x x1 r.
Proof.
  intros Hn. unfold verifyFileHash. rewrite run_cc. unfold eval, exec.
  destruct (Hash rpath (x_cc x, x_net x)) as [res [cc n]] eqn:Hh. cbn [fst snd].
  apply Hash_run in Hh as (id & -> & Hcall). destruct (remote_hash _ _ _ _ _ Hn Hcall) as [Hsame Hhash].
  pose proof (call_ctx _ _ _ _ _ Hcall) as Hctx. set (x0 := set_xcall (set_id id (x_cc x)) n x).
  assert (∀ w, same_files (x_w x) w → ∀ e, (set_xw w x0, Some e) = (x1, r) → verify_post rpath lpath x x1 r) as Hfail.
  { intros w Hw e [= <- <-]. by split. }
  pose proof (Hfail (x_w x) (reflexivity _)) as Hnow. change (set_xw (x_w x) x0) with x0 in Hnow.
  destruct res as [[[| | | | | | | | | | | hr | |] q]|e]; try (by apply Hnow).
  destruct (HashRes.Success hr) eqn:Hs; cbn [negb]; [|by apply Hnow]. rewrite run_os1.
  change (x_w x0) with (x_w x). destruct (os_OpenFile lpath O_RDONLY 0 (x_w x)) as [w1 [f|e]] eqn:Ho; cbn [fst snd].
  2: { apply Hfail. by eapply open_err_same. }
  pose proof (open_same _ O_RDONLY _ _ _ _ eq_refl eq_refl Ho) as S1.
  rewrite run_os1. change (x_w (set_xw w1 x0)) with w1.
  destruct (f_ReadRest f w1) as [w2 rd] eqn:Hr; cbn [fst snd]. rewrite run_os1.
  change (x_w (set_xw w2 _)) with w2. destruct (f_Close f w2) as [w3 e3] eqn:Hc; cbn [fst snd].
  assert (same_files (x_w x) w3) as S3.
  { etrans; [exact S1|]. etrans; [by eapply rest_same|by eapply close_same]. }
  change (set_xw w3 (set_xw w2 (set_xw w1 x0))) with (set_xw w3 x0).
  destruct rd as [data|e]; [|by apply Hfail]. destruct (negb (zlen _ =? _)); [by apply Hfail|].
  case_bool_decide as Heq; cbn [negb]; [|by apply Hfail]. intros [= <- <-]. split; try done.
  intros _. destruct (open_read_contents _ O_RDONLY _ _ _ _ _ _ Ho eq_refl eq_refl Hr) as (i & Hi & Hd).
  destruct (Hhash hr q eq_refl Hs) as (d & Hrd & Hhd). exists i, data, d. split_and!; try done. congruence.
Qed.

(** The end of an upload: both ends keep their files, up to the resume state's. *)
Lemma upload_finish_run src target sfd sha err x x' : net_ok key (x_net x) →
  run_alone (upload_finish src target sfd sha err) x = (x', None) →
  err = None ∧ (∀ t, remote key (x_net x') t = remote key (x_net x) t)
  ∧ (is_Some (ctx_Err (x_net x)) → is_Some (ctx_Err (x_net x')))
  ∧ (sha = true → ∃ i ld rd, at_path (x_w x) src = Some i ∧ idata (x_w x) i = Some ld
       ∧ remote key (x_net x) target = Some rd ∧ Sum256 rd = Sum256 ld).
Proof.
  intros Hn. unfold upload_finish. destruct err as [err|].
  { rewrite run_alone_bind. cbn [run_alone fst snd]. rewrite run_os1. by destruct (f_Close _ _). }
  rewrite run_alone_bind. cbv iota beta. rewrite (run_alone_bind (if sha then verifyFileHash target src else mret None)).
  assert (∃ x1 r1, run_alone (if sha then verifyFileHash target src else mret None) x = (x1, r1)
    ∧ (∀ t, remote key (x_net x1) t = remote key (x_net x) t)
    ∧ (is_Some (ctx_Err (x_net x)) → is_Some (ctx_Err (x_net x1)))
    ∧ (r1 = None → sha = true → ∃ i ld rd, at_path (x_w x) src = Some i ∧ idata (x_w x) i = Some ld
       ∧ remote key (x_net x) target = Some rd ∧ Sum256 rd = Sum256 ld)) as (x1 & r1 & -> & Hr & Hc & Hv).
  { destruct sha.
    - destruct (run_alone (verifyFileHash target src) x) as [x1 r1] eqn:Hv. exists x1, r1.
      destruct (verify_run _ _ _ _ _ Hn Hv). auto.
    - exists x, None. by split_and!. }
  cbn [fst snd]. destruct r1 as [e|].
  { cbn [run_alone fst snd]. rewrite run_os1. by destruct (f_Close _ _). }
  specialize (Hv eq_refl). rewrite run_ask, (run_os (deleteResumeState _)).
  cbn [run_alone fst snd]. rewrite run_os1. intros [= <-]. by split_and!.
Qed.
End Ends.
