(* ===== verification/DownloadInv.v ===== *)
(** The invariant of a download while its chunks run, and that the chunk function keeps
    it whatever the other goroutines do. *)
From S2P Require Import Prelude Message GoStd GoHash OS Chunk Hoare Server Client Prog Pool Resume Transfer Remote TransferInv.
From Stdlib Require Import Strings.Byte.

Section Download.
  Context `{Transport, !Ctx, GzipOk, SecretBoxOk, RandOk, JsonOk, TempDir, OSLaws}.
  Context (key : option (list byte)) {RF : RemoteFiles key}.
  (* the remote file and its contents; the local file, its handle and what it held *)
  Context (src : string) (d : list byte) (i : nat) (tfd : file) (target : string) (old : option (list byte)).
  (* whether the download started without a resume state *)
  Context (fresh : bool) (cs : list chunk).

(** Byte [j] of the local file is byte [j] of the remote one. *)
Definition here_right (x : xfer) (j : nat) : Prop :=
  ∃ l, idata (x_w x) i = Some l ∧ l !! j = d !! j.

Definition dn_wrote (c : chunk) (x : xfer) : Prop :=
  ∀ j : nat, fst c <= Z.of_nat j < fst c + snd c → here_right x j.

Record dn_inv (x : xfer) : Prop := {
  di_net : net_ok key (x_net x);
  di_key : cc_encryptionKey (x_cc x) = key;
  di_remote : remote key (x_net x) src = Some d;
  di_handle : handle (x_w x) tfd = Some (i, true);
  di_tmp s : x_rs x = Some s → at_path (x_w x) (tmp_path s) ≠ Some i;
  di_tail : tail_same d (idata (x_w x) i) old;
  di_regular s : x_rs x = Some s → is_Some (idata (x_w x) i);
  di_fresh : fresh = true → x_rs x = None ∧ at_path (x_w x) target = Some i;
  di_resume s c : x_rs x = Some s → c ∈ cs → fst c ∈ r_completedSet s → dn_wrote c x;
}.

Context (cs_in : chunks_in d cs) (cs_make : ∀ c, c ∈ cs → make_ok (snd c) = true).

Lemma dn_range c j : c ∈ cs → fst c <= Z.of_nat j < fst c + snd c → (j < length d)%nat.
Proof. intros Hc Hj. destruct (proj1 cs_in c Hc) as (? & ? & Hl). unfold zlen in Hl. lia. Qed.

(** A step of the network, which leaves the remote file alone. *)
Lemma dn_net_move cc' n' x : dn_inv x → net_ok key n' → cc_encryptionKey cc' = cc_encryptionKey (x_cc x) →
  remote key n' src = remote key (x_net x) src →
  dn_inv (set_xcall cc' n' x) ∧ ∀ c, dn_wrote c x → dn_wrote c (set_xcall cc' n' x).
Proof. intros [] Hn Hk Hr. split; [|done]. split; simpl; try done; congruence. Qed.

(** Right bytes written to the local file. *)
Lemma dn_write_move w' x : dn_inv x → (∀ g, handle w' g = handle (x_w x) g) →
  (∀ q, at_path w' q = at_path (x_w x) q) → right_move d (idata (x_w x) i) (idata w' i) →
  dn_inv (set_xw w' x) ∧ ∀ c, c ∈ cs → dn_wrote c x → dn_wrote c (set_xw w' x).
Proof.
  intros Hi Hh Hp Hm.
  assert (∀ c, c ∈ cs → dn_wrote c x → dn_wrote c (set_xw w' x)) as Hw.
  { intros c Hc Hw j Hj. destruct (Hw j Hj) as (l & Hl & Hlj). pose proof (dn_range c j Hc Hj).
    destruct Hm as (off & sz & [Heq|(Ho & o & k & Hr & Hr')]).
    - exists l. simpl. by rewrite Heq.
    - rewrite Hl in Hr. injection Hr as <-. eexists. split; [exact Hr'|]. by apply write_right. }
  split; [|done]. destruct Hi. split; simpl; try done.
  - by rewrite Hh.
  - intros s Hs. rewrite Hp. by apply di_tmp0.
  - by eapply (right_move_tail d old).
  - intros s Hs. destruct (di_regular0 s Hs) as [l Hl]. destruct Hm as (off & sz & [->|(_ & o & k & _ & ->)]); eauto.
  - intros Hf. rewrite Hp. by apply di_fresh0.
  - intros s c Hs Hc Hin. by eapply Hw, di_resume0.
Qed.

(** A step of the resume state that adds at most what is written. *)
Lemma dn_rs_move f x w' rs' : dn_inv x → rs_step f (x_rs x) rs' (x_w x) w' →
  (∀ s, r_path (f s) = r_path s) →
  (∀ s c, x_rs x = Some s → c ∈ cs → fst c ∈ r_completedSet (f s) → dn_wrote c x) →
  dn_inv (set_xrs rs' (set_xw w' x)) ∧ ∀ c, dn_wrote c x → dn_wrote c (set_xrs rs' (set_xw w' x)).
Proof.
  intros Hi Hst Hp Hnew. pose proof (di_tmp x Hi) as Ht. pose proof (di_regular x Hi) as Hreg. pose proof (di_fresh x Hi) as Hfr. pose proof (di_tail x Hi) as Htl. unfold rs_step in Hst.
  destruct (x_rs x) as [s|] eqn:Hs.
  2: { destruct Hst as [-> ->]. destruct Hi. split; [split; simpl; try done; auto|done]. }
  destruct Hst as (s' & -> & Hpath & Hset & _ & _ & Hkept). destruct (Hreg s eq_refl) as [l Hl]. rewrite Hl in Htl.
  assert (tmp_path (f s) = tmp_path s) as Htp by (unfold tmp_path; by rewrite Hp).
  destruct (Hkept i l) as [Kh Kd Kt]; [done|rewrite Htp; by apply Ht|].
  assert (∀ c, dn_wrote c x → dn_wrote c (set_xrs (Some s') (set_xw w' x))) as Hw.
  { intros c Hw j Hj. destruct (Hw j Hj) as (l' & Hl' & Hlj). rewrite Hl in Hl'. injection Hl' as <-.
    exists l. by split. }
  split; [|done]. destruct Hi. split; simpl; try done.
  - by apply Kh.
  - intros s1 [= <-]. unfold tmp_path. rewrite Hpath. exact Kt.
  - by rewrite Kd.
  - intros Hf. by destruct (Hfr Hf).
  - intros s1 c [= <-] Hc. rewrite Hset. intros Hin. apply Hw. by eapply Hnew.
Qed.

(** *** The chunk function *)

Context (maxRetries algo : Z) (useChecksum : bool).
Let env : pool_env xfer := xfer_env (download_chunk tfd src maxRetries useChecksum algo).

Lemma dn_stable c (F : Prop) : stable (chunk_rely dn_inv dn_wrote c) (λ x, dn_inv x ∧ (F → dn_wrote c x)).
Proof. intros x x' Hr [HI Hw]. destruct (Hr HI) as [HI' Hw']. auto. Qed.

Lemma dn_stable_pure c (F : Prop) : stable (chunk_rely dn_inv dn_wrote c) (λ x, dn_inv x ∧ F).
Proof. intros x x' Hr [HI HF]. split; [by apply Hr|done]. Qed.

Lemma dn_guar c x x' : dn_inv x' → (∀ e, e ∈ cs → dn_wrote e x → dn_wrote e x') →
  (is_Some (ctx_Err (x_net x)) → is_Some (ctx_Err (x_net x'))) → chunk_guar env cs dn_inv dn_wrote c x x'.
Proof. intros HI Hw Hc. split; [auto|]. simpl. rewrite !bool_decide_eq_true. auto. Qed.

#[local] Notation dn_rg c := (rg (chunk_rely dn_inv dn_wrote c) (chunk_guar env cs dn_inv dn_wrote c)).

Lemma dn_ask {A} c (f : xfer → A) (Q : A → Prop) : (∀ x, dn_inv x → Q (f x)) →
  dn_rg c dn_inv (ask_x f) (λ a x, dn_inv x ∧ Q a).
Proof.
  intros HQ. apply rg_atomic; [intros; apply dn_stable_pure|]. intros x HI.
  split; [by apply dn_guar|]. split; [done|]. by apply HQ.
Qed.

Lemma dn_sleep c ns : dn_rg c dn_inv (sleep ns) (λ _ x, dn_inv x ∧ True).
Proof.
  apply rg_atomic; [intros; apply dn_stable_pure|]. intros x HI.
  destruct (ctx_wait ns (x_net x)) as [n e] eqn:Hw. cbn [fst snd].
  destruct (wait_law _ _ _ _ Hw) as (Hn & Hr & Hc).
  destruct (dn_net_move (x_cc x) n x HI) as [HI' Hk]; [by apply Hn, HI|done|by rewrite Hr|].
  split; [by apply dn_guar; auto|done].
Qed.

(** What an accepted answer to a read of the chunk decodes to. *)
Definition right_answer (c : chunk) (got : ReadRes.t * list byte) : Prop :=
  ∀ o, download_payload (fst got) (snd got) key o = Ok (chunk_bytes d (fst c) (snd c)).

Lemma dn_read c : c ∈ cs →
  dn_rg c dn_inv (on_cc (Read src (fst c) (snd c) algo))
    (λ r x, dn_inv x ∧ ∀ got, read_outcome (fst c) useChecksum r = Got got → right_answer c got).
Proof.
  intros Hc. apply rg_atomic; [intros; apply dn_stable_pure|]. intros x HI.
  destruct (proj1 cs_in c Hc) as (Ho & Hs & Hl).
  destruct (Read src (fst c) (snd c) algo (x_cc x, x_net x)) as [r [cc n]] eqn:Hr. cbn [fst snd].
  apply Read_run in Hr as (id & -> & Hcall). simpl in Hcall.
  pose proof (cs_make c Hc) as Hmk.
  edestruct remote_read as [Hsame Hok]; [apply (di_net x HI)| |exact Hcall|]; [exact Hmk|].
  destruct (dn_net_move (set_id id (x_cc x)) n x HI) as [HI' Hk]; [|done|apply Hsame|].
  { eapply call_net_ok; [apply HI| |exact Hcall]. by apply cs_make. }
  split; [apply dn_guar; auto; by apply (call_ctx _ _ _ _ _ Hcall)|]. split; [done|].
  intros got Hgot. unfold read_outcome in Hgot.
  destruct r as [[[| | | | | res | | | | | | | |] q]|]; try done.
  destruct (ReadRes.Success res) eqn:Hsuc; [|done]. cbn [negb] in Hgot.
  destruct (useChecksum && _ && _); [done|]. injection Hgot as <-.
  destruct (Hok res q eq_refl Hsuc Hs) as (_ & d' & Hd' & Hdl). cbn [ReadReq.Path] in Hd'.
  rewrite (di_remote x HI) in Hd'. injection Hd' as <-. exact Hdl.
Qed.

Lemma dn_attempts c fuel attempt last : c ∈ cs → (∀ got, last ≠ Ok got) →
  dn_rg c dn_inv (read_attempts fuel attempt maxRetries src (fst c) (snd c) algo useChecksum last)
    (λ r x, dn_inv x ∧ ∀ got, r = Ok got → right_answer c got).
Proof.
  intros Hc. revert attempt last. induction fuel as [|fuel IH]; intros attempt last Hlast; cbn [read_attempts].
  { apply rg_ret. intros x HI. split; [done|]. intros got ->. by destruct (Hlast got). }
  eapply rg_bind; [by apply (dn_ask c _ (λ _, True))|]. intros [e|]; apply rg_pure; intros _; [by apply rg_ret|].
  eapply rg_bind; [by apply dn_read|]. intros r. apply rg_pure. intros Hr.
  destruct (read_outcome _ _ r) as [got|e|].
  - apply rg_ret. intros x HI. split; [done|]. intros g [= <-]. by apply Hr.
  - eapply (rg_bind _ _ _ _ _ (λ _ x, dn_inv x ∧ True)).
    + destruct (_ <? _); [apply dn_sleep|by apply rg_ret].
    + intros [e'|]; apply rg_pure; intros _; [by apply rg_ret|]. by apply IH.
  - by apply rg_ret.
Qed.

(** Writing a chunk's bytes to the local file. *)
Lemma dn_write c : c ∈ cs →
  dn_rg c dn_inv (on_os (atomic (f_WriteAt tfd (chunk_bytes d (fst c) (snd c)) (fst c))))
    (λ r x, dn_inv x ∧ (snd r = None → dn_wrote c x)).
Proof.
  intros Hc. apply rg_atomic; [intros [n e]; apply dn_stable|]. intros x HI.
  destruct (proj1 cs_in c Hc) as (Ho & Hs & Hl). set (data := chunk_bytes d (fst c) (snd c)).
  cbn [run_alone atomic]. destruct (f_WriteAt tfd data (fst c) (x_w x)) as [w [n e]] eqn:Hw. cbn [fst snd run_alone].
  destruct (write_law _ _ _ _ _ _ _ Hw) as (Hh & Hp & _ & Hok).
  pose proof (write_partial _ _ _ _ _ _ _ _ _ Hw (di_handle x HI)) as Hpart.
  destruct (dn_write_move w x HI Hh Hp) as [HI' Hk].
  { exists (fst c), (snd c). exact Hpart. }
  split; [by apply dn_guar|]. split; [done|]. intros ->. destruct (Hok eq_refl) as (_ & _ & Hne).
  assert (data ≠ []) as Hd.
  { intros E. assert (length data = Z.to_nat (snd c)) as Hlen; [|rewrite E in Hlen; simpl in Hlen; lia].
    unfold data, chunk_bytes, zlen in *. rewrite length_take, length_drop. lia. }
  destruct (Hne Hd) as (_ & k & o & Hk' & _ & Hnew & _). rewrite (di_handle x HI) in Hk'. injection Hk' as <-.
  intros j Hj. eexists. split; [exact Hnew|]. by apply write_chunk.
Qed.

Lemma dn_confirm c : c ∈ cs → dn_rg c (λ x, dn_inv x ∧ (True → dn_wrote c x))
  (on_resume (λ rs, addCompletedOffset rs (fst c))) (λ _ x, dn_inv x ∧ (True → dn_wrote c x)).
Proof.
  intros Hc. apply rg_atomic; [intros; apply dn_stable|]. intros x [HI Hw].
  pose proof (add_step (x_rs x) (fst c) (x_w x)) as Hst.
  destruct (run_alone _ _) as [w [rs e]]. cbn [fst snd].
  destruct (dn_rs_move (add_done (fst c)) x w rs HI Hst) as [HI' Hk].
  - done.
  - intros s e' Hs He Hin. simpl in Hin. apply elem_of_union in Hin as [Hin|Hin].
    + apply elem_of_singleton in Hin. rewrite (proj2 cs_in e' c He Hc Hin). by apply Hw.
    + by eapply (di_resume x HI).
  - split; [by apply dn_guar; auto|]. auto.
Qed.

Lemma dn_chunk_ok c : c ∈ cs →
  chunk_ok env cs dn_inv dn_wrote c dn_inv (download_chunk tfd src maxRetries useChecksum algo c).
Proof.
  intros Hc. unfold chunk_ok, download_chunk.
  eapply rg_bind; [by apply dn_attempts|]. intros [[res q]|e]; apply rg_pure; intros Hgot; [|by apply rg_ret].
  specialize (Hgot _ eq_refl). eapply rg_bind; [apply (dn_ask c _ (λ k, k = key)); by intros x []|].
  intros k. apply rg_pure. intros ->. pose proof (Hgot (fst c)) as Hdl. cbn [fst snd] in Hdl. rewrite Hdl. eapply rg_bind; [by apply dn_write|].
  intros [n [e|]]; [by apply rg_ret|]. eapply rg_bind.
  - eapply rg_weaken; [| |by apply (dn_confirm c)]; [|done]. intros x [HI Hw]. auto.
  - intros []. apply rg_ret. intros x [HI Hw] _. by apply Hw.
Qed.

(** *** The pool of a download *)

Lemma dn_env_keeps f : (∀ x, dn_inv x → dn_inv (f x) ∧ (∀ c, dn_wrote c x → dn_wrote c (f x))) →
  (∀ x, is_Some (ctx_Err (x_net x)) → is_Some (ctx_Err (x_net (f x)))) →
  env_keeps env cs dn_inv dn_wrote f.
Proof.
  intros Hf Hc x HI. destruct (Hf x HI) as [HI' Hw]. split_and!; [done|auto|].
  simpl. rewrite !bool_decide_eq_true. apply Hc.
Qed.

Lemma dn_cancel : env_keeps env cs dn_inv dn_wrote (cancel env).
Proof.
  apply dn_env_keeps.
  - intros x HI. destruct (cancel_law (x_net x)) as (_ & Hn & Hr).
    apply (dn_net_move (x_cc x)); try done. by apply Hn, HI.
  - intros x _. simpl. apply (cancel_law (x_net x)).
Qed.

Lemma dn_flush : env_keeps env cs dn_inv dn_wrote (flush env).
Proof.
  assert (∀ x, flush env x = set_xrs (fst (snd (run_alone (flushResumeState (x_rs x)) (x_w x))))
                               (set_xw (fst (run_alone (flushResumeState (x_rs x)) (x_w x))) x)) as Hfl.
  { intros x. simpl. by destruct (run_alone (flushResumeState (x_rs x)) (x_w x)) as [w [rs e]]. }
  apply dn_env_keeps; [|intros x; by rewrite Hfl].
  intros x HI. rewrite Hfl. pose proof (flush_step (x_rs x) (x_w x)) as Hst.
  destruct (run_alone _ _) as [w [rs e]]. cbn [fst snd].
  apply (dn_rs_move id x w rs HI Hst); [done|]. intros s c Hs Hc Hin. by eapply (di_resume x HI).
Qed.

Lemma dn_pool batch x r x' : NoDup cs → dn_inv x → pool_run env batch cs x r x' →
  dn_inv x' ∧ (r = None → ctx_Err (x_net x') = None → ∀ c, c ∈ cs → dn_wrote c x').
Proof.
  intros Hnd HI Hrun.
  destruct (pool_run_ok env batch cs dn_inv dn_wrote Hnd) with (s := x) (r := r) (s' := x') as [HI' Hall]; try done.
  - intros c Hc. by apply dn_chunk_ok.
  - intros c y Hc HIy Hcomp. simpl in Hcomp. unfold isCompleted in Hcomp. destruct (x_rs y) as [s|] eqn:Hs; [|done].
    apply bool_decide_eq_true in Hcomp. by eapply (di_resume y HIy).
  - apply dn_cancel.
  - apply dn_flush.
  - intros y. simpl. apply bool_decide_eq_true. apply (cancel_law (x_net y)).
  - split; [done|]. intros Hr Hc. apply Hall; [done|]. simpl. rewrite Hc. apply bool_decide_eq_false. by intros [].
Qed.

End Download.

(** ** Before and after the chunks *)

Section Ends.
  Context `{Transport, !Ctx, GzipOk, SecretBoxOk, RandOk, JsonOk, TempDir, OSLaws}.
  Context (key : option (list byte)) {RF : RemoteFiles key}.

(** The loop of [Stat]s touches no file. *)
Record stat_post (src : string) (x x1 : xfer) (r : result StatRes.t) : Prop := {
  sp_net : net_ok key (x_net x1);
  sp_remote t : remote key (x_net x1) t = remote key (x_net x) t;
  sp_w : x_w x1 = x_w x;
  sp_rs : x_rs x1 = x_rs x;
  sp_key : cc_encryptionKey (x_cc x1) = cc_encryptionKey (x_cc x);
  sp_size res d : r = Ok res → remote key (x_net x) src = Some d → StatRes.Size res = zlen d;
}.

Lemma stat_run fuel attempt maxRetries src last x x1 r : net_ok key (x_net x) → (∀ res, last ≠ Ok res) →
  run_alone (stat_attempts fuel attempt maxRetries src last) x = (x1, r) → stat_post src x x1 r.
Proof.
  revert attempt last x. induction fuel as [|fuel IH]; intros attempt last x Hn Hlast; cbn [stat_attempts].
  { intros [= <- <-]. split; try done. intros res d Hr. by destruct (Hlast res). }
  rewrite run_cc. unfold eval, exec. destruct (Stat src (x_cc x, x_net x)) as [res [cc n]] eqn:Hst. cbn [fst snd].
  apply Stat_run in Hst as (id & -> & Hcall). destruct (remote_stat _ _ _ _ _ Hn Hcall) as [Hsame Hsize].
  assert (net_ok key n) as Hn1 by (by eapply call_net_ok; [exact Hn| |exact Hcall]).
  set (x0 := set_xcall (set_id id (x_cc x)) n x).
  assert (∀ r, (∀ sr, r = Ok sr → stat_outcome res = Got sr) → stat_post src x x0 r) as Hend.
  { intros r0 Hr0. split; try done. intros sr d Hsr Hd. specialize (Hr0 sr Hsr). unfold stat_outcome in Hr0.
    destruct res as [[[| | | | | | | sr' | | | | | |] q]|]; try done. destruct (StatRes.Success sr') eqn:Hs; [|done].
    cbn [negb] in Hr0. destruct (StatRes.IsDir sr'); [done|]. injection Hr0 as <-. by eapply Hsize. }
  destruct (stat_outcome res) as [sr|e|] eqn:Hout.
  - intros [= <- <-]. apply Hend. by intros ? [= ->].
  - rewrite run_alone_bind.
    assert (∃ n2 e2, run_alone (if attempt <? maxRetries then sleep (retry_backoff attempt) else mret None) x0
              = (set_xnet n2 x0, e2) ∧ net_ok key n2 ∧ ∀ t, remote key n2 t = remote key n t) as (n2 & e2 & -> & Hn2 & Hr2).
    { destruct (attempt <? maxRetries); [|by exists n, None]. cbn. change (x_net x0) with n.
      destruct (ctx_wait (retry_backoff attempt) n) as [n2 e2] eqn:Hw. exists n2, e2.
      destruct (wait_law _ _ _ _ Hw) as (? & ? & _). auto. }
    cbn [fst snd]. destruct e2 as [e2|].
    + intros [= <- <-]. split; try done. intros t. simpl. by rewrite Hr2.
    + intros Hrun. destruct (IH (attempt + 1) (Err e) (set_xnet n2 x0) Hn2 ltac:(done) Hrun) as [A1 A2 A3 A4 A5 A6].
      split; try done; [intros t; rewrite A2; simpl; by rewrite Hr2|].
      intros sr d Hsr Hd. apply (A6 sr d Hsr). simpl. by rewrite Hr2, Hsame.
  - intros [= <- <-]. by apply Hend.
Qed.

(** The size of the file, the open target, the resume state loaded. *)
Lemma download_start_run src target chunk batch maxRetries x x1 res tfd d : net_ok key (x_net x) →
  remote key (x_net x) src = Some d →
  run_alone (download_start src target chunk batch maxRetries) x = (x1, Ok (res, tfd)) →
  let rs := snd (run_alone (loadResumeState src target (zlen d) chunk batch) (x_w x)) in
  StatRes.Size res = zlen d ∧ net_ok key (x_net x1) ∧ cc_encryptionKey (x_cc x1) = cc_encryptionKey (x_cc x)
  ∧ remote key (x_net x1) src = Some d ∧ x_rs x1 = rs
  ∧ ∃ i, handle (x_w x1) tfd = Some (i, true) ∧ at_path (x_w x1) target = Some i
    ∧ (rs = None → ∀ l, idata (x_w x1) i = Some l → l = [])
    ∧ (is_Some rs → at_path (x_w x) target = Some i ∧ same_files (x_w x) (x_w x1)).
Proof.
  intros Hn Hd. unfold download_start. rewrite run_alone_bind.
  destruct (run_alone (stat_attempts _ _ _ _ _) x) as [xs r] eqn:Hst.
  assert (∀ sr : StatRes.t, Err bad_assertion ≠ Ok sr) as Hne by done.
  destruct (stat_run _ _ _ _ _ _ _ _ Hn Hne Hst) as [S1 S2 S3 S4 S5 S6]. cbn [fst snd].
  destruct r as [sr|e]; [|done]. pose proof (S6 sr d eq_refl Hd) as Hsz. rewrite Hsz.
  rewrite (run_alone_bind (load_state _ _ _ _ _)), run_load, S3. cbn [fst snd].
  pose proof (load_same src target (zlen d) chunk batch (x_w x)) as Hl.
  destruct (run_alone (loadResumeState _ _ _ _ _) (x_w x)) as [w1 rs]. cbn [fst snd] in *.
  set (xl := set_xrs rs (set_xw w1 xs)). rewrite run_os1. change (x_w xl) with w1.
  destruct (match rs with Some _ => _ | None => _ end w1) as [w2 [f|e]] eqn:Ho; cbn [fst snd]; [|done].
  intros [= <- <- <-]. cbn. split_and!; try done; [by rewrite S2|].
  destruct rs as [s|].
  - destruct (open_ok _ _ _ _ _ _ Ho) as (_ & _ & _ & i & Hi & Hat & _).
    pose proof (open_same _ O_RDWR _ _ _ _ eq_refl eq_refl Ho) as Hsf. exists i. split_and!; try done.
    intros _. split; [|by etrans]. by rewrite <- (sf_path _ _ Hl), <- (sf_path _ _ Hsf).
  - destruct (open_ok _ _ _ _ _ _ Ho) as (_ & _ & _ & i & Hi & Hat & _). exists i. split_and!; try done.
    + intros _ l Hl'. by eapply (open_trunc _ _ _ _ _ _ _ _ _ Ho).
Qed.

(** The end of a download leaves every file's contents, up to the name of the resume state. *)
Lemma download_finish_run src target res tfd sha err x x' : net_ok key (x_net x) →
  run_alone (download_finish src target res tfd sha err) x = (x', None) →
  err = None ∧ (∀ i, idata (x_w x') i = idata (x_w x) i)
  ∧ (x_rs x = None → ∀ p, at_path (x_w x') p = at_path (x_w x) p)
  ∧ (is_Some (ctx_Err (x_net x)) → is_Some (ctx_Err (x_net x')))
  ∧ (sha = true → ∃ i ld rd, at_path (x_w x) target = Some i ∧ idata (x_w x) i = Some ld
       ∧ remote key (x_net x) src = Some rd ∧ Sum256 rd = Sum256 ld).
Proof.
  intros Hn. unfold download_finish. destruct err as [err|].
  { rewrite run_alone_bind. cbn [run_alone fst snd]. rewrite run_os1. by destruct (f_Close _ _). }
  rewrite run_alone_bind. cbv iota beta. rewrite (run_os1 (os_Chmod target (FileMode_Perm (StatRes.Mode res)))).
  destruct (os_Chmod target (FileMode_Perm (StatRes.Mode res)) (x_w x)) as [w1 e1] eqn:Hch. destruct (chmod_law _ _ _ _ _ Hch) as (_ & Hd1 & Hp1).
  cbn [fst snd]. set (x1 := set_xw w1 x). destruct e1 as [e1|].
  { cbn [run_alone fst snd]. rewrite run_os1. by destruct (f_Close _ _). }
  rewrite (run_alone_bind (if sha then verifyFileHash src target else mret None)).
  assert (∃ x2 r2, run_alone (if sha then verifyFileHash src target else mret None) x1 = (x2, r2)
    ∧ same_files w1 (x_w x2) ∧ x_rs x2 = x_rs x
    ∧ (is_Some (ctx_Err (x_net x)) → is_Some (ctx_Err (x_net x2)))
    ∧ (r2 = None → sha = true → ∃ i ld rd, at_path w1 target = Some i ∧ idata w1 i = Some ld
         ∧ remote key (x_net x) src = Some rd ∧ Sum256 rd = Sum256 ld)) as (x2 & r2 & -> & Hsf & Hrs & Hc & Hsha).
  { destruct sha.
    - destruct (run_alone (verifyFileHash src target) x1) as [x2 r2] eqn:Hv. exists x2, r2.
      destruct (verify_run key _ _ x1 _ _ Hn Hv). split_and!; auto.
    - exists x1, None. by split_and!. }
  cbn [fst snd]. destruct r2 as [e|].
  { cbn [run_alone fst snd]. rewrite run_os1. by destruct (f_Close _ _). }
  rewrite run_ask, (run_os (deleteResumeState _)). cbn [run_alone fst snd]. rewrite run_os1.
  destruct (run_alone (deleteResumeState (x_rs x2)) (x_w x2)) as [w3 []] eqn:Hdel. cbn [fst snd].
  change (x_w (set_xw w3 x2)) with w3. destruct (f_Close tfd w3) as [w4 e4] eqn:Hcl. cbn [fst snd].
  intros [= <-]. destruct (close_law _ _ _ _ Hcl) as (_ & _ & Hd4 & Hp4). cbn. rewrite Hcl. cbn [fst].
  assert ((∀ i, idata w3 i = idata (x_w x2) i) ∧ (x_rs x = None → w3 = x_w x2)) as [Hd3 Hp3].
  { rewrite <- Hrs. destruct (x_rs x2) as [s|]; cbn in Hdel; [|by injection Hdel as <-].
    destruct (os_Remove (r_path s) (x_w x2)) as [w e] eqn:Hr. cbn in Hdel. injection Hdel as <-.
    destruct (remove_law _ _ _ _ Hr) as (_ & ? & _). by split. }
  split_and!; try done.
  - intros i. by rewrite Hd4, Hd3, (sf_data _ _ Hsf), Hd1.
  - intros Hnone p. rewrite Hp4, (Hp3 Hnone), (sf_path _ _ Hsf). apply Hp1.
  - intros Hs. destruct (Hsha eq_refl Hs) as (i & ld & rd & Hi & Hld & ?). exists i, ld, rd.
    by rewrite <- Hp1, <- Hd1.
Qed.
End Ends.
