(* ===== verification/PoolSpec.v ===== *)
(** The properties of [processChunks]: the division of a file, the bound on the
    goroutines, termination, when it hangs, and what a cancelled pool reports; and
    [pool_exec], the sequential schedule, on which the closed examples run. *)
From S2P Require Import Prelude GoStd Prog Pool.

(** ** The division *)

(** The chunks of a file, written down: the [i]-th starts [i] chunks after the start,
    and only the last may be short. *)
Definition division (fileSize chunkSize startOffset : Z) : list chunk :=
  (λ i, let off := startOffset + i * chunkSize in (off, Z.min chunkSize (fileSize - off)))
  <$> seqZ 0 ((fileSize - startOffset + chunkSize - 1) / chunkSize).

Definition in_chunk (j : Z) (c : chunk) : Prop := fst c <= j < fst c + snd c.

Lemma ceil_step k n : 0 < k → (n + k + k - 1) / k = (n + k - 1) / k + 1.
Proof. intros Hk. replace (n + k + k - 1) with (n + k - 1 + 1 * k) by lia. by rewrite Z.div_add by lia. Qed.

Lemma division_nil k off : 0 < k → division off k off = [].
Proof.
  intros Hk. unfold division. replace (off - off + k - 1) with (k - 1) by lia.
  by rewrite Z.div_small by lia.
Qed.

Lemma division_cons k off b : 0 < k → off < b →
  division b k off = (off, Z.min k (b - off)) :: (if b - off <? k then [] else division b k (off + k)).
Proof.
  intros Hk Hb. unfold division at 1.
  assert ((b - off + k - 1) / k = (b - (off + k) + k - 1) / k + 1) as ->.
  { rewrite <- ceil_step by done. f_equal. lia. }
  assert (0 <= (b - (off + k) + k - 1) / k) as Hn by (apply Z.div_pos; lia).
  rewrite seqZ_cons by lia. rewrite fmap_cons. f_equal; [f_equal; lia|].
  replace (Z.pred (_ + 1)) with ((b - (off + k) + k - 1) / k) by lia.
  destruct (b - off <? k) eqn:E; zbool.
  - by rewrite Z.div_small by lia.
  - unfold division. replace (Z.succ 0) with (1 + 0) by done. rewrite <- fmap_add_seqZ, <- list_fmap_compose.
    apply list_fmap_ext. intros _ i _. simpl. f_equal; lia.
Qed.

Lemma chunk_loop_division fuel k off b :
  0 < k → is_i64 k → 0 <= off <= b → is_i64 b → b - off <= Z.of_nat fuel * k →
  chunk_loop fuel k off (b - off) = Some (division b k off).
Proof.
  intros Hk Hk64. revert off. induction fuel as [|fuel IH]; intros off Ho H64 Hf; cbn [chunk_loop].
  - assert (b = off) as -> by lia. rewrite Z.sub_diag, division_nil by done. done.
  - destruct (0 <? b - off) eqn:E; zbool.
    2: { assert (b = off) as -> by lia. by rewrite division_nil by done. }
    rewrite division_cons by lia. unfold next_size, is_i64 in *. destruct (b - off <? k) eqn:Ek; zbool.
    + rewrite !i64_id by (unfold is_i64; lia). replace (b - off - (b - off)) with 0 by lia.
      rewrite Z.min_r by lia. by destruct fuel.
    + rewrite !i64_id by (unfold is_i64; lia). replace (b - off - k) with (b - (off + k)) by lia.
      rewrite IH by lia. by rewrite Z.min_l by lia.
Qed.

(** C21: the loop of [processChunks], in [int64], divides a file of any size below 2^63
    into the chunks of [division] - the [i]-th at [i] times the chunk size - and every
    byte past the start offset is in exactly one of them. *)
Theorem chunks_divide_file fuel fileSize chunkSize startOffset :
  0 < chunkSize → is_i64 chunkSize → 0 <= startOffset <= fileSize → is_i64 fileSize →
  fileSize - startOffset <= Z.of_nat fuel * chunkSize →
  chunks fuel fileSize chunkSize startOffset = Some (division fileSize chunkSize startOffset)
  ∧ ∀ j, startOffset <= j < fileSize →
      ∃ c, (c ∈ division fileSize chunkSize startOffset ∧ in_chunk j c)
        ∧ ∀ c', c' ∈ division fileSize chunkSize startOffset → in_chunk j c' → c' = c.
Proof.
  intros Hk Hk64 Ho H64 Hf. unfold chunks. rewrite i64_id by (unfold is_i64 in *; lia).
  pose proof (chunk_loop_division fuel _ _ _ Hk Hk64 Ho H64 Hf) as Hch. split; [done|].
  destruct (chunk_loop_tiles fuel chunkSize startOffset (fileSize - startOffset)) as (cs & Hcs & Ht); try lia; [done| |].
  { replace (startOffset + (fileSize - startOffset)) with fileSize by lia. done. }
  rewrite Hch in Hcs. injection Hcs as <-. intros j Hj.
  destruct (tiles_cover _ _ _ _ j Ht) as (c & Hc & Hin); [lia|]. exists c. split; [done|].
  intros c' Hc' Hin'. destruct (decide (c' = c)) as [->|Hne]; [done|]. unfold in_chunk in *.
  destruct (tiles_disjoint _ _ _ _ _ _ Ht Hc' Hc Hne); lia.
Qed.

Lemma chunks_divide_file_witness :
  chunks 3 10 4 0 = Some [(0, 4); (4, 4); (8, 2)] ∧ ∃ c, c ∈ division 10 4 0 ∧ in_chunk 9 c.
Proof.
  destruct (chunks_divide_file 3 10 4 0) as [Hc Hd]; try (unfold is_i64; lia).
  split; [exact Hc|]. destruct (Hd 9) as (c & Hc9 & _); [lia|]. by exists c.
Defined.

(** ** Runs of the pool *)

Section Runs.
  Context {S : Type} (env : pool_env S) (batch : nat).
  #[local] Notation step := (pool_step env batch).

(** The pool after its loop, and before it returned. *)
Definition waiting_pool (w : list chunk) (r : list (chunk * prog S (option error))) (b : list (chunk * error))
    (es : list error) (d : list chunk) (s : S) : pool :=
  {| p_todo := []; p_waiting := w; p_running := r; p_blocked := b; p_errs := es; p_done := d;
     p_result := None; p_state := s |}.

(** A goroutine that is not interrupted. *)
Lemma run_steps m w c r b es d s :
  rtc step (waiting_pool w ((c, m) :: r) b es d s)
           (waiting_pool w ((c, Ret (snd (run_alone m s))) :: r) b es d (fst (run_alone m s))).
Proof.
  revert s. induction m as [a|f IH] using prog_induction; intros s; [done|].
  eapply rtc_l; [apply (pool_act _ _ _ _ [])|]. simpl.
  specialize (IH s (fst (f s))). destruct (f s) as [s' m']. exact IH.
Qed.

(** Every chunk gets its goroutine when none was completed before. *)
Lemma dispatch_steps cs w s : (∀ c, c ∈ cs → completed env c s = false) →
  rtc step {| p_todo := cs; p_waiting := w; p_running := []; p_blocked := []; p_errs := []; p_done := [];
              p_result := None; p_state := s |} (waiting_pool (w ++ cs) [] [] [] [] s).
Proof.
  revert w. induction cs as [|c cs IH]; intros w Hc; [by rewrite app_nil_r|].
  eapply rtc_l; [apply pool_dispatch, Hc; by left|].
  replace (w ++ c :: cs) with ((w ++ [c]) ++ cs) by by rewrite <- app_assoc.
  apply IH. intros e He. apply Hc. by right.
Qed.

(** A goroutine that gets the semaphore, fails, and waits to report it. *)
Lemma fail_steps c w b es d s e : (length b < batch)%nat → snd (run_alone (fn env c) s) = Some e →
  rtc step (waiting_pool (c :: w) [] b es d s) (waiting_pool w [] ((c, e) :: b) es d (fst (run_alone (fn env c) s))).
Proof.
  intros Hb He. eapply rtc_l; [apply (pool_acquire _ _ _ []); simpl; lia|].
  etrans; [apply run_steps|]. rewrite He. apply rtc_once, (pool_fail _ _ _ _ []).
Qed.

Lemma send_steps c e w b es d s : (length es < batch)%nat →
  rtc step (waiting_pool w [] ((c, e) :: b) es d s) (waiting_pool w [] b (es ++ [e]) d s).
Proof. intros He. by apply rtc_once, (pool_send _ _ _ _ _ []). Qed.

(** ** When the pool hangs *)

Section Hang.
  Context (J : S → Prop).
  Context (J_fails : ∀ c s, J s → J (fst (run_alone (fn env c) s)) ∧ snd (run_alone (fn env c) s) ≠ None).
  Context (J_live : ∀ s, J s → cancelled env s = false).

Lemma fail_one c w b es d s : J s → (length b < batch)%nat → ∃ e s', J s' ∧
  rtc step (waiting_pool (c :: w) [] b es d s) (waiting_pool w [] ((c, e) :: b) es d s').
Proof.
  intros HJ Hb. destruct (J_fails c s HJ) as [HJ' He].
  destruct (snd (run_alone (fn env c) s)) as [e|] eqn:E; [|done].
  exists e, (fst (run_alone (fn env c) s)). split; [done|]. by apply fail_steps.
Qed.

(** The error channel fills up ... *)
Lemma fill_errs l w es d s : J s → (0 < batch)%nat → (length es + length l = batch)%nat →
  ∃ es' s', J s' ∧ length es' = batch ∧
    rtc step (waiting_pool (l ++ w) [] [] es d s) (waiting_pool w [] [] es' d s').
Proof.
  intros HJ Hb. revert es s HJ. induction l as [|c l IH]; intros es s HJ Hl; simpl in Hl.
  { exists es, s. split_and!; [done|lia|done]. }
  destruct (fail_one c (l ++ w) [] es d s HJ Hb) as (e & s' & HJ' & Hr).
  destruct (IH (es ++ [e]) s' HJ') as (es' & s2 & HJ2 & Hl2 & Hr2); [rewrite length_app; simpl; lia|].
  exists es', s2. split_and!; [done..|]. simpl. etrans; [exact Hr|].
  etrans; [apply send_steps; lia|done].
Qed.

(** ... and then the semaphore. *)
Lemma fill_sem w b es d s : J s → (0 < batch)%nat → (batch ≤ length es)%nat → (length b ≤ batch)%nat →
  b ≠ [] ∨ w ≠ [] → ∃ p, rtc step (waiting_pool w [] b es d s) p ∧ stuck env batch p ∧ p_result p = None.
Proof.
  intros HJ Hb Hes. revert b s HJ. induction w as [|c w IH]; intros b s HJ Hlb Hne.
  - eexists. split; [done|]. split; [|done]. split_and!; simpl; try done; [by apply J_live|by destruct Hne].
  - destruct (decide (length b < batch)%nat) as [Hlt|].
    + destruct (fail_one c w b es d s HJ Hlt) as (e & s' & HJ' & Hr).
      destruct (IH ((c, e) :: b) s' HJ') as (p & Hp & Hs); [simpl; lia|by left|].
      exists p. split; [|done]. by etrans.
    + eexists. split; [done|]. split; [|done]. split_and!; simpl; try done; [by apply J_live| |lia].
      intros ->. simpl in *. lia.
Qed.

Lemma hang_run cs s : J s → (∀ c, c ∈ cs → completed env c s = false) → (0 < batch < length cs)%nat →
  ∃ p, rtc step (pool_init cs s) p ∧ stuck env batch p ∧ p_result p = None.
Proof.
  intros HJ Hc Hb. pose proof (dispatch_steps cs [] s Hc) as Hd. simpl in Hd.
  rewrite <- (take_drop batch cs) in Hd at 2.
  destruct (fill_errs (take batch cs) (drop batch cs) [] [] s HJ) as (es & s1 & HJ1 & Hl1 & Hr1);
    [lia|rewrite length_take; simpl; lia|].
  destruct (fill_sem (drop batch cs) [] es [] s1 HJ1) as (p & Hp & Hs); [lia..|simpl; lia| |].
  { right. intros E. apply (f_equal length) in E. rewrite length_drop in E. simpl in E. lia. }
  exists p. split; [|done]. etrans; [exact Hd|]. by etrans.
Qed.
End Hang.

(** ** What bounds the pool *)

Definition in_flight (p : pool (S:=S)) : nat := (length (p_running p) + length (p_blocked p))%nat.
Definition accounted (p : pool (S:=S)) : nat :=
  (length (p_todo p) + length (p_waiting p) + in_flight p + length (p_errs p))%nat.

Record bounded (n : nat) (p : pool (S:=S)) : Prop := {
  bd_sem : (in_flight p ≤ batch)%nat;
  bd_errs : (length (p_errs p) ≤ batch)%nat;
  bd_chunks : (accounted p ≤ n)%nat;
}.

Lemma bounded_move n p p' : bounded n p → pool_move env batch p p' → bounded n p'.
Proof.
  intros [Hs He Ha] [Hm|Hm]; destruct Hm; split; unfold accounted, in_flight in *; simpl in *;
    repeat rewrite length_app in *; simpl in *; try lia.
  all: destruct es; simpl in *; lia.
Qed.

Lemma bounded_reach cs s p : rtc (pool_move env batch) (pool_init cs s) p → bounded (length cs) p.
Proof.
  apply (rtc_ind_r (bounded (length cs))); [|by intros; eapply bounded_move].
  split; unfold accounted, in_flight; simpl; lia.
Qed.

Lemma stuck_needs cs s p : rtc (pool_move env batch) (pool_init cs s) p → stuck env batch p → (batch < length cs)%nat.
Proof.
  intros Hr (_ & _ & _ & Hb & He & _). destruct (bounded_reach cs s p Hr) as [_ _ Ha].
  unfold accounted, in_flight in Ha. destruct (p_blocked p); [done|]. simpl in Ha. lia.
Qed.

(** ** A cancelled pool *)

Lemma give_up_steps w s : cancelled env s = true →
  rtc step (waiting_pool w [] [] [] [] s) (waiting_pool [] [] [] [] [] s).
Proof. intros Hc. induction w as [|c w IH]; [done|]. eapply rtc_l; [by apply (pool_give_up _ _ _ [])|done]. Qed.

(** One call that never returns is enough for a file of one chunk: nothing but the end of that
    call moves the pool any more. *)
Lemma lost_call_halts hung c f s : (0 < batch)%nat → completed env c s = false →
  fn env c = Act f → hung c = true →
  ∃ p, rtc step (pool_init [c] s) p ∧ p_result p = None ∧ halted env batch hung p.
Proof.
  intros Hb Hc Hf Hh. eexists. split_and!.
  - eapply rtc_l; [by apply pool_dispatch|]. apply rtc_once. apply (pool_acquire _ _ _ []). simpl. lia.
  - done.
  - split; try done; [|by left]. intros x [->|Hx%not_elem_of_nil]%elem_of_cons; [|done]. unfold held. simpl. by rewrite Hf.
Qed.

(** When the context ends after the chunks were dispatched and before any goroutine got
    the semaphore, every one of them gives up, and the pool reports success. *)
Lemma cancelled_run cs s : (∀ c, c ∈ cs → completed env c s = false) → cancelled env s = false →
  cancelled env (cancel env s) = true → pool_run env batch cs s None (flush env (cancel env s)).
Proof.
  intros Hc Hs Hcs. eexists. split.
  - etrans; [eapply (rtc_subrel step); [intros ? ?; by left|exact (dispatch_steps cs [] s Hc)]|].
    eapply rtc_l; [right; by apply pool_cancel_ctx|].
    etrans; [eapply (rtc_subrel step); [intros ? ?; by left|by apply give_up_steps]|].
    apply rtc_once. left. apply pool_return.
  - by split.
Qed.

(** ** The sequential schedule *)

(** Every goroutine runs to its end before the next gets the semaphore. *)
Fixpoint seq_chunks (w : list chunk) (es : list error) (s : S) : option (list error * S) :=
  match w with
  | [] => Some (es, s)
  | c :: w =>
    match run_alone (fn env c) s with
    | (s, None) => seq_chunks w es s
    | (s, Some e) => if (length es <? batch)%nat then seq_chunks w (es ++ [e]) s else None
    end
  end.

Definition pool_exec (cs : list chunk) (s : S) : option (option error * S) :=
  '(es, s) ← seq_chunks (filter (λ c, completed env c s = false) cs) [] s;
  Some (head es, flush env s).

Lemma skip_steps cs w d s : rtc step
  {| p_todo := cs; p_waiting := w; p_running := []; p_blocked := []; p_errs := []; p_done := d;
     p_result := None; p_state := s |}
  (waiting_pool (w ++ filter (λ c, completed env c s = false) cs) [] [] []
     (reverse (filter (λ c, completed env c s = true) cs) ++ d) s).
Proof.
  revert w d. induction cs as [|c cs IH]; intros w d; [by rewrite app_nil_r|].
  destruct (completed env c s) eqn:Hc.
  - rewrite filter_cons_False, filter_cons_True by congruence. rewrite reverse_cons, <- app_assoc.
    eapply rtc_l; [by apply pool_skip|apply IH].
  - rewrite filter_cons_True, filter_cons_False by congruence.
    eapply rtc_l; [by apply pool_dispatch|].
    replace (w ++ c :: filter (λ c0, completed env c0 s = false) cs)
      with ((w ++ [c]) ++ filter (λ c0, completed env c0 s = false) cs) by by rewrite <- app_assoc.
    apply IH.
Qed.

Lemma seq_steps w es d s es' s' : (0 < batch)%nat → seq_chunks w es s = Some (es', s') →
  ∃ d', rtc step (waiting_pool w [] [] es d s) (waiting_pool [] [] [] es' d' s').
Proof.
  intros Hb. revert es d s. induction w as [|c w IH]; intros es d s; cbn [seq_chunks].
  { intros [= -> ->]. by exists d. }
  pose proof (run_steps (fn env c) w c [] [] es d s) as Hr.
  destruct (run_alone (fn env c) s) as [s1 [e|]] eqn:Hrun; cbn [fst snd] in Hr.
  - destruct (length es <? batch)%nat eqn:Hl; [|done]. apply Nat.ltb_lt in Hl. intros Hs.
    destruct (IH (es ++ [e]) d s1 Hs) as (d' & Hr'). exists d'.
    etrans; [apply (fail_steps c w [] es d s e); [done|by rewrite Hrun]|]. rewrite Hrun.
    etrans; [by apply send_steps|done].
  - intros Hs. destruct (IH es (c :: d) s1 Hs) as (d' & Hr'). exists d'.
    eapply rtc_l; [apply (pool_acquire _ _ _ []); simpl; lia|].
    etrans; [exact Hr|]. eapply rtc_l; [apply (pool_ok _ _ _ _ [])|done].
Qed.

Lemma pool_exec_run cs s r s' : (0 < batch)%nat → pool_exec cs s = Some (r, s') → pool_run env batch cs s r s'.
Proof.
  intros Hb. unfold pool_exec. destruct (seq_chunks _ _ _) as [[es s1]|] eqn:Hs; [|done]. intros [= <- <-].
  destruct (seq_steps _ _ (reverse (filter (λ c, completed env c s = true) cs) ++ []) _ _ _ Hb Hs) as (d & Hr).
  eexists. split.
  - eapply (rtc_subrel step); [intros ? ?; by left|].
    etrans; [exact (skip_steps cs [] [] s)|]. etrans; [exact Hr|]. apply rtc_once, pool_return.
  - by split.
Qed.
End Runs.

(** C35: a pool whose chunks all fail while its context stays live can hang as soon as there are
    more chunks than the error channel holds: some run of it reaches a state in which
    nothing moves any more and [processChunks] has not returned. *)
Theorem failing_pool_hangs {S} (env : pool_env S) (batch : nat) (J : S → Prop) cs s :
  (∀ c s, J s → J (fst (run_alone (fn env c) s)) ∧ snd (run_alone (fn env c) s) ≠ None) →
  (∀ s, J s → cancelled env s = false) → J s → (∀ c, c ∈ cs → completed env c s = false) →
  (0 < batch < length cs)%nat →
  ∃ p, rtc (pool_move env batch) (pool_init cs s) p ∧ p_result p = None ∧ ∀ p', ¬ pool_step env batch p p'.
Proof.
  intros Hf Hl HJ Hc Hb. destruct (hang_run env batch J Hf Hl cs s HJ Hc Hb) as (p & Hr & Hst & Hres).
  exists p. split_and!; [|done|intros p'; by apply stuck_no_step].
  eapply (rtc_subrel (pool_step env batch)); [intros ? ?; by left|done].
Qed.

(** A pool whose two chunks fail at once, with room for one error. *)
Definition failing_env : pool_env () :=
  {| fn _ := Ret (Some (ErrVar "demo" "unreadable")); completed _ _ := false; cancelled _ := false;
     cancel s := s; flush s := s |}.

Lemma failing_pool_hangs_witness : ∃ p, rtc (pool_move failing_env 1) (pool_init [(0, 4); (4, 4)] ()) p
  ∧ p_result p = None ∧ ∀ p', ¬ pool_step failing_env 1 p p'.
Proof. by apply (failing_pool_hangs failing_env 1 (λ _, True)); try done; simpl; lia. Defined.
