(* ===== verification/ProgressSpec.v ===== *)
(** The properties of the progress bar and of the channel that feeds it: [printProgress] prints
    a line of the width it computed and never panics; [Progress] returns at the last byte of the
    file and not before, so that a chunk's report always finds a receiver while the context
    lives, if every chunk reports its size, as uploads do and downloads from a server that
    answers with the bytes asked for; after its end nobody receives, and a resumed transfer can block for ever. *)
From S2P Require Import Prelude Message GoStd OS Chunk Hoare Server Client Prog Pool Resume Transfer Listing Progress Remote TransferInv DownloadInv.
From stdpp Require Import pretty.
From Stdlib Require Import Ascii Floats.SpecFloat Strings.Byte.

Local Open Scope string_scope.
Local Open Scope Z_scope.

(** ** The line *)

Lemma length_append s t : String.length (s ++ t) = (String.length s + String.length t)%nat.
Proof. induction s as [|c s IH]; [done|]. simpl. by rewrite IH. Qed.
Lemma length_Repeat s n : String.length (Repeat s n) = (n * String.length s)%nat.
Proof. induction n as [|n IH]; [done|]. simpl. rewrite length_append. by rewrite IH. Qed.

Lemma repeat_some s n : 0 <= n → repeat_or_panic s n = Some (Repeat s (Z.to_nat n)).
Proof. intros Hn. unfold repeat_or_panic. destruct (n <? 0) eqn:?; zbool; [lia|done]. Qed.

(** The three shapes of the bar. *)
Inductive bar_shape (bw : nat) : string → Prop :=
  | bar_empty : bar_shape bw (Repeat "-" bw)
  | bar_full : bar_shape bw (Repeat "=" bw)
  | bar_part l r : (l + 1 + r = bw)%nat → bar_shape bw (Repeat "=" l ++ ">" ++ Repeat "-" r).

Lemma bar_shape_length bw s : bar_shape bw s → String.length s = bw.
Proof. destruct 1; rewrite ?length_append, !length_Repeat; simpl; lia. Qed.

Lemma progress_bar_shape `{FloatToInt} pct bw : 0 <= bw →
  ∃ s, progress_bar pct bw = Some s ∧ bar_shape (Z.to_nat bw) s.
Proof.
  intros Hbw. unfold progress_bar. generalize (bar_filled pct bw). intros filled.
  unfold draw_bar. case_match eqn:Hin; zbool.
  - rewrite !repeat_some by lia. simpl. eexists. split; [done|]. apply bar_part. lia.
  - case_match; zbool; rewrite repeat_some by lia; eexists; (split; [done|constructor]).
Qed.

Lemma bar_width_min `{Terminal} p s : 10 <= bar_width p s.
Proof. unfold bar_width. case_match; zbool; lia. Qed.

(** Whatever the counts, the clock, the terminal and the platform's float conversions,
    [printProgress] prints a line and does not panic (the counts it gives [strings.Repeat] are
    never negative): the sizes, a bar of one of three shapes and of exactly the width left of
    the terminal, at least ten, and the figures; so the line fills the terminal when the
    figures leave it ten columns. *)
Theorem printProgress_fills_line `{FloatToInt, Terminal, Humanize} sent total elapsed :
  let p := progress_prefix sent total in
  let s := progress_suffix sent total elapsed in
  ∃ bar, printProgress sent total elapsed = Some (clear_line ++ p ++ bar ++ s) ∧
    bar_shape (Z.to_nat (bar_width p s)) bar ∧ 10 <= Z.of_nat (String.length bar) ∧
    (Z.of_nat (String.length p + 10 + String.length s) <= getTermWidth →
     Z.of_nat (String.length (p ++ bar ++ s)) = getTermWidth).
Proof.
  intros p s. pose proof (bar_width_min p s) as Hw. unfold printProgress. fold p s.
  destruct (progress_bar_shape (percent sent total) (bar_width p s)) as (bar & -> & Hbar); [lia|].
  pose proof (bar_shape_length _ _ Hbar) as Hl. eexists. split_and!; [done|done|lia|].
  intros Hfit. rewrite !length_append. revert Hl Hw. unfold bar_width. case_match; zbool; lia.
Qed.

(** ** The channel *)

Definition sum_sizes (l : list Z) : Z := foldr Z.add 0 l.

Lemma sum_sizes_app l k : sum_sizes (l ++ k) = sum_sizes l + sum_sizes k.
Proof. induction l as [|n l IH]; [done|]. simpl. rewrite IH. lia. Qed.

Lemma sum_sizes_cons n l : sum_sizes (n :: l) = n + sum_sizes l.
Proof. done. Qed.

Lemma sum_sizes_nonneg l : Forall (Z.le 0) l → 0 <= sum_sizes l.
Proof. induction 1; simpl; lia. Qed.

(** The bytes that have not reached the bar. *)
Definition pending (s : reporting) : Z :=
  sum_sizes (snd <$> rp_todo s) + sum_sizes (rp_running s) + sum_sizes (rp_chan s).

(** Every chunk holds a byte, so that only the start, which is received first, may be zero; the
    bar's sum and what is pending stay within the file; when the bar has returned, nothing is
    pending. *)
Definition reported_ok (total : Z) (s : reporting) : Prop :=
  Forall (Z.lt 0) (snd <$> rp_todo s) ∧ Forall (Z.lt 0) (rp_running s) ∧ Forall (Z.le 0) (rp_chan s) ∧
  (rp_done s = false →
   match rp_bar s with
   | Some sent => 0 <= sent ∧ sent + pending s <= total ∧ (0 < total → sent < total) ∧
       Forall (Z.lt 0) (tail (rp_chan s))
   | None => pending s <= 0 ∧ Forall (Z.lt 0) (rp_chan s)
   end).

Lemma lt_le_0 l : Forall (Z.lt 0) l → Forall (Z.le 0) l.
Proof. intros Hl. eapply Forall_impl; [apply Hl|]. simpl. lia. Qed.
Lemma no_bytes l : Forall (Z.lt 0) l → sum_sizes l <= 0 → l = [].
Proof.
  destruct 1 as [|n l Hn Hl]; [done|]. simpl. pose proof (sum_sizes_nonneg l (lt_le_0 _ Hl)). lia.
Qed.

(** ** What a download reports

    [int64(len(data))], in the function [downloadFile] hands to [processChunks]: the length of
    what an accepted answer decodes to, which the code does not compare with the chunk's size. *)
Section Reports.
  Context `{Transport, !Ctx, Gzip, SecretBox} (key : option (list byte)) {RF : RemoteFiles key}.
  Context (src : string) (d : list byte) (algo : Z) (useChecksum : bool).

Inductive download_reports : Z → Z → Prop :=
  | download_report cc n off sz r q got data :
      net_ok key n → remote key n src = Some d →
      0 <= off → 0 < sz → off + sz <= zlen d → make_ok sz = true →
      Read src off sz algo (cc, n) = (r, q) → read_outcome off useChecksum r = Got got →
      download_payload (fst got) (snd got) key off = Ok data → download_reports sz (zlen data).

(** Of a server that keeps the interface the length is the chunk's size. *)
Lemma download_reports_size sz report : download_reports sz report → report = sz.
Proof.
  destruct 1 as [cc n off sz r [cc' n'] got data Hn Hd Ho Hs Hl Hm Hr Hgot Hdata].
  apply Read_run in Hr as (id & _ & Hcall).
  unfold read_outcome in Hgot. destruct r as [[[| | | | | res | | | | | | | |] q]|]; try done.
  destruct (ReadRes.Success res) eqn:Hsuc; [|done]. cbn [negb] in Hgot.
  destruct (useChecksum && _ && _); [done|]. injection Hgot as <-.
  edestruct remote_read as [_ Hok]; [exact Hn| |exact Hcall|]; [exact Hm|].
  destruct (Hok res q eq_refl Hsuc Hs) as (_ & d' & Hd' & Hdl). cbn [ReadReq.Path ReadReq.Size ReadReq.Offset] in *.
  rewrite Hd in Hd'. injection Hd' as <-. cbn [fst snd] in Hdata. rewrite Hdl in Hdata. injection Hdata as <-.
  unfold zlen in *. rewrite length_take, length_drop. lia.
Qed.
End Reports.

Section Channel.
  Context (total : Z) (batch : nat) (reports : Z → Z → Prop).
  Hypothesis Htotal : is_i64 total.
  Hypothesis Hreports : ∀ n m, reports n m → m = n.
  Local Notation step := (report_step false total batch reports).

Lemma tail_snoc (c : list Z) n : 0 < n → Forall (Z.lt 0) (tail c) → Forall (Z.lt 0) (tail (c ++ [n])).
Proof. destruct c as [|m c]; simpl; [constructor|]. rewrite Forall_app. by repeat constructor. Qed.

Lemma report_step_ok s s' : reported_ok total s → step s s' → reported_ok total s'.
Proof.
  intros (Ht & Hr & Hc & Hs) Hstep. unfold reported_ok, pending in *.
  destruct Hstep; cbn [rp_todo rp_running rp_chan rp_bar rp_done] in *;
    rewrite ?fmap_cons, ?sum_sizes_app, ?sum_sizes_cons, ?Forall_app, ?Forall_cons in *; cbn [snd] in *;
    try change (sum_sizes []) with 0 in *.
  - destruct Ht as [Hn Ht]. split_and!; try done; [repeat constructor; lia|]. intros Hd. specialize (Hs Hd).
    case_match; rewrite ?Forall_app, ?Forall_singleton; split_and!; try lia; [apply tail_snoc; [done|apply Hs]|apply Hs].
  - destruct Ht as [Hn Ht]. split_and!; try done. case_match; intuition lia.
  - match goal with H : reports _ _ |- _ => apply Hreports in H as -> end.
    destruct Hr as (? & ? & ?). split_and!; try done; [repeat constructor; lia|]. intros Hd. specialize (Hs Hd).
    case_match; rewrite ?Forall_app, ?Forall_singleton; split_and!; try lia; [apply tail_snoc; [done|apply Hs]|apply Hs].
  - destruct Hr as (? & ? & ?). split_and!; try done. case_match; intuition lia.
  - destruct Hc as (Hn & Hc). split_and!; try done. intros Hd. destruct (Hs Hd) as (? & ? & ? & Hp). cbn in Hp.
    pose proof (sum_sizes_nonneg _ Hc). pose proof (sum_sizes_nonneg _ (lt_le_0 _ Hr)).
    pose proof (sum_sizes_nonneg _ (lt_le_0 _ Ht)). unfold is_i64 in Htotal.
    unfold bar_receive. rewrite i64_id by (unfold is_i64; lia).
    destruct (_ =? total) eqn:?; zbool; (split_and!; [lia..|]); [done|]. by destruct Hp.
  - done.
  - split_and!; done.
Qed.

Lemma reporting_ok s s' : rtc step s s' → reported_ok total s → reported_ok total s'.
Proof. induction 1; eauto using report_step_ok. Qed.

(** C22: the bar ends with the file, when every chunk reports its size (as every upload does,
    [upload_reports], and a download from a server that answers with the bytes it was asked for,
    [download_reports_size]). In every state [processChunks] can reach from a division of
    the file after [startOffset] into non-empty chunks, in which the context has not ended:
    while [Progress] runs, its sum with what is still to be reported is at most the file's size
    (so the [int64] sum never wraps) and below it unless the file is empty; once it has returned,
    every chunk has been reported and the channel is empty. So the bar does not outlast the
    transfer, and a chunk that has a report to send is never left without a receiver. *)
Theorem bar_returns_at_last_byte startOffset todo s :
  0 <= startOffset → Forall (Z.lt 0) (snd <$> todo) → startOffset + sum_sizes (snd <$> todo) = total →
  rtc step (reporting_init startOffset todo) s → rp_done s = false →
  match rp_bar s with
  | Some sent => 0 <= sent ∧ sent + pending s <= total ∧ (0 < total → sent < total)
  | None => rp_todo s = [] ∧ rp_running s = [] ∧ rp_chan s = []
  end.
Proof.
  intros Hoff Hpos Hsum Hrun Hd.
  assert (reported_ok total (reporting_init startOffset todo)) as Hi.
  { unfold reported_ok, pending. cbn. rewrite Forall_singleton.
    split_and!; [done|constructor|done|]. intros _. split_and!; [done| |done|constructor].
    unfold sum_sizes in *. simpl. lia. }
  destruct (reporting_ok _ _ Hrun Hi) as (Ht & Hr & Hc & Hs). specialize (Hs Hd).
  destruct (rp_bar s) as [sent|]; [intuition|]. destruct Hs as [Hp Hc']. unfold pending in Hp.
  pose proof (sum_sizes_nonneg _ Hc). pose proof (sum_sizes_nonneg _ (lt_le_0 _ Hr)).
  pose proof (sum_sizes_nonneg _ (lt_le_0 _ Ht)).
  split_and!; [eapply fmap_nil_inv, no_bytes|eapply no_bytes..]; done || lia.
Qed.
End Channel.

(** Three bytes resumed at the second: the chunk [2..3] was recorded, the last is transferred. *)
Lemma bar_returns_at_last_byte_witness :
  is_i64 3 ∧ Forall (Z.lt 0) (snd <$> [(true, 1); (false, 1)]) ∧
  ∃ s, rtc (report_step false 3 1 upload_reports) (reporting_init 1 [(true, 1); (false, 1)]) s ∧
    rp_bar s = None ∧ rp_todo s = [] ∧ rp_running s = [] ∧ rp_chan s = [].
Proof.
  assert (is_i64 3) as H3 by done.
  assert (Forall (Z.lt 0) (snd <$> [(true, 1); (false, 1)])) as Hp by (cbn; repeat constructor; lia).
  split_and!; [done|done|]. eexists.
  assert (rtc (report_step false 3 1 upload_reports) (reporting_init 1 [(true, 1); (false, 1)])
    {| rp_todo := []; rp_running := []; rp_chan := []; rp_bar := None; rp_done := false |}) as Hrun.
  { eapply rtc_l; [apply report_skip; simpl; lia|]. eapply rtc_l; [apply report_spawn|].
    eapply rtc_l; [apply report_receive|]. eapply rtc_l; [apply report_receive|].
    eapply rtc_l; [apply (report_send _ _ _ _ 1 1 _ [] []); [done|simpl; lia]|].
    eapply rtc_l; [apply report_receive|]. apply rtc_refl. }
  split; [apply Hrun|]. split; [done|].
  apply (bar_returns_at_last_byte 3 1 upload_reports H3 (λ n m E, E) 1 [(true, 1); (false, 1)] _ ltac:(lia) Hp eq_refl Hrun eq_refl).
Defined.

(** A download given other lengths than it asked for: with a byte too few the bar waits for
    ever, after every chunk was reported, until the context ends ... *)
Lemma short_report_bar_waits : ∃ s,
  rtc (report_step false 3 1 (λ _ m, m = 2)) (reporting_init 0 [(false, 3)]) s
  ∧ rp_done s = false ∧ rp_todo s = [] ∧ rp_running s = [] ∧ rp_chan s = [] ∧ rp_bar s = Some 2
  ∧ ∀ s', report_step false 3 1 (λ _ m, m = 2) s s' → rp_done s' = true.
Proof.
  exists {| rp_todo := []; rp_running := []; rp_chan := []; rp_bar := Some 2; rp_done := false |}. split_and!; try done.
  - eapply rtc_l; [apply report_spawn|]. eapply rtc_l; [apply report_receive|].
    eapply rtc_l; [apply (report_send _ _ _ _ 3 2 _ [] []); [done|simpl; lia]|].
    eapply rtc_l; [apply report_receive|]. apply rtc_refl.
  - intros s' Hs. inversion Hs; subst; simpl in *; try done; by destruct r1.
Qed.

(** ... and with a byte too many it returns while a chunk has yet to be transferred. *)
Lemma long_report_bar_returns_early : ∃ s,
  rtc (report_step false 3 1 (λ n m, m = n + 1)) (reporting_init 0 [(false, 2); (false, 1)]) s
  ∧ rp_done s = false ∧ rp_bar s = None ∧ rp_running s = [1].
Proof.
  exists {| rp_todo := []; rp_running := [1]; rp_chan := []; rp_bar := None; rp_done := false |}. split_and!; try done.
  eapply rtc_l; [apply report_spawn|]. eapply rtc_l; [apply report_spawn|]. eapply rtc_l; [apply report_receive|].
  eapply rtc_l; [apply (report_send _ _ _ _ 2 3 _ [1] []); [done|simpl; lia]|].
  eapply rtc_l; [apply report_receive|]. apply rtc_refl.
Qed.

(** ** After the context has ended *)

Section Cancelled.
  Context (quiet : bool) (total : Z) (batch : nat) (reports : Z → Z → Prop).
  Local Notation step := (report_step quiet total batch reports).

(** The loop's sends fill the channel. *)
Lemma skip_sends sizes todo c b d : (length c + length sizes ≤ S batch)%nat →
  rtc step {| rp_todo := (pair true <$> sizes) ++ todo; rp_running := []; rp_chan := c; rp_bar := b; rp_done := d |}
           {| rp_todo := todo; rp_running := []; rp_chan := c ++ sizes; rp_bar := b; rp_done := d |}.
Proof.
  revert c. induction sizes as [|n sizes IH]; intros c Hl; simpl in *.
  - rewrite app_nil_r. apply rtc_refl.
  - eapply rtc_l; [apply report_skip; lia|].
    replace (c ++ n :: sizes)%list with ((c ++ [n]) ++ sizes)%list by by rewrite <- app_assoc.
    apply IH. rewrite length_app. simpl. lia.
Qed.

(** A transfer resumed over more recorded chunks than the channel holds blocks for ever when
    its context ends early: the bar (or [drainProgress]) returns, the loop fills the channel with
    the skipped chunks' sizes, and [progressChan <- size], which has no [ctx.Done()] case, is
    never received; no step is left, and chunks are. *)
Theorem cancelled_resume_blocks startOffset sizes todo : length sizes = S batch →
  ∃ s, rtc step (reporting_init startOffset ((pair true <$> sizes) ++ todo)) s ∧
    rp_todo s ≠ [] ∧ ∀ s', ¬ step s s'.
Proof.
  intros Hl. destruct (nil_or_length_pos sizes) as [->|_]; [done|].
  destruct (exists_last (l:=sizes)) as (l & n & ->); [by intros ->|]. rewrite length_app in Hl. simpl in Hl.
  exists {| rp_todo := (true, n) :: todo; rp_running := []; rp_chan := startOffset :: l; rp_bar := None; rp_done := true |}.
  split_and!; [|done|].
  - eapply rtc_l; [apply report_cancel|]. eapply rtc_l; [apply report_return|].
    rewrite fmap_app, <- app_assoc. apply (skip_sends l _ [startOffset]). simpl. lia.
  - intros s' Hs. inversion Hs; subst; simpl in *; [lia|by destruct r1..].
Qed.
End Cancelled.

Lemma cancelled_resume_blocks_witness :
  length [4; 4; 4] = 3%nat ∧
  ∃ s, rtc (report_step true 16 2 upload_reports) (reporting_init 0 ((pair true <$> [4; 4; 4]) ++ [(false, 4)])) s ∧
    rp_todo s ≠ [] ∧ ∀ s', ¬ report_step true 16 2 upload_reports s s'.
Proof. split; [done|]. apply (cancelled_resume_blocks true 16 2 upload_reports 0 [4; 4; 4] [(false, 4)]). done. Defined.

(** ** Checks against Go *)

Section Checks.
#[local] Instance no_units : Humanize := λ z, pretty z.
#[local] Instance cut_float : FloatToInt := λ _, - 2 ^ 63.
#[local] Instance narrow : Terminal := Ok 60.

Example line_half : printProgress 50 100 (2 * Second) =
  Some (clear_line ++ "50 / 100 [=============>--------------]  50%  25/s  2s  2.0s").
Proof. vm_compute. reflexivity. Qed.
Example line_start : printProgress 0 100 0 = Some (clear_line ++ "0 / 100 [--------------------------------]  0%  ?/s  ?  0.0s").
Proof. vm_compute. reflexivity. Qed.
Example line_empty_file : progress_bar (percent 0 0) 12 = Some "------------".
Proof. vm_compute. reflexivity. Qed.
Example eta_hours : Duration_String (round_seconds (3725 * Second + 500000000)) = "1h2m6s".
Proof. vm_compute. reflexivity. Qed.
Example seconds_tenth : format_fixed 1 (Seconds 1250000000) = "1.2". Proof. vm_compute. reflexivity. Qed.

(** [100 / (100 / bw)] rounds below [bw] for some widths: the bar of a finished transfer has an
    arrow and a gap. *)
Example finished_bar_gap : progress_bar (percent 4096 4096) 44 = Some (Repeat "=" 42 ++ ">-").
Proof. vm_compute. reflexivity. Qed.
Example finished_bar : progress_bar (percent 4096 4096) 45 = Some (Repeat "=" 45).
Proof. vm_compute. reflexivity. Qed.
End Checks.
