(* ===== verification/TransferEnds.v ===== *)
(** How the chunk functions of a transfer use its state: at most so many actions, each of
    which preserves whatever the single calls preserve.  From it follow the bound on the
    runs of a transfer and that a fresh upload leaves no trace on the client's disk. *)
From S2P Require Import Prelude Message GoStd GoHash OS Chunk Hoare Server Client Prog Pool PoolSpec Resume Transfer Remote TransferInv.
From Stdlib Require Import Strings.Byte.

Section Within.
  Context `{Transport, !Ctx, Gzip, SecretBox, Rand, Json, TempDir, OS}.
  Context (K : xfer → Prop).

Definition keeps {A} (m : prog xfer A) : Prop := within K 1 m.

Lemma keeps_bind {A B} n (m : prog xfer A) (k : A → prog xfer B) :
  keeps m → (∀ a, within K n (k a)) → within K (1 + n) (m ≫= k).
Proof. apply within_bind. Qed.

Lemma keeps_within {A} n (m : prog xfer A) : keeps m → within K (1 + n) m.
Proof. apply within_mono. lia. Qed.

Lemma keeps_ask {A} (f : xfer → A) : keeps (ask_x f).
Proof. by apply within_atomic. Qed.

Context (K_sleep : ∀ ns, keeps (sleep ns)).
Context (K_add : ∀ off, keeps (on_resume (λ rs, addCompletedOffset rs off))).

Lemma within_wait {A} n (b : bool) ns (k : option error → prog xfer A) : (∀ e, within K n (k e)) →
  within K (1 + n) ((if b then sleep ns else mret None) ≫= k).
Proof.
  intros Hk. apply within_bind; [|done]. destruct b; [apply K_sleep|apply within_ret].
Qed.

Lemma within_upload_attempts fuel attempt maxRetries target off buf algo writeErr :
  keeps (on_cc (Write target off buf algo)) →
  within K (3 * fuel) (upload_attempts fuel attempt maxRetries target off buf algo writeErr).
Proof.
  intros Hw. revert attempt writeErr. induction fuel as [|fuel IH]; intros attempt writeErr; cbn [upload_attempts]; [done|].
  apply (within_mono _ (1 + (1 + (1 + 3 * fuel)))); [lia|].
  apply within_bind; [apply keeps_ask|]. intros [e|]; [apply within_ret|].
  apply within_bind; [exact Hw|]. intros r. destruct (write_outcome off r) as [[]|e|]; try apply within_ret.
  apply within_wait. intros [e'|]; [apply within_ret|apply IH].
Qed.

Lemma within_read_attempts fuel attempt maxRetries src off size algo ck last :
  keeps (on_cc (Read src off size algo)) →
  within K (3 * fuel) (read_attempts fuel attempt maxRetries src off size algo ck last).
Proof.
  intros Hr. revert attempt last. induction fuel as [|fuel IH]; intros attempt last; cbn [read_attempts]; [done|].
  apply (within_mono _ (1 + (1 + (1 + 3 * fuel)))); [lia|].
  apply within_bind; [apply keeps_ask|]. intros [e|]; [apply within_ret|].
  apply within_bind; [exact Hr|]. intros r. destruct (read_outcome off ck r) as [?|e|]; try apply within_ret.
  apply within_wait. intros [e'|]; [apply within_ret|apply IH].
Qed.

(** The actions of one chunk. *)
Definition chunk_actions (maxRetries : Z) : nat := (3 * attempts maxRetries + 3)%nat.

Lemma within_upload sfd target maxRetries algo c : (∀ buf, keeps (on_cc (Write target (fst c) buf algo))) →
  within K (chunk_actions maxRetries) (upload_chunk sfd target maxRetries algo c).
Proof.
  intros Hw. apply (within_mono _ ((1 + 3 * attempts maxRetries) + (1 + 0))); [unfold chunk_actions; lia|].
  unfold upload_chunk, uploadFileChunk. apply within_bind.
  - apply within_bind; [apply keeps_ask|]. intros [buf [e|]]; [apply within_ret|by apply within_upload_attempts].
  - intros [e|]; [apply within_ret|]. apply within_bind; [apply K_add|]. intros []. apply within_ret.
Qed.

Lemma within_download tfd src maxRetries ck algo c :
  (∀ d, keeps (on_os (atomic (f_WriteAt tfd d (fst c))))) → keeps (on_cc (Read src (fst c) (snd c) algo)) →
  within K (chunk_actions maxRetries) (download_chunk tfd src maxRetries ck algo c).
Proof.
  intros Hw Hr. apply (within_mono _ (3 * attempts maxRetries + (1 + (1 + (1 + 0))))); [unfold chunk_actions; lia|].
  unfold download_chunk. apply within_bind; [by apply within_read_attempts|]. intros [[res q]|e]; [|apply within_ret].
  apply within_bind; [apply keeps_ask|]. intros key. destruct (download_payload _ _ _ _) as [data|e]; [|apply within_ret].
  apply within_bind; [apply Hw|]. intros [n [e|]]; [apply within_ret|].
  apply within_bind; [apply K_add|]. intros []. apply within_ret.
Qed.
End Within.

(** ** Bounded runs *)

Section Bounded.
  Context `{Transport, !Ctx, GzipOk, SecretBoxOk, RandOk, JsonOk, TempDir, OSLaws}.
  Context (key : option (list byte)) {RF : RemoteFiles key}.

Definition ended (x : xfer) : Prop := is_Some (ctx_Err (x_net x)).

Lemma ended_sleep ns : keeps ended (sleep ns).
Proof.
  apply within_atomic. intros x. destruct (ctx_wait ns (x_net x)) as [n e] eqn:Hw.
  by destruct (wait_law _ _ _ _ Hw) as (_ & _ & Hc).
Qed.

Lemma ended_resume f : keeps ended (on_resume f).
Proof. apply within_atomic. intros x. by destruct (run_alone (f (x_rs x)) (x_w x)) as [w [rs e]]. Qed.

Lemma ended_os {A} (m : prog world A) : keeps ended (on_os m).
Proof. apply within_atomic. intros x. by destruct (run_alone m (x_w x)). Qed.

Lemma ended_write target off buf algo : keeps ended (on_cc (Write target off buf algo)).
Proof.
  apply within_atomic. intros x. pose proof (Write_called target off buf algo (x_cc x) (x_net x)) as Hw.
  unfold wp, write_called, eval, exec in Hw. destruct (Write _ _ _ _ _) as [r [cc n]]. cbn [fst snd] in *.
  destruct Hw as [(e & _ & -> & _)|(req & p & _ & _ & _ & _ & Hcall & _)]; [done|].
  exact (call_ctx _ _ _ _ _ Hcall).
Qed.

Lemma ended_read src off size algo : keeps ended (on_cc (Read src off size algo)).
Proof.
  apply within_atomic. intros x. destruct (Read src off size algo (x_cc x, x_net x)) as [r [cc n]] eqn:Hr.
  apply Read_run in Hr as (id & -> & Hcall). exact (call_ctx _ _ _ _ _ Hcall).
Qed.

(** Every run of a pool of such chunks is finite; and as long as it has not returned,
    whichever goroutines [hung] are in a call that never returns, it can go on without
    them and without the context ending, until nothing but such goroutines and those that
    wait for them is left; if none are, it hangs only with more chunks than [batch]. *)
Definition ends {S} (env : pool_env S) (batch bound : nat) (cs : list chunk) (s : S) : Prop :=
  ∀ n p, nsteps (pool_move env batch) n (pool_init cs s) p →
    (n ≤ bound)%nat
    ∧ ∀ hung, p_result p = None →
        (∃ p', step_without env batch hung p p')
        ∨ halted env batch hung p ∧ (p_running p ≠ [] ∨ (batch < length cs)%nat).

Lemma pool_ends f batch n cs x : (0 < batch)%nat → (∀ c, within ended n (f c)) →
  ends (xfer_env f) batch (length cs * (n + 6) + 2) cs x.
Proof.
  intros Hb Hf. intros k p Hr. split.
  - destruct (weighs_init (xfer_env f) n cs x) as (j & Hw & Hle).
    assert (k ≤ j)%nat; [|lia]. refine (run_bounded (xfer_env f) batch n _ _ _ _ _ _ _ _ Hw Hr).
    + intros c. eapply within_iff; [|apply Hf]. intros s. apply bool_decide_eq_true.
    + intros s. apply bool_decide_eq_true. by apply cancel_law.
    + intros s. simpl. rewrite !bool_decide_eq_true. intros He.
      by destruct (run_alone (flushResumeState (x_rs s)) (x_w s)) as [w [rs e]].
  - intros hung Hres. destruct (pool_progress (xfer_env f) batch hung p Hb Hres) as [?|Hh]; [by left|right].
    split; [done|]. destruct (decide (length (p_running p) = 0%nat)) as [Hz|Hz]; [right|left; intros E; by rewrite E in Hz].
    eapply stuck_needs; [by eapply rtc_nsteps_2|]. eapply halted_stuck; [exact Hh|]. by apply nil_length_inv.
Qed.

End Bounded.

(** ** What a fresh upload leaves on the client's disk *)

Section Fresh.
  Context `{Transport, !Ctx, Gzip, SecretBox, Rand, Json, TempDir, OSLaws}.

(** No resume state, and the files and names of [w0]. *)
Definition unrecorded (w0 : world) (x : xfer) : Prop := x_rs x = None ∧ same_files w0 (x_w x).

Context (w0 : world).
#[local] Notation K := (unrecorded w0).

Lemma unrec_cc {A} (m : ST (client * net) A) : keeps K (on_cc m).
Proof. apply within_atomic. intros x. by destruct (m (x_cc x, x_net x)) as [a [cc n]]. Qed.

Lemma unrec_sleep ns : keeps K (sleep ns).
Proof. apply within_atomic. intros x. by destruct (ctx_wait ns (x_net x)). Qed.

Lemma unrec_add off : keeps K (on_resume (λ rs, addCompletedOffset rs off)).
Proof. apply within_atomic. intros x [Hrs Hs]. by rewrite Hrs. Qed.

Lemma unrec_os {A} (f : world → world * A) : (∀ w, same_files w (fst (f w))) → keeps K (on_os (atomic f)).
Proof.
  intros Hf. apply within_atomic. intros x [Hrs Hs]. specialize (Hf (x_w x)). cbn.
  destruct (f (x_w x)) as [w a]. split; [done|]. by etrans.
Qed.

Lemma unrec_open p : keeps K (on_os (atomic (os_OpenFile p O_RDONLY 0))).
Proof.
  apply unrec_os. intros w. destruct (os_OpenFile p O_RDONLY 0 w) as [w' [f|e]] eqn:Ho.
  - exact (open_same _ O_RDONLY _ _ _ _ eq_refl eq_refl Ho).
  - by eapply open_err_same.
Qed.

Lemma unrec_close f : keeps K (on_os (atomic (f_Close f))).
Proof. apply unrec_os. intros w. destruct (f_Close f w) eqn:Hc. by eapply close_same. Qed.

Lemma unrec_rest f : keeps K (on_os (atomic (f_ReadRest f))).
Proof. apply unrec_os. intros w. destruct (f_ReadRest f w) eqn:Hc. by eapply rest_same. Qed.

Hint Resolve unrec_cc unrec_sleep unrec_add unrec_open unrec_close unrec_rest within_ret : unrec.

Ltac unrec :=
  repeat first [ apply within_ret | progress case_match
               | apply keeps_bind; [solve [auto with unrec]|intros ?] | apply keeps_within; solve [auto with unrec] ].

Lemma unrec_verify rpath lpath : within K 4 (verifyFileHash rpath lpath).
Proof. unfold verifyFileHash. unrec. Qed.

Lemma unrec_create src target info : within K 3 (upload_create src target info).
Proof. unfold upload_create. unrec. Qed.

Lemma unrec_start src target info chunk batch x x1 r : w0 = x_w x →
  snd (run_alone (loadResumeState src target (fi_Size info) chunk batch) (x_w x)) = None →
  run_alone (upload_start src target info chunk batch) x = (x1, r) → K x1.
Proof.
  intros Hw Hl. unfold upload_start. rewrite run_alone_bind, run_load. cbn [fst snd]. rewrite Hl. intros Hr.
  set (x0 := set_xrs None _) in Hr. assert (K x0) as HK0 by (rewrite Hw; split; [done|apply load_same]).
  eapply (f_equal fst) in Hr. cbn [fst] in Hr. rewrite <- Hr.
  apply (within_run _ (3 + 1)); [|done]. apply within_bind; [apply unrec_create|intros ?; unrec].
Qed.

Lemma unrec_finish src target sfd sha err x x' r : K x →
  run_alone (upload_finish src target sfd sha err) x = (x', r) → K x'.
Proof.
  intros HK. unfold upload_finish. rewrite run_alone_bind.
  set (m := match err with Some _ => _ | None => _ end).
  assert (K (fst (run_alone m x))) as HK'.
  { subst m. destruct err as [err|]; [done|]. rewrite run_alone_bind.
    set (v := if sha then _ else _).
    assert (K (fst (run_alone v x))) as Hv.
    { subst v. destruct sha; [apply (within_run _ 4); [apply unrec_verify|done]|done]. }
    destruct (snd (run_alone v x)); [done|]. rewrite run_ask, (proj1 Hv). exact Hv. }
  clearbody m. intros Hr. eapply (f_equal fst) in Hr. cbn [fst] in Hr. rewrite <- Hr.
  apply (within_run _ 1); [unrec|done].
Qed.

Lemma unrec_pool sfd target retries algo batch cs x r x' : K x →
  pool_run (xfer_env (upload_chunk sfd target retries algo)) batch cs x r x' → K x'.
Proof.
  intros HK. apply (pool_keeps _ _ (chunk_actions retries) K (λ _, True)); [| | |by apply Forall_true|done].
  - intros c _. apply within_upload; auto with unrec.
  - done.
  - intros s [Hrs Hs]. simpl. by rewrite Hrs.
Qed.
End Fresh.

(** ** What a download leaves on the server *)

Section ReadsOnly.
  Context `{Transport, !Ctx, Gzip, SecretBox, Rand, Json, TempDir, OS}.
  Context (key : option (list byte)) {RF : RemoteFiles key} (n0 : net).

(** A sound network with the remote files of [n0]. *)
Definition untouched (x : xfer) : Prop :=
  net_ok key (x_net x) ∧ ∀ t, remote key (x_net x) t = remote key n0 t.
#[local] Notation K := untouched.

Lemma ro_sleep ns : keeps K (sleep ns).
Proof.
  apply within_atomic. intros x [Hn Hr]. destruct (ctx_wait ns (x_net x)) as [n e] eqn:Hw.
  destruct (wait_law _ _ _ _ Hw) as (Hok & Hsame & _). split; [by apply Hok|]. intros t. simpl. by rewrite Hsame.
Qed.

Lemma ro_resume f : keeps K (on_resume f).
Proof. apply within_atomic. intros x HK. by destruct (run_alone (f (x_rs x)) (x_w x)) as [w [rs e]]. Qed.

Lemma ro_os {A} (m : prog world A) : keeps K (on_os m).
Proof. apply within_atomic. intros x HK. by destruct (run_alone m (x_w x)). Qed.

Lemma ro_load src target size chunk batch : within K 2 (load_state src target size chunk batch).
Proof. apply (within_bind K 1 1); [apply ro_os|]. intros s. by apply within_atomic. Qed.

(** A call that leaves the remote files alone. *)
Lemma ro_call {A} (m : ST (client * net) A) :
  (∀ cc n r cc' n', m (cc, n) = (r, (cc', n')) → net_ok key n →
     net_ok key n' ∧ ∀ t, remote key n' t = remote key n t) → keeps K (on_cc m).
Proof.
  intros Hm. apply within_atomic. intros x [Hn Hr]. destruct (m (x_cc x, x_net x)) as [r [cc' n']] eqn:Hc.
  destruct (Hm _ _ _ _ _ Hc Hn) as [Hn' Hr']. split; [done|]. intros t. simpl. by rewrite Hr'.
Qed.

Lemma ro_stat src : keeps K (on_cc (Stat src)).
Proof.
  apply ro_call. intros cc n r cc' n' (id & -> & Hc)%Stat_run Hn. split; [by eapply call_net_ok; [exact Hn| |exact Hc]|].
  by destruct (remote_stat _ _ _ _ _ Hn Hc).
Qed.
Lemma ro_readDir src : keeps K (on_cc (ReadDir src)).
Proof.
  apply ro_call. intros cc n r cc' n' (id & -> & Hc)%ReadDir_run Hn. split; [by eapply call_net_ok; [exact Hn| |exact Hc]|].
  by eapply remote_readDir.
Qed.
Lemma ro_hash src : keeps K (on_cc (Hash src)).
Proof.
  apply ro_call. intros cc n r cc' n' (id & -> & Hc)%Hash_run Hn. split; [by eapply call_net_ok; [exact Hn| |exact Hc]|].
  by destruct (remote_hash _ _ _ _ _ Hn Hc).
Qed.
Lemma ro_read src off size algo : make_ok size = true → keeps K (on_cc (Read src off size algo)).
Proof.
  intros Hs. apply ro_call. intros cc n r cc' n' (id & -> & Hc)%Read_run Hn. split; [by eapply call_net_ok; [exact Hn| |exact Hc]|].
  eapply remote_read; [exact Hn| |exact Hc]. done.
Qed.

Hint Resolve ro_sleep ro_resume ro_os ro_stat ro_readDir ro_hash ro_read ro_load keeps_ask within_ret : ro.

Ltac ro :=
  repeat first [ apply within_ret | progress case_match
               | apply keeps_bind; [solve [auto with ro]|intros ?] | apply keeps_within; solve [auto with ro] ].

Lemma ro_verify rpath lpath : within K 4 (verifyFileHash rpath lpath).
Proof. unfold verifyFileHash. ro. Qed.

Lemma ro_stat_attempts fuel attempt maxRetries src last :
  within K (2 * fuel) (stat_attempts fuel attempt maxRetries src last).
Proof.
  revert attempt last. induction fuel as [|fuel IH]; intros attempt last; cbn [stat_attempts]; [done|].
  apply (within_mono _ (1 + (1 + 2 * fuel))); [lia|]. apply within_bind; [apply ro_stat|]. intros r.
  destruct (stat_outcome r) as [?|e|]; try apply within_ret.
  apply within_wait; [apply ro_sleep|]. intros [e'|]; [apply within_ret|apply IH].
Qed.

Lemma ro_start src target chunk batch retries :
  within K (2 * attempts retries + (2 + 1)) (download_start src target chunk batch retries).
Proof.
  unfold download_start. apply within_bind; [apply ro_stat_attempts|]. intros [st|e]; [|apply within_ret].
  apply within_bind; [apply ro_load|]. intros s. ro.
Qed.

Lemma ro_finish src target st tfd sha err : within K (1 + (4 + 2) + 1) (download_finish src target st tfd sha err).
Proof.
  unfold download_finish. apply within_bind; [|intros ?; ro]. destruct err as [e|]; [apply within_ret|].
  apply within_bind; [apply ro_os|]. intros [e|]; [apply within_ret|].
  apply within_bind; [destruct sha; [apply ro_verify|apply within_ret]|]. intros [e|]; [apply within_ret|]. ro.
Qed.

(** The sizes of the chunks. *)
Lemma chunk_loop_sizes fuel k off rem cs : 0 < k → chunk_loop fuel k off rem = Some cs → Forall (λ c, 0 < snd c <= k) cs.
Proof.
  intros Hk. revert off rem cs. induction fuel as [|fuel IH]; intros off rem cs; cbn [chunk_loop];
    (destruct (0 <? rem) eqn:E; [|by intros [= <-]]); [done|]. zbool.
  destruct (chunk_loop fuel _ _ _) as [rest|] eqn:Hl; [|done]. intros [= <-]. constructor; [|by eapply IH].
  simpl. unfold next_size. destruct (rem <? k) eqn:?; zbool; lia.
Qed.

Lemma download_untouched src target chunk batch retries ck sha algo x r x' : 0 < chunk → chunk <= 2 ^ 48 →
  K x → downloadFile src target chunk batch retries ck sha algo x r x' → K x'.
Proof.
  intros Hc Hc48 HK. unfold downloadFile.
  pose proof (within_run _ _ _ x (ro_start src target chunk batch retries) HK) as HK1.
  destruct (run_alone (download_start _ _ _ _ _) x) as [x1 [[st tfd]|e]]; [|by intros [_ ->]].
  intros (err & x2 & (fuel & cs & Hch & Hrun) & Hfin).
  assert (K x2) as HK2.
  { revert Hrun. apply (pool_keeps _ _ (chunk_actions retries) K (λ c, make_ok (snd c) = true)); [| | | |done].
    - intros c Hmk. apply within_download; auto with ro.
    - intros y [Hn Hr]. destruct (cancel_law (x_net y)) as (_ & Hok & Hsame). split; [by apply Hok|].
      intros t. simpl. by rewrite Hsame.
    - intros y HKy. simpl. by destruct (run_alone (flushResumeState (x_rs y)) (x_w y)) as [w [rs e]].
    - eapply Forall_impl; [by eapply chunk_loop_sizes|]. simpl. intros [off sz] Hsz. simpl in *. unfold make_ok.
      rewrite andb_true_iff, !Z.leb_le. lia. }
  pose proof (within_run _ _ _ x2 (ro_finish src target st tfd sha err) HK2) as HK3. by rewrite Hfin in HK3.
Qed.
End ReadsOnly.
