(* ===== verification/ServerLink.v ===== *)
(** The server of Server.v, behind a network that may lose requests and answers,
    implements the interface [RemoteFiles]: what the handlers do to the machine of the
    server, seen as a set of files by a client on one authenticated connection.

    The link works on messages: that those within the limits cross the wire unharmed is
    the subject of MessageSpec.v, ReceiveSpec.v and AuthSpec.v.  A call whose request or
    answer is lost waits for the end of the context, as the hub makes it
    ([ClientSpec.lost_request_waits_forever]); one made after the end returns its error. *)
From S2P Require Import Prelude Message GoStd GoHash OS Chunk Auth FdCache Server Hoare ServerStep ServerInv ServerData Client Prog Pool Resume Transfer Remote.
From Stdlib Require Import Strings.Byte.

Inductive fault : Set := Delivered | RequestLost | AnswerLost.
#[export] Instance fault_eq_dec : EqDecision fault.
Proof. solve_decision. Defined.

Section Link.
  Context `{Cbor, GoFmt, OSLaws, SSH, UserDB, GzipOk, SecretBoxOk, RandOk}.
  Context (c : conn_id) (ca : connAuth).

Record link : Type := {
  l_srv : srv;
  l_ctx : option error;
  l_faults : list fault;   (* of the calls to come; none when it runs out *)
}.

(** The answer the server sent while it handled a request. *)
Definition answer_of (s s' : srv) : option (MSG * list byte) :=
  last (drop (length (c_sent (conn_at s c))) (c_sent (conn_at s' c))).

(** What reaches the client of it.  A reader refuses a frame beyond the limits of the
    protocol, or with a body that does not decode, and gives the connection up. *)
Definition arrives (f : fault) (a : option (MSG * list byte)) : option (MSG * list byte) :=
  match f, a with
  | Delivered, Some (r, q) => if bool_decide (sendable r q) then Some (r, q) else None
  | _, _ => None
  end.

Definition link_call (m : MSG) (p : list byte) (n : link) : link * result (MSG * list byte) :=
  match l_ctx n with
  | Some e => (n, Err e)
  | None =>
    let f := default Delivered (head (l_faults n)) in
    let fs := tail (l_faults n) in
    let lost s := ({| l_srv := s; l_ctx := Some ctx_Canceled; l_faults := fs |}, Err ctx_Canceled) in
    if bool_decide (f = RequestLost) || negb (bool_decide (sendable m p)) then lost (l_srv n) else
    let s' := exec (process {| wm_msg := m; wm_payload := p; wm_conn := c |}) (l_srv n) in
    match arrives f (answer_of (l_srv n) s') with
    | Some rp => ({| l_srv := s'; l_ctx := None; l_faults := fs |}, Ok rp)
    | None => lost s'
    end
  end.

Lemma arrives_answer f a rp : arrives f a = Some rp → a = Some rp ∧ sendable (fst rp) (snd rp).
Proof. unfold arrives. destruct f, a as [[r q]|]; try done. case_bool_decide; [|done]. by intros [= <-]. Qed.

#[export] Instance link_transport : Transport := { net := link; call := link_call }.

#[export] Instance link_context : Ctx := {
  ctx_Err := l_ctx;
  ctx_cancel n := {| l_srv := l_srv n; l_ctx := Some (default ctx_Canceled (l_ctx n)); l_faults := l_faults n |};
  ctx_wait _ n := (n, l_ctx n);
}.

(** The connection is authenticated as [ca], and the server is sound. *)
Record link_ok (n : link) : Prop := {
  lo_fds : fds_ok (l_srv n);
  lo_panic : s_panic (l_srv n) = false;
  lo_open : c_closed (conn_at (l_srv n) c) = false;
  lo_ctx : c_ctx (conn_at (l_srv n) c) = Some ca;
}.

(** The file a path of the client names on the server. *)
Definition file_at (w : world) (t : string) : option (list byte) :=
  match sandboxPath (Some ca) t with
  | Ok spath => i ← at_path w spath; idata w i
  | Err _ => None
  end.

Definition link_file (n : link) (t : string) : option (list byte) := file_at (s_world (l_srv n)) t.

Context (ca_auth : ca_state ca = authOK).

Lemma process_dispatch m p s : c_ctx (conn_at s c) = Some ca → msg_Type m ≠ AuthReqT →
  exec (process {| wm_msg := m; wm_payload := p; wm_conn := c |}) s =
  exec (dispatch {| wm_msg := m; wm_payload := p; wm_conn := c |} ca) s.
Proof.
  intros Hc Hm. unfold process. cbn [wm_msg wm_conn].
  assert (∀ k : option connAuth → ST srv (), exec (ca ← get_auth c; k ca) s = exec (k (Some ca)) s) as Hget.
  { intros k. rewrite exec_bind. unfold get_auth, eval, exec, getConnAuth. cbn [fst snd]. by rewrite Hc. }
  destruct m; try done; rewrite Hget, bool_decide_true by done; done.
Qed.

Lemma client_request_type m : client_request m = true →
  msg_Type m ≠ AuthReqT ∧ no_panic m ∧ is_Some (response_type m).
Proof. destruct m; try done; intros Hm; split_and!; try done; by eexists. Qed.

(** A call either leaves the server alone, or the server handles the request; it answers
    once, and the caller gets that answer or the end of its context. *)
Lemma link_call_cases m p n n' r : link_ok n → client_request m = true → link_call m p n = (n', r) →
  ∃ s', (s' = l_srv n ∨ s' = exec (dispatch {| wm_msg := m; wm_payload := p; wm_conn := c |} ca) (l_srv n))
    ∧ l_srv n' = s' ∧ (is_Some (l_ctx n) → is_Some (l_ctx n'))
    ∧ (∀ rp, r = Ok rp → s' = exec (dispatch {| wm_msg := m; wm_payload := p; wm_conn := c |} ca) (l_srv n)
         ∧ answer_of (l_srv n) s' = Some rp).
Proof.
  intros Hok Hm Hcall. destruct (client_request_type m Hm) as (Ht & _ & _).
  unfold link_call in Hcall. rewrite (process_dispatch m p _ (lo_ctx n Hok) Ht) in Hcall. cbv zeta in Hcall.
  destruct (l_ctx n) as [e|] eqn:Hc.
  { injection Hcall as <- <-. exists (l_srv n). rewrite Hc. by split_and!; [left|..]. }
  set (s' := exec _ (l_srv n)) in *. set (f := default Delivered _) in *.
  destruct (_ || _); [|destruct (arrives f _) as [rp|] eqn:Ha; [apply arrives_answer in Ha as [Ha _]|]]; injection Hcall as <- <-;
    (eexists; split; [|split; [reflexivity|]]; simpl; [by auto|split; [by intros []|]]); intros ? [= <-]; done.
Qed.

Lemma dispatch_ok m p s : client_request m = true → fds_ok s → s_panic s = false →
  c_closed (conn_at s c) = false → c_ctx (conn_at s c) = Some ca →
  let s' := exec (dispatch {| wm_msg := m; wm_payload := p; wm_conn := c |} ca) s in
  fds_ok s' ∧ s_panic s' = false ∧ c_closed (conn_at s' c) = false ∧ c_ctx (conn_at s' c) = Some ca.
Proof.
  intros Hm Hf Hp Ho Hc s'. destruct (client_request_type m Hm) as (Ht & Hnp & [t Hr]).
  assert (fds_ok s') as Hf'.
  { unfold s'. rewrite <- process_dispatch by done.
    exact (process_fds {| wm_msg := m; wm_payload := p; wm_conn := c |} s Hf). }
  pose proof (dispatch_replies {| wm_msg := m; wm_payload := p; wm_conn := c |} ca t s Hr Ht Hnp) as Hrep.
  apply replied_conns in Hrep as (r & q & _ & _ & Hctx & Hcl & _ & _ & _ & _ & _ & Hpan & _).
  cbn [wm_conn] in Hctx, Hcl. split_and!; [done| | |]; unfold s', exec in *; congruence.
Qed.

(** The answer to a request is the message its handler sent. *)
Lemma answer_answered s s' r q rp : c_closed (conn_at s c) = false → answered c r q s s' →
  answer_of s s' = Some rp → rp = (r, q).
Proof.
  intros Ho Ha. apply replied_sent in Ha as (r' & q' & [-> ->] & Hs); [|done].
  unfold answer_of. rewrite Hs, drop_app_length. simpl. congruence.
Qed.

Lemma file_at_same w w' t : same_files w w' → file_at w' t = file_at w t.
Proof.
  intros [Hd Hp]. unfold file_at. destruct (sandboxPath _ t); [|done]. rewrite Hp.
  destruct (at_path w _); simpl; [apply Hd|done].
Qed.

Lemma file_at_Some w t spath : sandboxPath (Some ca) t = Ok spath → file_at w t = (i ← at_path w spath; idata w i).
Proof. unfold file_at. by intros ->. Qed.

(** ** The laws *)

Lemma link_net_ok m p n n' r : link_ok n → client_request m = true → link_call m p n = (n', r) → link_ok n'.
Proof.
  intros Hok Hm Hcall. destruct (link_call_cases _ _ _ _ _ Hok Hm Hcall) as (s' & Hs & Hn & _).
  destruct Hok as [Hf Hp Ho Hc]. destruct Hs as [->| ->]; [by split; rewrite Hn|].
  destruct (dispatch_ok m p (l_srv n) Hm Hf Hp Ho Hc) as (? & ? & ? & ?). split; by rewrite Hn.
Qed.

Lemma file_after_write data off w w' t spath : sandboxPath (Some ca) t = Ok spath →
  write_effect data off spath w w' → partly_written (file_at w t) (file_at w' t) data off.
Proof.
  intros Hsb [Hq Hi]. rewrite !(file_at_Some _ _ _ Hsb), Hq.
  destruct (at_path w spath) as [i|]; simpl; [|by left].
  destruct (Hi i eq_refl) as [?|(Ho & old & k & Hold & Hnew)]; [by left|right]. split; [done|]. by exists old, k.
Qed.

Lemma link_write req p n n' r data : link_ok n → link_call (MWriteReq req) p n = (n', r) →
  decodes (ca_encryptionKey ca) req p data →
  partly_written (link_file n (WriteReq.Path req)) (link_file n' (WriteReq.Path req)) data (WriteReq.Offset req)
  ∧ (∀ res q, r = Ok (MWriteRes res, q) → WriteRes.Success res = true → data ≠ [] →
       0 <= WriteReq.Offset req ∧ ∃ old, link_file n (WriteReq.Path req) = Some old
       ∧ link_file n' (WriteReq.Path req) = Some (write_at old data (Z.to_nat (WriteReq.Offset req)))).
Proof.
  intros Hok Hcall Hdec. pose proof (Hdec ca eq_refl) as Hpl.
  destruct (link_call_cases (MWriteReq req) _ _ _ _ Hok eq_refl Hcall) as (s' & Hs & Hn & _ & Hans). unfold link_file. rewrite Hn.
  pose proof (lo_fds n Hok) as Hf.
  destruct (sandboxPath (Some ca) (WriteReq.Path req)) as [spath|e] eqn:Hsb.
  2: { split; [left; unfold file_at; by rewrite Hsb|]. intros res q Hr Hsuc.
       destruct (Hans _ Hr) as [-> Ha]. destruct (write_data c req p ca (l_srv n) Hf) as (r0 & Ha0 & _ & _ & Hpost).
       pose proof (answer_answered _ _ _ _ _ (lo_open n Hok) Ha0 Ha) as Heq. simplify_eq.
       destruct (Hpost Hsuc) as (? & ? & ? & _ & Hsb' & _). congruence. }
  split.
  - destruct Hs as [->| ->]; [by left|]. apply (file_after_write _ _ _ _ _ _ Hsb).
    exact (write_partly c req p ca data spath (l_srv n) Hf Hpl Hsb).
  - intros res q Hr Hsuc Hne. destruct (Hans _ Hr) as [-> Ha].
    destruct (write_data c req p ca (l_srv n) Hf) as (r0 & Ha0 & _ & _ & Hpost).
    pose proof (answer_answered _ _ _ _ _ (lo_open n Hok) Ha0 Ha) as Heq. simplify_eq.
    destruct (Hpost Hsuc) as (data' & spath' & i & Hpl' & Hsb' & Hat & _ & Hq & _ & _ & Hw).
    rewrite Hpl in Hpl'. injection Hpl' as <-. rewrite Hsb in Hsb'. injection Hsb' as <-.
    destruct (Hw Hne) as (Ho & old & Hold & Hnew). split; [done|]. exists old.
    rewrite !(file_at_Some _ _ _ Hsb). split; [by rewrite Hat|]. rewrite Hq, Hat. exact Hnew.
Qed.

Lemma link_create req p n n' res q : link_ok n → CreateReq.IsDir req = false →
  link_call (MCreateReq req) p n = (n', Ok (MCreateRes res, q)) → CreateRes.Success res = true →
  link_file n' (CreateReq.Path req) = link_file n (CreateReq.Path req)
  ∨ link_file n (CreateReq.Path req) = None
    ∧ link_file n' (CreateReq.Path req) = Some (replicate (Z.to_nat (CreateReq.Size req)) x00).
Proof.
  intros Hok Hdir Hcall Hsuc.
  assert (client_request (MCreateReq req) = true) as Hm by (simpl; by rewrite Hdir).
  destruct (link_call_cases _ _ _ _ _ Hok Hm Hcall) as (s' & _ & Hn & _ & Hans). unfold link_file. rewrite Hn.
  destruct (Hans _ eq_refl) as [-> Ha]. destruct (create_data c req (Some ca) (l_srv n)) as (r0 & Ha0 & _ & _ & Hpost).
  pose proof (answer_answered _ _ _ _ _ (lo_open n Hok) Ha0 Ha) as Heq. simplify_eq.
  destruct (Hpost Hsuc Hdir) as (spath & Hsb & [((i & Hat & Hat') & Hd)|(Hnone & i & Hat & Hi)]);
    rewrite !(file_at_Some _ _ _ Hsb).
  - left. cbn [dispatch wm_msg wm_conn]. rewrite Hat, Hat'. apply Hd.
  - right. rewrite Hnone. split; [done|]. cbn [dispatch wm_msg wm_conn]. rewrite Hat. exact Hi.
Qed.

(** Where nothing was, a create that reports success makes a file. *)
Lemma link_create_new req p n n' res q spath : link_ok n → CreateReq.IsDir req = false →
  link_call (MCreateReq req) p n = (n', Ok (MCreateRes res, q)) → CreateRes.Success res = true →
  sandboxPath (Some ca) (CreateReq.Path req) = Ok spath → at_path (s_world (l_srv n)) spath = None →
  link_file n' (CreateReq.Path req) = Some (replicate (Z.to_nat (CreateReq.Size req)) x00).
Proof.
  intros Hok Hdir Hcall Hsuc Hsb Hno.
  assert (client_request (MCreateReq req) = true) as Hm by (simpl; by rewrite Hdir).
  destruct (link_call_cases _ _ _ _ _ Hok Hm Hcall) as (s' & _ & Hn & _ & Hans). unfold link_file. rewrite Hn.
  destruct (Hans _ eq_refl) as [-> Ha]. destruct (create_data c req (Some ca) (l_srv n)) as (r0 & Ha0 & _ & _ & Hpost).
  pose proof (answer_answered _ _ _ _ _ (lo_open n Hok) Ha0 Ha) as Heq. simplify_eq.
  destruct (Hpost Hsuc Hdir) as (spath' & Hsb' & Hmade). rewrite Hsb in Hsb'. injection Hsb' as <-.
  destruct Hmade as [((i & Hat & _) & _)|(_ & i & Hat & Hi)]; [congruence|].
  rewrite (file_at_Some _ _ _ Hsb). cbn [dispatch wm_msg wm_conn]. rewrite Hat. exact Hi.
Qed.

Lemma link_read req p n n' r : reads_whole → link_ok n → make_ok (ReadReq.Size req) = true →
  link_call (MReadReq req) p n = (n', r) →
  (∀ t, link_file n' t = link_file n t)
  ∧ (∀ res q, r = Ok (MReadRes res, q) → ReadRes.Success res = true → 0 < ReadReq.Size req →
       0 <= ReadReq.Offset req ∧ ∃ d, link_file n (ReadReq.Path req) = Some d
       ∧ ∀ o, download_payload res q (ca_encryptionKey ca) o
              = Ok (take (Z.to_nat (ReadReq.Size req)) (drop (Z.to_nat (ReadReq.Offset req)) d))).
Proof.
  intros Hwhole Hok Hm Hcall.
  destruct (link_call_cases (MReadReq req) _ _ _ _ Hok Hm Hcall) as (s' & Hs & Hn & _ & Hans).
  unfold link_file. rewrite Hn.
  destruct (read_data c req ca (l_srv n) (lo_fds n Hok) Hm) as (r0 & p0 & Ha0 & _ & Hsame & Hpost).
  split; [intros t; destruct Hs as [->| ->]; [done|by apply file_at_same]|].
  intros res q Hr Hsuc Hsz. destruct (Hans _ Hr) as [-> Ha].
  pose proof (answer_answered _ _ _ _ _ (lo_open n Hok) Ha0 Ha) as Heq. simplify_eq.
  destruct (Hpost Hsuc) as (data & spath & Hsb & (_ & Hne & i & Hat & Hd) & _ & _ & _ & Hdl).
  destruct (Hd (Hne Hsz)) as (Ho & old & Hold & _ & Hfull). split; [done|]. exists old.
  rewrite (file_at_Some _ _ _ Hsb), Hat. split; [exact Hold|]. intros o. by rewrite Hdl, <- (Hfull Hwhole).
Qed.

Lemma link_stat req p n n' r : link_ok n → link_call (MStatReq req) p n = (n', r) →
  (∀ t, link_file n' t = link_file n t)
  ∧ (∀ res q d, r = Ok (MStatRes res, q) → StatRes.Success res = true →
       link_file n (StatReq.Path req) = Some d → StatRes.Size res = zlen d).
Proof.
  intros Hok Hcall. destruct (link_call_cases (MStatReq req) _ _ _ _ Hok eq_refl Hcall) as (s' & Hs & Hn & _ & Hans).
  unfold link_file. rewrite Hn.
  destruct (stat_data c req (Some ca) (l_srv n)) as (Hw & _ & r0 & Ha0 & Hpost).
  split; [intros t; destruct Hs as [->| ->]; [done|]; by apply (f_equal (λ w, file_at w t)) in Hw|].
  intros res q d Hr Hsuc. destruct (Hans _ Hr) as [-> Ha].
  pose proof (answer_answered _ _ _ _ _ (lo_open n Hok) Ha0 Ha) as Heq. simplify_eq.
  destruct (Hpost Hsuc) as (spath & info & Hsb & Hst & -> & _). rewrite (file_at_Some _ _ _ Hsb).
  destruct (at_path (s_world (l_srv n)) spath) as [i|] eqn:Hat; [|done]. simpl. by apply (stat_size _ _ _ _ _ Hst).
Qed.

Lemma link_readDir req p n n' r : link_ok n → link_call (MReadDirReq req) p n = (n', r) →
  ∀ t, link_file n' t = link_file n t.
Proof.
  intros Hok Hcall. destruct (link_call_cases (MReadDirReq req) _ _ _ _ Hok eq_refl Hcall) as (s' & Hs & Hn & _ & _).
  unfold link_file. rewrite Hn. destruct (readDir_data c req (Some ca) (l_srv n)) as (Hw & _).
  intros t. destruct Hs as [->| ->]; [done|]. by apply (f_equal (λ w, file_at w t)) in Hw.
Qed.

Lemma link_hash req p n n' r : link_ok n → link_call (MHashReq req) p n = (n', r) →
  (∀ t, link_file n' t = link_file n t)
  ∧ (∀ res q, r = Ok (MHashRes res, q) → HashRes.Success res = true →
       ∃ d, link_file n (HashReq.Path req) = Some d ∧ HashRes.Hash res = Sum256 d).
Proof.
  intros Hok Hcall. destruct (link_call_cases (MHashReq req) _ _ _ _ Hok eq_refl Hcall) as (s' & Hs & Hn & _ & Hans).
  unfold link_file. rewrite Hn.
  destruct (hash_data c req (Some ca) (l_srv n) (lo_fds n Hok)) as (r0 & Ha0 & _ & Hsame & Hpost).
  split; [intros t; destruct Hs as [->| ->]; [done|by apply file_at_same]|].
  intros res q Hr Hsuc. destruct (Hans _ Hr) as [-> Ha].
  pose proof (answer_answered _ _ _ _ _ (lo_open n Hok) Ha0 Ha) as Heq. simplify_eq.
  destruct (Hpost Hsuc) as (spath & i & d & Hsb & Hat & Hd & Hh). exists d.
  rewrite (file_at_Some _ _ _ Hsb), Hat. by split.
Qed.

(** The server implements the interface. *)
Definition server_files (whole : reads_whole) : RemoteFiles (ca_encryptionKey ca).
Proof.
  refine {| net_ok := link_ok : net → Prop; remote := link_file : net → string → _ |}.
  - intros m p n n' r Hok Hm. by apply link_net_ok.
  - intros m p n n' r Hcall. change (link_call m p n = (n', r)) in Hcall. change (is_Some (l_ctx n) → is_Some (l_ctx n')).
    intros [e He]. unfold link_call in Hcall. rewrite He in Hcall. injection Hcall as <- _. by exists e.
  - intros req p n n' r data. apply link_write.
  - intros req p n n' res q. apply link_create.
  - intros req p n n' r. by apply link_read.
  - intros req p n n' r. apply link_stat.
  - intros req p n n' r. apply link_readDir.
  - intros req p n n' r. apply link_hash.
  - intros n. split; [by eexists|]. split; [by intros []; split|done].
  - intros ns n n' e [= <- <-]. done.
Defined.

End Link.
