(* ===== verification/TransferExec.v ===== *)
(** One schedule of a transfer, as a function: the chunks run one after the other
    ([PoolSpec.pool_exec]).  The closed examples of the development run on it; what it
    computes is a result the relations [uploadFile] and [downloadFile] allow. *)
From S2P Require Import Prelude Message PlainCodec GoStd GoHash OS MemFS Chunk Auth FdCache Hoare Server ServerStep ServerInv ServerData Demo Client Prog Pool PoolSpec Resume Transfer Remote ServerLink.
From Stdlib Require Import Strings.Byte.

Section Exec.
  Context `{Transport, !Ctx, Gzip, SecretBox, Rand, Json, TempDir, OS}.

Definition upload_exec (fuel : nat) (src target : string) (info : FileInfo) (chunkSize batch maxRetries : Z)
    (sha : bool) (algo : Z) (x : xfer) : option (option error * xfer) :=
  match run_alone (upload_start src target info chunkSize batch) x with
  | (x1, Err err) => Some (Some err, x1)
  | (x1, Ok sfd) =>
    cs ← chunks fuel (fi_Size info) chunkSize 0;
    '(err, x2) ← pool_exec (xfer_env (upload_chunk sfd target maxRetries algo)) (Z.to_nat batch) cs x1;
    let '(x', r) := run_alone (upload_finish src target sfd sha err) x2 in Some (r, x')
  end.

Lemma upload_exec_run fuel src target info chunkSize batch maxRetries sha algo x r x' : 0 < batch →
  upload_exec fuel src target info chunkSize batch maxRetries sha algo x = Some (r, x') →
  uploadFile src target info chunkSize batch maxRetries sha algo x r x'.
Proof.
  intros Hb. unfold upload_exec, uploadFile.
  destruct (run_alone (upload_start _ _ _ _ _) x) as [x1 [sfd|e]]; [|by intros [= <- <-]].
  destruct (chunks fuel _ _ _) as [cs|] eqn:Hcs; [|done]. simpl.
  destruct (pool_exec _ _ _ _) as [[err x2]|] eqn:Hp; [|done]. simpl.
  destruct (run_alone (upload_finish _ _ _ _ _) x2) as [x3 r3] eqn:Hf. intros [= <- <-].
  exists err, x2. split; [|done]. exists fuel, cs. split; [done|]. apply pool_exec_run; [lia|done].
Qed.

Definition download_exec (fuel : nat) (src target : string) (chunkSize batch maxRetries : Z)
    (useChecksum sha : bool) (algo : Z) (x : xfer) : option (option error * xfer) :=
  match run_alone (download_start src target chunkSize batch maxRetries) x with
  | (x1, Err err) => Some (Some err, x1)
  | (x1, Ok (statRes, tfd)) =>
    cs ← chunks fuel (StatRes.Size statRes) chunkSize 0;
    '(err, x2) ← pool_exec (xfer_env (download_chunk tfd src maxRetries useChecksum algo)) (Z.to_nat batch) cs x1;
    let '(x', r) := run_alone (download_finish src target statRes tfd sha err) x2 in Some (r, x')
  end.

Lemma download_exec_run fuel src target chunkSize batch maxRetries ck sha algo x r x' : 0 < batch →
  download_exec fuel src target chunkSize batch maxRetries ck sha algo x = Some (r, x') →
  downloadFile src target chunkSize batch maxRetries ck sha algo x r x'.
Proof.
  intros Hb. unfold download_exec, downloadFile.
  destruct (run_alone (download_start _ _ _ _ _) x) as [x1 [[res tfd]|e]]; [|by intros [= <- <-]].
  destruct (chunks fuel _ _ _) as [cs|] eqn:Hcs; [|done]. simpl.
  destruct (pool_exec _ _ _ _) as [[err x2]|] eqn:Hp; [|done]. simpl.
  destruct (run_alone (download_finish _ _ _ _ _ _) x2) as [x3 r3] eqn:Hf. intros [= <- <-].
  exists err, x2. split; [|done]. exists fuel, cs. split; [done|]. apply pool_exec_run; [lia|done].
Qed.
End Exec.

(** ** The machines of the closed examples *)

(** A stand-in for JSON: any countable value as the bits of its number. *)
Fixpoint put_bits (p : positive) : list byte :=
  match p with xH => [x02] | xO p => x00 :: put_bits p | xI p => x01 :: put_bits p end.
Fixpoint get_bits (l : list byte) : option positive :=
  match l with
  | [] => None
  | x00 :: l => xO <$> get_bits l
  | x01 :: l => xI <$> get_bits l
  | _ => Some xH
  end.
Lemma get_put_bits p : get_bits (put_bits p) = Some p.
Proof. induction p as [p IH|p IH|]; simpl; rewrite ?IH; done. Qed.

#[export] Instance toy_json : Json := {
  json_Encode j := put_bits (encode (j_Version j, j_SourceSize j, j_ChunkSize j, j_Completed j));
  json_Decode l := match get_bits l ≫= decode with
    | Some (v, s, c, l) => Ok {| j_Version := v; j_SourceSize := s; j_ChunkSize := c; j_Completed := l |}
    | None => Err (demo_err "unexpected end of JSON input")
    end;
}.
#[export] Instance toy_json_ok : JsonOk.
Proof.
  split.
  - intros []. unfold json_Decode, json_Encode, toy_json. rewrite get_put_bits. simpl. by rewrite decode_encode.
  - intros j. unfold json_Encode, toy_json. by destruct (encode _).
Qed.
#[export] Instance toy_tmp : TempDir := "/tmp".

(** The authenticated connection 0 of [demo_srv], on a network without faults. *)
#[export] Instance demo_transport : Transport := link_transport 0%nat.
#[export] Instance demo_context : Ctx := link_context 0%nat.
#[export] Instance demo_remote : RemoteFiles (ca_encryptionKey demo_ca) :=
  server_files 0%nat demo_ca eq_refl mem_reads_whole.

Definition demo_link : link := {| l_srv := demo_srv; l_ctx := None; l_faults := [] |}.

Lemma demo_link_ok : link_ok 0%nat demo_ca demo_link.
Proof. by split; [apply demo_fds|vm_compute..]. Qed.

(** A client with that connection's key, and a file of its own. *)
Definition demo_cc : client :=
  {| cc_id := 2; cc_batch := 2; cc_useChecksum := true; cc_useEncryption := true; cc_authToken := "";
     cc_authUser := "u"; cc_encryptionKey := ca_encryptionKey demo_ca; cc_draws := 0 |}.

Definition demo_bytes : list byte := replicate 10 x61 ++ [x62].
Definition demo_disk : @world MemOS := put_file "/home/me/a" demo_bytes (mem_init ["/home"; "/home/me"; "/tmp"]).

Definition demo_xfer : xfer := {| x_cc := demo_cc; x_net := demo_link; x_w := demo_disk; x_rs := None |}.
Definition demo_info : FileInfo := {| fi_Name := "a"; fi_Size := 11; fi_Mode := 0x1A4; fi_ModTime := 0 |}.

(** An upload of the file in chunks of four bytes, and a download of the server's. *)
Definition demo_upload : option (option error * xfer) :=
  upload_exec 4 "/home/me/a" "b" demo_info 4 2 1 true CompressionGzip demo_xfer.
Definition demo_download : option (option error * xfer) :=
  download_exec 4 "f" "/home/me/c" 2 2 1 true true CompressionGzip demo_xfer.

Definition clean_end (r : option (option error * xfer)) : bool :=
  match r with Some (None, x) => bool_decide (l_ctx (x_net x) = None) | _ => false end.

Lemma demo_upload_clean : clean_end demo_upload = true.
Proof. vm_compute. reflexivity. Qed.
Lemma demo_download_clean : clean_end demo_download = true.
Proof. vm_compute. reflexivity. Qed.
