(* ===== verification/LinkSpec.v ===== *)
(** The server, seen from a transfer: it implements the interface [RemoteFiles], and its
    answers have the types the client's code asserts. *)
From S2P Require Import Prelude Message PlainCodec GoStd GoHash OS MemFS Chunk Auth FdCache Hoare Server ServerStep ServerInv ServerData Demo Client Prog Pool PoolSpec Resume Transfer Remote ServerLink TransferExec.
From Stdlib Require Import Strings.Byte.

(** C10: behind a network that may lose any request or answer, the server with one
    authenticated connection implements [RemoteFiles] - the interface against which the
    transfers are verified - with the session's key: the soundness of the server
    ([link_ok]) is the state the interface asks for, and the files it shows are those of
    the server's machine under the sandboxed names. *)
Theorem server_implements_remote_files
    `{Cbor, GoFmt, OSLaws, SSH, UserDB, GzipOk, SecretBoxOk, RandOk} (c : conn_id) (ca : connAuth) :
  ca_state ca = authOK → reads_whole →
  ∃ RF : @RemoteFiles (link_transport c) (link_context c) _ _ (ca_encryptionKey ca),
    (∀ n : link, net_ok (RemoteFiles := RF) _ n ↔ link_ok c ca n)
    ∧ ∀ (n : link) t, remote (RemoteFiles := RF) _ n t = link_file ca n t.
Proof. intros Hca Hw. exists (server_files c ca Hca Hw). by split. Qed.

Lemma server_implements_remote_files_witness :
  ∃ RF : RemoteFiles (ca_encryptionKey demo_ca), net_ok (RemoteFiles := RF) _ demo_link
    ∧ remote (RemoteFiles := RF) _ demo_link "f" = Some [x61; x62; x63; x64; x65].
Proof.
  destruct (server_implements_remote_files 0%nat demo_ca eq_refl mem_reads_whole) as (RF & Hok & Hf).
  exists RF. split; [apply Hok, demo_link_ok|]. etrans; [exact (Hf demo_link "f")|]. vm_compute. reflexivity.
Defined.

(** C23: the answer a client gets over the link carries the ID of its request and has the
    response type of the request, so none of the unchecked type assertions of the
    transfers fails against this server. *)
Theorem answers_have_response_type
    `{Cbor, GoFmt, OSLaws, SSH, UserDB, GzipOk, SecretBoxOk, RandOk} (c : conn_id) (ca : connAuth) m p n n' r q :
  ca_state ca = authOK → link_ok c ca n → client_request m = true → link_call c m p n = (n', Ok (r, q)) →
  response_type m = Some (msg_Type r) ∧ msg_GetID r = msg_GetID m.
Proof.
  intros Hca Hok Hm Hcall.
  destruct (link_call_cases c ca Hca m p n n' _ Hok Hm Hcall) as (s' & _ & _ & _ & Hans).
  destruct (Hans _ eq_refl) as [-> Ha]. destruct (client_request_type m Hm) as (Ht & Hnp & [t Hr]).
  pose proof (dispatch_replies {| wm_msg := m; wm_payload := p; wm_conn := c |} ca t (l_srv n) Hr Ht Hnp) as Hrep.
  apply replied_sent in Hrep as (r' & q' & [Hid Hty] & Hs); [|by apply Hok].
  cbn [wm_conn wm_msg] in *. unfold answer_of in Ha. unfold exec in *. rewrite Hs, drop_app_length in Ha.
  simpl in Ha. injection Ha as -> ->. rewrite Hr. by split; [f_equal|].
Qed.

Definition demo_stat : MSG := MStatReq {| StatReq.ID := 7; StatReq.Path := "f" |}.

Lemma demo_stat_answered : is_Ok (snd (link_call 0%nat demo_stat [] demo_link)) = true.
Proof. vm_compute. reflexivity. Qed.

Lemma answers_have_response_type_witness : ∃ n r q,
  link_call 0%nat demo_stat [] demo_link = (n, Ok (r, q)) ∧ msg_Type r = StatResT ∧ msg_GetID r = 7.
Proof.
  pose proof demo_stat_answered as Hok.
  destruct (link_call 0%nat demo_stat [] demo_link) as [n [[r q]|e]] eqn:Hc; [|discriminate Hok].
  destruct (answers_have_response_type 0%nat demo_ca demo_stat [] demo_link n r q eq_refl demo_link_ok eq_refl Hc)
    as [Ht Hid].
  exists n, r, q. split_and!; [reflexivity| |exact Hid]. injection Ht as Ht. symmetry. exact Ht.
Defined.
