(* ===== verification/Handshake.v ===== *)
(** The handshake of a client with the server, byte by byte: the [Dialer] whose other end
    is the server of Server.v.

    What the client writes lands in the connection's inbound buffer; when the client waits
    for an answer the server runs [OnTraffic] on that buffer and its workers handle the
    messages ([serve]).  A connection the server has closed takes writes and delivers what
    was sent before, then the end of the stream. *)
From S2P Require Import Prelude Message Receive ReceiveSpec GoStd GoHash OS Chunk Auth FdCache Server Hoare ServerStep ServerInv AuthSpec Client ClientAuth.
From Stdlib Require Import Strings.Byte.

Section Handshake.
  Context `{CborOk, GoFmt, OSLaws, SSH, UserDB, Gzip, SecretBox, RandOk}.

Record dlink : Type := {
  d_srv : srv;
  d_read : gmap conn_id nat;   (* bytes of each connection the client has read *)
}.

Definition on_srv (f : srv → srv) (n : dlink) : dlink := {| d_srv := f (d_srv n); d_read := d_read n |}.

(** The workers handle what is queued. *)
Definition drain (s : srv) : srv :=
  foldl (λ s wm, exec (process wm) s) (set_queue [] (s_busy s) s) (s_queue s).

Definition serve (c : conn_id) (s : srv) : srv :=
  if c_closed (conn_at s c) then s else
  match OnTraffic (S (length (c_in (conn_at s c)))) c s with
  | (Some gnet_Close, s) => drain (upd_conn c close_conn s)
  | (_, s) => drain s
  end.

Definition read_so_far (c : conn_id) (n : dlink) : nat := default 0%nat (d_read n !! c).

(** Bytes arrive. *)
Definition feed (c : conn_id) (b : list byte) (n : dlink) : dlink :=
  on_srv (upd_conn c (λ cn, set_in (c_in cn ++ b) cn)) n.

#[export] Instance server_dialer : Dialer := {
  dnet := dlink;
  tconn := conn_id;
  net_Dial _ n :=
    let c := fresh (dom (s_conns (d_srv n))) in
    ({| d_srv := set_conns (<[c := new_conn]> (s_conns (d_srv n))) (d_srv n); d_read := <[c := 0%nat]> (d_read n) |}, Ok c);
  tconn_Write c b n := (if c_closed (conn_at (d_srv n) c) then n else feed c b n, None);
  tconn_bytes c n := drop (read_so_far c n) (c_out (conn_at (serve c (d_srv n)) c));
  tconn_rest c rest n :=
    let s := serve c (d_srv n) in
    {| d_srv := s; d_read := <[c := (length (c_out (conn_at s c)) - length rest)%nat]> (d_read n) |};
  tconn_Close c n := on_srv (upd_conn c close_conn) n;
}.

(** ** One exchange *)

(** The server is idle, the connection open, and all its answers are read. *)
Record at_rest (c : conn_id) (n : dlink) : Prop := {
  ar_queue : s_queue (d_srv n) = [];
  ar_conn : is_Some (s_conns (d_srv n) !! c);
  ar_in : c_in (conn_at (d_srv n) c) = [];
  ar_read : read_so_far c n = length (c_out (conn_at (d_srv n) c));
}.

Lemma conn_at_in c s cn : s_conns s !! c = Some cn → conn_at s c = cn.
Proof. unfold conn_at. by intros ->. Qed.

(** An update of an existing connection to what it is. *)
Lemma upd_conn_id c f s : is_Some (s_conns s !! c) → f (conn_at s c) = conn_at s c → upd_conn c f s = s.
Proof.
  intros [cn Hc] Hf. unfold upd_conn, set_conns. rewrite Hf, (conn_at_in _ _ _ Hc), insert_id by done. by destruct s.
Qed.

Lemma upd_conn_twice c f g s : upd_conn c f (upd_conn c g s) = upd_conn c (f ∘ g) s.
Proof.
  unfold upd_conn at 1. rewrite conn_at_upd, decide_True by done. unfold upd_conn, set_conns. cbn [s_conns].
  by rewrite insert_insert_eq.
Qed.

Lemma feed_open c b n : c_closed (conn_at (d_srv (feed c b n)) c) = c_closed (conn_at (d_srv n) c).
Proof. unfold feed, on_srv. cbn [d_srv]. by rewrite conn_at_upd, decide_True. Qed.

Lemma feed_feed c b1 b2 n : feed c b2 (feed c b1 n) = feed c (b1 ++ b2) n.
Proof.
  unfold feed, on_srv. cbn [d_srv d_read]. f_equal. rewrite upd_conn_twice. unfold upd_conn, set_conns. do 2 f_equal.
  unfold set_in. cbn. by rewrite <- app_assoc.
Qed.

(** A message on an open connection arrives whole. *)
Lemma tconn_send_open c msg n : c_closed (conn_at (d_srv n) c) = false →
  tconn_send c msg n = (feed c (frame msg []) n, None).
Proof.
  intros Hc. unfold tconn_send, WriteMessage. rewrite frame_unfold. destruct (EncodeMsg msg (zlen [])) as [h b] eqn:He.
  assert (b = msg_Encode msg) as -> by (unfold EncodeMsg in He; congruence).
  assert (∀ (b : list byte) (m : dlink), c_closed (conn_at (d_srv m) c) = false →
    @Message.Write dnet (λ n b, tconn_Write c b n) m b = (feed c b m, None)) as Hw.
  { intros b m Hm. unfold Message.Write, tconn_Write, server_dialer. by rewrite Hm. }
  cbn [Buffers_WriteTo fst]. rewrite Hw by done. rewrite Hw by by rewrite feed_open.
  rewrite Hw by by rewrite !feed_open. by rewrite !feed_feed.
Qed.

(** The server handles it, and the client reads the answer. *)
Lemma serve_handles c msg n : at_rest c n → c_closed (conn_at (d_srv n) c) = false → sendable msg [] →
  serve c (d_srv (feed c (frame msg []) n)) =
  exec (process {| wm_msg := msg; wm_payload := []; wm_conn := c |}) (d_srv n).
Proof.
  intros [Hq Hc Hin _] Hcl Hs. unfold serve. rewrite feed_open, Hcl.
  assert (c_in (conn_at (d_srv (feed c (frame msg []) n)) c) = frame msg []) as Hi.
  { unfold feed, on_srv. cbn [d_srv]. rewrite conn_at_upd, decide_True by done. simpl. by rewrite Hin. }
  rewrite (OnTraffic_exact [(msg, [])] c _ []).
  - assert (upd_conn c (set_in []) (d_srv (feed c (frame msg []) n)) = d_srv n) as Hid.
    { unfold feed, on_srv. cbn [d_srv]. rewrite upd_conn_twice. apply upd_conn_id; [done|].
      unfold set_in. simpl. rewrite <- Hin. by destruct (conn_at (d_srv n) c). }
    rewrite Hid. change (s_queue (d_srv (feed c (frame msg []) n))) with (s_queue (d_srv n)).
    change (s_busy (d_srv (feed c (frame msg []) n))) with (s_busy (d_srv n)). rewrite Hq.
    unfold drain. simpl. f_equal. unfold set_queue. simpl. rewrite <- Hq at 1. by destruct (d_srv n).
  - by constructor.
  - rewrite Hi. unfold wire. cbn. rewrite !app_nil_r. done.
  - done.
  - rewrite Hi, frame_unfold, !length_app, EncodeMsg_length. cbn [length]. lia.
Qed.

(** One authentication message and its answer. *)
Lemma auth_exchange c req n : at_rest c n → c_closed (conn_at (d_srv n) c) = false → sendable (MAuthReq req) [] →
  ∃ ctx ss r cl s', auth_rule (s_world (d_srv n)) (s_draws (d_srv n)) req (c_ctx (conn_at (d_srv n) c))
      (s_sessions (d_srv n)) ctx ss r cl
    ∧ auth_done c ctx ss r cl (d_srv n) s'
    ∧ ∃ n1 res, tconn_readResp c (feed c (frame (MAuthReq req) []) n) = (n1, res) ∧ d_srv n1 = s'
      ∧ (sendable (MAuthRes r) [] → res = Ok (MAuthRes r) ∧ at_rest c n1).
Proof.
  intros Hr Hcl Hs. destruct (handleAuth_spec c req (d_srv n)) as (ctx & ss & r & cl & Hrule & Hd).
  exists ctx, ss, r, cl, (exec (handleAuth c req) (d_srv n)). split; [done|]. split; [done|].
  unfold tconn_readResp. cbn [tconn_bytes tconn_rest server_dialer]. rewrite (serve_handles c (MAuthReq req) n Hr Hcl Hs).
  change (process _) with (handleAuth c req). set (s' := exec (handleAuth c req) (d_srv n)) in *.
  pose proof (ad_out _ _ _ _ _ _ _ Hd) as Hout. rewrite Hcl in Hout.
  change (read_so_far c (feed c _ n)) with (read_so_far c n).
  rewrite Hout, (ar_read c n Hr), drop_app_length.
  destruct (readResp (frame (MAuthRes r) [])) as [rest res] eqn:Hrd. eexists _, res. split; [done|]. split; [done|].
  intros Hsr. pose proof (readResp_frame (MAuthRes r) [] [] Hsr) as Hok. rewrite app_nil_r, Hrd in Hok.
  injection Hok as -> ->. split; [done|]. split; cbn [d_srv].
  - rewrite (proj1 (ad_env _ _ _ _ _ _ _ Hd)). apply Hr.
  - apply (ad_known _ _ _ _ _ _ _ Hd).
  - rewrite (ad_in _ _ _ _ _ _ _ Hd). apply Hr.
  - unfold read_so_far. cbn [d_read]. rewrite lookup_insert_eq. simpl. by rewrite Nat.sub_0_r, Hout.
Qed.

(** ** What a successful handshake leaves at the server *)

(** The session the client was given: its key is the client's, and so is the key of the
    connection. *)
Definition session_agrees (cc : client) (home : string) (c : conn_id) (s : srv) : Prop :=
  s_sessions s !! cc_authToken cc =
    Some {| User := cc_authUser cc; Home := home; EncryptionKey := cc_encryptionKey cc |}
  ∧ c_ctx (conn_at s c) = Some (ctx_ok (cc_authUser cc) home (cc_encryptionKey cc)).

(** ** The client's two messages *)

Context `{ClientEnv, !SSHClient, !SSHClientOk}.

(** The messages of a handshake are within the limits of the protocol. *)
Definition requests_fit (user : string) (signer : Signer) : Prop :=
  let pk := ssh_Marshal (signer_PublicKey signer) in
  sendable (auth_req 1 user pk [] "") []
  ∧ ∀ challenge sig, (length challenge ≤ challengeLen)%nat → signer_Sign signer challenge = Ok sig →
      sendable (auth_req 2 user pk (ssh_MarshalSignature sig) "") [].

Definition answers_fit (user : string) : Prop := ∀ w k req ctx ss ctx' ss' r cl,
  AuthReq.User req = user → AuthReq.Token req = "" → AuthReq.ID req = 1 ∨ AuthReq.ID req = 2 →
  auth_rule w k req ctx ss ctx' ss' r cl → sendable (MAuthRes r) [].

(** What the first message gets: a challenge that is now pending, or a refusal. *)
Lemma first_answer w k user pk ctx ss ctx' ss' r cl :
  auth_rule w k {| AuthReq.ID := 1; AuthReq.User := user; AuthReq.PubKey := ssh_Marshal pk; AuthReq.Signature := [];
                   AuthReq.Token := "" |} ctx ss ctx' ss' r cl →
  AuthRes.Success r = false ∧ ss' = ss
  ∧ (cl = false ∧ pending ctx' = Some (AuthRes.Challenge r) ∧ rand_bytes k challengeLen = Ok (AuthRes.Challenge r)
     ∨ cl = true ∧ AuthRes.Challenge r = [] ∧ is_Ok (rand_bytes k challengeLen) = false).
Proof.
  intros Hr. inversion Hr; subst; simpl in *; try done.
  - by destruct (ssh_marshal_nonempty pk).
  - split_and!; try done. right. split_and!; try done. by match goal with Hk : rand_bytes _ _ = _ |- _ => rewrite Hk end.
  - split_and!; try done. left. done.
Qed.

(** What the second message gets, if it is accepted. *)
Lemma second_answer w k user pk sig ctx ss ctx' ss' r cl :
  auth_rule w k {| AuthReq.ID := 2; AuthReq.User := user; AuthReq.PubKey := ssh_Marshal pk;
                   AuthReq.Signature := ssh_MarshalSignature sig; AuthReq.Token := "" |} ctx ss ctx' ss' r cl →
  AuthRes.Success r = true →
  ∃ home, let key := deriveEncryptionKey pk in
    snd (findUserByPubKey pk user w) = Ok (AuthRes.User r, home) ∧ cl = false
    ∧ ss' !! AuthRes.Token r = Some {| User := AuthRes.User r; Home := home; EncryptionKey := key |}
    ∧ AuthRes.Token r = sessionTokenHex (rand_bytes k 32)
    ∧ ctx' = Some (ctx_ok (AuthRes.User r) home key).
Proof.
  intros Hr Hs. inversion Hr; subst; simpl in *; try done.
  match goal with Hv : verifySSHSignature _ _ _ = Ok ?k |- _ => assert (k = pk) as -> end.
  { match goal with Hv : verifySSHSignature _ _ _ = Ok _ |- _ => unfold verifySSHSignature in Hv;
      rewrite ssh_parse_marshal, ssh_signature_roundtrip in Hv; by destruct (ssh_Verify _ _ _); simplify_eq end. }
  eexists. split; [done|]. split; [done|]. split; [|done]. by rewrite sessions_lookup_insert, decide_True.
Qed.

(** A connection the server has closed and whose answers are read delivers nothing more. *)
Lemma closed_reads_nothing c n n' r : c_closed (conn_at (d_srv n) c) = true → at_rest c n →
  tconn_readResp c n = (n', r) → is_Ok r = false.
Proof.
  intros Hc Hr. unfold tconn_readResp. cbn [tconn_bytes tconn_rest server_dialer]. unfold serve. rewrite Hc.
  rewrite (ar_read _ _ Hr), drop_all. by intros [= <- <-].
Qed.

Lemma send_closed c msg n : c_closed (conn_at (d_srv n) c) = true → tconn_send c msg n = (n, None).
Proof.
  intros Hc. unfold tconn_send, WriteMessage. destruct (EncodeMsg msg (zlen [])) as [h b].
  assert (∀ b : list byte, @Message.Write dnet (λ n b, tconn_Write c b n) n b = (n, None)) as Hw.
  { intros b'. unfold Message.Write, tconn_Write, server_dialer. by rewrite Hc. }
  cbn [Buffers_WriteTo]. by rewrite !Hw.
Qed.

Lemma auth_done_kept c ctx ss r cl s s' : auth_done c ctx ss r cl s s' →
  s_panic s' = s_panic s ∧ (fds_ok s → fds_ok s') ∧ quiet (s_world s) (s_world s') ∧ same_files (s_world s) (s_world s').
Proof.
  intros Hd. split_and!; [apply (ad_env _ _ _ _ _ _ _ Hd)| |apply Hd..]. intros Hf. unfold fds_ok.
  rewrite (ad_fds _ _ _ _ _ _ _ Hd). by eapply fd_inv_quiet, Hd.
Qed.

Lemma token_nonempty k b : rand_bytes k 32 = Ok b → sessionTokenHex (Ok b) ≠ "".
Proof. intros Hb%rand_length. by destruct b as [|x b]. Qed.

(** What the server is left with by a handshake that succeeds on a fresh connection. *)
Record agreed (cc cc' : client) (key : PublicKey) (c : conn_id) (n n' : dlink) : Prop := {
  ag_rest : at_rest c n';
  ag_open : c_closed (conn_at (d_srv n') c) = false;
  (* the home of the session is one that authorized the key *)
  ag_session : ∃ w home, session_agrees cc' home c (d_srv n')
    ∧ same_files (s_world (d_srv n)) w ∧ key_of_home w (ssh_Marshal key) home;
  ag_key : cc_encryptionKey cc' = deriveEncryptionKey key;
  ag_token : ∃ k, cc_authToken cc' = sessionTokenHex (rand_bytes k 32);
  ag_user : cc_authUser cc ≠ "" → cc_authUser cc' = cc_authUser cc;
  ag_panic : s_panic (d_srv n') = s_panic (d_srv n);
  ag_fds : fds_ok (d_srv n) → fds_ok (d_srv n');
  ag_files : same_files (s_world (d_srv n)) (s_world (d_srv n'));
}.

Lemma answer_agrees cc signer c challenge n n' cc' :
  at_rest c n → c_closed (conn_at (d_srv n) c) = false →
  requests_fit (cc_authUser cc) signer → answers_fit (cc_authUser cc) → (length challenge ≤ challengeLen)%nat →
  answer_challenge cc signer (signer_PublicKey signer) c challenge n = (n', Ok cc') →
  agreed cc cc' (signer_PublicKey signer) c n n'.
Proof.
  intros Hr Hc Hreq Hans Hlen. unfold answer_challenge, requests_fit, auth_req in *. destruct (signer_Sign signer challenge) as [sig|e] eqn:Hsig; [|done].
  apply proj2 in Hreq. specialize (Hreq challenge sig Hlen Hsig). rewrite (tconn_send_open _ _ _ Hc).
  edestruct (auth_exchange c _ n Hr Hc Hreq) as (ctx & ss & r & cl & s' & Hrule & Hd & n1 & res & -> & Hs1 & Hres).
  destruct Hres as [-> Hr1]; [refine (Hans _ _ _ _ _ _ _ _ _ _ _ _ Hrule); [done|done|by right]|].
  destruct (AuthRes.Success r) eqn:Hok; [|done]. intros [= <- <-].
  destruct (second_answer _ _ _ _ _ _ _ _ _ _ _ Hrule Hok) as (home & Hfind & -> & Hss & Htok & ->).
  destruct (auth_done_kept _ _ _ _ _ _ _ Hd) as (Hp & Hf & _ & Hsame).
  destruct (findUserByPubKey _ _ _) as [w1 [[u h]|e]] eqn:Hfu; simplify_eq/=.
  destruct (findUser_sound _ _ _ _ _ _ Hfu) as [Hk Hu].
  split; try done.
  - rewrite (ad_closed _ _ _ _ _ _ _ Hd). by rewrite Hc.
  - exists (s_world (d_srv n)), home. unfold session_agrees. by rewrite (ad_sessions _ _ _ _ _ _ _ Hd), (ad_ctx _ _ _ _ _ _ _ Hd).
  - by exists (s_draws (d_srv n)).
Qed.

Lemma exchange_agrees cc signer c n n' cc' :
  at_rest c n → c_closed (conn_at (d_srv n) c) = false →
  requests_fit (cc_authUser cc) signer → answers_fit (cc_authUser cc) →
  exchange cc signer (signer_PublicKey signer) c n = (n', Ok cc') →
  agreed cc cc' (signer_PublicKey signer) c n n'.
Proof.
  intros Hr Hc Hreq Hans. unfold exchange, auth_req. rewrite (tconn_send_open _ _ _ Hc).
  edestruct (auth_exchange c _ n Hr Hc (proj1 Hreq)) as (ctx & ss & r & cl & s' & Hrule & Hd & n1 & res & -> & Hs1 & Hres).
  destruct Hres as [-> Hr1]; [refine (Hans _ _ _ _ _ _ _ _ _ _ _ _ Hrule); [done|done|by left]|].
  destruct (first_answer _ _ _ _ _ _ _ _ _ _ Hrule) as (-> & _ & Hcase).
  destruct (auth_done_kept _ _ _ _ _ _ _ Hd) as (Hp & Hf & _ & Hsame). rewrite <- Hs1 in Hp, Hf, Hsame.
  pose proof (ad_closed _ _ _ _ _ _ _ Hd) as Hcl. rewrite <- Hs1, Hc in Hcl. simpl in Hcl.
  destruct Hcase as [(-> & Hpend & Hch)|(-> & Hch & _)].
  - intros Ha. destruct (answer_agrees cc signer c (AuthRes.Challenge r) n1 n' cc' Hr1 Hcl Hreq Hans) as [A1 A2 (w & home & A3 & Hw & A7) A4 A5 A6 A8 A9 A10];
      [by rewrite (rand_length _ _ _ Hch)|done|].
    split; try done; [|by rewrite A8|by intros; apply A9, Hf|by etrans].
    exists w, home. split_and!; [done|by etrans|done].
  - unfold answer_challenge. destruct (signer_Sign _ _); [|done]. rewrite (send_closed _ _ _ Hcl).
    destruct (tconn_readResp _ _) as [n2 r2] eqn:Hrd. pose proof (closed_reads_nothing _ _ _ _ Hcl Hr1 Hrd) as Hno.
    by destruct r2 as [|e].
Qed.

(** ** Connecting, and joining the pool *)

Lemma conn_at_set cs s d : conn_at (set_conns cs s) d = default new_conn (cs !! d).
Proof. done. Qed.

(** A new connection is at rest; the others are as they were. *)
Lemma dial_rest target n n1 c : s_queue (d_srv n) = [] → net_Dial target n = (n1, Ok c) →
  at_rest c n1 ∧ c_closed (conn_at (d_srv n1) c) = false ∧ s_sessions (d_srv n1) = s_sessions (d_srv n)
  ∧ s_world (d_srv n1) = s_world (d_srv n) ∧ s_panic (d_srv n1) = s_panic (d_srv n)
  ∧ s_fds (d_srv n1) = s_fds (d_srv n)
  ∧ s_conns (d_srv n) !! c = None ∧ (∀ d, d ≠ c → conn_at (d_srv n1) d = conn_at (d_srv n) d).
Proof.
  intros Hq [= <- <-]. set (c := fresh _). split.
  - split; cbn [d_srv]; [done|cbn [s_conns set_conns]; by rewrite lookup_insert_eq| |].
    + by rewrite conn_at_set, lookup_insert_eq.
    + unfold read_so_far. cbn [d_read]. by rewrite conn_at_set, !lookup_insert_eq.
  - cbn [d_srv]. split; [by rewrite conn_at_set, lookup_insert_eq|]. do 4 (split; [done|]).
    split; [apply not_elem_of_dom, is_fresh|]. intros d Hd. by rewrite conn_at_set, lookup_insert_ne.
Qed.

(** A connection that presents the token of a session becomes a connection of its user. *)
Lemma token_joins cc c n info :
  at_rest c n → c_closed (conn_at (d_srv n) c) = false → cc_authToken cc ≠ "" →
  s_sessions (d_srv n) !! cc_authToken cc = Some info →
  sendable (auth_req 0 "" [] [] (cc_authToken cc)) [] →
  sendable (MAuthRes (auth_answer 0 true [] "" (User info) "")) [] →
  ∃ n', tokenAuth cc c n = (n', None) ∧ c_closed (conn_at (d_srv n') c) = false
    ∧ c_ctx (conn_at (d_srv n') c) = Some (ctx_ok (User info) (Home info) (EncryptionKey info))
    ∧ s_panic (d_srv n') = s_panic (d_srv n) ∧ (fds_ok (d_srv n) → fds_ok (d_srv n'))
    ∧ same_files (s_world (d_srv n)) (s_world (d_srv n'))
    ∧ s_queue (d_srv n') = [] ∧ s_sessions (d_srv n') = s_sessions (d_srv n)
    ∧ (∀ d, d ≠ c → conn_at (d_srv n') d = conn_at (d_srv n) d).
Proof.
  intros Hr Hc Ht Hi Hreq Hans. unfold tokenAuth, auth_req in *. rewrite (tconn_send_open _ _ _ Hc).
  edestruct (auth_exchange c _ n Hr Hc Hreq) as (ctx & ss & r & cl & s' & Hrule & Hd & n1 & res & -> & Hs1 & Hres).
  destruct (auth_done_kept _ _ _ _ _ _ _ Hd) as (Hp & Hf & _ & Hsame). subst s'.
  pose proof (ad_closed _ _ _ _ _ _ _ Hd) as Hcl. pose proof (ad_ctx _ _ _ _ _ _ _ Hd) as Hctx. rewrite Hc in Hcl.
  inversion Hrule; simplify_eq/=; try (by destruct Ht); try (exfalso; by rewrite Hi in *).
  destruct Hres as [-> Hr1]; [done|]. exists n1. split; [done|].
  split_and!; try done; [apply Hr1|apply (ad_sessions _ _ _ _ _ _ _ Hd)|apply (ad_others _ _ _ _ _ _ _ Hd)].
Qed.

End Handshake.
