(* ===== verification/HandshakeSpec.v ===== *)
(** The handshake as a whole: a client that has its session joins the pool with every
    connection it dials, and these are the authenticated links the transfers of TransferSpec.v
    and LinkSpec.v start from; with a token the server does not know it is refused for ever. *)
From S2P Require Import Prelude Message PlainCodec Receive GoStd GoHash OS MemFS Chunk Auth FdCache Server Hoare ServerStep ServerInv Demo AuthSpec Client ClientAuth Prog Pool Resume Transfer Remote ServerLink Handshake.
From Stdlib Require Import Ascii Strings.Byte.

Section Spec.
  Context `{CborOk, GoFmt, OSLaws, SSH, UserDB, GzipOk, SecretBoxOk, RandOk, ClientEnv, !SSHClient, !SSHClientOk}.

(** The messages of one user's handshakes are within the limits of the protocol. *)
Record handshake_fits (user identityFile : string) : Prop := {
  hf_requests w w' signer pk : clientSigner identityFile w = (w', Ok (signer, pk)) → requests_fit user signer;
  hf_answers : answers_fit user;
  hf_token_req b : length b = 32%nat → sendable (auth_req 0 "" [] [] (EncodeToString b)) [];
  hf_token_res : sendable (MAuthRes (auth_answer 0 true [] "" user "")) [];
}.

(** [newClient], as the server sees it: a session whose home authorizes the client's key, and
    nothing queued. *)
Lemma newClient_session target user idf batch useChecksum useEncryption n n' w w' cc :
  user ≠ "" → handshake_fits user idf →
  s_queue (d_srv n) = [] → fds_ok (d_srv n) → s_panic (d_srv n) = false →
  newClient target user idf batch useChecksum useEncryption n w = (n', w', Ok cc) →
  ∃ key ws home, cc_encryptionKey cc = deriveEncryptionKey key
    ∧ same_files (s_world (d_srv n)) ws ∧ key_of_home ws (ssh_Marshal key) home
    ∧ cc_authUser cc = user
    ∧ s_sessions (d_srv n') !! cc_authToken cc =
        Some {| User := user; Home := home; EncryptionKey := cc_encryptionKey cc |}
    ∧ (∃ b, length b = 32%nat ∧ cc_authToken cc = EncodeToString b)
    ∧ s_queue (d_srv n') = [] ∧ fds_ok (d_srv n') ∧ s_panic (d_srv n') = false
    ∧ same_files (s_world (d_srv n)) (s_world (d_srv n')).
Proof.
  intros Hu [Hreq Hans Htr Hts] Hq Hf Hp. unfold newClient, dialAndAuth.
  destruct (clientSigner idf w) as [w1 [[signer pk]|e]] eqn:Hs; [|done].
  specialize (Hreq _ _ _ _ Hs). apply clientSigner_key in Hs as ->.
  destruct (net_Dial _ _) as [n0 [conn|e]] eqn:Hdial; [|done].
  destruct (dial_rest _ _ _ _ Hq Hdial) as (Hr & Hc & _ & Hw & Hp0 & Hf0 & _).
  destruct (exchange _ _ _ _ _) as [n3 r] eqn:He. intros [= <- <- ->].
  match type of He with exchange ?c0 _ _ _ _ = _ =>
    destruct (exchange_agrees c0 signer conn n0 n3 cc Hr Hc Hreq Hans He)
      as [A1 _ (ws & home & [Hss _] & Hws & A7) A4 (k & A5) A6 A8 A9 A10] end.
  specialize (A6 Hu). cbn [cc_authUser] in A6. rewrite A6 in Hss.
  exists (signer_PublicKey signer), ws, home. rewrite Hw in Hws. do 5 (split; [done|]). split.
  { rewrite A5. unfold sessionTokenHex. destruct (rand_bytes k 32) as [b|e] eqn:Hk; [|by exists (replicate 32 x00)].
    exists b. split; [by eapply rand_length|done]. }
  split; [apply (ar_queue _ _ A1)|]. split; [|split; [by simpl; rewrite A8, Hp0|by rewrite <- Hw]].
  assert (fds_ok (d_srv n3)) as Hf3; [|exact Hf3]. apply A9. unfold fds_ok. by rewrite Hw, Hf0.
Qed.

(** A connection dialled with the client's token joins the session. *)
Lemma dial_joins target user idf cc home n n1 c : handshake_fits user idf →
  (∃ b, length b = 32%nat ∧ cc_authToken cc = EncodeToString b) →
  s_sessions (d_srv n) !! cc_authToken cc =
    Some {| User := user; Home := home; EncryptionKey := cc_encryptionKey cc |} →
  s_queue (d_srv n) = [] → fds_ok (d_srv n) → s_panic (d_srv n) = false →
  net_Dial target n = (n1, Ok c) → ∃ n2, tokenAuth cc c n1 = (n2, None)
    ∧ c_closed (conn_at (d_srv n2) c) = false
    ∧ c_ctx (conn_at (d_srv n2) c) = Some (ctx_ok user home (cc_encryptionKey cc))
    ∧ fds_ok (d_srv n2) ∧ s_panic (d_srv n2) = false ∧ s_queue (d_srv n2) = []
    ∧ s_sessions (d_srv n2) = s_sessions (d_srv n)
    ∧ same_files (s_world (d_srv n)) (s_world (d_srv n2))
    ∧ s_conns (d_srv n) !! c = None ∧ (∀ d, d ≠ c → conn_at (d_srv n2) d = conn_at (d_srv n) d).
Proof.
  intros [_ _ Htr Hts] (b & Hb & Htok) Hss Hq Hf Hp Hd.
  destruct (dial_rest _ _ _ _ Hq Hd) as (Hr & Hc & Hs1 & Hw1 & Hp1 & Hf1 & Hn & Ho).
  edestruct (token_joins cc c n1) as (n2 & Hta & Hc2 & Hctx & Hp2 & Hf2 & Hw2 & Hq2 & Hs2 & Ho2); [done|done| | | | |].
  - rewrite Htok. by destruct b.
  - rewrite Hs1. exact Hss.
  - rewrite Htok. by apply Htr.
  - done.
  - exists n2. split_and!; try done; [|congruence|congruence|by rewrite <- Hw1|].
    + apply Hf2. unfold fds_ok. by rewrite Hw1, Hf1.
    + intros d Hdc. by rewrite Ho2, Ho.
Qed.

(** ** The pool *)

(** Connections dialled to [target] one after the other, each sending the token and getting
    whatever answer, from [n] to [n']. *)
Inductive pool_dials (target : string) (cc : client) (n : dlink) : list conn_id → dlink → Prop :=
  | dials_none : pool_dials target cc n [] n
  | dials_more conns n1 n2 n3 c r : pool_dials target cc n conns n1 →
      net_Dial target n1 = (n2, Ok c) → tokenAuth cc c n2 = (n3, r) →
      pool_dials target cc n (conns ++ [c]) n3.

Section Joined.
  Context (user idf home : string) (cc : client) (w0 : world) (fits : handshake_fits user idf).

Let ca : connAuth := ctx_ok user home (cc_encryptionKey cc).

(** The server while the pool fills. *)
Record joined (conns : list conn_id) (n : dlink) : Prop := {
  jo_conns c : c ∈ conns → c_closed (conn_at (d_srv n) c) = false ∧ c_ctx (conn_at (d_srv n) c) = Some ca;
  jo_session : s_sessions (d_srv n) !! cc_authToken cc =
    Some {| User := user; Home := home; EncryptionKey := cc_encryptionKey cc |};
  jo_queue : s_queue (d_srv n) = [];
  jo_fds : fds_ok (d_srv n);
  jo_panic : s_panic (d_srv n) = false;
  jo_files : same_files w0 (s_world (d_srv n));
}.

Context (token : ∃ b, length b = 32%nat ∧ cc_authToken cc = EncodeToString b).

(** One more connection: it is admitted, and those before it are as they were. *)
Lemma joined_dial target conns n n1 c : joined conns n → net_Dial target n = (n1, Ok c) →
  ∃ n2, tokenAuth cc c n1 = (n2, None) ∧ joined (conns ++ [c]) n2.
Proof.
  intros [Jc Js Jq Jf Jp Jw] Hd.
  destruct (dial_joins target user idf cc home n n1 c fits token Js Jq Jf Jp Hd)
    as (n2 & Ht & Hc & Hctx & Hf & Hp & Hq & Hs & Hw & Hn & Ho). exists n2. split; [done|].
  split; try done; [|by rewrite Hs|by etrans]. intros d [Hin| ->%list_elem_of_singleton]%elem_of_app; [|done].
  destruct (Jc d Hin) as [Hcl Hx]. rewrite Ho; [done|]. intros ->.
  change (s_conns (d_srv n) !! (c : conn_id) = None) in Hn. unfold conn_at in Hx. by rewrite Hn in Hx.
Qed.

Lemma joined_dials target n conns n1 : joined [] n → pool_dials target cc n conns n1 → joined conns n1.
Proof.
  intros Hj. induction 1 as [|conns n1 n2 n3 c r _ IH Hd Ht]; [done|].
  destruct (joined_dial _ _ _ _ _ IH Hd) as (n4 & Ht' & Hj'). by rewrite Ht in Ht'; simplify_eq.
Qed.

Lemma joined_link conns n c e fs : joined conns n → c ∈ conns →
  link_ok c ca {| l_srv := d_srv n; l_ctx := e; l_faults := fs |}.
Proof. intros Hj Hc. destruct (jo_conns _ _ Hj c Hc). split; [apply (jo_fds _ _ Hj)|apply (jo_panic _ _ Hj)|done..]. Qed.
End Joined.

(** C6: when [newClient] gives the user [user] a client, the server holds a session under
    the client's token for that user, in a home that authorizes the key the client signed
    with; the two ends have derived the same encryption key.  However many connections the pool
    then dials, one after the other: the session is still there, the next one is admitted by
    [tokenAuth], and every one of them is an open authenticated connection of that user with
    that key, from which the transfers start. *)
Theorem handshake_links target user idf batch useChecksum useEncryption n n' w w' cc :
  user ≠ "" → handshake_fits user idf →
  s_queue (d_srv n) = [] → fds_ok (d_srv n) → s_panic (d_srv n) = false →
  newClient target user idf batch useChecksum useEncryption n w = (n', w', Ok cc) →
  ∃ key ws home, cc_encryptionKey cc = deriveEncryptionKey key
    ∧ same_files (s_world (d_srv n)) ws ∧ key_of_home ws (ssh_Marshal key) home
    ∧ ∀ conns n1, pool_dials target cc n' conns n1 →
        s_sessions (d_srv n1) !! cc_authToken cc =
          Some {| User := user; Home := home; EncryptionKey := cc_encryptionKey cc |}
        ∧ (∀ n2 c, net_Dial target n1 = (n2, Ok c) → ∃ n3, tokenAuth cc c n2 = (n3, None))
        ∧ ∀ c e fs, c ∈ conns →
            link_ok c (ctx_ok user home (cc_encryptionKey cc)) {| l_srv := d_srv n1; l_ctx := e; l_faults := fs |}.
Proof.
  intros Hu Hfit Hq Hf Hp Hnew.
  destruct (newClient_session _ _ _ _ _ _ _ _ _ _ _ Hu Hfit Hq Hf Hp Hnew)
    as (key & ws & home & Hk & Hws & Hh & _ & Hss & Htok & Hq' & Hf' & Hp' & Hw).
  exists key, ws, home. do 3 (split; [done|]). intros conns n1 Hdials.
  assert (joined user home cc (s_world (d_srv n)) [] n') as Hj.
  { split; try done. by intros c Hin%not_elem_of_nil. }
  eapply joined_dials in Hj; [|done..]. split_and!; [apply Hj| |intros c e fs Hc; by eapply joined_link].
  intros n2 c Hd. edestruct (joined_dial user idf home cc) as (n3 & Ht & _); [done..|]. by exists n3.
Qed.

End Spec.

(** ** A pool connection with a token the server does not know *)

Section Stale.
  Context `{CborOk, GoFmt, OSLaws, SSH, UserDB, Gzip, SecretBox, RandOk}.
  Context (target : string) (cc : client) (ctx_done : bool).

(** The token request and its refusal are within the limits of the protocol. *)
Definition refusal_fits : Prop :=
  sendable (auth_req 0 "" [] [] (cc_authToken cc)) []
  ∧ sendable (MAuthRes (auth_error 0 "invalid or expired session token")) [].

Definition run_moves (a b : run_state * dlink) : Prop := runConn_step target cc ctx_done (fst a) (snd a) (fst b) (snd b).

(** The server is idle and has no session under the token. *)
Definition token_unknown (n : dlink) : Prop :=
  s_queue (d_srv n) = [] ∧ s_sessions (d_srv n) !! cc_authToken cc = None.

Definition spinning (a : run_state * dlink) : Prop :=
  token_unknown (snd a) ∧
  match fst a with
  | RDial _ => True
  | RAuth conn => at_rest conn (snd a) ∧ c_closed (conn_at (d_srv (snd a)) conn) = false
  | _ => False
  end.

Lemma token_rejected conn n : refusal_fits → cc_authToken cc ≠ "" → token_unknown n →
  at_rest conn n → c_closed (conn_at (d_srv n) conn) = false →
  ∃ n' e, tokenAuth cc conn n = (n', Some e) ∧ token_unknown n'.
Proof.
  intros [Hreq Hans] Ht [_ Hno] Hr Hc. unfold tokenAuth, auth_req in *. rewrite (tconn_send_open _ _ _ Hc).
  edestruct (auth_exchange conn _ n Hr Hc Hreq) as (ctx & ss & r & cl & s' & Hrule & Hd & n1 & res & -> & Hs1 & Hres).
  subst s'. inversion Hrule; simplify_eq/=; try (by destruct Ht); try (exfalso; by rewrite Hno in *).
  destruct Hres as [-> Hr1]; [done|]. exists n1. eexists. split; [done|]. split; [apply (ar_queue _ _ Hr1)|].
  by rewrite (ad_sessions _ _ _ _ _ _ _ Hd).
Qed.

Lemma spinning_goes_on a : refusal_fits → cc_authToken cc ≠ "" → spinning a →
  (∃ b, run_moves a b) ∧ ∀ b, run_moves a b → spinning b.
Proof.
  intros Hfit Ht [Hno Hst]. destruct a as [st n]. cbn [fst snd] in *. destruct st as [b|b|conn|conn|]; try done.
  - destruct (@net_Dial server_dialer target n) as [n1 [conn|e]] eqn:Hd; [|done]. split.
    { exists (RAuth conn, n1). exact (run_dial _ _ _ _ _ _ _ Hd). }
    intros [st' n'] Hm. unfold run_moves in Hm. cbn [fst snd] in Hm.
    destruct (dial_rest _ _ _ _ (proj1 Hno) Hd) as (Hr & Hc & Hss & _).
    inversion Hm as [? ? ? conn0 Hd2|? ? ? ? Hd2| | | | | |]; subst; pose proof (eq_trans (eq_sym Hd) Hd2) as Heq; [|done].
    injection Heq as -> ->. split; [|by split]. split; [apply (ar_queue _ _ Hr)|].
    cbn [snd]. rewrite Hss. apply Hno.
  - destruct Hst as [Hr Hc]. destruct (token_rejected conn n Hfit Ht Hno Hr Hc) as (n1 & e & Hta & Hno1). split.
    { exists (RDial (100 * Millisecond), tconn_Close conn n1). exact (run_auth_err _ _ _ _ _ _ _ Hta). }
    intros [st' n'] Hm. unfold run_moves in Hm. cbn [fst snd] in Hm. inversion Hm as [| | | |? ? ? Ht2|? ? ? ? Ht2| |]; subst;
      pose proof (eq_trans (eq_sym Hta) Ht2) as Heq; [done|].
    injection Heq as -> _. split; [|done]. exact Hno1.
Qed.

(** C34: a connection of the pool whose token the server does not know (the server was restarted, say)
    never returns: [runConn] dials and is refused for ever, with no wait between the attempts, and it
    does so even if the context has ended, since only a failed dial or the end of a served connection
    makes it look at the context. *)
Theorem stale_token_spins backoff n a : refusal_fits → cc_authToken cc ≠ "" → token_unknown n →
  rtc run_moves (RDial backoff, n) a →
  (∃ b, run_moves a b) ∧ fst a ≠ RReturned ∧ ∀ d, fst a ≠ RWait d.
Proof.
  intros Hfit Ht Hno Hr.
  assert (spinning a) as Hs.
  { assert (∀ x y, rtc run_moves x y → spinning x → spinning y) as Hstay.
    { induction 1 as [x|x y z Hxy _ IH]; [done|]. intros Hx. apply IH. by apply (proj2 (spinning_goes_on x Hfit Ht Hx)). }
    by apply (Hstay _ _ Hr). }
  split; [apply (spinning_goes_on a Hfit Ht Hs)|]. destruct Hs as [_ Hs]. split; [by intros Ha; rewrite Ha in Hs|].
  intros d Ha. by rewrite Ha in Hs.
Qed.

End Stale.

(** ** A handshake that runs *)

(** Keys and signatures with a tag byte on the wire; a signature is the key and the
    challenge. *)
Definition tagged (b : list byte) : result (list byte) :=
  match b with x01 :: k => Ok k | _ => Err (demo_err "untagged") end.

#[local] Instance hs_ssh : SSH := {
  PublicKey := list byte;
  Signature := list byte;
  ssh_ParsePublicKey := tagged;
  ssh_UnmarshalSignature := tagged;
  ssh_Verify k ch sig := if bool_decide (sig = k ++ ch) then None else Some (demo_err "bad signature");
  ssh_Marshal k := x01 :: k;
  ssh_ParseAuthorizedKey l := Ok (String.list_byte_of_string l);
  ssh_MarshalAuthorizedKey k := k;
}.

(** One private key parses. *)
#[local] Instance hs_client : SSHClient := {
  Signer := list byte;
  signer_PublicKey k := k;
  signer_Sign k ch := Ok (k ++ ch);
  ssh_ParsePrivateKey b := if bool_decide (b = [x70]) then Ok demo_key else Err (demo_err "bad key");
  ssh_MarshalSignature sig := x01 :: sig;
  agent_Dial _ := Some (demo_err "no agent");
  agent_Signers _ := Err (demo_err "no agent");
}.

#[local] Instance hs_client_ok : SSHClientOk.
Proof. split; try done. intros s ch sig [= <-]. simpl. by rewrite bool_decide_true. Qed.

#[local] Instance hs_env : ClientEnv := {
  os_UserHomeDir := Ok "/home/me";
  os_Getenv _ := "";
  os_ExpandEnv s := s;
  user_Current := Ok "me";
}.

Definition hs_machine : @world MemOS := put_file "/id" [x70] (mem_init []).
Definition hs_net : dlink := {| d_srv := newServer 4 demo_world 0; d_read := ∅ |}.

Lemma length_put_bytes (l : list byte) : length (put l) = S (2 * length l).
Proof.
  change (length (put_list (put (A:=byte)) l) = S (2 * length l)). induction l as [|x l IH]; [done|].
  change (put_list put (x :: l)) with (x01 :: x :: put_list put l). cbn [length]. lia.
Qed.

Lemma length_put_Z (z : Z) : length (put z) = 8%nat.
Proof. apply length_be_put. Qed.

Definition text_len (s : string) : nat := length (String.list_byte_of_string s).

(** An authentication message with fields this long is far below the limit. *)
Lemma auth_req_fits r : AuthReq.ok r →
  (text_len (AuthReq.User r) + length (AuthReq.PubKey r) + length (AuthReq.Signature r) + text_len (AuthReq.Token r) ≤ 1000)%nat →
  sendable (MAuthReq r) [].
Proof.
  intros Hok Hlen. split; [done|]. split; [|done].
  change (zlen (put (AuthReq.ID r) ++ put (String.list_byte_of_string (AuthReq.User r)) ++ put (AuthReq.PubKey r)
    ++ put (AuthReq.Signature r) ++ put (String.list_byte_of_string (AuthReq.Token r))) <= 65536).
  unfold zlen, text_len in *. rewrite !length_app, !length_put_bytes, length_put_Z. lia.
Qed.

Lemma auth_res_fits r : AuthRes.ok r →
  (length (AuthRes.Challenge r) + text_len (AuthRes.Token r) + text_len (AuthRes.User r) + text_len (AuthRes.Error r) ≤ 1000)%nat →
  sendable (MAuthRes r) [].
Proof.
  intros Hok Hlen. split; [done|]. split; [|done].
  change (zlen (put (AuthRes.ID r) ++ put (AuthRes.Success r) ++ put (AuthRes.Challenge r)
    ++ put (String.list_byte_of_string (AuthRes.Token r)) ++ put (String.list_byte_of_string (AuthRes.User r))
    ++ put (String.list_byte_of_string (AuthRes.Error r))) <= 65536).
  unfold zlen, text_len in *. rewrite !length_app, !length_put_bytes, length_put_Z.
  change (length (put (AuthRes.Success r))) with 1%nat. lia.
Qed.

Lemma hex_ascii (b : byte) : utf8_valid [byte_of_ascii (hex_digit (zbyte b / 16)); byte_of_ascii (hex_digit (zbyte b mod 16))] = true
  ∧ in_range 0 0x7F (byte_of_ascii (hex_digit (zbyte b / 16))) = true.
Proof. by destruct b. Qed.

Lemma hex_text (l : list byte) : text_ok (EncodeToString l) ∧ text_len (EncodeToString l) = (2 * length l)%nat.
Proof.
  unfold text_ok, text_len. induction l as [|b l [IH1 IH2]]; [done|].
  change (String.list_byte_of_string (EncodeToString (b :: l))) with
    (byte_of_ascii (hex_digit (zbyte b / 16)) :: byte_of_ascii (hex_digit (zbyte b mod 16))
      :: String.list_byte_of_string (EncodeToString l)).
  destruct (hex_ascii b) as [H1 H2]. cbn [utf8_valid] in H1 |- *. rewrite H2 in H1 |- *.
  destruct (in_range 0 0x7F (byte_of_ascii (hex_digit (zbyte b mod 16)))); [|done].
  split; [done|]. cbn [length]. lia.
Qed.

Lemma hs_signer w w' s pk : clientSigner "/id" w = (w', Ok (s, pk)) → s = demo_key.
Proof.
  unfold clientSigner. simpl. unfold privateKeyFileSigner. destruct (os_ReadFile _ w) as [w1 [b|e]]; [|done].
  unfold ssh_ParsePrivateKey, hs_client. by case_bool_decide; intros [= <- <- <-].
Qed.

Lemma token_text k : text_ok (sessionTokenHex (rand_bytes k 32)) ∧ text_len (sessionTokenHex (rand_bytes k 32)) = 64%nat.
Proof. exact (hex_text (replicate 32 (byte_of_Z (Z.of_nat k)))). Qed.

Lemma hs_answers : answers_fit "u".
Proof.
  intros w k req ctx ss ctx' ss' r cl Hu Ht Hid Hr.
  assert (∀ t, text_ok t → (text_len t ≤ 100)%nat → sendable (MAuthRes (auth_error (AuthReq.ID req) t)) []) as Herr.
  { intros t H1 H2. apply auth_res_fits; [|simpl; unfold text_len in *; lia].
    split; [simpl; unfold is_i64; destruct Hid; lia|done]. }
  destruct Hr; try done; try (apply Herr; [done|vm_compute; lia]).
  - unfold findUserByPubKey in *. rewrite Hu in *. cbn [negb] in *.
    match goal with Hf : snd _ = Err e |- _ => revert Hf end.
    change (bool_decide ("u" = "")) with false. cbn [negb].
    repeat (case_match; simplify_eq/=; try done); intros [= <-]; (apply Herr; [done|vm_compute; lia]).
  - assert (user = "u") as ->.
    { destruct (findUserByPubKey _ _ _) as [w1 x] eqn:Hf. simplify_eq/=.
      destruct (@findUser_sound hs_ssh MemOS toy_users _ pk (AuthReq.User req) w w1 user home Hf) as [_ Hh]. rewrite Hu in Hh. by apply Hh. }
    destruct (token_text k) as [Hx1 Hx2]. fold token in Hx1, Hx2. clearbody token.
    apply auth_res_fits; [|simpl; rewrite Hx2; vm_compute; lia].
    split; [simpl; unfold is_i64; destruct Hid; lia|done].
  - apply auth_res_fits.
    + split; [simpl; unfold is_i64; destruct Hid; lia|done].
    + match goal with Hk : rand_bytes _ _ = Ok _ |- _ => apply rand_length in Hk end. simpl. unfold challengeLen in *. unfold text_len. simpl. lia.
Qed.

Lemma hs_fits : handshake_fits "u" "/id".
Proof.
  split.
  - intros w w' signer pk ->%hs_signer. split.
    + apply auth_req_fits; [done|vm_compute; lia].
    + intros challenge sig Hc [= <-]. apply auth_req_fits; [done|].
      cbn [AuthReq.User AuthReq.PubKey AuthReq.Signature AuthReq.Token ssh_MarshalSignature hs_client length].
      change (text_len "u") with 1%nat. change (text_len "") with 0%nat.
      change (length (ssh_Marshal _)) with 12%nat. unfold challengeLen in Hc. lia.
  - exact hs_answers.
  - intros b Hb. destruct (hex_text b) as [H1 H2]. apply auth_req_fits; [done|]. simpl. rewrite H2, Hb. vm_compute. lia.
  - apply auth_res_fits; [done|vm_compute; lia].
Qed.

Definition hs_run := newClient "host:1" "u" "/id" 4 false true hs_net hs_machine.

Lemma hs_run_ok : is_Ok (snd hs_run) = true.
Proof. vm_compute. reflexivity. Qed.

Lemma hs_idle : s_queue (d_srv hs_net) = [] ∧ fds_ok (d_srv hs_net) ∧ s_panic (d_srv hs_net) = false.
Proof. split; [done|]. split; [|done]. apply fd_inv_new, demo_no_handles. Qed.

Lemma hs_user : "u" ≠ "".
Proof. done. Qed.

Lemma hs_result : ∃ n' w' cc, hs_run = (n', w', Ok cc).
Proof.
  pose proof hs_run_ok as Hok. destruct hs_run as [[n' w'] [cc|e]]; [|discriminate].
  by exists n', w', cc.
Qed.

(** At the client's second connection, the transfers can start. *)
Lemma hs_dialled_twice n' w' cc : hs_run = (n', w', Ok cc) → ∃ c1 c2 n1, pool_dials "host:1" cc n' [c1; c2] n1.
Proof.
  intros Hrun.
  destruct (net_Dial "host:1" n') as [n2 [c1|e]] eqn:H1; [|discriminate H1].
  destruct (tokenAuth cc c1 n2) as [n3 r1] eqn:H2.
  destruct (net_Dial "host:1" n3) as [n4 [c2|e]] eqn:H3; [|discriminate H3].
  destruct (tokenAuth cc c2 n4) as [n5 r2] eqn:H4.
  exists c1, c2, n5. eapply (dials_more _ _ _ [c1]); [|exact H3|exact H4].
  eapply (dials_more _ _ _ []); [constructor|exact H1|exact H2].
Qed.

Lemma handshake_links_witness :
  ∃ n' w' cc home c1 c2 n1, hs_run = (n', w', Ok cc) ∧ pool_dials "host:1" cc n' [c1; c2] n1
    ∧ s_sessions (d_srv n1) !! cc_authToken cc =
        Some {| User := "u"; Home := home; EncryptionKey := cc_encryptionKey cc |}
    ∧ link_ok c1 (ctx_ok "u" home (cc_encryptionKey cc)) {| l_srv := d_srv n1; l_ctx := None; l_faults := [] |}.
Proof.
  destruct hs_result as (n' & w' & cc & Hrun). destruct (hs_dialled_twice _ _ _ Hrun) as (c1 & c2 & n1 & Hd).
  destruct (handshake_links "host:1" "u" "/id" 4 false true hs_net n' hs_machine w' cc hs_user hs_fits
    (proj1 hs_idle) (proj1 (proj2 hs_idle)) (proj2 (proj2 hs_idle)) Hrun)
    as (key & ws & home & _ & _ & _ & Hall).
  destruct (Hall _ _ Hd) as (Hs & _ & Hl).
  exists n', w', cc, home, c1, c2, n1. split; [exact Hrun|]. split; [exact Hd|]. split; [exact Hs|].
  apply Hl. apply list_elem_of_here.
Defined.

(** A client that kept its token over a restart of the server, with its context cancelled. *)
Definition stale_cc : client :=
  {| cc_id := 0; cc_batch := 1; cc_useChecksum := false; cc_useEncryption := true; cc_authToken := "00ff";
     cc_authUser := "u"; cc_encryptionKey := None; cc_draws := 0 |}.

Lemma stale_fits : refusal_fits stale_cc.
Proof. split; [apply auth_req_fits; [done|vm_compute; lia]|apply auth_res_fits; [done|vm_compute; lia]]. Qed.

Lemma stale_token : cc_authToken stale_cc ≠ "".
Proof. done. Qed.

Lemma stale_dialled : ∃ conn n1, rtc (run_moves "host:1" stale_cc true) (RDial 0, hs_net) (RAuth conn, n1).
Proof.
  destruct (@net_Dial server_dialer "host:1" hs_net) as [n1 [conn|e]] eqn:Hd; [|discriminate].
  exists conn, n1. apply rtc_once. exact (run_dial _ _ _ _ _ _ _ Hd).
Qed.

Lemma stale_unknown : token_unknown stale_cc hs_net.
Proof. by split. Qed.

Lemma stale_token_spins_witness : ∃ conn n1 b, run_moves "host:1" stale_cc true (RAuth conn, n1) b.
Proof.
  destruct stale_dialled as (conn & n1 & Hr). exists conn, n1.
  exact (proj1 (stale_token_spins "host:1" stale_cc true 0 hs_net (RAuth conn, n1) stale_fits stale_token stale_unknown Hr)).
Defined.
