(* ===== verification/TransferSpec.v ===== *)
(** The properties of transfers, over any network that implements the interface
    [RemoteFiles]. *)
From S2P Require Import Prelude Message PlainCodec GoStd GoHash OS MemFS Chunk Auth FdCache Hoare Server ServerData Demo Client Prog Pool PoolSpec Resume Transfer Remote TransferInv DownloadInv TransferEnds ServerLink TransferExec.
From Stdlib Require Import Strings.Byte.

Section Upload.
  Context `{Transport, !Ctx, GzipOk, SecretBoxOk, RandOk, JsonOk, TempDir, OSLaws}.
  Context (key : option (list byte)) {RF : RemoteFiles key}.

(** The local machine before an upload of the [d] bytes of [src], as [os.Stat] gave
    [info]; the temporary name of the resume state is not the source. *)
Record upload_ready (src target : string) (info : FileInfo) (d : list byte) (x : xfer) : Prop := {
  ur_net : net_ok key (x_net x);
  ur_key : cc_encryptionKey (x_cc x) = key;
  ur_src : ∃ i, at_path (x_w x) src = Some i ∧ idata (x_w x) i = Some d
           ∧ at_path (x_w x) (stateFilePath src target +:+ ".tmp") ≠ Some i;
  ur_size : fi_Size info = zlen d;
  ur_len : is_i64 (zlen d);
}.

(** The chunks that a resume state lists are on the server. *)
Definition resume_right (target : string) (d : list byte) (chunkSize : Z) (rs : option resumeState) (x : xfer) : Prop :=
  ∀ s off (j : nat), rs = Some s → off ∈ r_completedSet s → off <= Z.of_nat j < off + chunkSize →
    (j < length d)%nat → right_at key d target x j.

Definition loaded_state (src target : string) (info : FileInfo) (chunkSize batch : Z) (x : xfer) : option resumeState :=
  snd (run_alone (loadResumeState src target (fi_Size info) chunkSize batch) (x_w x)).

Lemma division fuel size chunkSize cs : 0 < chunkSize → is_i64 chunkSize → 0 <= size → is_i64 size →
  chunks fuel size chunkSize 0 = Some cs → tiles chunkSize 0 cs size.
Proof.
  intros Hc Hc64 Hs Hs64. unfold chunks. rewrite Z.sub_0_r, i64_id by done. intros Hch.
  apply chunk_loop_some in Hch; try done; lia.
Qed.

Lemma tiles_chunks_in k cs d : tiles k 0 cs (zlen d) → chunks_in d cs.
Proof.
  intros Ht. split.
  - intros c Hc. destruct (tiles_bounds _ _ _ _ _ Ht Hc) as (? & ? & _ & ?). done.
  - intros c c' Hc Hc'. by eapply tiles_offsets.
Qed.

(** The state [uploadFile] enters [processChunks] with. *)
Lemma upload_enters src target info chunkSize batch d x x1 sfd k cs :
  upload_ready src target info d x →
  resume_right target d chunkSize (loaded_state src target info chunkSize batch x) x →
  run_alone (upload_start src target info chunkSize batch) x = (x1, Ok sfd) →
  tiles chunkSize k cs (zlen d) →
  after_create (remote key (x_net x) target) (remote key (x_net x1) target) (zlen d)
  ∧ ∃ i fresh, up_inv key d i sfd target (remote key (x_net x1) target) src fresh cs x1
    ∧ (loaded_state src target info chunkSize batch x = None → fresh = true).
Proof.
  intros [Hn Hkey (i & Hi & Hd & Htmp) Hsz H64] Hres Hst Ht.
  destruct (upload_start_run key _ _ _ _ _ _ _ _ Hn Hst) as (Hn1 & Hk1 & Hrs & Hsame & (i' & Hi' & Hh) & Hac & Hrem).
  rewrite Hi in Hi'. injection Hi' as <-. rewrite Hsz in Hac. split; [done|].
  fold (loaded_state src target info chunkSize batch x) in Hrs, Hrem.
  exists i, (bool_decide (loaded_state src target info chunkSize batch x = None)).
  split; [|intros ->; done]. split; try done.
  - congruence.
  - by rewrite (sf_data _ _ Hsame).
  - intros s Hs. rewrite (sf_path _ _ Hsame). unfold tmp_path. rewrite Hrs in Hs.
    by rewrite (load_path _ _ _ _ _ _ _ Hs).
  - unfold tail_same. by destruct (remote key (x_net x1) target).
  - rewrite bool_decide_eq_true. intros Hf. split; [congruence|]. by rewrite (sf_path _ _ Hsame).
  - intros s c Hs Hc Hin j Hj. rewrite Hrs in Hs. destruct (tiles_bounds _ _ _ _ _ Ht Hc) as (_ & _ & Hle & Hlt).
    destruct (Hres s (fst c) j Hs Hin) as (r & Hr & Hrj); [lia|unfold zlen in Hlt; lia|].
    exists r. split; [|done]. rewrite Hrem; [done|]. by rewrite Hs.
Qed.

(** The remote file, byte by byte. *)
Lemma whole_file d o r : (∀ j, (j < length d)%nat → r !! j = d !! j) → tail_same d (Some r) (Some o) →
  r = d ++ drop (length d) o.
Proof.
  intros Hd Ht. apply list_eq. intros j. destruct (decide (j < length d)%nat) as [Hj|Hj].
  - by rewrite lookup_app_l, Hd.
  - rewrite lookup_app_r, lookup_drop by lia. rewrite (Ht j) by lia. f_equal. lia.
Qed.

(** The upload, from the state of the machine to the remote file. *)
Lemma upload_sends src target info d chunkSize batch maxRetries sha algo x x' :
  upload_ready src target info d x →
  resume_right target d chunkSize (loaded_state src target info chunkSize batch x) x →
  0 < chunkSize → is_i64 chunkSize → 0 <= maxRetries → d ≠ [] →
  uploadFile src target info chunkSize batch maxRetries sha algo x None x' →
  ctx_Err (x_net x') = None →
  remote key (x_net x') target = Some (d ++ drop (length d) (default [] (remote key (x_net x) target))).
Proof.
  intros Hready Hres Hc Hc64 Hm Hne Hup Hctx. unfold uploadFile in Hup.
  destruct (run_alone (upload_start _ _ _ _ _) x) as [x1 [sfd|e]] eqn:Hst; [|by destruct Hup].
  destruct Hup as (err & x2 & (fuel & cs & Hch & Hrun) & Hfin).
  pose proof (ur_size _ _ _ _ _ Hready) as Hsz. pose proof (ur_len _ _ _ _ _ Hready) as H64. rewrite Hsz in Hch.
  pose proof (division _ _ _ _ Hc Hc64 (zlen_nonneg d) H64 Hch) as Ht.
  destruct (upload_enters _ _ _ _ _ _ _ _ _ _ _ Hready Hres Hst Ht) as (Hac & i & fresh & HI & _).
  pose proof (tiles_chunks_in _ _ _ Ht) as Hin.
  destruct (up_pool key d i sfd target _ src fresh cs Hin maxRetries algo _ _ _ _ Hm (tiles_nodup _ _ _ _ Ht) HI Hrun) as [HI2 Hall].
  destruct (upload_finish_run key _ _ _ _ _ _ _ (ui_net _ _ _ _ _ _ _ _ _ _ HI2) Hfin) as (-> & Hr & Hcx & _).
  assert (ctx_Err (x_net x2) = None) as Hctx2.
  { destruct (ctx_Err (x_net x2)) as [e|] eqn:E; [|done]. destruct Hcx as [e' He']; [by exists e|congruence]. }
  specialize (Hall eq_refl Hctx2).
  assert (∀ j, (j < length d)%nat → right_at key d target x2 j) as Hright.
  { intros j Hj. destruct (tiles_cover _ _ _ _ (Z.of_nat j) Ht) as (c & Hcc & Hjc); [unfold zlen; lia|].
    exact (Hall c Hcc j Hjc). }
  destruct (Hright 0%nat) as (r & Hr2 & _); [destruct d; [done|simpl; lia]|].
  pose proof (ui_tail _ _ _ _ _ _ _ _ _ _ HI2) as Htail. rewrite Hr, Hr2. f_equal. rewrite Hr2 in Htail.
  assert (∀ j, (j < length d)%nat → r !! j = d !! j) as Hrd.
  { intros j Hj. destruct (Hright j Hj) as (r' & Hr' & Hj'). congruence. }
  destruct Hac as [Heq|[Hnone Hzero]].
  - rewrite <- Heq. destruct (remote key (x_net x1) target) as [o|]; [|done]. by apply whole_file.
  - rewrite Hnone. rewrite Hzero in Htail. rewrite (whole_file d _ r Hrd Htail). simpl. f_equal.
    rewrite drop_ge, drop_nil; [done|]. rewrite length_replicate. unfold zlen. lia.
Qed.

(** C4: an upload that returns nil while its context is live has put the source, byte for
    byte, at the start of the target file: whatever the interleaving of its goroutines,
    the compression, the encryption, the failed attempts and the retries.  A target
    that did not exist is then exactly the source; what an existing longer target held
    past the length of the source is still there. *)
Theorem upload_sends_file src target info d chunkSize batch maxRetries sha algo x x' :
  upload_ready src target info d x →
  resume_right target d chunkSize (loaded_state src target info chunkSize batch x) x →
  0 < chunkSize → is_i64 chunkSize → 0 <= maxRetries → d ≠ [] →
  uploadFile src target info chunkSize batch maxRetries sha algo x None x' →
  ctx_Err (x_net x') = None →
  remote key (x_net x') target = Some (d ++ drop (length d) (default [] (remote key (x_net x) target))).
Proof. exact (upload_sends src target info d chunkSize batch maxRetries sha algo x x'). Qed.

(** A fresh upload with the SHA-256 check on that returns nil has left under the target
    a file with the source's hash, whatever the server had there before and even if the
    context has ended: a tail that [create] did not truncate, or chunks that a cancelled
    pool gave up, do not pass the check. *)
Theorem verified_upload_same_hash src target info d chunkSize batch maxRetries algo x x' :
  upload_ready src target info d x → loaded_state src target info chunkSize batch x = None →
  0 < chunkSize → is_i64 chunkSize → 0 <= maxRetries →
  uploadFile src target info chunkSize batch maxRetries true algo x None x' →
  ∃ rd, remote key (x_net x') target = Some rd ∧ Sum256 rd = Sum256 d.
Proof.
  intros Hready Hload Hc Hc64 Hm Hup. unfold uploadFile in Hup.
  destruct (run_alone (upload_start _ _ _ _ _) x) as [x1 [sfd|e]] eqn:Hst; [|by destruct Hup].
  destruct Hup as (err & x2 & (fuel & cs & Hch & Hrun) & Hfin).
  rewrite (ur_size _ _ _ _ _ Hready) in Hch.
  pose proof (division _ _ _ _ Hc Hc64 (zlen_nonneg d) (ur_len _ _ _ _ _ Hready) Hch) as Ht.
  assert (resume_right target d chunkSize (loaded_state src target info chunkSize batch x) x) as Hres.
  { rewrite Hload. by intros s. }
  destruct (upload_enters _ _ _ _ _ _ _ _ _ _ _ Hready Hres Hst Ht) as (_ & i & fresh & HI & Hf).
  specialize (Hf Hload).
  destruct (up_pool key d i sfd target _ src fresh cs (tiles_chunks_in _ _ _ Ht) maxRetries algo _ _ _ _ Hm
              (tiles_nodup _ _ _ _ Ht) HI Hrun) as [HI2 _].
  destruct (upload_finish_run key _ _ _ _ _ _ _ (ui_net _ _ _ _ _ _ _ _ _ _ HI2) Hfin) as (-> & Hr & _ & Hsha).
  destruct (Hsha eq_refl) as (k & ld & rd & Hk & Hld & Hrd & Heq). exists rd. rewrite Hr. split; [done|].
  destruct (ui_fresh _ _ _ _ _ _ _ _ _ _ HI2 Hf) as [_ Hat]. rewrite Hat in Hk. injection Hk as <-.
  rewrite (ui_data _ _ _ _ _ _ _ _ _ _ HI2) in Hld. injection Hld as <-. done.
Qed.

(** C36: when the context ends after the chunks of a fresh upload were dispatched and before
    any of them was sent, the upload returns nil all the same: without the SHA-256 check it
    reports success with nothing of the file on the server. *)
Theorem cancelled_upload_reports_success src target info d chunkSize batch maxRetries algo x x1 sfd :
  upload_ready src target info d x → loaded_state src target info chunkSize batch x = None →
  run_alone (upload_start src target info chunkSize batch) x = (x1, Ok sfd) →
  ctx_Err (x_net x1) = None → 0 < chunkSize → is_i64 chunkSize →
  ∃ x', uploadFile src target info chunkSize batch maxRetries false algo x None x'
    ∧ x_net x' = ctx_cancel (x_net x1).
Proof.
  intros Hready Hload Hst Hctx Hk Hk64.
  destruct (upload_start_run key _ _ _ _ _ _ _ _ (ur_net _ _ _ _ _ Hready) Hst) as (_ & _ & Hrs & _).
  unfold loaded_state in Hload. rewrite Hload in Hrs.
  destruct (chunk_loop_tiles (Z.to_nat (zlen d)) chunkSize 0 (zlen d)) as (cs & Hcs & _);
    [done|done|lia|apply zlen_nonneg|by rewrite Z.add_0_l; apply (ur_len _ _ _ _ _ Hready)|
     pose proof (zlen_nonneg d); nia|].
  set (env := xfer_env (upload_chunk sfd target maxRetries algo)).
  assert (pool_run env (Z.to_nat batch) cs x1 None (flush env (cancel env x1))) as Hrun.
  { apply cancelled_run; simpl; [by rewrite Hrs| |].
    - apply bool_decide_eq_false. rewrite Hctx. by intros [? ?].
    - apply bool_decide_eq_true. by apply cancel_law. }
  set (x2 := flush env (cancel env x1)) in *. assert (x2 = cancel env x1) as Hx2.
  { unfold x2. simpl. rewrite Hrs. by destruct x1; simpl in *; subst. }
  exists (set_xw (fst (f_Close sfd (x_w x2))) x2). unfold uploadFile. rewrite Hst. split; [|by rewrite Hx2].
  exists None, x2. split.
  - exists (Z.to_nat (zlen d)), cs. split; [|done]. unfold chunks.
    by rewrite (ur_size _ _ _ _ _ Hready), Z.sub_0_r, i64_id by apply (ur_len _ _ _ _ _ Hready).
  - assert (x_rs x2 = None) as Hn by (by rewrite Hx2). unfold upload_finish. rewrite run_alone_bind.
    cbv iota beta. rewrite (run_alone_bind (mret None)). cbn [fst snd run_alone mret prog_ret].
    rewrite run_ask, Hn, (run_os (deleteResumeState None)). cbn [run_alone deleteResumeState mret prog_ret fst snd].
    rewrite run_os1. by destruct x2.
Qed.

End Upload.

(** ** Downloads *)

Section Download.
  Context `{Transport, !Ctx, GzipOk, SecretBoxOk, RandOk, JsonOk, TempDir, OSLaws}.
  Context (key : option (list byte)) {RF : RemoteFiles key}.

(** A fresh download that returns nil: its chunks ran under the invariant, and it finished
    without an error. *)
Lemma download_runs src target d chunkSize batch maxRetries useChecksum sha algo x x' :
  net_ok key (x_net x) → cc_encryptionKey (x_cc x) = key →
  remote key (x_net x) src = Some d → is_i64 (zlen d) →
  snd (run_alone (loadResumeState src target (zlen d) chunkSize batch) (x_w x)) = None →
  0 < chunkSize → chunkSize <= 2 ^ 48 →
  downloadFile src target chunkSize batch maxRetries useChecksum sha algo x None x' →
  ∃ i tfd old cs res x2, dn_inv key src d i tfd target old true cs x2
    ∧ tiles chunkSize 0 cs (zlen d) ∧ (∀ o, old = Some o → o = [])
    ∧ (ctx_Err (x_net x2) = None → ∀ c, c ∈ cs → dn_wrote d i c x2)
    ∧ run_alone (download_finish src target res tfd sha None) x2 = (x', None).
Proof.
  intros Hn Hk Hd H64 Hload Hc Hc48 Hdown. unfold downloadFile in Hdown.
  destruct (run_alone (download_start _ _ _ _ _) x) as [x1 [[res tfd]|e]] eqn:Hst; [|by destruct Hdown].
  destruct Hdown as (err & x2 & (fuel & cs & Hch & Hrun) & Hfin).
  destruct (download_start_run key _ _ _ _ _ _ _ _ _ _ Hn Hd Hst)
    as (Hsz & Hn1 & Hk1 & Hd1 & Hrs & i & Hh & Hat & Hempty & _).
  rewrite Hload in Hrs, Hempty. specialize (Hempty eq_refl). rewrite Hsz in Hch.
  assert (is_i64 chunkSize) as Hc64 by (unfold is_i64; lia).
  pose proof (division _ _ _ _ Hc Hc64 (zlen_nonneg d) H64 Hch) as Ht.
  pose proof (tiles_chunks_in _ _ _ Ht) as Hin.
  assert (∀ c, c ∈ cs → make_ok (snd c) = true) as Hmk.
  { intros c Hcc. destruct (tiles_bounds _ _ _ _ _ Ht Hcc) as (_ & ? & ? & _). unfold make_ok.
    rewrite andb_true_iff, !Z.leb_le. lia. }
  assert (dn_inv key src d i tfd target (idata (x_w x1) i) true cs x1) as HI.
  { split; try done; [congruence|intros s Hs; congruence|by unfold tail_same; destruct (idata (x_w x1) i)| |];
      intros s; intros; congruence. }
  destruct (dn_pool key src d i tfd target _ true cs Hin Hmk maxRetries algo useChecksum _ _ _ _
              (tiles_nodup _ _ _ _ Ht) HI Hrun) as [HI2 Hall].
  destruct (download_finish_run key _ _ _ _ _ _ _ _ (di_net _ _ _ _ _ _ _ _ _ _ HI2) Hfin) as (-> & _).
  exists i, tfd, (idata (x_w x1) i), cs, res, x2. by split_and!; auto.
Qed.

(** A fresh download (no resume state on disk) that returns nil while its context is
    live has left under the target exactly the bytes of the remote file, whatever the
    interleaving, the retries, the compression and the encryption, and whatever the target
    held before. *)
Lemma download_fetches src target d chunkSize batch maxRetries useChecksum sha algo x x' :
  net_ok key (x_net x) → cc_encryptionKey (x_cc x) = key →
  remote key (x_net x) src = Some d → is_i64 (zlen d) → d ≠ [] →
  snd (run_alone (loadResumeState src target (zlen d) chunkSize batch) (x_w x)) = None →
  0 < chunkSize → chunkSize <= 2 ^ 48 →
  downloadFile src target chunkSize batch maxRetries useChecksum sha algo x None x' →
  ctx_Err (x_net x') = None →
  ∃ i, at_path (x_w x') target = Some i ∧ idata (x_w x') i = Some d.
Proof.
  intros Hn Hk Hd H64 Hne Hload Hc Hc48 Hdown Hctx.
  destruct (download_runs _ _ _ _ _ _ _ _ _ _ _ Hn Hk Hd H64 Hload Hc Hc48 Hdown)
    as (i & tfd & old & cs & res & x2 & HI & Ht & Hempty & Hall & Hfin).
  destruct (download_finish_run key _ _ _ _ _ _ _ _ (di_net _ _ _ _ _ _ _ _ _ _ HI) Hfin) as (_ & Hdata & Hpath & Hcx & _).
  assert (ctx_Err (x_net x2) = None) as Hctx2.
  { destruct (ctx_Err (x_net x2)) as [e|] eqn:E; [|done]. destruct Hcx as [e' He']; [by exists e|congruence]. }
  specialize (Hall Hctx2). destruct (di_fresh _ _ _ _ _ _ _ _ _ _ HI eq_refl) as [Hrs Hat].
  exists i. rewrite (Hpath Hrs), Hdata. split; [done|].
  assert (∀ j, (j < length d)%nat → here_right d i x2 j) as Hright.
  { intros j Hj. destruct (tiles_cover _ _ _ _ (Z.of_nat j) Ht) as (c & Hcc & Hjc); [unfold zlen; lia|].
    exact (Hall c Hcc j Hjc). }
  destruct (Hright 0%nat) as (l & Hl & _); [destruct d; [done|simpl; lia]|]. rewrite Hl. f_equal.
  pose proof (di_tail _ _ _ _ _ _ _ _ _ _ HI) as Htail. rewrite Hl in Htail.
  destruct old as [o|]; [|done]. rewrite (Hempty o eq_refl) in Htail.
  rewrite (whole_file d [] l), drop_nil, app_nil_r; try done.
  intros j Hj. destruct (Hright j Hj) as (l' & Hl' & Hlj). congruence.
Qed.

(** A fresh download with the SHA-256 check on that returns nil has left under the target a file
    with the hash of the remote one, even if the context has ended. *)
Lemma verified_download_same_hash src target d chunkSize batch maxRetries useChecksum algo x x' :
  net_ok key (x_net x) → cc_encryptionKey (x_cc x) = key →
  remote key (x_net x) src = Some d → is_i64 (zlen d) →
  snd (run_alone (loadResumeState src target (zlen d) chunkSize batch) (x_w x)) = None →
  0 < chunkSize → chunkSize <= 2 ^ 48 →
  downloadFile src target chunkSize batch maxRetries useChecksum true algo x None x' →
  ∃ i ld, at_path (x_w x') target = Some i ∧ idata (x_w x') i = Some ld ∧ Sum256 ld = Sum256 d.
Proof.
  intros Hn Hk Hd H64 Hload Hc Hc48 Hdown.
  destruct (download_runs _ _ _ _ _ _ _ _ _ _ _ Hn Hk Hd H64 Hload Hc Hc48 Hdown)
    as (i & tfd & old & cs & res & x2 & HI & _ & _ & _ & Hfin).
  destruct (download_finish_run key _ _ _ _ _ _ _ _ (di_net _ _ _ _ _ _ _ _ _ _ HI) Hfin) as (_ & Hdata & Hpath & _ & Hsha).
  destruct (Hsha eq_refl) as (k & ld & rd & Hk' & Hld & Hrd & Heq).
  rewrite (di_remote _ _ _ _ _ _ _ _ _ _ HI) in Hrd. injection Hrd as <-.
  exists k, ld. by rewrite (Hpath (proj1 (di_fresh _ _ _ _ _ _ _ _ _ _ HI eq_refl))), Hdata.
Qed.


End Download.

(** ** Termination, and what is left of a fresh upload *)

(** C14: the pool of an upload, and that of a download, makes a bounded number of moves,
    whatever the schedule and the network: three actions per attempt and chunk, and some more per
    chunk.  Nothing is assumed of how long a remote call takes: whichever goroutines are in a
    call that never returns (its request was lost, say), the pool goes on without them until it
    returns or nothing but those and the goroutines that wait for them is left; so it hangs
    only in such a call, or, if every call returns, with more chunks than [batch] (whose errors
    then fill the channel nobody reads). *)
Theorem transfers_terminate `{Transport, !Ctx, GzipOk, SecretBoxOk, RandOk, JsonOk, TempDir, OSLaws}
    (key : option (list byte)) {RF : RemoteFiles key} fd remotePath maxRetries useChecksum algo batch cs x :
  (0 < batch)%nat →
  ends (xfer_env (upload_chunk fd remotePath maxRetries algo)) batch
    (length cs * (chunk_actions maxRetries + 6) + 2) cs x
  ∧ ends (xfer_env (download_chunk fd remotePath maxRetries useChecksum algo)) batch
    (length cs * (chunk_actions maxRetries + 6) + 2) cs x.
Proof.
  intros Hb. split; apply (pool_ends key); try done; intros c.
  - apply within_upload; intros; [by eapply (ended_sleep key)|by apply ended_resume|by eapply (ended_write key)].
  - apply within_download; intros; [by eapply (ended_sleep key)|by apply ended_resume|by apply ended_os|by eapply (ended_read key)].
Qed.
(** A fresh upload, whether it succeeds or fails and wherever it stops, leaves the
    client's files and names as they were: it never records the chunks the server
    confirmed, so an interrupted upload has no state to resume from. *)
Theorem fresh_upload_unrecorded `{Transport, !Ctx, Gzip, SecretBox, Rand, Json, TempDir, OSLaws}
    src target info chunkSize batch maxRetries sha algo x r x' :
  snd (run_alone (loadResumeState src target (fi_Size info) chunkSize batch) (x_w x)) = None →
  uploadFile src target info chunkSize batch maxRetries sha algo x r x' →
  x_rs x' = None ∧ same_files (x_w x) (x_w x').
Proof.
  intros Hl. unfold uploadFile.
  destruct (run_alone (upload_start _ _ _ _ _) x) as [x1 r1] eqn:Hst.
  pose proof (unrec_start _ _ _ _ _ _ _ _ _ eq_refl Hl Hst) as HK. destruct r1 as [sfd|e]; [|by intros [-> ->]].
  intros (err & x2 & (fuel & cs & _ & Hrun) & Hfin).
  eapply unrec_pool in Hrun; [|exact HK]. by eapply unrec_finish in Hfin.
Qed.

(** ** Closed examples *)

Lemma demo_ready : upload_ready (ca_encryptionKey demo_ca) "/home/me/a" "b" demo_info demo_bytes demo_xfer.
Proof.
  split; [exact demo_link_ok|reflexivity| |reflexivity|unfold is_i64; vm_compute; intuition congruence].
  eexists. split; [vm_compute; reflexivity|]. split; [vm_compute; reflexivity|]. vm_compute. congruence.
Qed.

Lemma demo_fresh : loaded_state "/home/me/a" "b" demo_info 4 2 demo_xfer = None.
Proof. vm_compute. reflexivity. Qed.

Lemma demo_resume_right : resume_right (ca_encryptionKey demo_ca) "b" demo_bytes 4
  (loaded_state "/home/me/a" "b" demo_info 4 2 demo_xfer) demo_xfer.
Proof. rewrite demo_fresh. intros s off j Hl. discriminate Hl. Qed.

Lemma demo_no_target : remote (ca_encryptionKey demo_ca) (x_net demo_xfer) "b" = None.
Proof. vm_compute. reflexivity. Qed.

Lemma demo_remote_file : remote (ca_encryptionKey demo_ca) (x_net demo_xfer) "f" = Some [x61; x62; x63; x64; x65].
Proof. vm_compute. reflexivity. Qed.

Lemma demo_fresh_download :
  snd (run_alone (loadResumeState "f" "/home/me/c" (zlen [x61; x62; x63; x64; x65]) 2 2) (x_w demo_xfer)) = None.
Proof. vm_compute. reflexivity. Qed.

Lemma is_i64_5 : is_i64 (zlen [x61; x62; x63; x64; x65]).
Proof. unfold is_i64, zlen. simpl. lia. Qed.

Lemma demo_net_ok : net_ok (ca_encryptionKey demo_ca) (x_net demo_xfer).
Proof. exact demo_link_ok. Qed.

Lemma is_i64_4 : is_i64 4.
Proof. unfold is_i64. lia. Qed.

Lemma clean_end_some r : clean_end r = true → ∃ x', r = Some (None, x') ∧ ctx_Err (x_net x') = None.
Proof.
  unfold clean_end. destruct r as [[[e|] x']|]; try done. intros Hb. exists x'. split; [done|].
  by apply bool_decide_eq_true in Hb.
Qed.

Lemma upload_sends_file_witness : ∃ x', uploadFile "/home/me/a" "b" demo_info 4 2 1 true CompressionGzip demo_xfer None x'
  ∧ remote (ca_encryptionKey demo_ca) (x_net x') "b" = Some demo_bytes.
Proof.
  destruct (clean_end_some _ demo_upload_clean) as (x' & Hup & Hctx).
  apply upload_exec_run in Hup; [|done]. exists x'. split; [exact Hup|].
  pose proof (upload_sends_file (ca_encryptionKey demo_ca) "/home/me/a" "b" demo_info demo_bytes 4 2 1 true
    CompressionGzip demo_xfer x' demo_ready demo_resume_right) as Hs.
  rewrite demo_no_target in Hs. apply Hs; [lia|exact is_i64_4|lia|discriminate|exact Hup|exact Hctx].
Defined.

Lemma verified_upload_same_hash_witness : ∃ x' rd,
  uploadFile "/home/me/a" "b" demo_info 4 2 1 true CompressionGzip demo_xfer None x'
  ∧ remote (ca_encryptionKey demo_ca) (x_net x') "b" = Some rd ∧ Sum256 rd = Sum256 demo_bytes.
Proof.
  destruct (clean_end_some _ demo_upload_clean) as (x' & Hup & _).
  apply upload_exec_run in Hup; [|done]. exists x'.
  destruct (verified_upload_same_hash (ca_encryptionKey demo_ca) "/home/me/a" "b" demo_info demo_bytes 4 2 1
    CompressionGzip demo_xfer x' demo_ready demo_fresh) as (rd & H1 & H2);
    [lia|exact is_i64_4|lia|exact Hup|]. exists rd. split_and!; [exact Hup|exact H1|exact H2].
Defined.

(** The state of the demo upload when its chunks start. *)
Definition demo_started : xfer * result (@file MemOS) :=
  run_alone (upload_start "/home/me/a" "b" demo_info 4 2) demo_xfer.

Lemma demo_started_ok : is_Ok (snd demo_started) = true.
Proof. vm_compute. reflexivity. Qed.
Lemma demo_started_live : ctx_Err (x_net (fst demo_started)) = None.
Proof. vm_compute. reflexivity. Qed.
Lemma demo_started_zeros :
  remote (ca_encryptionKey demo_ca) (x_net (fst demo_started)) "b" = Some (replicate 11 x00).
Proof. vm_compute. reflexivity. Qed.

Lemma cancelled_upload_reports_success_witness : ∃ x',
  uploadFile "/home/me/a" "b" demo_info 4 2 1 false CompressionGzip demo_xfer None x'
  ∧ remote (ca_encryptionKey demo_ca) (x_net x') "b" = Some (replicate 11 x00).
Proof.
  pose proof demo_started_ok as Hok. pose proof demo_started_live as Hctx. pose proof demo_started_zeros as Hr.
  destruct demo_started as [x1 [sfd|e]] eqn:Hst; [|discriminate Hok].
  destruct (cancelled_upload_reports_success (ca_encryptionKey demo_ca) "/home/me/a" "b" demo_info demo_bytes 4 2 1
    CompressionGzip demo_xfer x1 sfd demo_ready demo_fresh Hst Hctx) as (x' & Hup & Hn);
    [lia|exact is_i64_4|].
  exists x'. split; [exact Hup|]. rewrite Hn. exact Hr.
Defined.

Definition demo_pool : pool :=
  pool_init [(0, 4); (4, 4)] demo_xfer.

(** From the start, the goroutine of the first chunk in a call that never returns. *)
Lemma transfers_terminate_witness :
  let env := xfer_env (upload_chunk (0%nat : @file MemOS) "b" 1 CompressionGzip) in
  let hung := λ c : chunk, fst c =? 0 in
  ends env 2 32 [(0, 4); (4, 4)] demo_xfer
  ∧ ((∃ p', step_without env 2 hung demo_pool p')
     ∨ halted env 2 hung demo_pool ∧ (p_running demo_pool ≠ [] ∨ (2 < 2)%nat)).
Proof.
  intros env hung.
  destruct (transfers_terminate (ca_encryptionKey demo_ca) (0%nat : @file MemOS) "b" 1 true
    CompressionGzip 2 [(0, 4); (4, 4)] demo_xfer ltac:(lia)) as [Hu _].
  split; [exact Hu|]. exact (proj2 (Hu 0%nat demo_pool (nsteps_O _ _)) hung eq_refl).
Defined.

Lemma fresh_upload_unrecorded_witness : ∃ x',
  uploadFile "/home/me/a" "b" demo_info 4 2 1 true CompressionGzip demo_xfer None x'
  ∧ x_rs x' = None ∧ same_files demo_disk (x_w x').
Proof.
  destruct (clean_end_some _ demo_upload_clean) as (x' & Hup & _).
  apply upload_exec_run in Hup; [|done]. exists x'. split; [exact Hup|].
  exact (fresh_upload_unrecorded "/home/me/a" "b" demo_info 4 2 1 true CompressionGzip demo_xfer None x' demo_fresh Hup).
Defined.
