(* ===== verification/TreeSpec.v ===== *)
(** The properties of directory copies and of the expansion of local sources; [walk_exec] is one
    schedule of a recursive download as a function, on which the closed example runs. *)
From S2P Require Import Prelude Message PlainCodec GoStd GoPath GoHash OS MemFS Chunk Auth FdCache Hoare Server ServerStep ServerInv ServerData Demo Client ClientAuth Prog Nondet Pool Resume Transfer Tree Remote TransferInv TransferEnds ServerLink TransferExec TransferSpec.
From Stdlib Require Import Ascii Strings.Byte.

(** ** The expansion of local sources *)

Section Walks.
  Context {S : Type} (I : S → Prop).
  Context (lstat : string → result FileInfo) (names : string → result (list string)).
  Context (fn : string → option FileInfo → option error → ST S (option error)).
  Context (fn_ok : ∀ p info err s, (∀ i, info = Some i → lstat p = Ok i) → I s → wp (fn p info err) (λ _, I) s).

(** A walk keeps what its walk function keeps, which is only given what [Lstat] says. *)
Lemma walk_names_keeps rec path l s :
  (∀ p i s, lstat p = Ok i → I s → wp (rec p i) (λ _, I) s) → I s →
  wp (walk_names (M:=ST S) (λ p, mret (lstat p)) fn rec path l) (λ _, I) s.
Proof.
  intros Hrec. revert s. induction l as [|name l IH]; intros s Hs; cbn [walk_names]; [by apply wp_ret|].
  apply wp_bind, wp_ret. destruct (lstat _) as [i|e] eqn:E; apply wp_bind.
  - eapply wp_mono; [by apply Hrec|]. intros r s' Hs'. destruct r as [[err|]|]; [|by apply IH|by apply wp_ret].
    destruct (_ || _); [by apply wp_ret|by apply IH].
  - eapply wp_mono; [by apply fn_ok|]. intros r s' Hs'. destruct r as [err|]; [|by apply IH].
    destruct (err_is _ _); [by apply IH|by apply wp_ret].
Qed.

Lemma walk_keeps fuel p i s : lstat p = Ok i → I s →
  wp (walk (M:=ST S) (λ p, mret (lstat p)) (λ p, mret (names p)) fn fuel p i) (λ _, I) s.
Proof.
  revert p i s. induction fuel as [|fuel IH]; intros p i s Hi Hs; cbn [walk]; [by apply wp_ret|].
  destruct (negb (fi_IsDir i)).
  - apply wp_bind. eapply wp_mono; [apply fn_ok; [by intros ? [= <-]|done]|]. intros r s' Hs'. by apply wp_ret.
  - apply wp_bind, wp_ret, wp_bind. eapply wp_mono; [apply fn_ok; [by intros ? [= <-]|done]|]. intros r s' Hs'.
    destruct (names p) as [l|e], r as [err|]; try by apply wp_ret. by apply walk_names_keeps.
Qed.

Lemma Walk_keeps fuel root s : I s →
  wp (Walk (M:=ST S) (λ p, mret (lstat p)) (λ p, mret (names p)) fn fuel root) (λ _, I) s.
Proof.
  intros Hs. unfold Walk. apply wp_bind, wp_ret. destruct (lstat root) as [i|e] eqn:E; apply wp_bind.
  - eapply wp_mono; [by apply walk_keeps|]. intros r s' Hs'. by apply wp_ret.
  - apply wp_bind. eapply wp_mono; [by apply fn_ok|]. intros r s' Hs'. apply wp_ret. by apply wp_ret.
Qed.
End Walks.

Section Expansion.
  Context `{OS} (w : world).

(** What has been listed: each path once, seen, and a match or a regular file. *)
Definition listed (recursive : bool) (matches : list string) (e : expansion) : Prop :=
  NoDup (snd e) ∧ (∀ p, p ∈ snd e → p ∈ fst e)
  ∧ ∀ p, p ∈ snd e → p ∈ matches ∨ recursive = true ∧ ∃ info, os_Lstat p w = Ok info ∧ FileMode_IsRegular (fi_Mode info) = true.

Lemma listed_add recursive matches seen result p : listed recursive matches (seen, result) → p ∉ seen →
  p ∈ matches ∨ (recursive = true ∧ ∃ info, os_Lstat p w = Ok info ∧ FileMode_IsRegular (fi_Mode info) = true) →
  listed recursive matches ({[p]} ∪ seen, result ++ [p]).
Proof.
  intros (Hnd & Hsub & Hin) Hp Hok. simpl in *. split_and!; simpl.
  - apply NoDup_app. split_and!; [done| |by apply NoDup_singleton].
    intros q Hq ->%list_elem_of_singleton. by apply Hp, Hsub.
  - intros q. rewrite elem_of_app, list_elem_of_singleton. set_solver.
  - intros q. rewrite elem_of_app, list_elem_of_singleton. naive_solver.
Qed.

Lemma expand_visit_listed recursive matches p info err e : recursive = true →
  (∀ i, info = Some i → os_Lstat p w = Ok i) → listed recursive matches e → wp (expand_visit p info err) (λ _, listed recursive matches) e.
Proof.
  intros Hrec Hi He. destruct e as [seen result]. unfold wp, eval, exec, expand_visit.
  destruct err; [done|]. destruct info as [i|]; [|done]. destruct (FileMode_IsRegular _) eqn:Hreg; [|done].
  case_bool_decide as Hs; [done|]. apply listed_add; [done|done|]. right. split; [done|]. exists i. split; [by apply Hi|done].
Qed.

(** One match of the pattern. *)
Lemma expand_match_listed recursive matches fuel m e e' : m ∈ matches → listed recursive matches e →
  expand_match w fuel recursive m e = Some e' →
  listed recursive matches e' ∧ (recursive = false → (∀ p, p ∈ fst e → p ∈ snd e) → m ∈ fst e' ∧ (∀ p, p ∈ fst e' → p ∈ snd e')
    ∧ (∀ p, p ∈ fst e → p ∈ fst e')).
Proof.
  intros Hm He. destruct e as [seen result]. unfold expand_match. case_bool_decide as Hs.
  { intros [= <-]. split; [done|]. intros _ Hall. by split_and!. }
  assert (listed recursive matches ({[m]} ∪ seen, result)) as He1.
  { destruct He as (Hnd & Hsub & Hin). split_and!; [done| |done]. intros p Hp. set_solver. }
  destruct (recursive && _) eqn:Hr.
  - apply andb_true_iff in Hr as [Hrec _]. pose proof (Walk_keeps (listed recursive matches) (λ p, os_Lstat p w) (λ p, dir_names p w) expand_visit
      (λ p info err s, expand_visit_listed recursive matches p info err s Hrec) fuel m _ He1) as Hk.
    unfold wp, eval, exec in Hk. destruct (Walk (M:=ST expansion) _ _ _ _ _ _) as [[r|] e1]; [|done]. intros [= <-]. split; [done|].
    by rewrite Hrec.
  - intros [= <-]. split; [by apply listed_add; [|done|left]|]. intros _ Hall. simpl in *.
    split_and!; intros; set_solver.
Qed.

Lemma expand_fold_listed recursive ms matches fuel e e' : (∀ m, m ∈ ms → m ∈ matches) → listed recursive matches e →
  foldl (λ e m, e ≫= expand_match w fuel recursive m) (Some e) ms = Some e' →
  listed recursive matches e' ∧ (recursive = false → (∀ p, p ∈ fst e → p ∈ snd e) →
    (∀ m, m ∈ ms → m ∈ fst e') ∧ (∀ p, p ∈ fst e' → p ∈ snd e') ∧ (∀ p, p ∈ fst e → p ∈ fst e')).
Proof.
  revert e. induction ms as [|m ms IH]; intros e Hms He; cbn [foldl].
  { intros [= <-]. split; [done|]. intros _ Hall. split_and!; try done. intros m Hm. by apply not_elem_of_nil in Hm. }
  cbn [mbind option_bind]. destruct (expand_match w fuel recursive m e) as [e1|] eqn:E.
  2: { intros Hf. exfalso. clear -Hf. induction ms; done. }
  intros Hf. destruct (expand_match_listed recursive matches fuel m e e1) as [He1 Hc1]; [apply Hms; set_solver|done|done|].
  destruct (IH e1) as [He' Hc']; [intros; apply Hms; set_solver|done|done|]. split; [done|].
  intros Hrec Hall. destruct (Hc1 Hrec Hall) as (Hm & Hall1 & Hsub1). destruct (Hc' Hrec Hall1) as (Hms' & Hall' & Hsub').
  split_and!; [|done|by intros; apply Hsub', Hsub1]. intros q [->|Hq]%elem_of_cons; [by apply Hsub'|by apply Hms'].
Qed.

(** C33: what a local source expands to has no path twice, and every path in it is a match of the
    pattern or a regular file; without [-r] it is exactly the matches.  A source whose last
    element holds no pattern character stands for itself. *)
Theorem expandLocalSource_lists fuel pattern recursive l :
  expandLocalSource w fuel pattern recursive = Some (Ok l) →
  (hasGlob pattern = false ∧ l = [pattern])
  ∨ ∃ matches, Glob w pattern = Ok matches ∧ NoDup l
    ∧ (∀ p, p ∈ l → p ∈ matches ∨ recursive = true ∧ ∃ info, os_Lstat p w = Ok info ∧ FileMode_IsRegular (fi_Mode info) = true)
    ∧ (recursive = false → ∀ p, p ∈ l ↔ p ∈ matches).
Proof.
  unfold expandLocalSource. destruct (hasGlob pattern); [|intros [= <-]; by left]. cbn [negb].
  destruct (Glob w pattern) as [matches|e] eqn:Hg; [|done]. destruct matches as [|m0 ms]; [done|].
  set (matches := m0 :: ms) in *. destruct (foldl _ _ matches) as [e|] eqn:Hf; [|done]. intros Hl. right.
  assert (listed recursive matches (∅, [])) as H0'.
  { split_and!; [constructor| |]; intros p Hp; by apply not_elem_of_nil in Hp. }
  destruct (expand_fold_listed recursive matches matches fuel _ _ (λ m Hm, Hm) H0' Hf) as [(Hnd & _ & Hin) Hall].
  destruct e as [seen result]. injection Hl as <-. exists matches. split_and!; try done.
  intros Hrec p. destruct Hall as (Hms & Hsr & _); [done|intros q Hq; set_solver|]. split; [|by intros; apply Hsr, Hms].
  intros Hp. destruct (Hin p Hp) as [?|[? _]]; [done|congruence].
Qed.
End Expansion.

(** ** Directories on the server *)

Section Upload.
  Context `{Cbor, GoFmt, OSLaws, SSH, UserDB, GzipOk, SecretBoxOk, RandOk, JsonOk, TempDir}.
  Context (c : conn_id) (ca : connAuth) (ca_auth : ca_state ca = authOK).

#[local] Instance tree_transport : Transport := link_transport c.
#[local] Instance tree_context : Ctx := link_context c.

(** Nothing can be created below a regular file. *)
Lemma create_below_file req target name i d s :
  IsAbs target = true → normal name → CreateReq.Path req = Join [target; name] → CreateReq.IsDir req = false →
  at_path (s_world s) (Clean target) = Some i → idata (s_world s) i = Some d →
  wp (create c req (Some ca)) (λ _ s', ∃ r, answered c (MCreateRes r) [] s s' ∧ CreateRes.Success r = false) s.
Proof.
  intros Ha Hn Hp Hdir Hat Hd. unfold create.
  destruct (Join_child target name Ha Hn) as (l & Hl & _ & Hj).
  assert (sandboxPath (Some ca) (CreateReq.Path req) = Ok (Join [target; name])) as ->.
  { rewrite Hp, Hj. unfold sandboxPath. change (HasPrefix ("/" +:+ _) "~/") with false. cbv iota.
    rewrite (IsAbs_app "/") by done. f_equal. apply Clean_abs_id. apply Forall_app. by split; [|constructor]. }
  rewrite Hdir, Dir_child by done. do 2 wp_step.
  destruct (mkdir_not_dir _ _ _ _ _ _ _ Ew Hat Hd) as [e ->].
  unfold createFailed. apply (wp_answer _ _ _ s); [by split|]. intros s' Hs' _ _. by eexists.
Qed.

(** What [Create] answers on the link. *)
Lemma link_ctx_after m p n n' r : link_call c m p n = (n', r) → l_ctx n = None →
  (∀ rp, r = Ok rp → l_ctx n' = None) ∧ (∀ e, r = Err e → e = ctx_Canceled).
Proof.
  unfold link_call. intros Hc Hn. rewrite Hn in Hc. cbv zeta in Hc.
  destruct (_ || _); [|destruct (arrives _ _)]; injection Hc as <- <-; split; intros ? [= <-]; done.
Qed.

Lemma link_create_below req target name p n n' r :
  link_ok c ca n → IsAbs target = true → normal name → CreateReq.Path req = Join [target; name] →
  CreateReq.IsDir req = false → is_Some (link_file ca n (Clean target)) →
  link_call c (MCreateReq req) p n = (n', r) →
  ∀ res q, r = Ok (MCreateRes res, q) → CreateRes.Success res = false.
Proof.
  intros Hok Ha Hn Hp Hdir [d Hd] Hcall res q ->.
  assert (client_request (MCreateReq req) = true) as Hm by (simpl; by rewrite Hdir).
  destruct (link_call_cases c ca ca_auth _ _ _ _ _ Hok Hm Hcall) as (s' & _ & Hs' & _ & Hans).
  destruct (Hans _ eq_refl) as [-> Hanswer].
  unfold link_file, file_at in Hd. unfold sandboxPath in Hd.
  assert (HasPrefix (Clean target) "~/" = false ∧ IsAbs (Clean target) = true) as [Hnp Habs].
  { destruct (Clean_abs target Ha) as (l & -> & _). split; [done|by apply (IsAbs_app "/")]. }
  rewrite Hnp, Habs, Clean_idemp in Hd.
  destruct (at_path _ (Clean target)) as [i|] eqn:Hat; [|done]. simpl in Hd.
  destruct (create_below_file req target name i d (l_srv n) Ha Hn Hp Hdir Hat Hd) as (r0 & Ha0 & Hsuc).
  pose proof (answer_answered c _ _ _ _ _ (lo_open c ca n Hok) Ha0 Hanswer) as Heq. by simplify_eq.
Qed.

(** A fresh upload of a file below a regular file fails, with an error a walk does not skip. *)
Lemma upload_below_file src target name info chunkSize batch maxRetries sha algo x r x' :
  link_ok c ca (x_net x) → l_ctx (x_net x) = None → IsAbs target = true → normal name →
  is_Some (link_file ca (x_net x) (Clean target)) →
  snd (run_alone (loadResumeState src (Join [target; name]) (fi_Size info) chunkSize batch) (x_w x)) = None →
  uploadFile src (Join [target; name]) info chunkSize batch maxRetries sha algo x r x' →
  ∃ e, r = Some e ∧ err_is e "SkipDir" = false ∧ err_is e "SkipAll" = false.
Proof.
  intros Hok Hctx Ha Hn Hd Hload Hup. unfold uploadFile, upload_start in Hup.
  rewrite run_alone_bind, run_load, Hload in Hup. cbn [fst snd] in Hup. rewrite run_alone_bind in Hup.
  set (x0 := set_xrs _ _) in Hup.
  assert (∃ e, snd (run_alone (upload_create src (Join [target; name]) info) x0) = Some e
    ∧ err_is e "SkipDir" = false ∧ err_is e "SkipAll" = false) as (e & He & Hs1 & Hs2).
  { unfold upload_create. rewrite run_os1. destruct (os_OpenFile src O_RDONLY 0 (x_w x0)) as [w1 [f|e]] eqn:Ho; cbn [fst snd].
    2: { destruct (open_path_error _ _ _ _ _ _ Ho) as (no & t & ->). by eexists. }
    rewrite run_os1, run_cc. unfold eval, exec. destruct (Create _ _ _ _) as [res [cc n]] eqn:Hcr. cbn [fst snd].
    apply Create_run in Hcr as (id & -> & Hcall). cbn beta in Hcall.
    change (x_net (set_xw _ (set_xw _ x0))) with (x_net x) in Hcall. destruct res as [[m q]|e].
    - destruct m as [|cr| | | | | | | | | | | |]; try by eexists.
      assert (CreateRes.Success cr = false) as ->; [|by eexists].
      eapply (link_create_below _ target name); [exact Hok|exact Ha|exact Hn| | |exact Hd|exact Hcall|done]; done.
    - destruct (link_ctx_after _ _ _ _ _ Hcall Hctx) as [_ He]. rewrite (He e eq_refl). by eexists. }
  destruct (run_alone (upload_create _ _ _) x0) as [x1 [e'|]] eqn:Hrun; cbn [fst snd] in *; [|done].
  simplify_eq. destruct Hup as [-> _]. by exists e.
Qed.

(** The walk asks for the directory with a request for a file. *)
Definition root_create (target : string) (info : FileInfo) : ST (client * net) (result clientWrappedMsg) :=
  Create (Join [target; "."]) 0 (FileMode_Perm (fi_Mode info)).

Lemma visit_root chunkSize maxRetries sha algo srcDir target info x r x' :
  link_ok c ca (x_net x) → fi_IsDir info = true →
  upload_visit chunkSize maxRetries sha algo srcDir target srcDir (Some info) None x r x' →
  x_w x' = x_w x ∧ cc_batch (x_cc x') = cc_batch (x_cc x) ∧ x_net x' = snd (exec (root_create target info) (x_cc x, x_net x))
  ∧ link_ok c ca (x_net x')
  ∧ (r = None → l_ctx (x_net x') = None)
  ∧ (∀ e, r = Some e → err_is e "SkipDir" = false ∧ err_is e "SkipAll" = false ∨ is_Some (l_ctx (x_net x))).
Proof.
  intros Hok Hdir. unfold upload_visit.
  assert (Rel srcDir srcDir = Ok ".") as -> by (unfold Rel; by rewrite bool_decide_true).
  rewrite Hdir. intros (res & x1 & Hc & -> & ->). revert Hc. unfold alone, step_nd, on_cc, atomic, exec, root_create.
  cbn -[Create GoStd.Join]. destruct (Create (Join [target; "."]) _ _ _) as [res' [cc n]] eqn:Hcr. cbn [run_alone fst].
  intros [= <- <-]. cbn [x_w x_net x_cc set_xcall fst snd].
  apply Create_run in Hcr as (id & -> & Hcall). cbn beta in Hcall.
  assert (link_ok c ca n) as Hok' by (by eapply (link_net_ok c ca ca_auth); [exact Hok| |exact Hcall]).
  do 4 (split; [done|]). destruct (l_ctx (x_net x)) as [e0|] eqn:E.
  - split; [|intros; right; by eexists]. intros Hr.
    assert (∀ m p r, link_call c m p (x_net x) = (n, r) → r = Err e0) as Hl.
    { intros m p r'. unfold link_call. rewrite E. by intros [= _ <-]. }
    by rewrite (Hl _ _ _ Hcall) in Hr.
  - destruct (link_ctx_after _ _ _ _ _ Hcall E) as [Hok1 Herr]. destruct res' as [rp|e]; simpl.
    + split; [intros _; by eapply Hok1|done].
    + split; [done|]. intros e' [= <-]. left. by rewrite (Herr e eq_refl).
Qed.

(** The answer to it, when it reports success and nothing had the name, is that a regular file
    has it now. *)
Lemma root_is_file target info x res q : link_ok c ca (x_net x) → IsAbs target = true →
  at_path (s_world (l_srv (x_net x))) (Clean target) = None →
  eval (root_create target info) (x_cc x, x_net x) = Ok (MCreateRes res, q) → CreateRes.Success res = true →
  is_Some (link_file ca (snd (exec (root_create target info) (x_cc x, x_net x))) (Clean target)).
Proof.
  intros Hok Ha Hno He Hs. unfold eval, exec, root_create in *. rewrite Join_dot in * by (by intros ->).
  destruct (Create _ _ _ _) as [r [cc n]] eqn:Hcr. cbn [fst snd] in *. subst r.
  apply Create_run in Hcr as (id & _ & Hcall). cbn beta in Hcall.
  eapply link_create_new in Hcall; [by eexists|done|done|done|done| |exact Hno].
  cbn [CreateReq.Path]. unfold sandboxPath.
  destruct (Clean_abs target Ha) as (l & Hl & _). rewrite Hl at 1. change (HasPrefix ("/" +:+ _) "~/") with false.
  assert (IsAbs (Clean target) = true) as -> by (rewrite Hl; by apply (IsAbs_app "/")). by rewrite Clean_idemp.
Qed.

(** C31: a recursive copy cannot succeed where the server has nothing yet: [cpDirToHost] asks the
    server to [Create] the directory without setting [IsDir], so that a regular file takes its place,
    and the directory's first entry, a regular file, cannot be created below it: the copy to an
    absolute path that names nothing on the server returns an error, when the server could do
    what it was asked first. *)
Theorem recursive_upload_fails srcDir target info name names finfo chunkSize maxRetries sha algo x r x' res q :
  link_ok c ca (x_net x) → l_ctx (x_net x) = None →
  IsAbs target = true → at_path (s_world (l_srv (x_net x))) (Clean target) = None →
  eval (root_create target info) (x_cc x, x_net x) = Ok (MCreateRes res, q) → CreateRes.Success res = true →
  os_Lstat srcDir (x_w x) = Ok info → fi_IsDir info = true →
  dir_names srcDir (x_w x) = Ok (name :: names) → normal name →
  Rel srcDir (Join [srcDir; name]) = Ok name →
  os_Lstat (Join [srcDir; name]) (x_w x) = Ok finfo →
  FileMode_IsRegular (fi_Mode finfo) = true → fi_IsDir finfo = false →
  snd (run_alone (loadResumeState (Join [srcDir; name]) (Join [target; name]) (fi_Size finfo) chunkSize
         (cc_batch (x_cc x))) (x_w x)) = None →
  cpDirToHost chunkSize maxRetries sha algo srcDir target x r x' → r ≠ None.
Proof.
  intros Hok Hctx Ha Hno Hmade Hsuc Hst Hdir Hnames Hname Hrel Hf Hreg Hfdir Hload (fuel & Hwalk).
  pose proof (root_is_file target info x res q Hok Ha Hno Hmade Hsuc) as Hfile.
  destruct Hwalk as (res0 & x0 & Hl & (rw & x1 & Hwalk & Hr & _)). apply ask_nd_inv in Hl as [-> ->]. rewrite Hst in Hwalk.
  assert (∀ e, rw = Some (Some e) → err_is e "SkipDir" = false → err_is e "SkipAll" = false → r ≠ None) as Hend.
  { intros e -> H1' H2'. rewrite H1', H2' in Hr. by injection Hr as ->. }
  destruct fuel as [|fuel]; [by destruct Hwalk as [-> _]|]. cbn [walk] in Hwalk. rewrite Hdir in Hwalk.
  destruct Hwalk as (ns & x2 & Hn2 & (err1 & x3 & Hroot & Hwalk)). apply ask_nd_inv in Hn2 as [-> ->]. rewrite Hnames in Hroot, Hwalk.
  destruct (visit_root _ _ _ _ _ _ _ _ _ _ Hok Hdir Hroot) as (Hw3 & Hb3 & Hn3 & Hok3 & Hctx3 & Herr3).
  destruct err1 as [e|].
  { destruct Hwalk as [-> _]. destruct (Herr3 e eq_refl) as [[? ?]|[e' He']]; [by eapply Hend|congruence]. }
  cbn [walk_names] in Hwalk. destruct Hwalk as (fi & x4 & Hf4 & Hwalk). apply ask_nd_inv in Hf4 as [-> ->].
  rewrite Hw3, Hf in Hwalk. destruct Hwalk as (r5 & x5 & Hrec & Hwalk).
  destruct fuel as [|fuel]; cbn [walk] in Hrec.
  { destruct Hrec as [-> ->]. by destruct Hwalk as [-> _]. }
  rewrite Hfdir in Hrec. destruct Hrec as (r6 & x6 & Hvis & -> & ->). unfold upload_visit in Hvis.
  rewrite Hrel, Hfdir, Hreg in Hvis. destruct Hvis as (b & x7 & Hb & Hup). apply ask_nd_inv in Hb as [-> ->]. rewrite Hb3 in Hup.
  destruct (upload_below_file (Join [srcDir; name]) target name finfo chunkSize (cc_batch (x_cc x)) maxRetries sha algo x3 r6 x6 Hok3 (Hctx3 eq_refl) Ha Hname) as (e & -> & He1 & He2).
  - by rewrite Hn3.
  - by rewrite Hw3.
  - exact Hup.
  - rewrite Hfdir in Hwalk. destruct Hwalk as [-> _]. by eapply Hend.
Qed.

End Upload.

(** ** Downloading a tree *)

Section Download.
  Context `{Transport, !Ctx, Gzip, SecretBox, Rand, Json, TempDir, OS}.
  Context (key : option (list byte)) {RF : RemoteFiles key}.
  Context (chunkSize maxRetries : Z) (useSha256 : bool) (compressionAlgo : Z).

Lemma alone_untouched {A} n0 n (m : prog xfer A) x a x' : within (untouched key n0) n m →
  untouched key n0 x → alone m x a x' → untouched key n0 x'.
Proof. intros Hm HK Ha. pose proof (within_run _ _ _ x Hm HK) as HK'. unfold alone, step_nd in Ha. by rewrite Ha in HK'. Qed.

Lemma remote_dir_untouched n0 srcDir target : within (untouched key n0) 4 (remote_dir srcDir target).
Proof.
  unfold remote_dir. apply (within_bind _ 1 3); [apply ro_os|]. intros [e|]; [apply within_ret|].
  apply (within_bind _ 1 2); [apply ro_stat|]. intros st. apply (within_bind _ 1 1).
  - unfold chmod_as_remote. repeat case_match; first [apply within_ret|apply ro_os].
  - intros [e|]; [apply within_ret|]. apply (within_bind _ 1 0); [apply ro_readDir|]. intros r.
    repeat case_match; apply within_ret.
Qed.

Context (Hc : 0 < chunkSize) (Hc48 : chunkSize <= 2 ^ 48).

Lemma entries_untouched n0 rec ck srcDir target entries x r x' :
  (∀ s t x r x', untouched key n0 x → rec s t x r x' → untouched key n0 x') →
  untouched key n0 x →
  remote_entries chunkSize maxRetries useSha256 compressionAlgo rec srcDir target ck entries x r x' → untouched key n0 x'.
Proof.
  intros Hrec. revert x. induction entries as [|e entries IH]; intros x HK; [by intros [_ ->]|]. cbn [remote_entries].
  intros (r1 & x1 & H1' & Hrest). assert (untouched key n0 x1) as HK1.
  { destruct (DirEntry.IsDir e); [by eapply Hrec|]. destruct H1' as (b & x2 & [-> ->]%ask_nd_inv & (err & x3 & Hd & H3')).
    apply (download_untouched key n0) in Hd; [|done..]. destruct err as [err|]; [by destruct H3' as [_ ->]|].
    destruct (DirEntry.Mode e =? 0); [by destruct H3' as [_ ->]|]. destruct H3' as (c & x4 & Hch & [_ ->]).
    eapply alone_untouched; [apply ro_os|exact Hd|exact Hch]. }
  destruct r1 as [[err|]|]; [by destruct Hrest as [_ ->]|by eapply IH|by destruct Hrest as [_ ->]].
Qed.

(** C32: a recursive download only reads the server: whatever directories the server lists, however
    the chunks interleave, and whether the copy succeeds, fails or is cancelled, every file of the
    server is as it was before, and its state sound. *)
Theorem recursive_download_reads_only srcDir target x r x' : net_ok key (x_net x) →
  cpDirFromHost chunkSize maxRetries useSha256 compressionAlgo srcDir target x r x' →
  net_ok key (x_net x') ∧ ∀ t, remote key (x_net x') t = remote key (x_net x) t.
Proof.
  intros Hn (fuel & Hwalk). change (untouched key (x_net x) x'). assert (untouched key (x_net x) x) as HK by done.
  clear Hn. revert Hwalk HK. generalize (x_net x) as n0. generalize (Some r) as ro. generalize (cc_useChecksum (x_cc x)) as ck.
  intros ck ro n0. revert srcDir target x ro x'. induction fuel as [|fuel IH]; intros srcDir target x ro x'; cbn [walkRemoteDir].
  - by intros [_ ->].
  - intros (entries & x1 & Hdir & Hrest) HK.
    eapply alone_untouched in HK; [|apply remote_dir_untouched|exact Hdir].
    destruct entries as [entries|e]; [|by destruct Hrest as [_ ->]].
    eapply entries_untouched; [|exact HK|exact Hrest]. intros s t y r1 y' HKy Hy. by eapply IH.
Qed.
End Download.

(** ** One schedule of a recursive download, as a function *)

Section WalkExec.
  Context `{Transport, !Ctx, Gzip, SecretBox, Rand, Json, TempDir, OS}.
  Context (chunks_fuel : nat) (chunkSize maxRetries : Z) (useSha256 : bool) (compressionAlgo : Z) (ck : bool).

Definition entry_exec (rec : string → string → xfer → option (option error * xfer)) (srcDir target : string)
    (entry : DirEntry.t) (x : xfer) : option (option error * xfer) :=
  let remotePath := Join [srcDir; DirEntry.Name entry] in
  let localPath := Join [target; DirEntry.Name entry] in
  if DirEntry.IsDir entry then rec remotePath localPath x else
  if 0 <? cc_batch (x_cc x) then
    '(err, x1) ← download_exec chunks_fuel remotePath localPath chunkSize (cc_batch (x_cc x)) maxRetries ck useSha256 compressionAlgo x;
    match err with
    | Some err => Some (Some err, x1)
    | None =>
      if DirEntry.Mode entry =? 0 then Some (None, x1) else
      let '(x2, err) := run_alone (on_os (atomic (os_Chmod localPath (FileMode_Perm (DirEntry.Mode entry))))) x1 in
      Some (err, x2)
    end
  else None.

Fixpoint entries_exec (rec : string → string → xfer → option (option error * xfer)) (srcDir target : string)
    (entries : list DirEntry.t) (x : xfer) : option (option error * xfer) :=
  match entries with
  | [] => Some (None, x)
  | entry :: entries =>
    '(r, x1) ← entry_exec rec srcDir target entry x;
    match r with
    | None => entries_exec rec srcDir target entries x1
    | Some err => Some (Some err, x1)
    end
  end.

Fixpoint walk_exec (fuel : nat) (srcDir target : string) (x : xfer) : option (option error * xfer) :=
  match fuel with
  | O => None
  | S fuel =>
    match run_alone (remote_dir srcDir target) x with
    | (x1, Err err) => Some (Some err, x1)
    | (x1, Ok entries) => entries_exec (walk_exec fuel) srcDir target entries x1
    end
  end.

Lemma entries_exec_run rec rec' srcDir target entries x r x' :
  (∀ s t x r x', rec s t x = Some (r, x') → rec' s t x (Some r) x') →
  entries_exec rec srcDir target entries x = Some (r, x') →
  remote_entries chunkSize maxRetries useSha256 compressionAlgo rec' srcDir target ck entries x (Some r) x'.
Proof.
  intros Hrec. revert x. induction entries as [|e entries IH]; intros x; cbn [entries_exec remote_entries]; [by intros [= <- <-]|].
  destruct (entry_exec rec srcDir target e x) as [[r1 x1]|] eqn:He; [|done]. cbn [mbind option_bind]. intros Hrest.
  eapply (nd_run _ _ _ (Some r1) x1).
  - revert He. unfold entry_exec. destruct (DirEntry.IsDir e); [by apply Hrec|]. destruct (0 <? cc_batch (x_cc x)) eqn:Hb; [|done]. zbool.
    destruct (download_exec _ _ _ _ _ _ _ _ _ x) as [[err x2]|] eqn:Hd; [|done]. cbn [mbind option_bind].
    apply download_exec_run in Hd; [|done]. intros He. eapply nd_run; [apply nd_run_step|]. cbn [fst snd].
    eapply nd_run; [exact Hd|]. destruct err as [err|]; [by injection He as <- <-|].
    destruct (DirEntry.Mode e =? 0); [by injection He as <- <-|].
    destruct (run_alone (on_os _) x2) as [x3 err] eqn:Hch. injection He as <- <-.
    eapply (nd_run _ _ _ err x3); [exact Hch|done].
  - destruct r1 as [err|]; [by injection Hrest as <- <-|]. by apply IH.
Qed.

Lemma walk_exec_run fuel srcDir target x r x' : walk_exec fuel srcDir target x = Some (r, x') →
  walkRemoteDir chunkSize maxRetries useSha256 compressionAlgo fuel ck srcDir target x (Some r) x'.
Proof.
  revert srcDir target x r x'. induction fuel as [|fuel IH]; intros srcDir target x r x'; cbn [walk_exec walkRemoteDir]; [done|].
  destruct (run_alone (remote_dir srcDir target) x) as [x1 [entries|e]] eqn:Hd; intros Hw.
  - eapply (nd_run _ _ _ (Ok entries) x1); [exact Hd|]. by eapply entries_exec_run.
  - injection Hw as <- <-. by eapply (nd_run _ _ _ (Err e) x1); [exact Hd|].
Qed.
End WalkExec.

(** The names the server lists are joined as they are: one with [..] leaves the target. *)
Example entry_leaves_target : Join ["/home/me/out"; "../../x"] = "/home/x".
Proof. reflexivity. Qed.

(** A directory with one file, copied to a place of its own on the demo server. *)
Definition tree_disk : @world MemOS :=
  put_file "/home/me/d/a" [x61; x62; x63] (mem_init ["/home"; "/home/me"; "/home/me/d"; "/tmp"]).
Definition tree_xfer : xfer := {| x_cc := demo_cc; x_net := demo_link; x_w := tree_disk; x_rs := None |}.
Definition tree_dir : FileInfo := {| fi_Name := "d"; fi_Size := 0; fi_Mode := 2147484141; fi_ModTime := 0 |}.
Definition tree_file : FileInfo := {| fi_Name := "a"; fi_Size := 3; fi_Mode := 420; fi_ModTime := 0 |}.

Lemma tree_lstat : os_Lstat "/home/me/d" (x_w tree_xfer) = Ok tree_dir
  ∧ os_Lstat (Join ["/home/me/d"; "a"]) (x_w tree_xfer) = Ok tree_file
  ∧ dir_names "/home/me/d" (x_w tree_xfer) = Ok ["a"].
Proof. vm_compute. done. Qed.

Lemma tree_fresh : snd (run_alone (loadResumeState (Join ["/home/me/d"; "a"]) (Join ["/home/u/t"; "a"])
  (fi_Size tree_file) 4 (cc_batch (x_cc tree_xfer))) (x_w tree_xfer)) = None.
Proof. vm_compute. reflexivity. Qed.

Lemma tree_nothing : at_path (s_world (l_srv (x_net tree_xfer))) (Clean "/home/u/t") = None.
Proof. vm_compute. reflexivity. Qed.

Lemma tree_made : ∃ res q, eval (root_create 0%nat "/home/u/t" tree_dir) (x_cc tree_xfer, x_net tree_xfer) = Ok (MCreateRes res, q)
  ∧ CreateRes.Success res = true.
Proof. vm_compute. do 2 eexists. split; reflexivity. Qed.

Definition tree_root : prog xfer (result clientWrappedMsg) := on_cc (root_create 0%nat "/home/u/t" tree_dir).
Definition tree_made_xfer : xfer := fst (run_alone tree_root tree_xfer).

Lemma tree_root_ok : is_Ok (snd (run_alone tree_root tree_xfer)) = true.
Proof. vm_compute. reflexivity. Qed.

Lemma tree_visit_root : upload_visit 4 1 true CompressionGzip "/home/me/d" "/home/u/t" "/home/me/d" (Some tree_dir) None
  tree_xfer None tree_made_xfer.
Proof.
  exists (snd (run_alone tree_root tree_xfer)), tree_made_xfer. split.
  - exact (nd_run_step (run_alone tree_root) tree_xfer).
  - pose proof tree_root_ok as Hok. by destruct (snd (run_alone tree_root tree_xfer)).
Qed.

Definition tree_start : prog xfer (result file) :=
  upload_start (Join ["/home/me/d"; "a"]) (Join ["/home/u/t"; "a"]) tree_file 4 2.

Lemma tree_start_fails : is_Ok (snd (run_alone tree_start tree_made_xfer)) = false.
Proof. vm_compute. reflexivity. Qed.

Lemma tree_visit_file : ∃ e x', upload_visit 4 1 true CompressionGzip "/home/me/d" "/home/u/t" (Join ["/home/me/d"; "a"])
  (Some tree_file) None tree_made_xfer (Some e) x'.
Proof.
  pose proof tree_start_fails as Hf. destruct (run_alone tree_start tree_made_xfer) as [x1 [f|e]] eqn:Hrun; [done|].
  exists e, x1. exists 2, tree_made_xfer. split; [reflexivity|]. unfold uploadFile.
  change (upload_start _ _ _ _ _) with tree_start. rewrite Hrun. exact (conj eq_refl eq_refl).
Qed.

Lemma tree_world : x_w tree_made_xfer = x_w tree_xfer.
Proof. unfold tree_made_xfer, tree_root, on_cc, atomic. cbn [run_alone]. by destruct (root_create _ _ _ _) as [? []]. Qed.

Lemma tree_run : ∃ r x', cpDirToHost 4 1 true CompressionGzip "/home/me/d" "/home/u/t" tree_xfer r x'.
Proof.
  destruct tree_lstat as (Hd & Hf & Hn). destruct tree_visit_file as (e & x' & Hv).
  exists (if err_is e "SkipDir" || err_is e "SkipAll" then None else Some e), x'. exists 2%nat. unfold local_walk, Walk. eapply nd_run; [apply nd_run_step|]. cbn [fst snd]. rewrite Hd.
  eapply (nd_run _ _ _ (Some (Some e)) x'); [|split; [by destruct (_ || _)|exact eq_refl]].
  cbn [walk]. change (fi_IsDir tree_dir) with true. cbn [negb].
  eapply nd_run; [apply nd_run_step|]. cbn [fst snd]. rewrite Hn. eapply nd_run; [exact tree_visit_root|].
  cbn [walk_names]. eapply nd_run; [apply nd_run_step|]. cbn [fst snd]. rewrite tree_world, Hf.
  eapply (nd_run _ _ _ (Some (Some e)) x'); [|exact (conj eq_refl eq_refl)].
  change (fi_IsDir tree_file) with false. cbn [negb]. eapply nd_run; [exact Hv|exact (conj eq_refl eq_refl)].
Qed.

Lemma tree_normal : normal "a".
Proof. by split_and!. Qed.

Lemma recursive_upload_fails_witness :
  ∃ r x', cpDirToHost 4 1 true CompressionGzip "/home/me/d" "/home/u/t" tree_xfer r x' ∧ r ≠ None.
Proof.
  destruct tree_run as (r & x' & Hrun). exists r, x'. split; [exact Hrun|].
  destruct tree_lstat as (Hd & Hf & Hn). destruct tree_made as (res & q & Hm & Hs).
  exact (recursive_upload_fails 0%nat demo_ca eq_refl "/home/me/d" "/home/u/t" tree_dir "a" [] tree_file 4 1 true
    CompressionGzip tree_xfer r x' res q demo_link_ok eq_refl eq_refl tree_nothing Hm Hs Hd eq_refl Hn tree_normal
    eq_refl Hf eq_refl eq_refl tree_fresh Hrun).
Defined.

Lemma tree_expands : expandLocalSource tree_disk 5 "/home/me/[c-e]" true = Some (Ok ["/home/me/d/a"])
  ∧ expandLocalSource tree_disk 5 "/home/me/d/*" false = Some (Ok ["/home/me/d/a"]).
Proof. split; vm_compute; reflexivity. Qed.

Lemma expandLocalSource_lists_witness : ∃ matches, Glob tree_disk "/home/me/d/*" = Ok matches ∧ "/home/me/d/a" ∈ matches.
Proof.
  destruct (expandLocalSource_lists tree_disk 5 "/home/me/d/*" false ["/home/me/d/a"] (proj2 tree_expands))
    as [[Hg _]|(matches & Hm & _ & _ & Heq)]; [discriminate Hg|].
  exists matches. split; [exact Hm|]. apply (Heq eq_refl). apply list_elem_of_singleton. reflexivity.
Defined.

(** The home of the demo server, with its one directory, copied to the machine. *)
Definition home_copy : option (option error * xfer) :=
  walk_exec 4 4 1 true CompressionGzip true 3 "." "/home/me/out" demo_xfer.

Definition home_copied : bool :=
  match home_copy with
  | Some (None, x) =>
    let data p := at_path (x_w x) p ≫= idata (x_w x) in
    bool_decide (data "/home/me/out/f" = Some [x61; x62; x63; x64; x65])
    && bool_decide (data "/home/me/out/.ssh/authorized_keys" = Some (demo_key ++ [x0a]))
  | _ => false
  end.

Example home_copied_ok : home_copied = true.
Proof. vm_compute. reflexivity. Qed.

Lemma recursive_download_reads_only_witness : ∃ r x',
  cpDirFromHost 4 1 true CompressionGzip "." "/home/me/out" demo_xfer r x'
  ∧ remote (ca_encryptionKey demo_ca) (x_net x') "f" = Some [x61; x62; x63; x64; x65].
Proof.
  pose proof home_copied_ok as Hok. unfold home_copied in Hok. destruct home_copy as [[r x']|] eqn:Hw; [|discriminate Hok].
  apply walk_exec_run in Hw. exists r, x'.
  assert (cpDirFromHost 4 1 true CompressionGzip "." "/home/me/out" demo_xfer r x') as Hrun by (exists 3%nat; exact Hw).
  split; [exact Hrun|].
  destruct (recursive_download_reads_only (ca_encryptionKey demo_ca) 4 1 true CompressionGzip eq_refl
    ltac:(discriminate) "." "/home/me/out" demo_xfer r x' demo_net_ok Hrun) as [_ Hr].
  rewrite Hr. exact demo_remote_file.
Defined.
