(* ===== verification/CommandSpec.v ===== *)
(** The properties of the commands: what an address names, what [gcp cp] copies and where. *)
From S2P Require Import Prelude Message PlainCodec GoStd GoPath GoHash OS MemFS Chunk Auth Hoare Server Demo Client ClientAuth Address Prog Nondet Pool Resume Transfer Tree Command Remote TransferInv TransferEnds ServerLink TransferExec TransferSpec.
From Stdlib Require Import Ascii Strings.Byte.

(** ** Addresses *)

Section Addresses.
  Context `{OS, ClientEnv, SshConfig}.

(** C17: the addresses [expandRemoteSources] makes from a parsed source (the source itself, or
    a file the server lists) parse back to the same server, user, identity file and alias and to
    that file's path, under the same configuration, as long as the path holds no ["@"]. *)
Theorem expanded_address_parses s port w w' a path w2 w3 :
  parseRemoteAddr s port w = (w', Ok a) → no_char "@" path →
  sshConfigLookup (ra_hostAlias a) w2 = (w3, snd (sshConfigLookup (ra_hostAlias a) w)) →
  parseRemoteAddr (format_addr (ra_userName a) (ra_hostAlias a) path) port w2 =
  (w3, Ok {| ra_hostPort := ra_hostPort a; ra_userName := ra_userName a; ra_path := path;
             ra_identityFile := ra_identityFile a; ra_hostAlias := ra_hostAlias a |}).
Proof.
  intros Hp Hpath Hl. destruct (parse_ok_inv _ _ _ _ _ Hp) as (user & entry & He & Hr & Ha & Hc & Hne & _).
  rewrite parse_format, Hl, He by done. simpl. f_equal. by eapply resolve_again.
Qed.

(** ** Where the sources of one command go *)

(** With several remote sources, the target of each does not depend on its path: the code takes
    the fourth result of [parseRemoteAddr], the identity file, for the third, the path.  Two files of
    one server get the same target, so the second overwrites the first. *)
Theorem several_downloads_one_target s1 s2 port dst w w1 w2 a1 a2 :
  parseRemoteAddr s1 port w = (w1, Ok a1) → parseRemoteAddr s2 port w = (w2, Ok a2) →
  ra_hostAlias a1 = ra_hostAlias a2 →
  snd (copy_target true true port s1 dst w) = snd (copy_target true true port s2 dst w)
  ∧ (ra_identityFile a1 = "" → dst ≠ "" → snd (copy_target true true port s1 dst w) = Clean dst).
Proof.
  intros Hp1 Hp2 Halias.
  assert (ra_identityFile a1 = ra_identityFile a2) as Hid.
  { destruct (parse_ok_inv _ _ _ _ _ Hp1) as (u1 & e1 & He1 & Hr1 & _).
    destruct (parse_ok_inv _ _ _ _ _ Hp2) as (u2 & e2 & He2 & Hr2 & _).
    rewrite Halias, He2 in He1. injection He1 as _ ->.
    by rewrite (resolve_identity _ _ _ _ _ _ Hr1), (resolve_identity _ _ _ _ _ _ Hr2). }
  unfold copy_target. cbn [negb]. rewrite Hp1, Hp2. cbn [snd addr_or_empty]. rewrite Hid. split; [done|].
  intros Hnone Hdst. rewrite Hnone. change (Base "") with ".". cbn [GoStd.Join].
  rewrite bool_decide_false by done. by apply Clean_dot.
Qed.

End Addresses.

(** A configuration with one host, and the user's environment. *)
#[local] Instance toy_env : ClientEnv := {
  os_UserHomeDir := Ok "/home/me";
  os_Getenv _ := "";
  os_ExpandEnv s := s;
  user_Current := Ok "me";
}.
#[local] Instance toy_config : SshConfig := {
  Config := unit;
  ssh_config_Decode _ := Ok tt;
  cfg_Get _ host k :=
    if bool_decide (host = "box" ∧ k = "HostName") then Ok "10.0.0.2" else
    if bool_decide (host = "box" ∧ k = "User") then Ok "u" else Err (demo_err "no value");
}.

Definition conf_disk : @world MemOS := put_file "/home/me/.ssh/config" [] (mem_init ["/home"; "/home/me"; "/home/me/.ssh"]).
Definition box_addr (path : string) : remoteAddr :=
  {| ra_hostPort := "10.0.0.2:5031"; ra_userName := "u"; ra_path := path; ra_identityFile := ""; ra_hostAlias := "box" |}.
Definition conf_after : @world MemOS := fst (parseRemoteAddr "box:*.txt" "5031" conf_disk).

Lemma parse_box : snd (parseRemoteAddr "box:*.txt" "5031" conf_disk) = Ok (box_addr "*.txt")
  ∧ snd (parseRemoteAddr "box:a" "5031" conf_disk) = Ok (box_addr "a")
  ∧ snd (parseRemoteAddr "box:b" "5031" conf_disk) = Ok (box_addr "b").
Proof. vm_compute. done. Qed.

Lemma parse_box_run s a : snd (parseRemoteAddr s "5031" conf_disk) = Ok a →
  parseRemoteAddr s "5031" conf_disk = (fst (parseRemoteAddr s "5031" conf_disk), Ok a).
Proof. intros <-. apply surjective_pairing. Qed.

Lemma no_at : no_char "@" "/x.txt".
Proof. reflexivity. Qed.

(** A second look at the same disk. *)
Lemma expanded_address_parses_witness :
  snd (parseRemoteAddr "u@box:/x.txt" "5031" conf_disk) = Ok (box_addr "/x.txt").
Proof.
  assert (parseRemoteAddr (format_addr "u" "box" "/x.txt") "5031" conf_disk
    = (fst (sshConfigLookup "box" conf_disk), Ok (box_addr "/x.txt"))) as Hp
    by exact (expanded_address_parses "box:*.txt" "5031" conf_disk conf_after (box_addr "*.txt") "/x.txt" conf_disk
        (fst (sshConfigLookup "box" conf_disk)) (parse_box_run _ _ (proj1 parse_box)) no_at (surjective_pairing _)).
  change "u@box:/x.txt" with (format_addr "u" "box" "/x.txt"). rewrite Hp. reflexivity.
Defined.

(** An ["@"] in the path takes the address apart. *)
Example at_in_path : snd (parseRemoteAddr "box:a@b" "5031" conf_disk)
  = Err (Errorf "invalid remote address %q: missing colon" [inl "box:a@b"]).
Proof. vm_compute. reflexivity. Qed.

(** What is written as a port is the start of the path. *)
Example port_is_path : ra_path <$> (match snd (parseRemoteAddr "u@box:5031/dst" "5031" conf_disk) with Ok a => Some a | Err _ => None end)
  = Some "5031/dst".
Proof. vm_compute. reflexivity. Qed.

(** [HostName] may be an IPv6 address, in spite of the message; it is what has a colon and is not one
    that is refused. *)
Example ipv6_accepted : resolveAddr "u" "h" "p" "5031"
    (Some {| sc_Host := "h"; sc_HostName := "fe80::1"; sc_User := ""; sc_IdentityFile := "" |})
  = Ok {| ra_hostPort := "[fe80::1]:5031"; ra_userName := "u"; ra_path := "p"; ra_identityFile := ""; ra_hostAlias := "h" |}.
Proof. reflexivity. Qed.

Lemma several_downloads_one_target_witness :
  snd (copy_target true true "5031" "box:a" "out/" conf_disk) = "out"
  ∧ snd (copy_target true true "5031" "box:a" "out/" conf_disk) = snd (copy_target true true "5031" "box:b" "out/" conf_disk).
Proof.
  destruct (several_downloads_one_target "box:a" "box:b" "5031" "out/" conf_disk _ _ (box_addr "a") (box_addr "b")
    (parse_box_run _ _ (proj1 (proj2 parse_box))) (parse_box_run _ _ (proj2 (proj2 parse_box))) eq_refl) as [Heq Hdst].
  split; [|exact Heq]. apply Hdst; [reflexivity|discriminate].
Defined.

(** Several local sources to ["host:"], the user's home, go to the root of the server. *)
Example several_uploads_to_root : snd (copy_target true false "5031" "f" "box:" conf_disk) = "box:/f".
Proof. reflexivity. Qed.

(** ** One source *)

Section Copy.
  Context `{Transport, !Ctx, GzipOk, SecretBoxOk, RandOk, JsonOk, TempDir, OSLaws, ClientEnv, SshConfig}.
  Context (key : option (list byte)) {RF : RemoteFiles key}.

(** An inversion: a bind that had an outcome. *)
Lemma on_machine_inv {A} (f : world → world * A) x a x' : on_machine f x a x' →
  a = snd (f (x_w x)) ∧ x' = set_xw (fst (f (x_w x))) x.
Proof. unfold on_machine, step_nd. destruct (f (x_w x)) as [w b]. by intros [= <- <-]. Qed.

(** The route of a local file to a remote destination. *)
Lemma copy_single_upload src dst chunkSize maxRetries recursive sha algo st x r x' :
  isRemoteAddr src = false → isRemoteAddr dst = true → os_Stat src (x_w x) = Ok st → fi_IsDir st = false →
  copySingle chunkSize maxRetries recursive sha algo src dst x r x' →
  copy_to_host chunkSize maxRetries sha algo src dst x r x'.
Proof.
  intros Hs Hd Hst Hdir (st' & x1 & Hask & Hcp). unfold ask_nd, step_nd in Hask. injection Hask as <- <-.
  by rewrite Hs, Hd, Hst, Hdir in Hcp.
Qed.

(** [gcp cp] of one local regular file to ["user@host:path"]: when the copy of a fresh
    transfer returns nil and the context is live, the file on the server at the path of the address
    (with the source's base name, where the path is empty or ends in a slash) starts with the bytes
    of the source, and is exactly them unless it was longer before. *)
Theorem copySingle_uploads src dst a st info d i chunkSize maxRetries recursive sha algo x x' :
  let w1 := fst (parseRemoteAddr dst any_port (x_w x)) in
  let target := under_dir (ra_path a) (Base src) in
  isRemoteAddr src = false → isRemoteAddr dst = true →
  os_Stat src (x_w x) = Ok st → fi_IsDir st = false →
  snd (parseRemoteAddr dst any_port (x_w x)) = Ok a → os_Stat src w1 = Ok info →
  net_ok key (x_net x) → cc_encryptionKey (x_cc x) = key →
  at_path (x_w x) src = Some i → idata (x_w x) i = Some d → d ≠ [] → is_i64 (zlen d) →
  at_path (x_w x) (stateFilePath src target +:+ ".tmp") ≠ Some i →
  loaded_state src target info chunkSize (cc_batch (x_cc x)) (set_xw w1 x) = None →
  0 < chunkSize → is_i64 chunkSize → 0 <= maxRetries →
  copySingle chunkSize maxRetries recursive sha algo src dst x None x' → ctx_Err (x_net x') = None →
  remote key (x_net x') target = Some (d ++ drop (length d) (default [] (remote key (x_net x) target))).
Proof.
  cbv zeta. intros Hs Hd Hst Hdir Ha Hinfo Hn Hk Hi Hdi Hne H64 Htmp Hload Hc Hc64 Hm Hcp Hctx.
  destruct (copy_single_upload _ _ _ _ _ _ _ _ _ _ _ Hs Hd Hst Hdir Hcp) as (addr & x1 & Hp & Hup).
  apply on_machine_inv in Hp as [-> ->]. rewrite Ha in Hup.
  pose proof (parseRemoteAddr_same dst any_port (x_w x) _ _ (surjective_pairing _)) as Hsame.
  unfold cpOneFileToHost in Hup. cbn [x_w set_xw] in Hup. rewrite Hinfo in Hup.
  refine (upload_sends key src _ info d chunkSize _ maxRetries sha algo (set_xw _ x) x' _ _ Hc Hc64 Hm Hne Hup Hctx).
  - split; cbn [x_net x_cc x_w set_xw]; try done.
    + exists i. by rewrite !(sf_path _ _ Hsame), (sf_data _ _ Hsame).
    + eapply stat_size; [exact Hinfo|by rewrite (sf_path _ _ Hsame)|by rewrite (sf_data _ _ Hsame)].
  - cbn [x_cc set_xw]. rewrite Hload. by intros s.
Qed.

(** The question whether the source is a directory changes nothing. *)
Lemma isRemoteDir_run path x r x' : net_ok key (x_net x) → run_alone (isRemoteDir path) x = (x', r) →
  net_ok key (x_net x') ∧ (∀ t, remote key (x_net x') t = remote key (x_net x) t) ∧ x_w x' = x_w x
  ∧ cc_encryptionKey (x_cc x') = cc_encryptionKey (x_cc x) ∧ cc_batch (x_cc x') = cc_batch (x_cc x).
Proof.
  intros Hn. unfold isRemoteDir. rewrite run_cc. unfold eval, exec.
  destruct (Stat path _) as [res [cc n]] eqn:Hst. cbn [fst snd]. apply Stat_run in Hst as (id & -> & Hcall). cbn beta in Hcall.
  intros Hrun. assert (x' = set_xcall (set_id id (x_cc x)) n x) as ->.
  { destruct res as [[m q]|e]; [|by injection Hrun]. destruct m; try by injection Hrun.
    by destruct (StatRes.Success _); injection Hrun. }
  cbn. destruct (remote_stat _ _ _ _ _ Hn Hcall) as [Hr _]. split_and!; try done.
  by eapply call_net_ok; [exact Hn| |exact Hcall].
Qed.

(** C5: [gcp cp] of one remote file to a local path, without [-r]: when a fresh copy returns nil and
    the context is live, the local path (with the base name of the remote one, where it is empty or
    ends in a slash) holds exactly the bytes of the remote file, whatever it held before. *)
Theorem copySingle_downloads src dst a d chunkSize maxRetries sha algo x x' :
  let w1 := fst (parseRemoteAddr src any_port (x_w x)) in
  let target := under_dir dst (Base (ra_path a)) in
  isRemoteAddr src = true → isRemoteAddr dst = false →
  snd (parseRemoteAddr src any_port (x_w x)) = Ok a →
  net_ok key (x_net x) → cc_encryptionKey (x_cc x) = key →
  remote key (x_net x) (ra_path a) = Some d → d ≠ [] → is_i64 (zlen d) →
  snd (run_alone (loadResumeState (ra_path a) target (zlen d) chunkSize (cc_batch (x_cc x))) w1) = None →
  0 < chunkSize → chunkSize <= 2 ^ 48 →
  copySingle chunkSize maxRetries false sha algo src dst x None x' → ctx_Err (x_net x') = None →
  ∃ i, at_path (x_w x') target = Some i ∧ idata (x_w x') i = Some d.
Proof.
  cbv zeta. intros Hs Hd Ha Hn Hk Hr Hne H64 Hload Hc Hc48 (st & x0 & Hask & Hcp) Hctx.
  apply ask_nd_inv in Hask as [-> ->]. rewrite Hs, Hd in Hcp. cbn [negb andb] in Hcp.
  destruct Hcp as (addr & x1 & Hp & Hcp). apply on_machine_inv in Hp as [-> ->]. rewrite Ha in Hcp.
  destruct Hcp as (isDir & x2 & Hq & Hcp). unfold alone, step_nd in Hq.
  apply isRemoteDir_run in Hq as (Hn2 & Hr2 & Hw2 & Hk2 & Hb2); [|done]. cbn [x_net x_w x_cc set_xw] in *.
  assert (cpOneFileFromHost (ra_path a) (under_dir dst (Base (ra_path a))) chunkSize maxRetries sha algo x2 None x') as Hdown.
  { destruct isDir as [[]|e]; [|done..]. by destruct Hcp. }
  unfold cpOneFileFromHost in Hdown.
  refine (download_fetches key _ _ d chunkSize _ maxRetries _ sha algo x2 x' Hn2 _ _ H64 Hne _ Hc Hc48 Hdown Hctx).
  - by rewrite Hk2.
  - by rewrite Hr2.
  - by rewrite Hw2, Hb2.
Qed.

End Copy.

(** The demo upload, from the command line. *)
Definition up_addr : remoteAddr :=
  {| ra_hostPort := "box:5031"; ra_userName := "u"; ra_path := "b"; ra_identityFile := ""; ra_hostAlias := "box" |}.

(** The demo disk has no SSH configuration, and is left as it is. *)
Lemma up_parse : parseRemoteAddr "u@box:b" any_port demo_disk = (demo_disk, Ok up_addr).
Proof. vm_compute. reflexivity. Qed.

Lemma up_stat : os_Stat "/home/me/a" demo_disk = Ok demo_info.
Proof. vm_compute. reflexivity. Qed.

Lemma up_src : ∃ i, at_path demo_disk "/home/me/a" = Some i ∧ idata demo_disk i = Some demo_bytes
  ∧ at_path demo_disk (stateFilePath "/home/me/a" "b" +:+ ".tmp") ≠ Some i.
Proof. exact (ur_src _ _ _ _ _ _ demo_ready). Qed.

Lemma up_run x' : uploadFile "/home/me/a" "b" demo_info 4 2 1 true CompressionGzip demo_xfer None x' →
  copySingle 4 1 false true CompressionGzip "/home/me/a" "u@box:b" demo_xfer None x'.
Proof.
  intros Hup. unfold copySingle. eapply nd_run; [apply nd_run_step|]. cbn [fst snd].
  change (x_w demo_xfer) with demo_disk. rewrite up_stat.
  change (isRemoteAddr "/home/me/a") with false. change (isRemoteAddr "u@box:b") with true.
  change (fi_IsDir demo_info) with false. cbn [negb andb]. unfold copy_to_host.
  eapply (nd_run _ _ _ (Ok up_addr) demo_xfer).
  - unfold on_machine, step_nd. change (x_w demo_xfer) with demo_disk. rewrite up_parse. reflexivity.
  - change (under_dir (ra_path up_addr) (Base "/home/me/a")) with "b". unfold cpOneFileToHost.
    change (x_w demo_xfer) with demo_disk. rewrite up_stat. exact Hup.
Qed.

Lemma copySingle_uploads_witness : ∃ x',
  copySingle 4 1 false true CompressionGzip "/home/me/a" "u@box:b" demo_xfer None x'
  ∧ remote (ca_encryptionKey demo_ca) (x_net x') "b" = Some demo_bytes.
Proof.
  destruct (clean_end_some _ demo_upload_clean) as (x' & Hup & Hctx).
  apply upload_exec_run in Hup; [|done]. apply up_run in Hup. exists x'. split; [exact Hup|].
  destruct up_src as (i & Hi & Hd & Htmp).
  pose proof (copySingle_uploads (ca_encryptionKey demo_ca) "/home/me/a" "u@box:b" up_addr demo_info demo_info demo_bytes
    i 4 1 false true CompressionGzip demo_xfer x') as Hs.
  cbv zeta in Hs. change (x_w demo_xfer) with demo_disk in Hs. rewrite up_parse in Hs. cbn [fst snd] in Hs.
  change (under_dir (ra_path up_addr) (Base "/home/me/a")) with "b" in Hs. rewrite demo_no_target in Hs.
  apply Hs; [reflexivity|reflexivity|exact up_stat|reflexivity|reflexivity|exact up_stat|exact demo_net_ok|reflexivity
    |exact Hi|exact Hd|discriminate| |exact Htmp|exact demo_fresh|reflexivity|exact is_i64_4|discriminate|exact Hup|exact Hctx].
  exact (ur_len _ _ _ _ _ _ demo_ready).
Defined.

(** The demo download, from the command line.  The question about the directory costs a request, so
    the run is computed from the state after it. *)
Definition down_addr : remoteAddr :=
  {| ra_hostPort := "box:5031"; ra_userName := "u"; ra_path := "f"; ra_identityFile := ""; ra_hostAlias := "box" |}.
Definition down_xfer : xfer := fst (run_alone (isRemoteDir "f") demo_xfer).
Definition demo_copy : option (option error * xfer) :=
  download_exec 4 "f" "/home/me/c" 2 2 1 true true CompressionGzip down_xfer.

Lemma demo_copy_clean : clean_end demo_copy = true.
Proof. vm_compute. reflexivity. Qed.

Lemma down_parse : parseRemoteAddr "u@box:f" any_port demo_disk = (demo_disk, Ok down_addr).
Proof. vm_compute. reflexivity. Qed.

Lemma down_is_file : snd (run_alone (isRemoteDir "f") demo_xfer) = Ok false.
Proof. vm_compute. reflexivity. Qed.

Lemma down_settings : cc_batch (x_cc down_xfer) = 2 ∧ cc_useChecksum (x_cc down_xfer) = true.
Proof. vm_compute. done. Qed.

Lemma down_run x' : downloadFile "f" "/home/me/c" 2 2 1 true true CompressionGzip down_xfer None x' →
  copySingle 2 1 false true CompressionGzip "u@box:f" "/home/me/c" demo_xfer None x'.
Proof.
  intros Hdown. unfold copySingle. eapply nd_run; [apply nd_run_step|]. cbn [fst snd].
  change (isRemoteAddr "u@box:f") with true. change (isRemoteAddr "/home/me/c") with false. cbn [negb andb].
  unfold copy_from_host. eapply (nd_run _ _ _ (Ok down_addr) demo_xfer).
  - unfold on_machine, step_nd. change (x_w demo_xfer) with demo_disk. rewrite down_parse. reflexivity.
  - change (under_dir "/home/me/c" (Base (ra_path down_addr))) with "/home/me/c". change (ra_path down_addr) with "f".
    eapply (nd_run _ _ _ (Ok false) down_xfer).
    + unfold alone, step_nd, down_xfer. rewrite <- down_is_file. apply surjective_pairing.
    + unfold cpOneFileFromHost. rewrite (proj1 down_settings), (proj2 down_settings). exact Hdown.
Qed.

Lemma copySingle_downloads_witness : ∃ x' i,
  copySingle 2 1 false true CompressionGzip "u@box:f" "/home/me/c" demo_xfer None x'
  ∧ at_path (x_w x') "/home/me/c" = Some i ∧ idata (x_w x') i = Some [x61; x62; x63; x64; x65].
Proof.
  destruct (clean_end_some _ demo_copy_clean) as (x' & Hdn & Hctx).
  apply download_exec_run in Hdn; [|done]. apply down_run in Hdn. exists x'.
  pose proof (copySingle_downloads (ca_encryptionKey demo_ca) "u@box:f" "/home/me/c" down_addr [x61; x62; x63; x64; x65]
    2 1 true CompressionGzip demo_xfer x') as Hs.
  cbv zeta in Hs. change (x_w demo_xfer) with demo_disk in Hs. rewrite down_parse in Hs. cbn [fst snd] in Hs.
  change (under_dir "/home/me/c" (Base (ra_path down_addr))) with "/home/me/c" in Hs.
  destruct Hs as (i & Hi & Hd); [reflexivity|reflexivity|reflexivity|exact demo_net_ok|reflexivity|exact demo_remote_file
    |discriminate|exact is_i64_5|exact demo_fresh_download|reflexivity|discriminate|exact Hdn|exact Hctx|].
  exists i. split; [exact Hdn|]. split; [exact Hi|exact Hd].
Defined.
