(* ===== verification/Session.v ===== *)
(** The pool of a client, over the server: [newClient] starts [batch] connections
    ([src/client.go], [runConn]), and each request goes out on one of them.

    The connections dial and authenticate with the token, one after the other; a request
    is taken by whichever connection's [handleSend] is ready, which [sn_turns] chooses; the
    network may lose a request or its answer ([sn_link], ServerLink.v).  With this the
    interface [Pool] of the commands and the interface [RemoteFiles] of the transfers are
    about one and the same server. *)
From S2P Require Import Prelude Message GoStd GoHash OS Chunk Auth FdCache Server Hoare ServerStep ServerInv ServerData AuthSpec Client ClientAuth Prog Pool Resume Transfer Remote ServerLink Handshake HandshakeSpec Address Tree Command.
From Stdlib Require Import Strings.Byte.

Section Session.
  Context `{CborOk, GoFmt, OSLaws, SSH, UserDB, GzipOk, SecretBoxOk, RandOk, ClientEnv, !SSHClient, !SSHClientOk}.

Record session : Type := {
  sn_conns : list conn_id;      (* the connections that serve *)
  sn_turns : list nat;          (* which of them takes each request to come *)
  sn_link : link;
  sn_read : gmap conn_id nat;   (* of the Dialer's network *)
}.

Definition with_link (l : link) (n : session) : session :=
  {| sn_conns := sn_conns n; sn_turns := tail (sn_turns n); sn_link := l; sn_read := sn_read n |}.

Definition cancel_link (l : link) : link :=
  {| l_srv := l_srv l; l_ctx := Some (default ctx_Canceled (l_ctx l)); l_faults := l_faults l |}.

(** The connection whose turn it is. *)
Definition next_conn (n : session) : option conn_id :=
  sn_conns n !! (default 0%nat (head (sn_turns n)) mod length (sn_conns n))%nat.

(** With no connection, a request waits for the end of the context. *)
Definition session_call (m : MSG) (p : list byte) (n : session) : session * result (MSG * list byte) :=
  match next_conn n with
  | Some c => let '(l, r) := link_call c m p (sn_link n) in (with_link l n, r)
  | None => (with_link (cancel_link (sn_link n)) n, Err (default ctx_Canceled (l_ctx (sn_link n))))
  end.

#[export] Instance session_transport : Transport := { net := session; call := session_call }.

#[export] Instance session_context : Ctx := {
  ctx_Err n := l_ctx (sn_link n);
  ctx_cancel n := {| sn_conns := sn_conns n; sn_turns := sn_turns n; sn_link := cancel_link (sn_link n);
                     sn_read := sn_read n |};
  ctx_wait _ n := (n, l_ctx (sn_link n));
}.

(** ** Opening and closing *)

(** One pass of [runConn]'s loop. *)
Definition join (cc : client) (a : list conn_id * dlink) : list conn_id * dlink :=
  let '(conns, n) := a in
  match net_Dial "" n with   (* there is one server to dial *)
  | (n, Err _) => (conns, n)
  | (n, Ok conn) =>
    match tokenAuth cc conn n with
    | (n, None) => (conns ++ [conn], n)
    | (n, Some _) => (conns, tconn_Close conn n)
    end
  end.

Definition session_open (turns : list nat) (faults : list fault) (cc : client) (n : dlink) : session :=
  let '(conns, n) := Nat.iter (Z.to_nat (cc_batch cc)) (join cc) ([], n) in
  {| sn_conns := conns; sn_turns := turns;
     sn_link := {| l_srv := d_srv n; l_ctx := None; l_faults := faults |}; sn_read := d_read n |}.

(** [Close] ends the context, and with it the connections. *)
Definition session_close (n : session) : dlink :=
  {| d_srv := foldr (λ c, upd_conn c close_conn) (l_srv (sn_link n)) (sn_conns n); d_read := sn_read n |}.

Definition session_pool (turns : list nat) (faults : list fault) : Command.Pool :=
  {| pool_open := session_open turns faults : client → @dnet server_dialer → @net session_transport;
     pool_close := session_close : @net session_transport → @dnet server_dialer |}.

Lemma session_close_world n : s_world (d_srv (session_close n)) = s_world (l_srv (sn_link n)).
Proof. unfold session_close. cbn [d_srv]. by induction (sn_conns n). Qed.

(** A pass that adds a connection is a run of [runConn] up to where it serves. *)
Lemma join_runs cc conns n c n' b : join cc (conns, n) = (conns ++ [c], n') →
  rtc (run_moves "" cc false) (RDial b, n) (RServe c, n').
Proof.
  unfold join. destruct (@net_Dial server_dialer "" n) as [n1 [c1|e]] eqn:Hd.
  - destruct (tokenAuth cc c1 n1) as [n2 [e|]] eqn:Ht.
    { intros [= Hl _]. exfalso. apply (f_equal length) in Hl. rewrite length_app in Hl. simpl in Hl. lia. }
    intros [= Hc <-]. apply app_inv_head in Hc as [= ->].
    eapply (rtc_l _ _ (RAuth (c : @tconn server_dialer), n1)); [exact (run_dial _ _ _ _ _ _ _ Hd)|].
    apply rtc_once. exact (run_auth _ _ _ _ _ _ Ht).
  - intros [= Hl _]. exfalso. apply (f_equal length) in Hl. rewrite length_app in Hl. simpl in Hl. lia.
Qed.

(** ** Every connection of the pool is the authenticated one *)

Section Opened.
  Context (user idf home : string) (cc : client) (w0 : world) (fits : handshake_fits user idf).

Context (token : ∃ b, length b = 32%nat ∧ cc_authToken cc = EncodeToString b).

#[local] Notation joined := (joined user home cc w0).

Lemma join_joined conns n : joined conns n → joined (fst (join cc (conns, n))) (snd (join cc (conns, n))).
Proof.
  intros Hj. unfold join. destruct (@net_Dial server_dialer "" n) as [n1 [c|e]] eqn:Hd.
  - by destruct (joined_dial user idf home cc w0 fits token _ _ _ _ _ Hj Hd) as (n2 & -> & Hj').
  - discriminate Hd.
Qed.

Lemma opened_joined k n : joined [] n →
  joined (fst (Nat.iter k (join cc) ([], n))) (snd (Nat.iter k (join cc) ([], n))).
Proof.
  intros Hj. induction k as [|k IH]; [done|]. simpl. destruct (Nat.iter k _ _) as [conns n1]. by apply join_joined.
Qed.
End Opened.

(** ** The transfers' interface *)

Definition session_ok (ca : connAuth) (n : session) : Prop := ∀ c, c ∈ sn_conns n → link_ok c ca (sn_link n).
Definition session_file (ca : connAuth) (n : session) (t : string) : option (list byte) := link_file ca (sn_link n) t.

Lemma next_conn_in n c : next_conn n = Some c → c ∈ sn_conns n.
Proof. apply list_elem_of_lookup_2. Qed.

(** What one connection is sent does not touch the others. *)
Lemma link_call_others c d ca m p l l' r : ca_state ca = authOK → link_ok c ca l → link_ok d ca l →
  client_request m = true → link_call c m p l = (l', r) → link_ok d ca l'.
Proof.
  intros Hca Hc Hd Hm Hcall. pose proof (link_net_ok c ca Hca m p l l' r Hc Hm Hcall) as Hc'.
  destruct (decide (d = c)) as [->|Hne]; [done|].
  destruct (link_call_cases c ca Hca m p l l' r Hc Hm Hcall) as (s' & Hs & Hl & _).
  assert (conn_at s' d = conn_at (l_srv l) d) as Hat.
  { destruct Hs as [->| ->]; [done|]. destruct (client_request_type m Hm) as (Ht & Hnp & [t Hr]).
    pose proof (dispatch_replies {| wm_msg := m; wm_payload := p; wm_conn := c |} ca t (l_srv l) Hr Ht Hnp) as Hrep.
    apply replied_conns in Hrep as (_ & _ & _ & _ & _ & _ & _ & Ho & _). by apply Ho. }
  destruct Hc' as [Hf Hp _ _], Hd as [_ _ Ho Hx]. split; [done|done|by rewrite Hl, Hat|by rewrite Hl, Hat].
Qed.

(** A call goes to the server by one of the connections, or changes nothing there. *)
Lemma session_call_cases ca m p n n' r : session_ok ca n → session_call m p n = (n', r) →
  (∃ c, c ∈ sn_conns n ∧ link_ok c ca (sn_link n) ∧ link_call c m p (sn_link n) = (sn_link n', r)
     ∧ sn_conns n' = sn_conns n)
  ∨ sn_conns n' = sn_conns n ∧ l_srv (sn_link n') = l_srv (sn_link n) ∧ is_Ok r = false.
Proof.
  intros Hok. unfold session_call. destruct (next_conn n) as [c|] eqn:Hc.
  - destruct (link_call c m p (sn_link n)) as [l r'] eqn:Hcall. intros [= <- <-]. left. exists c.
    apply next_conn_in in Hc. split_and!; try done. by apply Hok.
  - intros [= <- <-]. by right.
Qed.

Lemma session_unchanged ca n n' : l_srv (sn_link n') = l_srv (sn_link n) → ∀ t, session_file ca n' t = session_file ca n t.
Proof. intros Hs t. unfold session_file, link_file. by rewrite Hs. Qed.

Lemma link_ok_srv c ca l l' : l_srv l' = l_srv l → link_ok c ca l → link_ok c ca l'.
Proof. intros Hs []. split; by rewrite Hs. Qed.

Lemma session_net_ok ca m p n n' r : ca_state ca = authOK → session_ok ca n → client_request m = true →
  session_call m p n = (n', r) → session_ok ca n'.
Proof.
  intros Hca Hok Hm Hcall d. destruct (session_call_cases _ _ _ _ _ _ Hok Hcall) as [(c & _ & Hc & Hl & ->)|(-> & Hs & _)];
    intros Hd.
  - by eapply (link_call_others c d); [..|exact Hl]; [|done|apply Hok|].
  - eapply link_ok_srv; [exact Hs|]. by apply Hok.
Qed.

Definition session_files (ca : connAuth) (ca_auth : ca_state ca = authOK) (whole : reads_whole) :
  @RemoteFiles session_transport session_context _ _ (ca_encryptionKey ca).
Proof.
  refine {| net_ok := session_ok ca : @net session_transport → Prop;
            remote := session_file ca : @net session_transport → string → _ |}.
  - intros m p n n' r Hok Hm. by apply session_net_ok.
  - intros m p n n' r Hcall. change (session_call m p n = (n', r)) in Hcall.
    change (is_Some (l_ctx (sn_link n)) → is_Some (l_ctx (sn_link n'))). intros [e He].
    unfold session_call in Hcall. destruct (next_conn n) as [c|]; [|by injection Hcall as <- _; eexists].
    unfold link_call in Hcall. rewrite He in Hcall. injection Hcall as <- _. by exists e.
  - intros req p n n' r data Hok Hcall Hdec.
    destruct (session_call_cases _ _ _ _ _ _ Hok Hcall) as [(c & _ & Hc & Hl & _)|(_ & Hs & Hr)].
    + by apply (link_write c ca ca_auth req p _ _ r data Hc Hl).
    + split; [left; by apply session_unchanged|]. by intros res q ->.
  - intros req p n n' res q Hok Hdir Hcall Hsuc.
    destruct (session_call_cases _ _ _ _ _ _ Hok Hcall) as [(c & _ & Hc & Hl & _)|(_ & _ & Hr)]; [|done].
    by apply (link_create c ca ca_auth req p _ _ res q Hc Hdir Hl).
  - intros req p n n' r Hok Hm Hcall.
    destruct (session_call_cases _ _ _ _ _ _ Hok Hcall) as [(c & _ & Hc & Hl & _)|(_ & Hs & Hr)].
    + by apply (link_read c ca ca_auth req p _ _ r whole Hc Hm Hl).
    + split; [by apply session_unchanged|]. by intros res q ->.
  - intros req p n n' r Hok Hcall.
    destruct (session_call_cases _ _ _ _ _ _ Hok Hcall) as [(c & _ & Hc & Hl & _)|(_ & Hs & Hr)].
    + by apply (link_stat c ca ca_auth req p _ _ r Hc Hl).
    + split; [by apply session_unchanged|]. by intros res q d ->.
  - intros req p n n' r Hok Hcall.
    destruct (session_call_cases _ _ _ _ _ _ Hok Hcall) as [(c & _ & Hc & Hl & _)|(_ & Hs & Hr)].
    + by apply (link_readDir c ca ca_auth req p _ _ r Hc Hl).
    + by apply session_unchanged.
  - intros req p n n' r Hok Hcall.
    destruct (session_call_cases _ _ _ _ _ _ Hok Hcall) as [(c & _ & Hc & Hl & _)|(_ & Hs & Hr)].
    + by apply (link_hash c ca ca_auth req p _ _ r Hc Hl).
    + split; [by apply session_unchanged|]. by intros res q ->.
  - intros n. split; [by eexists|]. split; [|done]. intros Hok c Hc. by eapply link_ok_srv, Hok.
  - intros ns n n' e [= <- <-]. done.
Defined.

(** The pool a client is given satisfies what the transfers ask for. *)
Lemma session_opened turns faults user idf home cc w0 n : handshake_fits user idf →
  (∃ b, length b = 32%nat ∧ cc_authToken cc = EncodeToString b) →
  joined user home cc w0 [] n →
  let ca := ctx_ok user home (cc_encryptionKey cc) in
  session_ok ca (session_open turns faults cc n)
  ∧ same_files w0 (s_world (l_srv (sn_link (session_open turns faults cc n)))).
Proof.
  intros Hfit Htok Hj ca. unfold session_open.
  pose proof (opened_joined user idf home cc w0 Hfit Htok (Z.to_nat (cc_batch cc)) n Hj) as Ho.
  destruct (Nat.iter _ _ _) as [conns n1]. split; [|exact (jo_files _ _ _ _ _ _ Ho)]. intros c Hc. destruct (jo_conns _ _ _ _ _ _ Ho c Hc) as [Hcl Hx].
  split; [exact (jo_fds _ _ _ _ _ _ Ho)|exact (jo_panic _ _ _ _ _ _ Ho)|exact Hcl|exact Hx].
Qed.

(** An answer is what the handler of the request sent on one of the connections. *)
Lemma session_answer ca m p n n' rp : ca_state ca = authOK → session_ok ca n → client_request m = true →
  session_call m p n = (n', Ok rp) → ∃ c, let s := l_srv (sn_link n) in
    let s' := exec (dispatch {| wm_msg := m; wm_payload := p; wm_conn := c |} ca) s in
    l_srv (sn_link n') = s' ∧ ∀ r q, answered c r q s s' → rp = (r, q).
Proof.
  intros Hca Hok Hm Hcall.
  destruct (session_call_cases ca _ _ _ _ _ Hok Hcall) as [(c & _ & Hc & Hl & _)|(_ & _ & Hno)]; [|done].
  destruct (link_call_cases c ca Hca m p _ _ _ Hc Hm Hl) as (s' & _ & Hs' & _ & Hans).
  destruct (Hans _ eq_refl) as [-> Ha]. exists c. cbv zeta. split; [done|].
  intros r q Hr. by eapply (answer_answered c), Ha; [apply Hc|].
Qed.

(** What a client learns with [Stat] and [ReadDir]. *)
Lemma session_stat ca req p n n' res q : ca_state ca = authOK → session_ok ca n →
  session_call (MStatReq req) p n = (n', Ok (MStatRes res, q)) → StatRes.Success res = true →
  ∃ spath info, sandboxPath (Some ca) (StatReq.Path req) = Ok spath
    ∧ os_Stat spath (s_world (l_srv (sn_link n))) = Ok info ∧ StatRes.Size res = fi_Size info
    ∧ StatRes.Mode res = u32 (fi_Mode info) ∧ StatRes.IsDir res = fi_IsDir info
    ∧ s_world (l_srv (sn_link n')) = s_world (l_srv (sn_link n)).
Proof.
  intros Hca Hok Hcall Hsuc. destruct (session_answer ca (MStatReq req) _ _ _ _ Hca Hok eq_refl Hcall) as (c & Hs & Hrp).
  destruct (stat_data c req (Some ca) (l_srv (sn_link n))) as (Hw & _ & r0 & Ha0 & Hpost).
  specialize (Hrp _ _ Ha0). simplify_eq. destruct (Hpost Hsuc) as (spath & info & ? & ? & ? & ? & ?).
  exists spath, info. split_and!; try done. by rewrite Hs.
Qed.

Lemma session_readDir ca req p n n' res q : ca_state ca = authOK → session_ok ca n →
  session_call (MReadDirReq req) p n = (n', Ok (MReadDirRes res, q)) → ReadDirRes.Success res = true →
  ∃ spath entries, sandboxPath (Some ca) (ReadDirReq.Path req) = Ok spath
    ∧ os_ReadDir spath (s_world (l_srv (sn_link n))) = Ok entries
    ∧ ReadDirRes.Entries res = dir_entry <$> entries.
Proof.
  intros Hca Hok Hcall Hsuc.
  destruct (session_answer ca (MReadDirReq req) _ _ _ _ Hca Hok eq_refl Hcall) as (c & _ & Hrp).
  destruct (readDir_data c req (Some ca) (l_srv (sn_link n))) as (_ & _ & r0 & Ha0 & Hpost).
  specialize (Hrp _ _ Ha0). simplify_eq. exact (Hpost Hsuc).
Qed.

(** From [newClient] to the pool. *)
Lemma newClient_opens turns faults target user idf batch useChecksum useEncryption n n' w w' cc :
  user ≠ "" → handshake_fits user idf →
  s_queue (d_srv n) = [] → fds_ok (d_srv n) → s_panic (d_srv n) = false →
  newClient target user idf batch useChecksum useEncryption n w = (n', w', Ok cc) →
  ∃ key ws home, same_files (s_world (d_srv n)) ws ∧ key_of_home ws (ssh_Marshal key) home
    ∧ cc_encryptionKey cc = deriveEncryptionKey key
    ∧ session_ok (ctx_ok user home (deriveEncryptionKey key)) (session_open turns faults cc n')
    ∧ same_files (s_world (d_srv n)) (s_world (l_srv (sn_link (session_open turns faults cc n')))).
Proof.
  intros Hu Hfit Hq Hf Hp Hnew.
  destruct (newClient_session _ _ _ _ _ _ _ _ _ _ _ Hu Hfit Hq Hf Hp Hnew)
    as (key & ws & home & Hk & Hws & Hh & _ & Hss & Htok & Hq' & Hf' & Hp' & Hw).
  exists key, ws, home. do 3 (split; [done|]). rewrite <- Hk.
  apply (session_opened turns faults user idf home cc _ n' Hfit Htok).
  split; try done. by intros c Hin%not_elem_of_nil.
Qed.

End Session.
