(* ===== verification/SessionSpec.v ===== *)
(** The program as a whole: [gcp cp] from its arguments, over the handshake and the pool
    of Session.v, to the files of the server. *)
From S2P Require Import Prelude Message PlainCodec GoStd GoPath GoHash OS MemFS Chunk Auth FdCache Server Hoare ServerStep ServerInv ServerData Demo AuthSpec Client ClientAuth Prog Nondet PoolSpec Resume Transfer Remote TransferInv TransferEnds ServerLink TransferExec TransferSpec Handshake HandshakeSpec Address Listing Tree Command CommandSpec Session.
From stdpp Require Import sorting.
From Stdlib Require Import Ascii Strings.Byte.

Local Open Scope Z_scope.

(** ** The steps of the command *)

Section Steps.
  Context `{OSLaws, ClientEnv, SshConfig}.

(** The path of an address does not depend on the configuration. *)
Lemma parse_path s port port' w w' w1 w1' a a' :
  parseRemoteAddr s port w = (w1, Ok a) → parseRemoteAddr s port' w' = (w1', Ok a') → ra_path a' = ra_path a.
Proof.
  unfold parseRemoteAddr. destruct (match LastIndex s "@" with Some i => _ | None => _ end) as [user rest].
  destruct (Index rest ":") as [i|]; [|done]. case_bool_decide; [done|].
  destruct (sshConfigLookup _ w) as [w2 e], (sshConfigLookup _ w') as [w2' e'].
  unfold resolveAddr. do 2 (destruct (user_or_current _); [|done]). do 2 (destruct (negb _ && _); [done|]).
  by intros [= <- <-] [= <- <-].
Qed.

(** Looking for a key only reads. *)
Lemma first_key_same `{!SSH, !SSHClient} ps w w' r : first_key ps w = (w', r) → same_files w w'.
Proof.
  revert w. induction ps as [|p ps IH]; intros w; [by intros [= <- _]|]. simpl.
  destruct (os_ReadFile p w) as [w1 [b|e]] eqn:E; apply os_ReadFile_same in E; [|intros Hk; etrans; [done|by apply IH]].
  destruct (ssh_ParsePrivateKey b); [by intros [= <- _]|]. intros Hk. etrans; [done|by apply IH].
Qed.

Lemma clientSigner_same `{!SSH, !SSHClient} idf w w' r : clientSigner idf w = (w', r) → same_files w w'.
Proof.
  unfold clientSigner, privateKeyFileSigner, privateKeySigner. case_bool_decide; cbn [negb].
  - destruct sshAgentSigner; [by intros [= <- _]|]. destruct os_UserHomeDir; [|by intros [= <- _]].
    destruct (first_key _ w) as [w1 [s|]] eqn:E; apply first_key_same in E; by intros [= <- _].
  - destruct (os_ReadFile idf w) as [w1 [b|e]] eqn:E; apply os_ReadFile_same in E;
      [destruct (ssh_ParsePrivateKey b)|]; by intros [= <- _].
Qed.

(** Where there is no state file, nothing is loaded. *)
Lemma no_state_loaded `{!Json, !TempDir} src dst size chunk batch w : at_path w (stateFilePath src dst) = None →
  snd (run_alone (loadResumeState src dst size chunk batch) w) = None.
Proof.
  intros Hn. unfold loadResumeState. rewrite run_atomic.
  destruct (os_OpenFile _ _ _ w) as [w1 [f|e]] eqn:Ho; [|done].
  destruct (open_ok _ _ _ _ _ _ Ho) as (_ & _ & _ & i & _ & _ & _ & _ & [(Hi & _)|(_ & ? & _)]); [congruence|done].
Qed.

End Steps.

(** ** [gcp cp] of one file *)

Section Whole.
  Context `{CborOk, GoFmt, OSLaws, SSH, UserDB, GzipOk, SecretBoxOk, RandOk, ClientEnv, !SSHClient, !SSHClientOk}.
  Context `{SshConfig, JsonOk, TempDir}.

Lemma newClient_machine `{D : Dialer} target user idf batch ck enc n n' w w' r :
  newClient target user idf batch ck enc n w = (n', w', r) → same_files w w'.
Proof.
  unfold newClient, dialAndAuth. destruct (clientSigner idf w) as [w1 [[s pk]|e]] eqn:Hs; apply clientSigner_same in Hs;
    [|by intros [= _ <- _]].
  destruct (net_Dial _ _) as [n1 [c|e]]; [|by intros [= _ <- _]].
  destruct (exchange _ _ _ _ _) as [n2 r']. by intros [= _ <- _].
Qed.

(** ** A dry run *)

Section DryRun.
  Context `{D : Dialer, T : Transport, !Command.Pool, !Ctx}.

(** Nothing of the machine changed and nothing was printed. *)
Definition silent (m m' : cmd) : Prop := same_files (m_w m) (m_w m') ∧ m_out m' = m_out m.

#[local] Instance silent_preorder : PreOrder silent.
Proof. split; [by split|]. intros m1 m2 m3 [F1 O1] [F2 O2]. split; [by etrans|congruence]. Qed.

Lemma silent_home {A} (f : world → world * A) m a m' : (∀ w, same_files w (fst (f w))) → on_home f m a m' → silent m m'.
Proof. unfold on_home, step_nd. intros Hf. specialize (Hf (m_w m)). destruct (f (m_w m)). by intros [= <- <-]. Qed.

Lemma silent_parse s port m a m' : on_home (parseRemoteAddr s port) m a m' → silent m m'.
Proof. apply silent_home. intros w. destruct (parseRemoteAddr s port w) eqn:Hp. by eapply parseRemoteAddr_same. Qed.

Lemma silent_connect hp user idf batch ck enc m a m' : connect hp user idf batch ck enc m a m' → silent m m'.
Proof.
  unfold connect, step_nd. destruct (newClient _ _ _ _ _ _ _ _) as [[n w] r] eqn:Hn. intros [= <- <-].
  split; [by eapply newClient_machine|done].
Qed.

Lemma silent_remote hp user alias path ck m a m' : expandRemoteSources hp user alias path ck m a m' → silent m m'.
Proof.
  unfold expandRemoteSources. case_match; [by intros [-> ->]|]. destruct (path_Split path) as [parent pattern].
  intros (cc & m1 & Hc%silent_connect & Hrun). transitivity m1; [done|]. destruct cc as [cc|e]; [|by destruct Hrun as [-> ->]].
  destruct Hrun as (res & m2 & (x' & Hr & ->) & Hrun).
  assert (x_w x' = m_w m1) as Hw.
  { revert Hr. unfold alone, step_nd, on_cc, atomic. cbn [run_alone]. destruct (ReadDir _ _) as [r [cc' n']]. by intros [= <- <-]. }
  assert (m' = {| m_net := pool_close (x_net x'); m_w := x_w x'; m_out := m_out m1 |}) as ->.
  { revert Hrun. repeat case_match; by intros [_ ->]. }
  by split; [rewrite Hw|].
Qed.

Lemma silent_expand_remote port ck sources expanded m a m' : expand_remote port ck sources expanded m a m' → silent m m'.
Proof.
  revert expanded m. induction sources as [|s sources IH]; intros expanded m; [by intros [-> ->]|]. cbn [expand_remote].
  intros (addr & m1 & Hp%silent_parse & Hrun). transitivity m1; [done|]. destruct addr as [ad|e]; [|by destruct Hrun as [-> ->]].
  destruct Hrun as (r & m2 & He%silent_remote & Hrun). transitivity m2; [done|].
  destruct r as [ms|e]; [by eapply IH|by destruct Hrun as [-> ->]].
Qed.

(** What a source stands for, to a user whose machine holds [w]: a local one what
    [expandLocalSource] makes of it; a remote one its own address or, with a pattern in the last
    element of its path, the addresses of the matching entries, at least one, of the directory
    listed to a client [newClient] made for the server of the address. *)
Inductive source_plan (fl : cpFlags) (w : world) (s : string) : list string → Prop :=
  | plan_local fuel l : isRemoteAddr s = false →
      expandLocalSource w fuel s (fl_recursive fl) = Some (Ok l) → source_plan fl w s l
  | plan_remote w1 w2 a : isRemoteAddr s = true → same_files w w1 →
      parseRemoteAddr s (pretty (fl_port fl)) w1 = (w2, Ok a) → hasGlob (ra_path a) = false →
      source_plan fl w s [format_addr (ra_userName a) (ra_hostAlias a) (ra_path a)]
  | plan_glob w1 w2 a parent dir pattern n1 w3 n2 w4 cc dirRes q l : isRemoteAddr s = true → same_files w w1 →
      parseRemoteAddr s (pretty (fl_port fl)) w1 = (w2, Ok a) → hasGlob (ra_path a) = true →
      path_Split (ra_path a) = (parent, pattern) →
      dir = (if bool_decide (parent = "") then "/" else parent) →
      newClient (ra_hostPort a) (ra_userName a) "" 1 (fl_checksum fl) true n1 w3 = (n2, w4, Ok cc) →
      eval (ReadDir dir) (cc, pool_open cc n2) = Ok (MReadDirRes dirRes, q) → ReadDirRes.Success dirRes = true →
      l = matching_entries (ra_userName a) (ra_hostAlias a) dir pattern (ReadDirRes.Entries dirRes) →
      l ≠ [] → source_plan fl w s l.

(** Whether the expansion of a source connects: a remote one with a pattern. *)
Definition lists_server (port s : string) : Prop :=
  isRemoteAddr s = true ∧ ∃ w w' a, parseRemoteAddr s port w = (w', Ok a) ∧ hasGlob (ra_path a) = true.

Lemma expand_local_plan fl sources expanded m l m' :
  (∀ s, s ∈ sources → isRemoteAddr s = false) → expand_local (fl_recursive fl) sources expanded m (Ok l) m' →
  ∃ lss, Forall2 (source_plan fl (m_w m)) sources lss ∧ l = expanded ++ concat lss.
Proof.
  intros Hloc. revert expanded. induction sources as [|s sources IH]; intros expanded.
  { intros [[= ->] _]. exists []. by rewrite app_nil_r. }
  cbn [expand_local]. intros (r & m1 & [-> (fuel & Hf)] & Hrun). destruct r as [ms|e]; [|by destruct Hrun].
  destruct (IH (λ q Hq, Hloc q (list_elem_of_further _ _ _ Hq)) _ Hrun) as (lss & Hl & ->). exists (ms :: lss).
  split; [|simpl; by rewrite app_assoc]. constructor; [|done]. eapply plan_local; [|exact Hf]. apply Hloc. by left.
Qed.

Lemma expand_local_same rec sources expanded m a m' : expand_local rec sources expanded m a m' → m' = m.
Proof.
  revert expanded. induction sources as [|s sources IH]; intros expanded; [by intros [_ ->]|]. cbn [expand_local].
  intros (r & m1 & [-> _] & Hrun). destruct r as [ms|e]; [by eapply IH|by destruct Hrun].
Qed.

Lemma expand_source_plan fl w s w1 w2 a m ms m' : isRemoteAddr s = true → same_files w w1 →
  parseRemoteAddr s (pretty (fl_port fl)) w1 = (w2, Ok a) →
  expandRemoteSources (ra_hostPort a) (ra_userName a) (ra_hostAlias a) (ra_path a) (fl_checksum fl) m (Ok ms) m' →
  source_plan fl w s ms.
Proof.
  intros Hs Hw Hp. unfold expandRemoteSources. destruct (hasGlob (ra_path a)) eqn:Hg; cbn [negb].
  2: { intros [[= ->] _]. by eapply plan_remote. }
  destruct (path_Split (ra_path a)) as [parent pattern] eqn:Hsp.
  intros (cc & m1 & Hnew & Hrun). destruct cc as [cc|e]; [|by destruct Hrun].
  unfold connect, step_nd in Hnew. destruct (newClient _ _ _ _ _ _ _ _) as [[n2 w4] rc] eqn:Hc. simplify_eq.
  destruct Hrun as (res & m2 & (x' & Hr & _) & Hrun).
  set (dir := if bool_decide (parent = "") then "/" else parent) in *.
  assert (eval (ReadDir dir) (cc, pool_open cc n2) = res) as Hres.
  { revert Hr. unfold alone, step_nd, on_cc, atomic, eval. cbn [run_alone x_cc x_net].
    destruct (ReadDir _ _) as [r [cc' n']]. by intros [= _ <-]. }
  destruct res as [[rm q]|e]; [|by destruct Hrun]. destruct rm as [| | | | | | | | |dirRes| | | |]; try by destruct Hrun.
  destruct (ReadDirRes.Success dirRes) eqn:Hsuc; cbn [negb] in Hrun; [|by destruct Hrun].
  destruct (matching_entries _ _ _ _ _) as [|x l] eqn:Hl; [by destruct Hrun|]. destruct Hrun as [[= ->] _].
  eapply (plan_glob _ _ _ _ _ _ _ dir); [..|exact Hc|exact Hres| | |]; done.
Qed.

Lemma expand_remote_plan fl sources expanded w m l m' : same_files w (m_w m) →
  (∀ s, s ∈ sources → isRemoteAddr s = true) → expand_remote (pretty (fl_port fl)) (fl_checksum fl) sources expanded m (Ok l) m' →
  ∃ lss, Forall2 (source_plan fl w) sources lss ∧ l = expanded ++ concat lss.
Proof.
  intros Hw Hrem. revert expanded m Hw. induction sources as [|s sources IH]; intros expanded m Hw.
  { intros [[= ->] _]. exists []. by rewrite app_nil_r. }
  cbn [expand_remote]. intros (addr & m1 & Hp & Hrun). pose proof (silent_parse _ _ _ _ _ Hp) as [Hw1 _].
  destruct addr as [a|e]; [|by destruct Hrun]. destruct Hrun as (r & m2 & He & Hrun).
  pose proof (silent_remote _ _ _ _ _ _ _ _ He) as [Hw2 _]. destruct r as [ms|e]; [|by destruct Hrun].
  destruct (IH (λ q Hq, Hrem q (list_elem_of_further _ _ _ Hq)) _ _ (transitivity Hw (transitivity Hw1 Hw2)) Hrun) as (lss & Hl & ->).
  exists (ms :: lss). split; [|simpl; by rewrite app_assoc]. constructor; [|done].
  unfold on_home, step_nd in Hp. destruct (parseRemoteAddr s _ (m_w m)) as [w2 r] eqn:Hpa. simplify_eq.
  eapply expand_source_plan; [apply Hrem; by left|exact Hw|exact Hpa|exact He].
Qed.

(** Without patterns nothing is asked of the network. *)
Lemma expand_remote_net port ck sources expanded m r m' :
  (∀ s, s ∈ sources → isRemoteAddr s = true ∧ ¬ lists_server port s) →
  expand_remote port ck sources expanded m r m' → m_net m' = m_net m.
Proof.
  intros Hno. revert expanded m. induction sources as [|s sources IH]; intros expanded m; [by intros [_ ->]|].
  cbn [expand_remote]. intros (addr & m1 & Hp & Hrun). unfold on_home, step_nd in Hp.
  destruct (parseRemoteAddr s port (m_w m)) as [w2 r'] eqn:Hpa. simplify_eq. destruct addr as [a|e]; [|by destruct Hrun as [_ ->]].
  destruct Hrun as (r1 & m2 & He & Hrun). destruct (Hno s ltac:(by left)) as [Hs Hgl].
  unfold expandRemoteSources in He. destruct (hasGlob (ra_path a)) eqn:Hg; cbn [negb] in He.
  { destruct Hgl. split; [done|]. by eexists _, _, _. }
  destruct He as [-> ->]. apply IH in Hrun; [done|]. intros q Hq. apply Hno. by right.
Qed.

(** C30: a dry run of [gcp cp] touches no file of the user and prints its plan.  When it succeeds it has
    printed, in the order of the arguments, one line for each path each source stands for
    ([source_plan]), and at least one; when it fails it has printed nothing.  It makes no
    connection unless a remote source holds a pattern, which the server has to be asked about. *)
Theorem dry_run_only_prints fl args m r m' : fl_dry_run fl = true → cpCmd fl args m r m' →
  same_files (m_w m) (m_w m')
  ∧ match r with
    | Some _ => m_out m' = m_out m
    | None => ∃ first rest, args = first :: rest
        ∧ ∃ lss, Forall2 (source_plan fl (m_w m)) (removelast args) lss ∧ concat lss ≠ []
        ∧ m_out m' = m_out m ++ (dry_run_line (isRemoteAddr first) (List.last args "") <$> concat lss)
    end
  ∧ ((∀ s, s ∈ removelast args → ¬ lists_server (pretty (fl_port fl)) s) → m_net m' = m_net m).
Proof.
  intros Hdry. unfold cpCmd. destruct args as [|first [|second rest]]; [by intros [-> ->]..|].
  set (args := first :: second :: rest) in *.
  destruct (forallb _ _) eqn:Hmix; cbn [negb]; [|by intros [-> ->]]. case_match; [by intros [-> ->]|]. rewrite Hdry.
  rewrite forallb_forall in Hmix. setoid_rewrite eqb_true_iff in Hmix.
  assert (∀ s, s ∈ removelast args → isRemoteAddr s = isRemoteAddr first) as Hall.
  { intros s Hs. apply Hmix. by apply list_elem_of_In. }
  intros (e & m1 & He & Hrun).
  assert (silent m m1 ∧ (∀ l, e = Ok l → ∃ lss, Forall2 (source_plan fl (m_w m)) (removelast args) lss ∧ l = concat lss)
    ∧ ((∀ s, s ∈ removelast args → ¬ lists_server (pretty (fl_port fl)) s) → m_net m1 = m_net m))
    as ([Hw Ho] & Hplan & Hn).
  { destruct (isRemoteAddr first).
    - split_and!; [by eapply silent_expand_remote|intros l ->; by eapply (expand_remote_plan _ _ [])|].
      intros Hno. eapply expand_remote_net; [|exact He]. auto.
    - pose proof He as ->%expand_local_same. split_and!; [done| |done]. intros l ->. by eapply (expand_local_plan _ _ []). }
  destruct e as [[|x expanded]|e]; [by destruct Hrun as [-> ->]| |by destruct Hrun as [-> ->]].
  destruct (Hplan _ eq_refl) as (lss & Hl & Heq).
  destruct Hrun as ([] & m2 & Hpr & [-> ->]). injection Hpr as <-. cbn [m_w m_out m_net].
  split_and!; [done| |done]. exists first, (second :: rest). split; [done|]. exists lss. rewrite <- Heq, Ho. by split_and!.
Qed.
End DryRun.

(** ** The files of one copy *)

(** The source is a regular file and stays one, as long as nothing is written to the machine. *)
Definition regular (src : string) (w : world) : Prop :=
  ∀ w', same_files w w' → ∃ info, os_Stat src w' = Ok info ∧ fi_IsDir info = false.

(** A checked copy of one file by a client whose network implements [RemoteFiles]. *)
Lemma copySingle_checked `{T : Transport, !Ctx} key {RF : RemoteFiles key} src dst port a i d
    chunkSize maxRetries recursive algo w x x' :
  isRemoteAddr src = false → isRemoteAddr dst = true → snd (parseRemoteAddr dst port w) = Ok a →
  let target := under_dir (ra_path a) (Base src) in
  same_files w (x_w x) → regular src w → at_path w src = Some i → idata w i = Some d → is_i64 (zlen d) →
  at_path w (stateFilePath src target) = None → at_path w (stateFilePath src target +:+ ".tmp") ≠ Some i →
  net_ok key (x_net x) → cc_encryptionKey (x_cc x) = key →
  0 < chunkSize → is_i64 chunkSize → 0 <= maxRetries →
  copySingle chunkSize maxRetries recursive true algo src dst x None x' →
  ∃ rd, remote key (x_net x') target = Some rd ∧ Sum256 rd = Sum256 d.
Proof.
  intros Hs Hd Ha target Hw Hreg Hi Hdi H64 Hst Htmp Hn Hk Hc Hc64 Hm Hcp.
  destruct (Hreg _ Hw) as (st & Hstat & Hdir).
  destruct (copy_single_upload _ _ _ _ _ _ _ _ _ _ _ Hs Hd Hstat Hdir Hcp) as (addr & x1 & Hp & Hup).
  apply on_machine_inv in Hp as [-> ->]. destruct (parseRemoteAddr dst any_port (x_w x)) as [w2 [a2|e]] eqn:Hp2;
    [|by destruct Hup].
  destruct (parseRemoteAddr dst port w) as [w3 [a3|]] eqn:Hp3; simplify_eq/=.
  rewrite (parse_path _ _ _ _ _ _ _ _ _ Hp3 Hp2) in Hup. fold target in Hup.
  pose proof (parseRemoteAddr_same _ _ _ _ _ Hp2) as Hw2. assert (same_files w w2) as Hww by by etrans.
  destruct (Hreg _ Hww) as (info & Hinfo & _). unfold cpOneFileToHost in Hup. cbn [x_w set_xw] in Hup. rewrite Hinfo in Hup.
  refine (verified_upload_same_hash (cc_encryptionKey (x_cc x)) src target info d chunkSize _ maxRetries algo (set_xw w2 x) x' _ _ Hc Hc64 Hm Hup).
  - split; cbn [x_net x_cc x_w set_xw]; try done.
    + exists i. by rewrite !(sf_path _ _ Hww), (sf_data _ _ Hww).
    + eapply stat_size; [exact Hinfo|by rewrite (sf_path _ _ Hww)|by rewrite (sf_data _ _ Hww)].
  - unfold loaded_state. cbn [x_w set_xw]. apply no_state_loaded. by rewrite (sf_path _ _ Hww).
Qed.

(** [cp_run] with one source: the address, the client, the copy. *)
Lemma cp_run_one `{D : Dialer, T : Transport, !Command.Pool, !Ctx} fl srcRemote port first dst src m m' :
  cp_run fl false srcRemote port first dst [src] m None m' →
  ∃ a w1, parseRemoteAddr (if srcRemote then first else dst) port (m_w m) = (w1, a) ∧
  let a := addr_or_empty a in
  let idf := if bool_decide (fl_identity fl = "") then ra_identityFile a else fl_identity fl in
  ∃ n w2 cc x', newClient (ra_hostPort a) (ra_userName a) idf (fl_batch fl) (fl_checksum fl) (fl_encrypt fl) (m_net m) w1
      = (n, w2, Ok cc)
    ∧ copySingle (fl_chunk fl) (fl_retry fl) (fl_recursive fl) (fl_sha256 fl) (parseCompressionFlag (fl_compression fl))
        src dst {| x_cc := cc; x_net := pool_open cc n; x_w := w2; x_rs := None |} None x'
    ∧ m' = {| m_net := pool_close (x_net x'); m_w := x_w x'; m_out := m_out m |}.
Proof.
  intros (a & m3 & Ha & Hrun). unfold on_home, step_nd in Ha.
  destruct (parseRemoteAddr _ _ (m_w m)) as [w1 a'] eqn:Hp. injection Ha as <- <-. exists a', w1. split; [done|]. cbv zeta.
  destruct Hrun as (r & m4 & Hc & Hrun). unfold connect, step_nd in Hc. cbn [m_net m_w] in Hc.
  destruct (newClient _ _ _ _ _ _ _ _) as [[n w2] r'] eqn:Hnew. injection Hc as <- <-.
  destruct r' as [cc|e]; [|by destruct Hrun]. destruct Hrun as (x' & Hcopy & ->).
  cbn [copy_all m_net m_w] in Hcopy. destruct Hcopy as (t & x1 & Ht & Hcopy).
  apply on_machine_inv in Ht as [-> ->]. cbn [copy_target negb fst snd] in Hcopy.
  destruct Hcopy as ([e|] & x2 & Hcp & Hcopy); [by destruct Hcopy|]. destruct Hcopy as [_ ->].
  exists n, w2, cc, x2. by split_and!.
Qed.

(** The Action of [gcp cp] with one local source that is no pattern ... *)
Lemma cpCmd_one_upload `{D : Dialer, T : Transport, !Command.Pool, !Ctx} fl src dst m m' :
  isRemoteAddr src = false → isRemoteAddr dst = true → hasGlob src = false → fl_dry_run fl = false →
  cpCmd fl [src; dst] m None m' → cp_run fl false false (pretty (fl_port fl)) src dst [src] m None m'.
Proof.
  intros Hs Hd Hg Hdry. unfold cpCmd. cbn [removelast List.last length forallb]. rewrite Hs, Hd, Hdry. cbn [Bool.eqb andb negb].
  change (bool_decide (1 < 1)%nat) with false. intros (e & m1 & He & Hrun). cbn [expand_local] in He.
  destruct He as (mt & m2 & [-> (fuel & Hexp)] & He). unfold expandLocalSource in Hexp. rewrite Hg in Hexp.
  injection Hexp as <-. by destruct He as [-> ->].
Qed.

(** ... and with one remote source that is none: the source is spelled with its user. *)
Lemma cpCmd_one_download `{D : Dialer, T : Transport, !Command.Pool, !Ctx} fl src dst a m m' :
  isRemoteAddr src = true → isRemoteAddr dst = false → fl_dry_run fl = false →
  snd (parseRemoteAddr src (pretty (fl_port fl)) (m_w m)) = Ok a → hasGlob (ra_path a) = false →
  cpCmd fl [src; dst] m None m' →
  ∃ m1, m_net m1 = m_net m ∧ same_files (m_w m) (m_w m1)
    ∧ cp_run fl false true (pretty (fl_port fl)) src dst [format_addr (ra_userName a) (ra_hostAlias a) (ra_path a)] m1 None m'.
Proof.
  intros Hs Hd Hdry Ha Hg. unfold cpCmd. cbn [removelast List.last length forallb]. rewrite Hs, Hd, Hdry. cbn [Bool.eqb andb negb].
  change (bool_decide (1 < 1)%nat) with false. intros (e & m1 & He & Hrun). cbn [expand_remote] in He.
  destruct He as (ar & m2 & Hp & He). unfold on_home, step_nd in Hp.
  destruct (parseRemoteAddr src _ (m_w m)) as [w1 ar'] eqn:Hpar. cbn [snd] in Ha. subst ar'. injection Hp as <- <-.
  destruct He as (r & m2 & Hexp & He). unfold expandRemoteSources in Hexp. rewrite Hg in Hexp. destruct Hexp as [-> ->].
  destruct He as [-> ->]. eexists. split; [|split; [|exact Hrun]]; [done|]. by eapply parseRemoteAddr_same.
Qed.

(** That spelling names the same path. *)
Lemma respelled_path src port w w' a port2 w2 w3 a2 : parseRemoteAddr src port w = (w', Ok a) →
  parseRemoteAddr (format_addr (ra_userName a) (ra_hostAlias a) (ra_path a)) port2 w2 = (w3, Ok a2) →
  ra_path a2 = ra_path a.
Proof.
  intros Hp. destruct (parse_ok_inv _ _ _ _ _ Hp) as (user & entry & _ & _ & Ha & Hc & Hne & Hpath & _).
  rewrite parse_format by done. destruct (sshConfigLookup _ w2) as [w4 e]. unfold resolveAddr.
  destruct (user_or_current _); [|done]. destruct (negb _ && _); [done|]. by intros [= _ <-].
Qed.

Lemma format_remote user host path : isRemoteAddr (format_addr user host path) = true.
Proof.
  unfold isRemoteAddr, format_addr. apply not_false_iff_true. rewrite Contains_false.
  intros [_ [_ [_ [Hc _]%no_char_app]%no_char_app]%no_char_app]%no_char_app. by apply no_char_cons in Hc as [].
Qed.

(** A checked copy of one remote file, likewise. *)
Lemma copySingle_fetched `{T : Transport, !Ctx} key {RF : RemoteFiles key} src dst path d chunkSize maxRetries algo w x x' :
  isRemoteAddr src = true → isRemoteAddr dst = false →
  (∀ w1 w2 a, parseRemoteAddr src any_port w1 = (w2, Ok a) → ra_path a = path) →
  let target := under_dir dst (Base path) in
  same_files w (x_w x) → remote key (x_net x) path = Some d → is_i64 (zlen d) →
  at_path w (stateFilePath path target) = None →
  net_ok key (x_net x) → cc_encryptionKey (x_cc x) = key → 0 < chunkSize → chunkSize <= 2 ^ 48 →
  copySingle chunkSize maxRetries false true algo src dst x None x' →
  ∃ i ld, at_path (x_w x') target = Some i ∧ idata (x_w x') i = Some ld ∧ Sum256 ld = Sum256 d.
Proof.
  intros Hs Hd Hpath target Hw Hr H64 Hst Hn Hk Hc Hc48 (st & x0 & Hask & Hcp).
  apply ask_nd_inv in Hask as [-> ->]. rewrite Hs, Hd in Hcp. cbn [negb andb] in Hcp.
  destruct Hcp as (addr & x1 & Hp & Hcp). apply on_machine_inv in Hp as [-> ->].
  destruct (parseRemoteAddr src any_port (x_w x)) as [w2 [a|e]] eqn:Hp; [|by destruct Hcp]. cbn [fst snd] in Hcp.
  rewrite (Hpath _ _ _ Hp) in Hcp. pose proof (parseRemoteAddr_same _ _ _ _ _ Hp) as Hw2.
  destruct Hcp as (isDir & x2 & Hq & Hcp). unfold alone, step_nd in Hq.
  apply (isRemoteDir_run key) in Hq as (Hn2 & Hr2 & Hx2 & Hk2 & Hb2); [|done]. cbn [x_net x_w x_cc set_xw] in *.
  assert (cpOneFileFromHost path target chunkSize maxRetries true algo x2 None x') as Hdown.
  { destruct isDir as [[]|e]; [|done..]. by destruct Hcp. }
  unfold cpOneFileFromHost in Hdown.
  refine (verified_download_same_hash key path target d chunkSize _ maxRetries _ algo x2 x' Hn2 _ _ H64 _ Hc Hc48 Hdown).
  - by rewrite Hk2.
  - by rewrite Hr2.
  - rewrite Hx2. apply no_state_loaded. by rewrite (sf_path _ _ Hw2), (sf_path _ _ Hw).
Qed.

Context (turns : list nat) (faults : list fault).
#[local] Existing Instances session_transport session_context.
#[local] Instance server_pool : @Command.Pool server_dialer session_transport := session_pool turns faults.

(** C1: [gcp cp src user@host:path] with its SHA-256 check (the default), from the command line
    to the server's disk.  If the command returns nil, then the server has authenticated the user
    of the address by a key that a home directory of the server authorizes, and that home has, at
    the path of the address (with the base name of the source, where it is empty or ends in a
    slash), a file with the hash of the source: for every number of connections and chunks, every
    assignment of requests to connections, every loss of requests and answers, every
    interleaving. *)
Theorem cp_reaches_server (whole : reads_whole) fl src dst a i d (m m' : @cmd server_dialer _) :
  let idf := if bool_decide (fl_identity fl = "") then ra_identityFile a else fl_identity fl in
  let target := under_dir (ra_path a) (Base src) in
  (* the arguments *)
  isRemoteAddr src = false → hasGlob src = false → isRemoteAddr dst = true →
  snd (parseRemoteAddr dst (pretty (fl_port fl)) (m_w m)) = Ok a → ra_userName a ≠ "" →
  fl_sha256 fl = true → fl_dry_run fl = false → 0 < fl_chunk fl → is_i64 (fl_chunk fl) → 0 <= fl_retry fl →
  (* the source, which no interrupted transfer has left a state for *)
  regular src (m_w m) → at_path (m_w m) src = Some i → idata (m_w m) i = Some d → is_i64 (zlen d) →
  at_path (m_w m) (stateFilePath src target) = None →
  at_path (m_w m) (stateFilePath src target +:+ ".tmp") ≠ Some i →
  (* an idle server *)
  s_queue (d_srv (m_net m)) = [] → fds_ok (d_srv (m_net m)) → s_panic (d_srv (m_net m)) = false →
  handshake_fits (ra_userName a) idf →
  cpCmd fl [src; dst] m None m' →
  ∃ key ws home rd, same_files (s_world (d_srv (m_net m))) ws ∧ key_of_home ws (ssh_Marshal key) home
    ∧ file_at (ctx_ok (ra_userName a) home (deriveEncryptionKey key)) (s_world (d_srv (m_net m'))) target = Some rd
    ∧ Sum256 rd = Sum256 d.
Proof.
  cbv zeta. intros Hs Hg Hd Ha Hu Hsha Hdry Hc Hc64 Hm Hreg Hi Hdi H64 Hst Htmp Hq Hf Hp Hfit Hcmd.
  apply cpCmd_one_upload in Hcmd; [|done..].
  destruct (cp_run_one _ _ _ _ _ _ _ _ Hcmd) as (ar & w1 & Hpar & n & w2 & cc & x' & Hnew & Hcp & Hm').
  rewrite Hpar in Ha. cbn [snd] in Ha. subst ar. cbn [addr_or_empty] in Hnew.
  pose proof (newClient_machine _ _ _ _ _ _ _ _ _ _ _ Hnew) as Hw2.
  pose proof (parseRemoteAddr_same _ _ _ _ _ Hpar) as Hw1. assert (same_files (m_w m) w2) as Hw by by etrans.
  destruct (newClient_opens turns faults _ _ _ _ _ _ _ _ _ _ _ Hu Hfit Hq Hf Hp Hnew) as (key & ws & home & Hws & Hh & Hk & Hok & _).
  exists key, ws, home. set (ca := ctx_ok _ home _) in *.
  rewrite Hsha in Hcp.
  destruct (copySingle_checked (ca_encryptionKey ca) (RF := session_files ca eq_refl whole) src dst (pretty (fl_port fl)) a i d
    (fl_chunk fl) (fl_retry fl) (fl_recursive fl) (parseCompressionFlag (fl_compression fl)) (m_w m)
    {| x_cc := cc; x_net := pool_open cc n; x_w := w2; x_rs := None |} x') as (rd & Hrd & Hsum);
    [done|done|by rewrite Hpar|exact Hw|done..|exact Hcp|].
  exists rd. do 2 (split; [done|]). split; [|done].
  subst m'. cbn [m_net]. change (pool_close (x_net x')) with (session_close (x_net x')). by rewrite session_close_world.
Qed.

(** The address reads the same as long as nothing is written to the machine. *)
Definition resolves (s port : string) (w : world) (a : remoteAddr) : Prop :=
  ∀ w', same_files w w' → snd (parseRemoteAddr s port w') = Ok a.

(** C2: the other direction.  If [gcp cp user@host:path dst] with its SHA-256 check returns nil,
    then the server has authenticated the user by a key that a home directory authorizes, and the
    file that home has at the path, whenever it has one, is copied: the local path (with the base
    name of the remote one, where it is empty or ends in a slash) holds a file with its hash. *)
Theorem cp_fetches_from_server (whole : reads_whole) fl src dst a (m m' : @cmd server_dialer _) :
  let idf := if bool_decide (fl_identity fl = "") then ra_identityFile a else fl_identity fl in
  let target := under_dir dst (Base (ra_path a)) in
  isRemoteAddr src = true → isRemoteAddr dst = false →
  resolves src (pretty (fl_port fl)) (m_w m) a → hasGlob (ra_path a) = false → ra_userName a ≠ "" →
  fl_sha256 fl = true → fl_dry_run fl = false → fl_recursive fl = false → 0 < fl_chunk fl → fl_chunk fl <= 2 ^ 48 →
  at_path (m_w m) (stateFilePath (ra_path a) target) = None →
  s_queue (d_srv (m_net m)) = [] → fds_ok (d_srv (m_net m)) → s_panic (d_srv (m_net m)) = false →
  handshake_fits (ra_userName a) idf →
  cpCmd fl [src; dst] m None m' →
  ∃ key ws home, same_files (s_world (d_srv (m_net m))) ws ∧ key_of_home ws (ssh_Marshal key) home
    ∧ ∀ d, file_at (ctx_ok (ra_userName a) home (deriveEncryptionKey key)) (s_world (d_srv (m_net m))) (ra_path a) = Some d →
        is_i64 (zlen d) →
        ∃ i ld, at_path (m_w m') target = Some i ∧ idata (m_w m') i = Some ld ∧ Sum256 ld = Sum256 d.
Proof.
  cbv zeta. intros Hs Hd Hres Hg Hu Hsha Hdry Hrec Hc Hc48 Hst Hq Hf Hp Hfit Hcmd.
  pose proof (Hres _ (reflexivity (m_w m))) as Ha.
  destruct (cpCmd_one_download _ _ _ _ _ _ Hs Hd Hdry Ha Hg Hcmd) as (m1 & Hnet & Hw1 & Hrun).
  destruct (cp_run_one _ _ _ _ _ _ _ _ Hrun) as (ar & w1 & Hpar & n & w2 & cc & x' & Hnew & Hcp & ->).
  pose proof (Hres _ Hw1) as Ha1. rewrite Hpar in Ha1. cbn [snd] in Ha1. subst ar. cbn [addr_or_empty] in Hnew.
  pose proof (newClient_machine _ _ _ _ _ _ _ _ _ _ _ Hnew) as Hw3.
  pose proof (parseRemoteAddr_same _ _ _ _ _ Hpar) as Hw2.
  assert (same_files (m_w m) w2) as Hw by (etrans; [exact Hw1|by etrans]). rewrite Hnet in Hnew.
  destruct (newClient_opens turns faults _ _ _ _ _ _ _ _ _ _ _ Hu Hfit Hq Hf Hp Hnew)
    as (key & ws & home & Hws & Hh & Hk & Hok & Hsrv).
  exists key, ws, home. do 2 (split; [done|]). set (ca := ctx_ok _ home _) in *. intros d Hfile H64.
  rewrite Hsha, Hrec in Hcp. destruct (parseRemoteAddr src (pretty (fl_port fl)) (m_w m)) as [w0 a0] eqn:Hp0.
  cbn [snd] in Ha. subst a0.
  refine (copySingle_fetched (ca_encryptionKey ca) (RF := session_files ca eq_refl whole) _ dst (ra_path a) d
    (fl_chunk fl) (fl_retry fl) (parseCompressionFlag (fl_compression fl)) (m_w m)
    {| x_cc := cc; x_net := pool_open cc n; x_w := w2; x_rs := None |} x'
    (format_remote _ _ _) Hd _ Hw _ H64 Hst Hok Hk Hc Hc48 Hcp).
  - intros v1 v2 a2 Hp2. by eapply respelled_path.
  - change (file_at ca (s_world (l_srv (sn_link (session_open turns faults cc n)))) (ra_path a) = Some d).
    by rewrite (file_at_same _ _ _ _ Hsrv).
Qed.

(** ** [gcp ls] *)

Context `{Humanize, LocalZone}.

(** What the listing of a path of the server's machine is. *)
Definition listing (ca : connAuth) (w : world) (path : string) (entries : list DirEntry.t) : Prop :=
  ∃ spath info, sandboxPath (Some ca) path = Ok spath ∧ os_Stat spath w = Ok info ∧
  if fi_IsDir info then
    ∃ es, os_ReadDir spath w = Ok es ∧ entries ≡ₚ dir_entry <$> es ∧ Sorted name_le entries
  else entries = [{| DirEntry.Name := path; DirEntry.IsDir := false; DirEntry.Mode := u32 (fi_Mode info);
                     DirEntry.Size := fi_Size info; DirEntry.ModTime := 0 |}].

Lemma ls_entries_listing ca path (x x' : @xfer session_transport _) entries : ca_state ca = authOK → session_ok ca (x_net x) →
  run_alone (ls_entries path) x = (x', Ok entries) → listing ca (s_world (l_srv (sn_link (x_net x)))) path entries.
Proof.
  intros Hca Hok. unfold ls_entries. rewrite run_cc. unfold eval, exec.
  destruct (Stat path _) as [res [cc n]] eqn:Hst. cbn [fst snd]. apply Stat_run in Hst as (id & -> & Hcall). cbn beta in Hcall.
  destruct res as [[m q]|e]; [|by intros [=]]. destruct m as [| | | | | | |res| | | | | |]; try by intros [=].
  destruct (StatRes.Success res) eqn:Hsuc; [|by intros [=]]. cbn [negb].
  destruct (session_stat ca _ _ _ _ _ _ Hca Hok Hcall Hsuc) as (spath & info & Hsb & Hstat & Hsz & Hmode & Hdir & Hw).
  rewrite Hdir. intros Hrun. exists spath, info. do 2 (split; [done|]). destruct (fi_IsDir info).
  - assert (session_ok ca n) as Hok' by (by eapply (session_net_ok ca); [..|exact Hcall]).
    revert Hrun. rewrite run_cc. unfold eval, exec.
    destruct (ReadDir path _) as [res' [cc' n']] eqn:Hrd. cbn [fst snd].
    apply ReadDir_run in Hrd as (id' & -> & Hcall'). cbn beta in Hcall'.
    destruct res' as [[m q']|e]; [|by intros [=]]. destruct m as [| | | | | | | | |res'| | | |]; try by intros [=].
    destruct (ReadDirRes.Success res') eqn:Hsuc'; [|by intros [=]]. cbn [negb]. intros [= _ <-].
    destruct (session_readDir ca _ _ _ _ _ _ Hca Hok' Hcall' Hsuc') as (spath' & es & Hsb' & Hes & Heq).
    cbn [ReadDirReq.Path StatReq.Path x_net set_xcall] in *. assert (spath' = spath) as -> by congruence.
    rewrite Hw in Hes. exists es. split; [done|]. rewrite <- Heq. split; [apply sort_entries_perm|apply sort_entries_sorted].
  - injection Hrun as _ <-. by rewrite Hsz, Hmode.
Qed.

(** C3: what [gcp ls] prints is the truth about the server: when it succeeds, the server has
    authenticated the user of the address by a key that a home directory authorizes, and the
    lines are those of the directory at the path of the address in that home - every entry
    exactly once, by name - or the one line of the file that is there. *)
Theorem ls_prints_listing long human port addr args a (m m' : @cmd server_dialer _) :
  snd (parseRemoteAddr addr (pretty port) (m_w m)) = Ok a → ra_userName a ≠ "" →
  s_queue (d_srv (m_net m)) = [] → fds_ok (d_srv (m_net m)) → s_panic (d_srv (m_net m)) = false →
  handshake_fits (ra_userName a) (ra_identityFile a) →
  lsCmd long human port (addr :: args) m None m' →
  ∃ key ws home w entries, same_files (s_world (d_srv (m_net m))) ws ∧ key_of_home ws (ssh_Marshal key) home
    ∧ same_files (s_world (d_srv (m_net m))) w
    ∧ listing (ctx_ok (ra_userName a) home (deriveEncryptionKey key)) w (ra_path a) entries
    ∧ m_out m' = m_out m ++ ((λ e, printEntry e long human) <$> entries).
Proof.
  intros Ha Hu Hq Hf Hp Hfit (ar & m1 & Hpar & Hrun). unfold on_home, step_nd in Hpar.
  destruct (parseRemoteAddr addr _ (m_w m)) as [w1 ar'] eqn:Hpa. cbn [snd] in Ha. subst ar'. injection Hpar as <- <-.
  destruct Hrun as (r & m2 & Hc & Hrun). unfold connect, step_nd in Hc. cbn [m_net m_w] in Hc.
  destruct (newClient _ _ _ _ _ _ _ _) as [[n w2] r'] eqn:Hnew. injection Hc as <- <-.
  destruct r' as [cc|e]; [|by destruct Hrun]. destruct Hrun as (r & m3 & (x' & Hls & ->) & Hrun). cbn [m_net m_w] in Hls.
  destruct (newClient_opens turns faults _ _ _ _ _ _ _ _ _ _ _ Hu Hfit Hq Hf Hp Hnew)
    as (key & ws & home & Hws & Hh & _ & Hok & Hw).
  destruct r as [entries|e]; [|by destruct Hrun]. destruct Hrun as ([] & m4 & Hpr & [_ ->]). injection Hpr as <-.
  exists key, ws, home, (s_world (l_srv (sn_link (session_open turns faults cc n)))), entries. do 3 (split; [done|]).
  split; [|done]. refine (ls_entries_listing (ctx_ok _ _ _) _ _ _ _ _ _ Hls); [done|exact Hok].
Qed.

End Whole.

(** ** A copy that runs *)

#[local] Existing Instances hs_ssh hs_client hs_client_ok hs_env toy_config session_transport session_context.

(** In memory, a file that has contents is a regular file. *)
Lemma mem_regular src i d (w : @world MemOS) : at_path w src = Some i → idata w i = Some d → regular src w.
Proof.
  intros Hi Hd w' Hw. rewrite <- (sf_path _ _ Hw) in Hi. rewrite <- (sf_data _ _ Hw) in Hd.
  simpl in *. unfold mem_at_path, mem_idata, mem_Stat in *. destruct (node_at w' src) as [[k n]|] eqn:Hn; [|done].
  injection Hi as ->. eexists. split; [done|]. unfold node_at in Hn. destruct (names w' !! Clean src) as [j|]; [|done].
  simpl in Hn. destruct (inodes w' !! j) as [n'|] eqn:Hj; [|done]. injection Hn as -> ->. rewrite Hj in Hd. simpl in Hd.
  destruct (n_dir n) eqn:Hdir; [done|]. unfold fi_IsDir, FileMode_IsDir, info_of, FileMode_Perm. cbn [fi_Mode].
  by rewrite Hdir, Z.lor_0_r, Z.land_spec, andb_false_r.
Qed.

(** The flags: chunks of four bytes, two connections, the key ["/id"]. *)
Definition gc_flags : cpFlags := {|
  fl_chunk := 4; fl_batch := 2; fl_retry := 1; fl_checksum := true; fl_recursive := false;
  fl_dry_run := false; fl_sha256 := true; fl_compression := "gzip"; fl_port := 5031; fl_identity := "/id";
  fl_encrypt := true;
|}.
Definition gc_disk : @world MemOS :=
  put_file "/id" [x70] (put_file "/home/me/a" demo_bytes (mem_init ["/home"; "/home/me"; "/tmp"])).
Definition gc_start : @cmd server_dialer _ := {| m_net := hs_net; m_w := gc_disk; m_out := [] |}.
Definition gc_addr : remoteAddr :=
  {| ra_hostPort := "box:5031"; ra_userName := "u"; ra_path := "b"; ra_identityFile := ""; ra_hostAlias := "box" |}.

Lemma gc_parse port : parseRemoteAddr "u@box:b" port gc_disk = (gc_disk, resolveAddr "u" "box" "b" port None).
Proof. vm_compute. reflexivity. Qed.

Definition gc_new := newClient "box:5031" "u" "/id" 2 true true hs_net gc_disk.
Definition gc_upload : option (option error * @xfer session_transport _) :=
  match gc_new with
  | (n, w, Ok cc) =>
    upload_exec 4 "/home/me/a" "b" demo_info 4 (cc_batch cc) 1 true CompressionGzip
      (@Build_xfer session_transport _ cc (session_open [0; 1; 1]%nat [] cc n) w None)
  | _ => None
  end.
Definition gc_ends : bool :=
  match gc_upload with Some (None, x) => bool_decide (l_ctx (sn_link (x_net x)) = None) | _ => false end.
Lemma gc_upload_ends : gc_ends = true.
Proof. vm_compute. reflexivity. Qed.

Lemma gc_upload_run : ∃ n w cc x', gc_new = (n, w, Ok cc)
  ∧ upload_exec 4 "/home/me/a" "b" demo_info 4 (cc_batch cc) 1 true CompressionGzip
      (@Build_xfer session_transport _ cc (session_open [0; 1; 1]%nat [] cc n) w None) = Some (None, x').
Proof.
  pose proof gc_upload_ends as He. unfold gc_ends, gc_upload in He.
  destruct gc_new as [[n w] [cc|e]]; [|discriminate]. destruct (upload_exec _ _ _ _ _ _ _ _ _ _) as [[[e|] x']|] eqn:Hx; [discriminate| |discriminate].
  by exists n, w, cc, x'.
Qed.

(** The machine after the handshake, the client's settings. *)
Lemma gc_machine : snd (fst gc_new) = gc_disk ∧ (λ cc, cc_batch cc) <$> (match snd gc_new with Ok cc => Some cc | Err _ => None end) = Some 2.
Proof. vm_compute. done. Qed.

#[local] Instance gc_pool : @Command.Pool server_dialer session_transport := session_pool [0; 1; 1]%nat [].

Lemma gc_copy (x x' : @xfer session_transport _) : x_w x = gc_disk →
  uploadFile "/home/me/a" "b" demo_info 4 (cc_batch (x_cc x)) 1 true CompressionGzip x None x' →
  copySingle 4 1 false true CompressionGzip "/home/me/a" "u@box:b" x None x'.
Proof.
  intros Hw Hup. unfold copySingle. eapply nd_run; [apply nd_run_step|]. cbn [fst snd]. rewrite Hw.
  change (os_Stat "/home/me/a" gc_disk) with (Ok demo_info).
  change (isRemoteAddr "/home/me/a") with false. change (isRemoteAddr "u@box:b") with true.
  change (fi_IsDir demo_info) with false. cbn [negb andb]. unfold copy_to_host.
  eapply (nd_run _ _ _ (Ok gc_addr) x).
  - unfold on_machine, step_nd. rewrite Hw, gc_parse. destruct x. simpl in *. by subst.
  - change (under_dir (ra_path gc_addr) (Base "/home/me/a")) with "b". unfold cpOneFileToHost. rewrite Hw.
    change (os_Stat "/home/me/a" gc_disk) with (Ok demo_info). exact Hup.
Qed.

Lemma gc_run : ∃ m', cpCmd gc_flags ["/home/me/a"; "u@box:b"] gc_start None m'.
Proof.
  destruct gc_upload_run as (n & w & cc & x' & Hnew & Hx). pose proof gc_machine as [Hw Hb]. rewrite Hnew in Hw, Hb.
  simpl in Hw, Hb. subst w. injection Hb as Hb. apply upload_exec_run in Hx; [|by rewrite Hb].
  eexists. unfold cpCmd. change (isRemoteAddr "/home/me/a") with false.
  change (isRemoteAddr (List.last ["/home/me/a"; "u@box:b"] "")) with true.
  change (forallb _ _) with true. cbn [negb Bool.eqb].
  eapply (nd_run _ _ _ (Ok ["/home/me/a"]) gc_start).
  { eapply (nd_run _ _ _ (Ok ["/home/me/a"]) gc_start); [|split; reflexivity].
    split; [reflexivity|]. exists 0%nat. reflexivity. }
  cbn [fl_dry_run gc_flags]. unfold cp_run. eapply (nd_run _ _ _ (Ok gc_addr) gc_start).
  { unfold on_home, step_nd. change (m_w gc_start) with gc_disk. by rewrite gc_parse. }
  eapply (nd_run _ _ _ (Ok cc) {| m_net := n; m_w := gc_disk; m_out := [] |}).
  { unfold connect, step_nd. cbn [addr_or_empty gc_addr ra_hostPort ra_userName fl_identity fl_batch fl_checksum fl_encrypt
      gc_flags m_net m_w gc_start]. rewrite bool_decide_false by done. unfold gc_new in Hnew. by rewrite Hnew. }
  exists x'. split; [|reflexivity]. cbn [copy_all].
  eapply (nd_run _ _ _ "u@box:b" _); [reflexivity|]. eapply (nd_run _ _ _ None x'); [|split; reflexivity].
  by apply gc_copy.
Qed.

Lemma gc_source : ∃ i, at_path gc_disk "/home/me/a" = Some i ∧ idata gc_disk i = Some demo_bytes
  ∧ at_path gc_disk (stateFilePath "/home/me/a" "b" +:+ ".tmp") ≠ Some i.
Proof. eexists. split_and!; [vm_compute; reflexivity..|vm_compute; discriminate]. Qed.

Lemma gc_no_state : at_path gc_disk (stateFilePath "/home/me/a" "b") = None.
Proof. vm_compute. reflexivity. Qed.

Lemma gc_parse_ok : snd (parseRemoteAddr "u@box:b" (pretty (fl_port gc_flags)) (m_w gc_start)) = Ok gc_addr.
Proof. change (m_w gc_start) with gc_disk. rewrite gc_parse. reflexivity. Qed.

Lemma cp_reaches_server_witness : ∃ m' key home rd,
  cpCmd gc_flags ["/home/me/a"; "u@box:b"] gc_start None m'
  ∧ file_at (ctx_ok "u" home (deriveEncryptionKey key)) (s_world (d_srv (m_net m'))) "b" = Some rd
  ∧ Sum256 rd = Sum256 demo_bytes.
Proof.
  destruct gc_run as (m' & Hrun). destruct gc_source as (i & Hi & Hd & Htmp).
  destruct (cp_reaches_server [0; 1; 1]%nat [] mem_reads_whole gc_flags "/home/me/a" "u@box:b" gc_addr i demo_bytes gc_start m')
    as (key & ws & home & rd & _ & _ & Hrd & Hsum);
    [reflexivity|reflexivity|reflexivity|exact gc_parse_ok|exact hs_user|reflexivity|reflexivity|reflexivity|exact is_i64_4
    |discriminate|exact (mem_regular _ _ _ _ Hi Hd)|exact Hi|exact Hd| |exact gc_no_state|exact Htmp
    |exact (proj1 hs_idle)|exact (proj1 (proj2 hs_idle))|exact (proj2 (proj2 hs_idle))|exact hs_fits|exact Hrun|].
  - exact (ur_len _ _ _ _ _ _ demo_ready).
  - exists m', key, home, rd. split_and!; [exact Hrun|exact Hrd|exact Hsum].
Defined.

(** *** The download *)

(** Without a configuration file the address is resolved by itself. *)
Lemma no_config host (w : @world MemOS) : at_path w "/home/me/.ssh/config" = None → snd (sshConfigLookup host w) = None.
Proof.
  intros Hn. unfold sshConfigLookup. change (@os_UserHomeDir hs_env) with (Ok "/home/me" : result string).
  change (GoStd.Join ["/home/me"; ".ssh"; "config"]) with "/home/me/.ssh/config". unfold os_ReadFile.
  destruct (os_OpenFile _ _ _ w) as [w1 [f|e]] eqn:Ho; [|done].
  destruct (open_ok _ _ _ _ _ _ Ho) as (_ & _ & _ & i & _ & _ & _ & _ & [(Hi & _)|(_ & ? & _)]); [|done].
  change (at_path w "/home/me/.ssh/config" = Some i) in Hi. congruence.
Qed.

Definition gf_addr : remoteAddr :=
  {| ra_hostPort := "box:5031"; ra_userName := "u"; ra_path := "f"; ra_identityFile := ""; ra_hostAlias := "box" |}.

Lemma gf_resolves : resolves "u@box:f" (pretty (fl_port gc_flags)) (m_w gc_start) gf_addr.
Proof.
  intros w' Hw. change (pretty (fl_port gc_flags)) with "5031". change (m_w gc_start) with gc_disk in Hw.
  assert (at_path w' "/home/me/.ssh/config" = None) as Hn by (rewrite (sf_path _ _ Hw); vm_compute; reflexivity).
  change "u@box:f" with (format_addr "u" "box" "f"). rewrite parse_format by done.
  pose proof (no_config "box" w' Hn) as Hc. destruct (sshConfigLookup "box" w') as [w1 e]. simpl in Hc. by subst e.
Qed.

Lemma gf_parse port : parseRemoteAddr "u@box:f" port gc_disk = (gc_disk, resolveAddr "u" "box" "f" port None).
Proof. vm_compute. reflexivity. Qed.

(** The state after the question whether the source is a directory. *)
Definition gf_asked : option (@xfer session_transport _ * result bool) :=
  match gc_new with
  | (n, w, Ok cc) => Some (run_alone (isRemoteDir "f") (@Build_xfer session_transport _ cc (session_open [0; 1; 1]%nat [] cc n) w None))
  | _ => None
  end.
Definition gf_ends : bool :=
  match gf_asked with
  | Some (x, Ok false) => (0 <? cc_batch (x_cc x)) &&
    match download_exec 4 "f" "/home/me/c" 4 (cc_batch (x_cc x)) 1 (cc_useChecksum (x_cc x)) true CompressionGzip x with
    | Some (None, _) => true
    | _ => false
    end
  | _ => false
  end.
Lemma gf_ends_ok : gf_ends = true.
Proof. vm_compute. reflexivity. Qed.

Lemma gf_down_run : ∃ n cc x2 x', gc_new = (n, gc_disk, Ok cc)
  ∧ run_alone (isRemoteDir "f") (@Build_xfer session_transport _ cc (session_open [0; 1; 1]%nat [] cc n) gc_disk None) = (x2, Ok false)
  ∧ downloadFile "f" "/home/me/c" 4 (cc_batch (x_cc x2)) 1 (cc_useChecksum (x_cc x2)) true CompressionGzip x2 None x'.
Proof.
  pose proof gf_ends_ok as He. pose proof gc_machine as [Hw _]. unfold gf_ends, gf_asked in He.
  destruct gc_new as [[n w] [cc|e]]; [|discriminate]. simpl in Hw. subst w. set (x := Build_xfer _ _ _ _) in *.
  destruct (run_alone (isRemoteDir "f") x) as [x2 [[]|e]] eqn:Hq; [discriminate| |discriminate].
  apply andb_true_iff in He as [Hb He].
  destruct (download_exec _ _ _ _ _ _ _ _ _ _) as [[[e|] x']|] eqn:Hx; [discriminate| |discriminate].
  exists n, cc, x2, x'. split; [reflexivity|]. split; [exact Hq|]. apply download_exec_run in Hx; [exact Hx|by apply Z.ltb_lt].
Qed.

Lemma gf_copy (x x2 x' : @xfer session_transport _) : x_w x = gc_disk → run_alone (isRemoteDir "f") x = (x2, Ok false) →
  downloadFile "f" "/home/me/c" 4 (cc_batch (x_cc x2)) 1 (cc_useChecksum (x_cc x2)) true CompressionGzip x2 None x' →
  copySingle 4 1 false true CompressionGzip "u@box:f" "/home/me/c" x None x'.
Proof.
  intros Hw Hq Hdown. unfold copySingle. eapply nd_run; [apply nd_run_step|]. cbn [fst snd].
  change (isRemoteAddr "u@box:f") with true. change (isRemoteAddr "/home/me/c") with false. cbn [negb andb].
  unfold copy_from_host. eapply (nd_run _ _ _ (Ok gf_addr) x).
  - unfold on_machine, step_nd. rewrite Hw, gf_parse. destruct x. simpl in *. by subst.
  - change (under_dir "/home/me/c" (Base (ra_path gf_addr))) with "/home/me/c". change (ra_path gf_addr) with "f".
    eapply (nd_run _ _ _ (Ok false) x2); [exact Hq|]. exact Hdown.
Qed.

Lemma gf_run : ∃ m', cpCmd gc_flags ["u@box:f"; "/home/me/c"] gc_start None m'.
Proof.
  destruct gf_down_run as (n & cc & x2 & x' & Hnew & Hq & Hdown).
  eexists. unfold cpCmd. change (isRemoteAddr "u@box:f") with true.
  change (isRemoteAddr (List.last ["u@box:f"; "/home/me/c"] "")) with false.
  change (forallb _ _) with true. cbn [negb Bool.eqb].
  eapply (nd_run _ _ _ (Ok ["u@box:f"]) gc_start).
  { change (removelast _) with ["u@box:f"]. cbn [expand_remote]. eapply (nd_run _ _ _ (Ok gf_addr) gc_start).
    - unfold on_home, step_nd. change (m_w gc_start) with gc_disk. rewrite gf_parse. reflexivity.
    - eapply (nd_run _ _ _ (Ok ["u@box:f"]) gc_start); split; reflexivity. }
  cbn [fl_dry_run gc_flags]. unfold cp_run. eapply (nd_run _ _ _ (Ok gf_addr) gc_start).
  { unfold on_home, step_nd. change (m_w gc_start) with gc_disk. rewrite gf_parse. reflexivity. }
  eapply (nd_run _ _ _ (Ok cc) (@Build_cmd server_dialer _ n gc_disk [])).
  { unfold connect, step_nd. cbn [addr_or_empty gf_addr ra_hostPort ra_userName fl_identity fl_batch fl_checksum fl_encrypt
      gc_flags m_net m_w gc_start]. rewrite bool_decide_false by done. unfold gc_new in Hnew. rewrite Hnew. reflexivity. }
  exists x'. split; [|reflexivity]. cbn [copy_all].
  eapply (nd_run _ _ _ "/home/me/c" _); [reflexivity|]. eapply (nd_run _ _ _ None x'); [|split; reflexivity].
  eapply gf_copy; [|exact Hq|exact Hdown]. reflexivity.
Qed.

Lemma gf_no_state : at_path gc_disk (stateFilePath "f" "/home/me/c") = None.
Proof. vm_compute. reflexivity. Qed.

Lemma cp_fetches_from_server_witness : ∃ m' key home,
  cpCmd gc_flags ["u@box:f"; "/home/me/c"] gc_start None m'
  ∧ ∀ d, file_at (ctx_ok "u" home (deriveEncryptionKey key)) demo_world "f" = Some d → is_i64 (zlen d) →
      ∃ i ld, at_path (m_w m') "/home/me/c" = Some i ∧ idata (m_w m') i = Some ld ∧ Sum256 ld = Sum256 d.
Proof.
  destruct gf_run as (m' & Hrun).
  destruct (cp_fetches_from_server [0; 1; 1]%nat [] mem_reads_whole gc_flags "u@box:f" "/home/me/c" gf_addr gc_start m')
    as (key & ws & home & _ & _ & Hcopy);
    [reflexivity|reflexivity|exact gf_resolves|reflexivity|exact hs_user|reflexivity|reflexivity|reflexivity|reflexivity
    |discriminate|exact gf_no_state|exact (proj1 hs_idle)|exact (proj1 (proj2 hs_idle))|exact (proj2 (proj2 hs_idle))
    |exact hs_fits|exact Hrun|].
  exists m', key, home. split; [exact Hrun|exact Hcopy].
Defined.

(** ** A listing that runs *)

(** ** A dry run, closed *)

Definition dry_flags : cpFlags := {|
  fl_chunk := 4; fl_batch := 2; fl_retry := 1; fl_checksum := true; fl_recursive := false;
  fl_dry_run := true; fl_sha256 := true; fl_compression := ""; fl_port := 5031; fl_identity := ""; fl_encrypt := true;
|}.
Definition dry_out : list string := ["dry-run: upload /home/me/a to u@box:b"].

Lemma dry_run : cpCmd dry_flags ["/home/me/a"; "u@box:b"] gc_start None {| m_net := hs_net; m_w := gc_disk; m_out := dry_out |}.
Proof.
  unfold cpCmd. change (isRemoteAddr "/home/me/a") with false.
  change (isRemoteAddr (List.last ["/home/me/a"; "u@box:b"] "")) with true. change (forallb _ _) with true. cbn [negb Bool.eqb].
  eapply (nd_run _ _ _ (Ok ["/home/me/a"]) gc_start).
  { eapply (nd_run _ _ _ (Ok ["/home/me/a"]) gc_start); [|split; reflexivity].
    split; [reflexivity|]. exists 0%nat. reflexivity. }
  eapply nd_run; [apply nd_run_step|split; reflexivity].
Qed.

Lemma dry_run_only_prints_witness : ∃ m', cpCmd dry_flags ["/home/me/a"; "u@box:b"] gc_start None m'
  ∧ same_files (m_w gc_start) (m_w m') ∧ m_net m' = m_net gc_start.
Proof.
  eexists. split; [exact dry_run|].
  destruct (dry_run_only_prints dry_flags ["/home/me/a"; "u@box:b"] gc_start None _ eq_refl dry_run) as (Hw & _ & Hn).
  split; [exact Hw|]. apply Hn. intros s Hs%list_elem_of_singleton [Hr _]. subst s. vm_compute in Hr. discriminate Hr.
Defined.

(** The configuration names the key, in a file below the home directory. *)
#[local] Instance ls_config : SshConfig := {
  Config := unit;
  ssh_config_Decode _ := Ok tt;
  cfg_Get _ host k := if bool_decide (host = "box" ∧ k = "IdentityFile") then Ok "/id" else Err (demo_err "no value");
}.
#[local] Instance ls_units : Humanize := λ z, pretty z.
#[local] Instance ls_zone : LocalZone := λ _, 0.

Definition ls_disk : @world MemOS :=
  put_file "/home/me/.ssh/config" [] (put_file "/id" [x70] (mem_init ["/home"; "/home/me"; "/home/me/.ssh"])).
Definition ls_start : @cmd server_dialer _ := {| m_net := hs_net; m_w := ls_disk; m_out := [] |}.
Definition ls_addr : remoteAddr :=
  {| ra_hostPort := "box:5031"; ra_userName := "u"; ra_path := "."; ra_identityFile := "/id"; ra_hostAlias := "box" |}.
Definition ls_parsed := parseRemoteAddr "u@box:." "5031" ls_disk.

Lemma ls_parse_ok : snd ls_parsed = Ok ls_addr.
Proof. vm_compute. reflexivity. Qed.

Definition ls_new := newClient "box:5031" "u" "/id" 1 false false hs_net (fst ls_parsed).
Definition ls_out : result (list string) :=
  match ls_new with
  | (n, w, Ok cc) =>
    match snd (run_alone (ls_entries ".") (@Build_xfer session_transport _ cc (session_open [0; 1; 1]%nat [] cc n) w None)) with
    | Ok entries => Ok ((λ e, printEntry e true false) <$> entries)
    | Err err => Err err
    end
  | (_, _, Err err) => Err err
  end.

Example ls_out_lines : ls_out = Ok ["drwxr-xr-x       0                    .ssh/"; "-rw-r--r--       5                    f"].
Proof. vm_compute. reflexivity. Qed.

Lemma ls_parse : parseRemoteAddr "u@box:." (pretty 5031) ls_disk = (fst ls_parsed, Ok ls_addr).
Proof. change (pretty 5031) with "5031". fold ls_parsed. rewrite <- ls_parse_ok. apply surjective_pairing. Qed.

Lemma ls_run : ∃ m', lsCmd true false 5031 ["u@box:."] ls_start None m'.
Proof.
  pose proof ls_out_lines as Hout. unfold ls_out in Hout. destruct ls_new as [[n w] [cc|e]] eqn:Hnew; [|discriminate].
  set (x := @Build_xfer session_transport _ cc (session_open [0; 1; 1]%nat [] cc n) w None) in Hout.
  destruct (run_alone (ls_entries ".") x) as [x' [entries|e]] eqn:Hrun; [|discriminate].
  eexists. unfold lsCmd.
  eapply (nd_run _ _ _ (Ok ls_addr) (@Build_cmd server_dialer _ hs_net (fst ls_parsed) [])).
  { unfold on_home, step_nd. cbn [m_w m_net ls_start]. rewrite ls_parse. reflexivity. }
  eapply (nd_run _ _ _ (Ok cc) (@Build_cmd server_dialer _ n w [])).
  { unfold connect, step_nd. cbn [ls_addr ra_hostPort ra_userName ra_identityFile m_net m_w]. unfold ls_new in Hnew.
    rewrite Hnew. reflexivity. }
  eapply (nd_run _ _ _ (Ok entries)); [exists x'; split; [exact Hrun|reflexivity]|].
  eapply nd_run; [apply nd_run_step|split; reflexivity].
Qed.

Lemma ls_prints_listing_witness : ∃ m' key home w entries,
  lsCmd true false 5031 ["u@box:."] ls_start None m'
  ∧ listing (ctx_ok "u" home (deriveEncryptionKey key)) w "." entries
  ∧ m_out m' = (λ e, printEntry e true false) <$> entries.
Proof.
  destruct ls_run as (m' & Hrun).
  destruct (ls_prints_listing [0; 1; 1]%nat [] true false 5031 "u@box:." [] ls_addr ls_start m')
    as (key & ws & home & w & entries & _ & _ & _ & Hl & Hlines);
    [exact (f_equal snd ls_parse)|exact hs_user|exact (proj1 hs_idle)|exact (proj1 (proj2 hs_idle))
    |exact (proj2 (proj2 hs_idle))|exact hs_fits|exact Hrun|].
  exists m', key, home, w, entries. split_and!; [exact Hrun|exact Hl|exact Hlines].
Defined.
