(* ===== verification/ResumeSpec.v ===== *)
(** The properties of the resume state on disk: a save is atomic with respect to crashes,
    and what was saved is what a later transfer loads. *)
From S2P Require Import Prelude Message PlainCodec GoStd GoHash OS MemFS Chunk Auth FdCache Hoare Server ServerData Demo Client Prog Pool PoolSpec Resume Transfer Remote ServerLink TransferExec.
From Stdlib Require Import Strings.Byte.

Section Resume.
  Context `{JsonOk, TempDir, OSLaws}.

(** What loading makes of the contents [d] of a state file. *)
Definition loads_as (src dst : string) (size chunk batch : Z) (d : list byte) : option resumeState :=
  match json_Decode d with
  | Ok j => state_of_json (stateFilePath src dst) size chunk batch j
  | Err _ => None
  end.

Lemma loads_saved src dst batch s : r_Version s = 1 →
  ∃ s', loads_as src dst (r_SourceSize s) (r_ChunkSize s) batch (json_Encode (to_json (saved_state s))) = Some s'
    ∧ r_completedSet s' = r_completedSet s.
Proof.
  intros Hv. unfold loads_as, state_of_json. rewrite json_roundtrip. cbn -[sorted_offsets]. rewrite Hv, !Z.eqb_refl. simpl.
  eexists. split; [reflexivity|]. simpl. apply sorted_offsets_set.
Qed.

(** Opening and reading a file gives its contents. *)
Lemma opened_contents p k d t t1 f t2 d' : at_path t p = Some k → idata t k = Some d →
  os_OpenFile p O_RDONLY 0 t = (t1, Ok f) → f_ReadRest f t1 = (t2, Ok d') → d' = d.
Proof.
  intros Hk Hd Ho Hr. destruct (open_read_contents p O_RDONLY _ _ _ _ _ _ Ho eq_refl eq_refl Hr) as (k' & Hk' & Hd').
  congruence.
Qed.

(** C15: a crash at any point of a save leaves a whole state file: at every state the save
    goes through, the file is there with the contents it had or with the new ones, and a
    transfer that then opens it resumes from the old state or from the new set of
    completed chunks, never from anything else. *)
Theorem save_survives_crash s src dst batch i d w t :
  r_path s = stateFilePath src dst → r_Version s = 1 →
  at_path w (r_path s) = Some i → idata w i = Some d → at_path w (tmp_path s) ≠ Some i →
  visits (saveResumeState s) w t →
  let size := r_SourceSize s in let chunk := r_ChunkSize s in
  (∃ k d', at_path t (r_path s) = Some k ∧ idata t k = Some d'
     ∧ (d' = d ∨ d' = json_Encode (to_json (saved_state s))))
  ∧ ∀ t1 f t2 d', os_OpenFile (r_path s) O_RDONLY 0 t = (t1, Ok f) → f_ReadRest f t1 = (t2, Ok d') →
      let loaded := snd (run_alone (loadResumeState src dst size chunk batch) t) in
      loaded = loads_as src dst size chunk batch d
      ∨ ∃ s', loaded = Some s' ∧ r_completedSet s' = r_completedSet s.
Proof.
  intros Hp Hv Hi Hd Ht Hvis size chunk.
  destruct (along_visits _ _ _ _ _ (save_along s i d w Hd Ht) Hvis) as [Hk Hcase].
  assert (∃ k d', at_path t (r_path s) = Some k ∧ idata t k = Some d'
     ∧ (d' = d ∨ d' = json_Encode (to_json (saved_state s)))) as (k & d' & Hat & Hdat & Hd').
  { destruct Hcase as [Hn|(j & Hj & Hjd)].
    - exists i, d. split_and!; [by apply Hn|by apply Hk|by left].
    - exists j, (json_Encode (to_json (saved_state s))). split_and!; [done..|by right]. }
  split; [by exists k, d'|]. intros t1 f t2 d2 Ho Hr loaded. subst loaded.
  pose proof (opened_contents _ _ _ _ _ _ _ _ Hat Hdat Ho Hr) as ->. rewrite Hp in Ho.
  rewrite (load_along_state _ _ size chunk batch _ _ _ _ _ Ho Hr). fold (loads_as src dst size chunk batch d').
  destruct Hd' as [->| ->]; [by left|right]. by apply loads_saved.
Qed.

(** C26: when a save returns nil, a later transfer of the same files, sizes and chunk size
    that opens the state file resumes with exactly the completed chunks that were saved. *)
Theorem saved_state_resumes s src dst batch i d w w' s' t1 f t2 d' :
  r_path s = stateFilePath src dst → r_Version s = 1 → idata w i = Some d → at_path w (tmp_path s) ≠ Some i →
  run_alone (saveResumeState s) w = (w', (s', None)) →
  os_OpenFile (r_path s) O_RDONLY 0 w' = (t1, Ok f) → f_ReadRest f t1 = (t2, Ok d') →
  ∃ s2, snd (run_alone (loadResumeState src dst (r_SourceSize s) (r_ChunkSize s) batch) w') = Some s2
    ∧ r_completedSet s2 = r_completedSet s ∧ ∀ off, isCompleted (Some s2) off = isCompleted (Some s) off.
Proof.
  intros Hp Hv Hd Ht Hrun Ho Hr. pose proof (along_run _ _ _ _ (save_along s i d w Hd Ht)) as Hdone.
  rewrite Hrun in Hdone. destruct (Hdone eq_refl) as (_ & j & Hj & Hjd).
  pose proof (opened_contents _ _ _ _ _ _ _ _ Hj Hjd Ho Hr) as ->. rewrite Hp in Ho.
  rewrite (load_along_state _ _ _ _ batch _ _ _ _ _ Ho Hr).
  destruct (loads_saved src dst batch s Hv) as (s2 & Hl & Hset). exists s2. split; [exact Hl|].
  split; [done|]. intros off. unfold isCompleted. by rewrite Hset.
Qed.
End Resume.

(** ** A closed example: a state file on the in-memory disk, and one more chunk *)

Definition demo_state0 : resumeState :=
  {| r_Version := 1; r_SourceSize := 11; r_ChunkSize := 4; r_Completed := []; r_path := stateFilePath "a" "b";
     r_completedSet := {[ 0 ]}; r_pending := []; r_batch := 2 |}.
Definition demo_state1 : resumeState := add_done 4 demo_state0.

Definition demo_saved0 : @world MemOS := fst (run_alone (saveResumeState demo_state0) (mem_init ["/tmp"])).
#[local] Notation demo_save1 := (run_alone (saveResumeState demo_state1) demo_saved0).

Definition demo_old : list byte := json_Encode (to_json (saved_state demo_state0)).

Lemma demo_saved0_file : at_path demo_saved0 (r_path demo_state1) = Some 3%nat ∧ idata demo_saved0 3%nat = Some demo_old
  ∧ at_path demo_saved0 (tmp_path demo_state1) ≠ Some 3%nat.
Proof. split_and!; vm_compute; congruence. Qed.
Lemma demo_path1 : r_path demo_state1 = stateFilePath "a" "b".
Proof. reflexivity. Qed.
Lemma demo_set1 : r_completedSet demo_state1 = {[ 4 ]} ∪ {[ 0 ]}.
Proof. reflexivity. Qed.
Lemma demo_save1_ok : snd (snd demo_save1) = None.
Proof. vm_compute. reflexivity. Qed.

Definition read_back (p : string) (w : @world MemOS) : result (list byte) :=
  match os_OpenFile p O_RDONLY 0 w with
  | (t, Ok f) => snd (f_ReadRest f t)
  | (_, Err e) => Err e
  end.
Definition demo_read1 : result (list byte) := read_back (r_path demo_state1) (fst demo_save1).

Lemma demo_read1_ok : is_Ok demo_read1 = true.
Proof. vm_compute. reflexivity. Qed.

Lemma save_survives_crash_witness : ∃ k d',
  at_path (fst demo_save1) (r_path demo_state1) = Some k ∧ idata (fst demo_save1) k = Some d'
  ∧ (d' = demo_old ∨ d' = json_Encode (to_json (saved_state demo_state1))).
Proof.
  destruct demo_saved0_file as (Hi & Hd & Ht).
  destruct (save_survives_crash demo_state1 "a" "b" 2 3%nat demo_old demo_saved0 (fst demo_save1)
    demo_path1 eq_refl Hi Hd Ht (visits_end _ _)) as [Hf _]. exact Hf.
Defined.

Lemma saved_state_resumes_witness : ∃ s2,
  snd (run_alone (loadResumeState "a" "b" 11 4 2) (fst demo_save1)) = Some s2 ∧ r_completedSet s2 = {[ 4 ]} ∪ {[ 0 ]}.
Proof.
  destruct demo_saved0_file as (_ & Hd & Ht). pose proof demo_save1_ok as Hok. pose proof demo_read1_ok as Hrd.
  unfold demo_read1 in Hrd.
  destruct demo_save1 as [w' [s' e]] eqn:Hrun. cbn [fst snd] in *. subst e. unfold read_back in Hrd.
  destruct (os_OpenFile (r_path demo_state1) O_RDONLY 0 w') as [t1 [f|e]] eqn:Ho; [|discriminate Hrd].
  destruct (f_ReadRest f t1) as [t2 [d'|e]] eqn:Hr; [|discriminate Hrd].
  destruct (saved_state_resumes demo_state1 "a" "b" 2 3%nat demo_old demo_saved0 w' s' t1 f t2 d'
    demo_path1 eq_refl Hd Ht Hrun Ho Hr) as (s2 & Hs & Hset & _).
  exists s2. split; [exact Hs|rewrite Hset; exact demo_set1].
Defined.
